(* ===== verification/_CoqProject ===== *)
-Q . S2P
Prelude.v
External.v
Merkle.v
Accumulator.v
Witness.v
Selfcheck.v
Epoch.v
Utf8.v
Kv.v
Storage.v
StoreSpec.v
StoreRefine.v
StoreScans.v
SealStore.v
Anchors.v
Doubles.v
Sealer.v
SealInv.v
SealerProofs.v
SealerCalls.v
SealerTheorems.v
Auth.v
Text.v
Config.v
BondingCurve.v
Vouched.v
SealLoops.v
Watcher.v
WatcherTheorems.v
Identity.v
Snapshot.v
Pages.v
App.v
Routes.v
RouteTheorems.v
ReadRaces.v
ClientAuth.v
Client.v
EventStream.v
Router.v
Service.v
ServiceTheorems.v
ClientIdentity.v
ClientTheorems.v
ClientServer.v
ServedLeaf.v
KnownServers.v
HarnessPoll.v
HarnessWitness.v
HarnessStore.v
HarnessPath.v
SealSdk.v
SealTamper.v
RunDir.v
SealAct.v
SealSteps.v
SealRun.v
SealReplay.v
SealProofs.v
SealShows.v
ReplayTheorems.v
HarnessIdentity.v
SealLive.v
LiveTheorems.v
HarnessFlow.v
Targets.v
FlowTheorems.v
InProcess.v
HarnessCli.v
CliTheorems.v
Samples.v
SampleRun.v
Witnesses.v
SampleServer.v
ServerWitnesses.v
ServiceWitnesses.v
SampleClient.v
ClientWitnesses.v
SampleSeal.v
SampleHarness.v
