(* ===== verification/Prelude.v ===== *)
(** * The aqua-timestamp aggregator, verified

    The repository is a timestamping service.  Clients submit 32-byte hashes
    ("leaves"); the service collects them in an open epoch, closes the epoch,
    anchors one Merkle root per epoch with each enabled method (an EVM
    transaction, a qualified TSA token), mints per leaf and method a witness (a
    timestamp revision and the service's signature of it), checks every witness
    with the verifier a reader runs, and serves it to the DID that submitted the
    leaf.  The crates are [aqua-timestamp-core] (the state and the sealer),
    [aqua-timestamp] (the HTTP service), [aqua-timestamp-client] (the client)
    and [aqua-timestamp-e2e] (a harness that drives a deployment).  Paths below
    are under [src/crates].

    ** Files and what they model

    Shared: [Prelude] (results and their [let?], machine integers, bytes,
    arrays, strings, tactics), [External] (the crates the code calls, each a
    class of functions with a class of its documented laws: hex, SHA-3, JSON,
    the Aqua SDK), [Utf8] and [Text] (the Standard Library's text functions).

    Core, [aqua-timestamp-core/src]:
    - [Merkle] - [merkle.rs]: leaf spellings.
    - [Accumulator] - [accumulator.rs]: the open epoch behind its mutex; one
      function per locked section, runs as lists of operations.
    - [Witness] - [witness.rs]: methods, anchors, the pending record, minting.
    - [Selfcheck] - [selfcheck.rs]: the verdicts and the batched check.
      [Doubles]: its simulated chain and TSA, over any run of their operations.
    - [Epoch] - [epoch.rs], [leaderboard.rs], [events.rs], [time.rs].
    - [Kv], [Storage] - [storage.rs]: the fjall keyspace as a class whose every
      call can fail, and each store operation on it with the source's keys and
      codecs.  [StoreSpec] is the abstract store, one typed map a partition;
      [StoreRefine] proves each write one atomic abstract update and each read
      the abstract entry; [StoreScans] the ranges and pages.  [SealStore] is
      what the sealer asks of a store, a class with laws, and its instance by
      the keyspace: the sealer is proved against the interface.
    - [Anchors] - [anchors.rs].
    - [Sealer] - [sealer.rs]: [seal_once] and what it calls, on the
      accumulator, the store, the world of the anchors and a log of provider
      calls.  [SealInv] has the store's invariant, [SealerProofs] its
      preservation, [SealerCalls] the provider calls, [SealerTheorems] the
      properties.  [SealLoops]: the interval, channel and bonding-curve loops.
    - [BondingCurve] - [bonding_curve.rs] and the service's [oracle.rs], on IEEE
      binary64.

    Service, [aqua-timestamp/src]:
    - [Auth] - [auth.rs]: challenge, session, bearer.
    - [Config] - [config.rs]: records, defaults, start-up checks.
    - [Identity] - [identity.rs]: the key's DID, the signed claim, the
      well-known document, the revision order.  [Snapshot]: the document made
      comparable, which depends on no hash.
    - [Watcher], [WatcherTheorems] - [watcher.rs].
    - [App] - [lib.rs]: the assembly, in the order of the source.
    - [Routes], [RouteTheorems] - [routes.rs], [state.rs].
    - [ReadRaces] - the by-leaf handler of [routes.rs] with a store of its own
      at every read, as the sealer writes between them.
    - [Pages] - [landing.rs], [docs.rs], the static routes and the event stream
      of [routes.rs], the health tick of [lib.rs].  And [build.rs]: what
      [/version] says.
    - [EventStream] - the bus of [events.rs]: the broadcast channel as a class
      of queues, one a receiver, and what a stream gets of it.
    - [Router] - the route table of [lib.rs], over axum's choice of a route, a
      class with its documented laws.
    - [Service] puts them together: a request from its method, path, header and
      body to the answer; the process as one state, with its seal loop, its
      tasks, its streams and its requests as steps; [main.rs] up to serving.
      [ServiceTheorems] has the invariant of its runs.

    Client, [aqua-timestamp-client/src]:
    - [Client] - [client.rs], [types.rs], [error.rs], [hex_utils.rs]:
      submission, fetch, extraction, polling over the transport's replies.
    - [ClientAuth] - [auth.rs]: the token cache; concurrent callers as a state
      machine whose events are the accesses between suspension points, a run
      any interleaving of them.
    - [ClientIdentity] - [identity.rs], [trust.rs] and the builder.
    - [KnownServers] - [known_servers.rs], on a disk whose every call can fail.
    - [ClientTheorems]; [ClientServer] puts the client against [Routes] through
      the JSON of the wire.

    Service and client over whole runs: [Vouched] (every pair, tip and revision
    of the store is of a witness the self-check passed), [ServedLeaf] (the
    client fetches what such a store serves, through router, token check,
    extractors and JSON).

    Harness, [aqua-timestamp-e2e/src]:
    - [HarnessPoll]: the retried read, the seal wait and the fetch of [flow.rs]
      and [witness.rs].  [HarnessWitness]: the served pair, the stub verdict,
      EIP-55, the refused targets.
    - [HarnessIdentity] - [identity.rs], the keys of [flow.rs], [is_loopback]:
      the standing identity on a disk of directories, files and links.
    - [HarnessFlow] - [run_full_flow], the client tree and the SDK verifier's
      result of [witness.rs], the SDK's revision of [seal/mod.rs];
      [FlowTheorems] what an outcome shows.
    - The seal runs.  [HarnessStore] - [log.rs] and the store of [run_dir.rs],
      on a disk whose every write may fail; [HarnessPath] - the path guard of
      [run_dir.rs] and the check of [live.rs], on a tree with links; [SealSdk] -
      the SDK's seals as a class, and [policy.rs]; [SealTamper] - [tamper.rs];
      [RunDir] - the files, the completeness check and the loading of
      [run_dir.rs]; [SealAct] - the state the steps act on, a monad of log,
      world and result; [SealSteps], [SealRun] - the seven steps and the runner
      of [steps.rs]; [SealReplay] - [replay.rs]; [SealLive] - [live.rs] and the
      HTTP of [flow.rs], a monad of world and sent requests.  [SealProofs],
      [SealShows] say what a passed step shows, [ReplayTheorems] and
      [LiveTheorems] what a replay and a live run do.
    - [Targets]: where the requests of a run go.  [InProcess] - the server of
      a dry run, of [selfcheck.rs]: its configuration and simulated anchors
      through the service's own assembly, and the reader that judges them.
      [HarnessCli] - [main.rs] and the dry runs of [selfcheck.rs]: each command
      from its arguments to its exit; [CliTheorems] what a command may touch.

    Concrete instances: [Samples], [SampleRun], [SampleServer], [SampleClient]
    instantiate every class of the service and the client; [Witnesses],
    [ServerWitnesses], [ServiceWitnesses], [ClientWitnesses] apply the theorems
    to them; [SampleSeal], [SampleHarness] do both for the harness.

    ** How code becomes definitions

    A record is a struct, an inductive an enum; integers are [Z] with the
    operation of the source written out ([sat_add], [wrapping_add]); a [str] is
    its bytes.  A fallible function returns [result]; what the code keeps on an
    error is in the state it returns.  [&mut self] and locked state are passed
    explicitly.  [async] code is a function of the answers it gets, except where
    calls interleave ([ClientAuth]), which is a step function.  A loop that
    polls runs over a list of what each round gets.  In the harness a disk is a
    map from paths, with the writes to come that fail, and a request is kept
    with the disk it was sent over.

    ** What the theorems show

    - Nothing accepted is lost: [append_batch] takes a batch whole or not at all
      and refines a deduplicated list; a leaf stays in the open epoch, pending
      or served over any run with any failure of store, provider or host, and
      over restarts; its owner's request is always answered.
    - Nothing unchecked is served: a returned witness passed the self-check, the
      batched check equals the single one, and the routes isolate the DIDs.
      Over any run the store holds only what the self-check passed.
    - The whole service, over any run of requests, seals, ticks and streams: a
      tree is answered only to a token granted to a signature over a challenge
      of its caller, and holds only self-checked revisions of the caller's; the
      client fetches every leaf the store serves its DID over the wire; an event
      stream tells only epochs the store holds, in order; every request reaches
      the handler of its route; when [main] serves, all of this may start.
    - Anchoring is sparing: once per method and turn, with the record's root,
      below the fault cap, one failing call per tick.
    - The store refines its abstract maps; pages are complete; the watcher scans
      each block once; epochs announced are stored.
    - The client: a witness the service checked and serves arrives unchanged; a
      pinned client hands out only what that DID signed; polling ends; one
      refresh at a time; the file of known servers is replaced whole.
    - Machine widths: every number of the accumulator fits.
    - The harness: a replay that passes has shown each of its claims on the
      bytes of a complete run directory, and keeps the run as it was; a live run
      posts only past its guards and over a disk that holds what it posts; the
      guard's run directory is empty and outside the identity's; an outcome of
      the full flow is what the server and the verifier said; the standing
      identity is never replaced and reloads as it was; a command sends only
      below the URL it checked.
    - The doubles judge their own anchors, the last one of the chain and every
      one of the TSA; the service accepts the harness's configuration with them,
      and the reader of a dry run admits what they issue; the ticks say what the store holds; the landing page has
      no placeholder left.
    - Where the code falls short of its documentation, the theorem says what it
      does: [prepare_failure_drops_epoch], [watcher_loses_transfers],
      [by_leaf_serves_owner], [wakeup_can_be_lost], [dropped_refresh_blocks],
      [pending_fetch_fails], [own_leaf_raced] (a 404 for a leaf served between
      two reads), [stream_spec] (a lag leaves no trace), [out_above_the_run],
      [production_with_a_dot].

    ** Bounds and fuel

    [trim_start_matches], [trim], the UTF-8 decoder and chunk scans take a byte
    at least per round and run on the length of their input.  The revision order
    runs on one more than the number of revisions, which
    [topological_revision_order_spec] shows to be enough for every map.  The
    watcher's window and the pages are structural in what they read.  The
    polling loops of client and harness are lists of rounds; their theorems show
    how many rounds are enough for a given deadline.  The retried evaluation of a
    seal runs on [evaluate_fuel], the pauses its budget holds and three more,
    which [evaluate_with_retry_ends] shows to be enough.  A path follows at most
    [MAXSYMLINKS] links, as Linux does.  The draw of a new key has the fuel it
    is given; [first_key_ends] shows that one more than the refused draws is
    enough.

    ** Not modelled

    - The texts of [landing.rs], [blueprint.rs] and [docs.rs], which are
      arguments of what renders them; the log, its set-up and its lines; the
      reading of arguments.
    - What is axum's, tokio's and serde's: matching a path, extracting a query
      or a body, the broadcast channel, the keep-alive frames; each is a class
      with its documented laws.  Handlers are atomic steps of [Service]; that
      one handler's reads may straddle a write is in [ReadRaces].
    - The SDK, fjall, alloy, aqua-auth: classes; their laws are the documented
      behaviour the code relies on, and the samples satisfy them.  The task that
      clears expired challenges and sessions is aqua-auth's.
    - Hash collisions: the SDK's links are functions; that no two revisions of
      the service's witnesses share a link is assumed in [served_leaf_fetched],
      [served_leaf_on_the_wire] and the last clause of [service_vouched], and
      nowhere else.
    - The start and the end of tasks: a seal loop that has stopped makes no more
      steps, which every theorem on runs allows; memory and disk running out are
      failures of the calls.
    - Of the harness: the printing, the socket and the seal trigger of the
      in-process server (its answers are those of the network), panics of
      blocking tasks, the order among the requests of the three fetches that
      run side by side (kept one fetch after the other), a link in the middle of
      the identity's path.
    - The client's example program and the tests.

    ** Plan

    Every part of the crates is modelled as far as the lines above say.  What is
    left is on the far side of an interface: to replace the class of a crate
    (fjall, aqua-auth, the SDK) by a model of its own source is another
    development, against the laws stated here. *)

From Stdlib Require Import Strings.Byte.
From stdpp Require Export base gmap sets list strings sorting.
From Stdlib Require Export ZArith Lia.

Open Scope Z_scope.

(** ** Results: Rust's [Result<T, E>] *)

Inductive result (E A : Type) : Type :=
| Ok (a : A)
| Err (e : E).
Arguments Ok {E A} _.
Arguments Err {E A} _.

Definition result_bind {E A B} (r : result E A) (f : A -> result E B) : result E B :=
  match r with Ok a => f a | Err e => Err e end.

(** [Result::map_err]. *)
Definition map_err {E F A} (f : E -> F) (r : result E A) : result F A :=
  match r with Ok a => Ok a | Err e => Err (f e) end.

(** [Option::ok_or]. *)
Definition ok_or {E A} (o : option A) (e : E) : result E A :=
  match o with Some a => Ok a | None => Err e end.

(** [Result::ok]. *)
Definition ok {E A} (r : result E A) : option A :=
  match r with Ok a => Some a | Err _ => None end.

Definition is_ok {E A} (r : result E A) : bool :=
  match r with Ok _ => true | Err _ => false end.

Declare Scope rust_scope.
Delimit Scope rust_scope with rust.
Notation "'let?' x ':=' r 'in' k" := (result_bind r (fun x => k))
  (at level 10, x name, r at level 100, k at level 200) : rust_scope.
Notation "'let?' ' p ':=' r 'in' k" := (result_bind r (fun p => k))
  (at level 10, p strict pattern, r at level 100, k at level 200) : rust_scope.
Open Scope rust_scope.

(** [Iterator::collect] into a [Result<Vec<_>, _>]: stops at the first error. *)
Fixpoint collect {E A B} (f : A -> result E B) (l : list A) : result E (list B) :=
  match l with
  | [] => Ok []
  | x :: l' => let? y := f x in let? ys := collect f l' in Ok (y :: ys)
  end.

(** ** Tactics *)

(** Destruct the scrutinee of a match, innermost first, keeping its equation. *)
Ltac destruct_match_goal :=
  match goal with
  | |- context [match ?x with _ => _ end] =>
      lazymatch x with
      | context [match _ with _ => _ end] => fail
      | _ => let E := fresh "E" in destruct x eqn:E
      end
  end.
Ltac destruct_match_hyp H :=
  match type of H with
  | context [match ?x with _ => _ end] =>
      lazymatch x with
      | context [match _ with _ => _ end] => fail
      | _ => let E := fresh "E" in destruct x eqn:E
      end
  end.
(** Run a [let?] chain in [H] to the end, dropping the branches that return
    the other constructor. *)
Ltac run_result H :=
  unfold result_bind in H;
  repeat (destruct_match_hyp H; try discriminate H).

Create HintDb aqua.

Lemma result_bind_ok {E A B} (r : result E A) (f : A -> result E B) b :
  result_bind r f = Ok b <-> exists a, r = Ok a /\ f a = Ok b.
Proof. destruct r; cbn; split; naive_solver. Qed.

Section result_facts.
Context {E A B : Type}.

Lemma map_err_ok {F} (g : E -> F) (r : result E A) a :
  map_err g r = Ok a <-> r = Ok a.
Proof. destruct r; cbn; naive_solver. Qed.

Lemma ok_or_ok (o : option A) (e : E) a : ok_or o e = Ok a <-> o = Some a.
Proof. destruct o; cbn; naive_solver. Qed.

Lemma collect_ok (f : A -> result E B) l ys :
  collect f l = Ok ys <-> Forall2 (fun x y => f x = Ok y) l ys.
Proof.
  revert ys; induction l as [|x l IH]; intros ys; cbn.
  - split; [intros [= <-]; constructor | inversion 1; done].
  - rewrite result_bind_ok. setoid_rewrite result_bind_ok. split.
    + intros (y & Hy & ys' & Hys & [= <-]). constructor; [done | by apply IH].
    + inversion 1; subst. eexists; split; [done|]. eexists; split; [by apply IH|done].
Qed.

Lemma collect_length (f : A -> result E B) l ys :
  collect f l = Ok ys -> length ys = length l.
Proof. intros H%collect_ok. by rewrite (Forall2_length _ _ _ H). Qed.

Lemma collect_map_ok {C} (f : A -> result E B) (g : C -> A) (h : C -> B) l :
  (forall c, f (g c) = Ok (h c)) -> collect f (map g l) = Ok (map h l).
Proof. intros H. induction l as [|c l IH]; cbn; [done|]. by rewrite H, IH. Qed.

(** [iter().enumerate()]. *)
Definition enumerate (l : list A) : list (nat * A) := zip (seq 0 (length l)) l.

Lemma enumerate_lookup l i x : enumerate l !! i = Some x <-> x.1 = i /\ l !! i = Some x.2.
Proof.
  unfold enumerate. destruct x as [j x]. rewrite lookup_zip_with_Some. cbn. split.
  - intros (j' & x' & [= <- <-] & Hj & Hx). apply lookup_seq in Hj as [-> _]. done.
  - intros [<- Hx]. exists j, x. split_and!; [done| |done].
    apply lookup_seq. split; [lia | by apply lookup_lt_Some in Hx].
Qed.
End result_facts.

Lemma collect_enumerate {E A B} (f : nat * A -> result E B) l ys :
  collect f (enumerate l) = Ok ys <->
  length ys = length l /\
  forall i x y, l !! i = Some x -> ys !! i = Some y -> f (i, x) = Ok y.
Proof.
  assert (length (enumerate l) = length l) as Hlen
    by (unfold enumerate; rewrite length_zip_with, length_seq; lia).
  rewrite collect_ok, Forall2_same_length_lookup, Hlen. split.
  - intros [Hl Hf]. split; [done|]. intros i x y Hx Hy. apply (Hf i (i, x) y); [|done].
    by apply enumerate_lookup.
  - intros [Hl Hf]. split; [done|]. intros i [j x] y Hx Hy.
    apply enumerate_lookup in Hx as [<- Hx]. by eapply Hf.
Qed.

(** ** Bytes *)

Abbreviation byte := Byte.byte.
Abbreviation bytes := (list Byte.byte).

#[export] Instance byte_eq_dec : EqDecision byte := Byte.byte_eq_dec.

Definition Z_of_byte (b : byte) : Z := Z.of_N (Byte.to_N b).
(** [z as u8]. *)
Definition byte_of_Z (z : Z) : byte :=
  match Byte.of_N (Z.to_N (z mod 256)) with Some b => b | None => Byte.x00 end.

Lemma byte_of_N_ok n : (n < 256)%N -> exists b, Byte.of_N n = Some b.
Proof.
  intros H. destruct (Byte.of_N n) as [b|] eqn:E; [by exists b|].
  apply Byte.of_N_None_iff in E. lia.
Qed.

Lemma Z_of_byte_range b : 0 <= Z_of_byte b < 256.
Proof.
  unfold Z_of_byte. pose proof (Byte.to_N_bounded b). lia.
Qed.

Lemma Z_of_byte_of_Z z : Z_of_byte (byte_of_Z z) = z mod 256.
Proof.
  unfold Z_of_byte, byte_of_Z.
  pose proof (Z.mod_pos_bound z 256 ltac:(lia)) as Hb.
  destruct (byte_of_N_ok (Z.to_N (z mod 256))) as [b Hb']; [lia|].
  rewrite Hb'. apply Byte.to_of_N in Hb'. rewrite Hb'. lia.
Qed.

Lemma byte_of_Z_of_byte b : byte_of_Z (Z_of_byte b) = b.
Proof.
  unfold byte_of_Z. rewrite Z.mod_small by apply Z_of_byte_range.
  unfold Z_of_byte. rewrite N2Z.id. by rewrite Byte.of_to_N.
Qed.

#[export] Instance Z_of_byte_inj : Inj (=) (=) Z_of_byte.
Proof. intros a b H. rewrite <- (byte_of_Z_of_byte a), <- (byte_of_Z_of_byte b). by f_equal. Qed.

#[export] Instance byte_countable : Countable byte :=
  inj_countable' Byte.to_N (fun n => match Byte.of_N n with Some b => b | None => Byte.x00 end)
    (fun b => ltac:(by cbv beta; rewrite Byte.of_to_N)).

(** Rust's lexicographic order on byte strings ([Ord for [u8]]), the key order
    of a fjall partition. *)
Fixpoint bytes_compare (a b : list byte) : comparison :=
  match a, b with
  | [], [] => Eq
  | [], _ :: _ => Lt
  | _ :: _, [] => Gt
  | x :: a', y :: b' =>
      match Z.compare (Z_of_byte x) (Z_of_byte y) with
      | Eq => bytes_compare a' b'
      | c => c
      end
  end.

Definition bytes_le (a b : list byte) : Prop := bytes_compare a b <> Gt.
#[export] Instance bytes_le_dec : RelDecision bytes_le.
Proof. intros a b. unfold bytes_le. solve_decision. Defined.

Lemma bytes_compare_eq a b : bytes_compare a b = Eq <-> a = b.
Proof.
  revert b; induction a as [|x a IH]; intros [|y b]; cbn; try (split; congruence).
  destruct (Z.compare_spec (Z_of_byte x) (Z_of_byte y)) as [H|H|H].
  - apply Z_of_byte_inj in H as ->. rewrite IH. split; congruence.
  - split; [done|]. intros [= -> ->]. lia.
  - split; [done|]. intros [= -> ->]. lia.
Qed.

Lemma bytes_compare_antisym a b : bytes_compare b a = CompOpp (bytes_compare a b).
Proof.
  revert b; induction a as [|x a IH]; intros [|y b]; cbn; try done.
  rewrite Z.compare_antisym. by destruct (Z_of_byte x ?= Z_of_byte y); cbn.
Qed.

Lemma bytes_compare_trans_le a b c : bytes_le a b -> bytes_le b c -> bytes_le a c.
Proof.
  unfold bytes_le. revert b c; induction a as [|x a IH]; intros [|y b] [|z c]; cbn; try done.
  destruct (Z.compare_spec (Z_of_byte x) (Z_of_byte y)),
           (Z.compare_spec (Z_of_byte y) (Z_of_byte z)),
           (Z.compare_spec (Z_of_byte x) (Z_of_byte z)); try done; try lia.
  apply IH.
Qed.

#[export] Instance bytes_le_total : Total bytes_le.
Proof.
  intros a b. unfold bytes_le. rewrite (bytes_compare_antisym a b).
  destruct (bytes_compare a b); cbn; auto; by left.
Qed.
#[export] Instance bytes_le_trans : Transitive bytes_le.
Proof. intros a b c. apply bytes_compare_trans_le. Qed.
#[export] Instance bytes_le_antisymm : AntiSymm (=) bytes_le.
Proof.
  intros a b. unfold bytes_le. rewrite (bytes_compare_antisym a b).
  destruct (bytes_compare a b) eqn:E; cbn; try done. intros _ _. by apply bytes_compare_eq.
Qed.

(** ** Machine integers

    Rust's [u8], [u32], [u64], [usize] (64 bits) and [u128] are [Z]s; each
    operation below says what the source's operator does at the width. *)

Abbreviation u32 := Z (only parsing).
Abbreviation u64 := Z (only parsing).
Abbreviation usize := Z (only parsing).
Abbreviation u128 := Z (only parsing).

Definition U32_MAX : Z := 2 ^ 32 - 1.
Definition U64_MAX : Z := 2 ^ 64 - 1.
Definition U128_MAX : Z := 2 ^ 128 - 1.

Definition u64_ok (z : Z) : Prop := 0 <= z <= U64_MAX.
#[export] Instance u64_ok_dec z : Decision (u64_ok z).
Proof. unfold u64_ok. apply _. Defined.

(** [a.saturating_add(b)] at [u64]/[usize]. *)
Definition sat_add (a b : Z) : Z := Z.min U64_MAX (a + b).
(** [a.saturating_sub(b)]. *)
Definition sat_sub (a b : Z) : Z := Z.max 0 (a - b).
(** [a.saturating_add(b)] at [u128]. *)
Definition sat_add128 (a b : Z) : Z := Z.min U128_MAX (a + b).
(** [a + b] as the release build computes it: wrap-around at width [w]. *)
Definition wrapping_add (w a b : Z) : Z := (a + b) mod 2 ^ w.

Lemma sat_add_ok a b : u64_ok a -> u64_ok b -> u64_ok (sat_add a b).
Proof. unfold u64_ok, sat_add, U64_MAX. lia. Qed.
Lemma sat_add_exact a b : a + b <= U64_MAX -> sat_add a b = a + b.
Proof. unfold sat_add. lia. Qed.
Lemma sat_add_le a b : 0 <= b -> a <= U64_MAX -> a <= sat_add a b.
Proof. unfold sat_add. lia. Qed.

Lemma wrapping_add_mod w a b : wrapping_add w (a mod 2 ^ w) b = (a + b) mod 2 ^ w.
Proof. apply Zplus_mod_idemp_l. Qed.

(** *** Big-endian encodings ([to_be_bytes] / [from_be_bytes]) *)

Fixpoint be_bytes (n : nat) (z : Z) : bytes :=
  match n with
  | O => []
  | S n' => byte_of_Z (Z.shiftr z (8 * Z.of_nat n')) :: be_bytes n' z
  end.

Definition of_be_bytes (l : bytes) : Z :=
  fold_left (fun acc b => acc * 256 + Z_of_byte b) l 0.

Definition u64_to_be (z : Z) : bytes := be_bytes 8 z.

#[global] Arguments u64_to_be : simpl never.

Lemma be_bytes_length n z : length (be_bytes n z) = n.
Proof. induction n; cbn; auto. Qed.

Lemma fold_be_acc l acc :
  fold_left (fun acc b => acc * 256 + Z_of_byte b) l acc
  = acc * 256 ^ Z.of_nat (length l) + of_be_bytes l.
Proof.
  unfold of_be_bytes. revert acc; induction l as [|b l IH]; intros acc.
  - cbn. lia.
  - cbn [fold_left length]. rewrite IH, (IH (0 * 256 + Z_of_byte b)).
    rewrite Nat2Z.inj_succ, Z.pow_succ_r by lia. lia.
Qed.

Lemma of_be_bytes_cons b l :
  of_be_bytes (b :: l) = Z_of_byte b * 256 ^ Z.of_nat (length l) + of_be_bytes l.
Proof. unfold of_be_bytes at 1. cbn [fold_left]. by rewrite fold_be_acc. Qed.

Lemma pow256 n : 256 ^ Z.of_nat n = 2 ^ (8 * Z.of_nat n).
Proof. rewrite Z.pow_mul_r by lia. done. Qed.

Lemma of_be_be_bytes n z : of_be_bytes (be_bytes n z) = z mod 256 ^ Z.of_nat n.
Proof.
  induction n as [|n IH]; cbn [be_bytes].
  - rewrite Z.mod_1_r. done.
  - rewrite of_be_bytes_cons, be_bytes_length, IH, Z_of_byte_of_Z.
    rewrite Z.shiftr_div_pow2, <- pow256 by lia.
    rewrite Nat2Z.inj_succ, Z.pow_succ_r by lia.
    pose proof (Z.pow_pos_nonneg 256 (Z.of_nat n) ltac:(lia) ltac:(lia)).
    rewrite (Z.mul_comm 256), Z.rem_mul_r by lia. lia.
Qed.

Lemma u64_be_roundtrip z : u64_ok z -> of_be_bytes (u64_to_be z) = z.
Proof.
  intros H. unfold u64_to_be. rewrite of_be_be_bytes. apply Z.mod_small.
  unfold u64_ok, U64_MAX in H. change (256 ^ Z.of_nat 8) with (2 ^ 64). lia.
Qed.

Lemma u64_to_be_length z : length (u64_to_be z) = 8%nat.
Proof. apply be_bytes_length. Qed.

Lemma u64_to_be_inj a b : u64_ok a -> u64_ok b -> u64_to_be a = u64_to_be b -> a = b.
Proof. intros Ha Hb H. rewrite <- (u64_be_roundtrip a), <- (u64_be_roundtrip b) by done. by f_equal. Qed.

Lemma of_be_bytes_bound l : 0 <= of_be_bytes l < 256 ^ Z.of_nat (length l).
Proof.
  induction l as [|b l IH]; [cbn; lia|].
  rewrite of_be_bytes_cons. cbn [length]. rewrite Nat2Z.inj_succ, Z.pow_succ_r by lia.
  pose proof (Z_of_byte_range b). nia.
Qed.

(** Byte order of equal-length strings is numeric order. *)
Lemma bytes_compare_be a b :
  length a = length b -> bytes_compare a b = Z.compare (of_be_bytes a) (of_be_bytes b).
Proof.
  revert b; induction a as [|x a IH]; intros [|y b]; cbn [length]; try done.
  intros [= Hl]. cbn [bytes_compare]. rewrite !of_be_bytes_cons, (IH b Hl), Hl.
  pose proof (of_be_bytes_bound a) as Ha; pose proof (of_be_bytes_bound b) as Hb.
  rewrite Hl in Ha. set (p := 256 ^ _) in *.
  destruct (Z.compare_spec (Z_of_byte x) (Z_of_byte y)) as [->|H|H].
  - by rewrite Z.add_compare_mono_l.
  - symmetry. apply Z.compare_lt_iff. nia.
  - symmetry. apply Z.compare_gt_iff. nia.
Qed.

(** The order of epoch keys in a partition is the order of epoch ids. *)
Lemma u64_to_be_compare a b :
  u64_ok a -> u64_ok b -> bytes_compare (u64_to_be a) (u64_to_be b) = Z.compare a b.
Proof.
  intros Ha Hb. rewrite bytes_compare_be by by rewrite !u64_to_be_length.
  by rewrite !u64_be_roundtrip.
Qed.

(** ** Fixed-size byte arrays: [[u8; n]] *)

Definition array (n : nat) : Type := { l : list byte | length l = n }.
Abbreviation Hash32 := (array 32).
Abbreviation Address20 := (array 20).

Definition arr {n} (a : array n) : bytes := proj1_sig a.

Lemma arr_length {n} (a : array n) : length (arr a) = n.
Proof. exact (proj2_sig a). Qed.

#[export] Instance arr_inj {n} : Inj (=) (=) (@arr n).
Proof. intros [a Ha] [b Hb] H. cbn in H. subst b. f_equal. apply proof_irrel. Qed.

#[export] Instance array_eq_dec n : EqDecision (array n).
Proof.
  intros a b. destruct (decide (arr a = arr b)) as [H|H].
  - left. by apply arr_inj.
  - right. by intros ->.
Defined.

(** [<[u8; n]>::try_from(slice)]. *)
Definition try_array (n : nat) (l : bytes) : option (array n) :=
  match decide (length l = n) with left H => Some (l ↾ H) | right _ => None end.

Lemma try_array_Some n l (a : array n) : try_array n l = Some a <-> l = arr a.
Proof.
  unfold try_array. destruct (decide _) as [H|H].
  - split; [by intros [= <-] | intros ->]. f_equal. by apply arr_inj.
  - split; [done | intros ->]. by rewrite arr_length in H.
Qed.

Lemma try_array_arr {n} (a : array n) : try_array n (arr a) = Some a.
Proof. by apply try_array_Some. Qed.

#[export] Instance array_countable n : Countable (array n) :=
  inj_countable arr (try_array n) try_array_arr.

(** [[b; n]]. *)
Definition filled (n : nat) (b : byte) : array n := replicate n b ↾ length_replicate n b.

(** ** Strings

    A Rust [str] is its byte sequence; [String.length] is [len()], in bytes. *)

Definition as_bytes (s : string) : bytes := String.list_byte_of_string s.
Definition of_bytes (l : bytes) : string := String.string_of_list_byte l.

Lemma of_bytes_as_bytes s : of_bytes (as_bytes s) = s.
Proof. apply String.string_of_list_byte_of_string. Qed.
Lemma as_bytes_of_bytes l : as_bytes (of_bytes l) = l.
Proof. apply String.list_byte_of_string_of_list_byte. Qed.
#[export] Instance as_bytes_inj : Inj (=) (=) as_bytes.
Proof. intros a b H. rewrite <- (of_bytes_as_bytes a), <- (of_bytes_as_bytes b). by f_equal. Qed.

(** [s.strip_prefix(p)]. *)
Fixpoint strip_prefix (p s : string) : option string :=
  match p, s with
  | EmptyString, _ => Some s
  | String a p', String b s' => if decide (a = b) then strip_prefix p' s' else None
  | String _ _, EmptyString => None
  end.

(** [s.starts_with(p)]. *)
Definition starts_with (p s : string) : bool := bool_decide (is_Some (strip_prefix p s)).
(** [s.ends_with(p)]. *)
Fixpoint ends_with (p s : string) : bool :=
  bool_decide (s = p) || match s with EmptyString => false | String _ s' => ends_with p s' end.

Lemma strip_prefix_Some p s r : strip_prefix p s = Some r <-> s = (p +:+ r)%string.
Proof.
  revert s; induction p as [|a p IH]; intros s; cbn.
  - split; [by intros [= ->] | by intros ->].
  - destruct s as [|b s]; cbn; [done|]. case_decide as Hab.
    + subst. rewrite IH. split; [by intros -> | by intros [= ->]].
    + split; [done | by intros [= -> _]].
Qed.

Lemma strip_prefix_app p r : strip_prefix p (p +:+ r)%string = Some r.
Proof. by apply strip_prefix_Some. Qed.

Lemma string_length_app a b :
  String.length (a +:+ b)%string = (String.length a + String.length b)%nat.
Proof. induction a as [|c a IH]; [done|]. exact (f_equal S IH). Qed.

(** [s.contains(p)]. *)
Fixpoint contains (p s : string) : bool :=
  starts_with p s || match s with EmptyString => false | String _ s' => contains p s' end.

(** [s.strip_prefix(p).unwrap_or(s)]. *)
Definition strip_prefix_or (p s : string) : string := default s (strip_prefix p s).

(** [s.trim_start_matches(p)]: strips [p] as often as it is there ([p] not
    empty); the length of [s] bounds the number of rounds. *)
Fixpoint trim_start_matches_fuel (fuel : nat) (p s : string) : string :=
  match fuel with
  | O => s
  | S fuel' =>
      match strip_prefix p s with
      | Some r => trim_start_matches_fuel fuel' p r
      | None => s
      end
  end.
Definition trim_start_matches (p s : string) : string :=
  trim_start_matches_fuel (String.length s) p s.

(** Whether [n] is a char boundary of [s]: the byte there does not continue a
    UTF-8 sequence ([str::is_char_boundary]). *)
Fixpoint is_char_boundary (n : nat) (s : string) : bool :=
  match n, s with
  | O, EmptyString => true
  | O, String c _ =>
      let b := Z.of_N (Ascii.N_of_ascii c) in negb ((128 <=? b) && (b <? 192))
  | S _, EmptyString => false
  | S n', String _ s' => is_char_boundary n' s'
  end.

(** [s.get(..n)]. *)
Definition get_to (n : nat) (s : string) : option string :=
  if (n =? 0)%nat then Some EmptyString
  else if is_char_boundary n s then Some (String.substring 0 n s) else None.
(** [s.get(n..)], and the value of [&s[n..]] where that does not panic. *)
Definition get_from (n : nat) (s : string) : string :=
  String.substring n (String.length s - n) s.

Definition ascii_lower (c : Ascii.ascii) : Ascii.ascii :=
  let n := Ascii.N_of_ascii c in
  if ((65 <=? n)%N && (n <=? 90)%N)%bool then Ascii.ascii_of_N (n + 32) else c.
Fixpoint to_ascii_lowercase (s : string) : string :=
  match s with
  | EmptyString => EmptyString
  | String c s' => String (ascii_lower c) (to_ascii_lowercase s')
  end.
(** [a.eq_ignore_ascii_case(b)]. *)
Definition eq_ignore_ascii_case (a b : string) : bool :=
  bool_decide (to_ascii_lowercase a = to_ascii_lowercase b).

Lemma substring_full s : String.substring 0 (String.length s) s = s.
Proof. induction s as [|c s IH]; [done|]. exact (f_equal (String c) IH). Qed.

Lemma ascii_lower_digit c d :
  ascii_lower c = d -> (Ascii.N_of_ascii d < 65)%N -> c = d.
Proof.
  intros <-. unfold ascii_lower. destruct (_ && _)%bool eqn:E; [|done].
  apply andb_true_iff in E as [H1%N.leb_le H2%N.leb_le].
  rewrite Ascii.N_ascii_embedding by lia. lia.
Qed.

Lemma triple_eq {A B C} (a a' : A) (b b' : B) (c c' : C) :
  a = a' -> b = b' -> c = c' -> (a, b, c) = (a', b', c').
Proof. congruence. Qed.
