(* ===== verification/External.v ===== *)
(** * Crates the program calls: small interfaces

    The repository calls these crates and does not contain their code, so each
    is a type class of the functions the source uses, with the documented laws
    the source relies on in a second class.  [Samples] instantiates them. *)

From S2P Require Import Prelude.

(** ** [hex] *)
Class HexCrate := {
  FromHexError : Type;
  hex_error_text : FromHexError -> string;
  hex_encode : bytes -> string;
  hex_decode : string -> result FromHexError bytes;
}.

Definition is_lower_hex_digit (c : Ascii.ascii) : bool :=
  let n := Ascii.N_of_ascii c in
  ((48 <=? n)%N && (n <=? 57)%N) || ((97 <=? n)%N && (n <=? 102)%N).

Class HexLaws `{HexCrate} := {
  (** [decode] inverts [encode]. *)
  hex_decode_encode b : hex_decode (hex_encode b) = Ok b;
  (** [decode] accepts either case, [encode] writes the lower one. *)
  hex_encode_decode s b : hex_decode s = Ok b -> hex_encode b = to_ascii_lowercase s;
  (** Two characters a byte. *)
  hex_encode_length b : String.length (hex_encode b) = (2 * length b)%nat;
  hex_encode_digits b :
    Forall (fun c => is_lower_hex_digit c) (String.list_ascii_of_string (hex_encode b));
}.

(** ** [sha3] *)
Class Sha3Crate := { sha3_256 : bytes -> Hash32 }.

Section hex_facts.
Context `{HexLaws}.

#[export] Instance hex_encode_inj : Inj (=) (=) hex_encode.
Proof.
  intros a b Hab. pose proof (hex_decode_encode a) as Ha.
  rewrite Hab, hex_decode_encode in Ha. congruence.
Qed.

Lemma hex_encode_length32 (h : Hash32) : String.length (hex_encode (arr h)) = 64%nat.
Proof. rewrite hex_encode_length, arr_length. done. Qed.

Lemma to_ascii_lowercase_length s :
  String.length (to_ascii_lowercase s) = String.length s.
Proof. induction s as [|c s IH]; [done|]. exact (f_equal S IH). Qed.

Lemma hex_decode_length s b : hex_decode s = Ok b -> String.length s = (2 * length b)%nat.
Proof.
  intros Hd. rewrite <- hex_encode_length, (hex_encode_decode _ _ Hd).
  by rewrite to_ascii_lowercase_length.
Qed.

(** Encoded bytes never look like a [0x] prefix ([x] is no hex digit). *)
Lemma hex_encode_no_0x b : strip_prefix "0x" (hex_encode b) = None.
Proof.
  pose proof (hex_encode_digits b) as Hd. destruct (hex_encode b) as [|c s]; [done|].
  cbn in *. case_decide; [|done]. destruct s as [|c' s]; [done|].
  case_decide; [|done]. subst. inversion Hd as [|? ? _ Hd']. inversion Hd' as [|? ? Hx]. done.
Qed.

(** [trim_start_matches("0x")] takes the one prefix off. *)
Lemma trim_0x_hex b :
  trim_start_matches "0x" ("0x" +:+ hex_encode b)%string = hex_encode b.
Proof.
  unfold trim_start_matches. rewrite string_length_app. cbn [String.length Nat.add].
  cbn [trim_start_matches_fuel]. rewrite strip_prefix_app. by rewrite hex_encode_no_0x.
Qed.
End hex_facts.

(** ** [serde_json]: the values the source reads *)
Class JsonCrate := {
  Value : Type;
  Value_eq_dec :: EqDecision Value;
  json_null : Value;
  json_get : Value -> string -> option Value;
  json_as_str : Value -> option string;
  json_as_u64 : Value -> option u64;
}.

(** ** [aqua-rs-sdk] *)

(** The SDK's [TimestampValue], a struct of public fields. *)
Record TimestampValue := {
  tv_merkle_proof : list string;
  tv_sender_account_address : string;
  tv_tsa_provider : string;
  tv_transaction_hash : string;
  tv_smart_contract_address : string;
  tv_network : string;
  tv_merkle_root : string;
  tv_timestamp : u64;
  tv_batch_tree_size : u64;
  tv_batch_leaf_index : u64;
  tv_shielding_nonce : string;
}.

(** The verdicts of [core::evm_anchor], as far as the source tells their cases
    apart. *)
Inductive EvmAnchorInvalidReason :=
| MalformedClaim | ContractMismatch | SenderMismatch | InputMismatch | Reverted.

Inductive EvmAnchorNotEvaluableReason :=
| UnsupportedNetwork | NetworkNotConfigured | NotFound | OtherNotEvaluable (name : string).

Inductive EvmAnchorVerdict :=
| EvmVerified
| EvmInvalid (reason : EvmAnchorInvalidReason)
| EvmNotEvaluable (reason : EvmAnchorNotEvaluableReason) (finality : string).

Class Sdk `{JsonCrate} := {
  (** Any error of the SDK, and its [{e:?}] text. *)
  SdkError : Type;
  sdk_error_text : SdkError -> string;
  (** [primitives]. *)
  RevisionLink : Type;
  RevisionLink_eq_dec :: EqDecision RevisionLink;
  link_from_bytes : Hash32 -> RevisionLink;
  link_as_ref : RevisionLink -> bytes;
  link_to_string : RevisionLink -> string;
  HashType : Type;
  HashType_eq_dec :: EqDecision HashType;
  Sha3_256 : HashType;
  multihash_decode : bytes -> result SdkError (HashType * bytes);
  (** [schema]: typed objects, signatures and the sum of all revisions. *)
  TypedObject : Type;
  object_new : RevisionLink -> RevisionLink -> Value -> TypedObject;
  object_previous_revision : TypedObject -> option RevisionLink;
  object_calculate_link : TypedObject -> HashType -> result SdkError RevisionLink;
  object_payloads : TypedObject -> Value;
  SignatureRev : Type;
  signature_calculate_link : SignatureRev -> HashType -> result SdkError RevisionLink;
  signature_previous_revision : SignatureRev -> RevisionLink;
  signature_signer : SignatureRev -> string;
  AnyRevision : Type;
  any_typed : TypedObject -> AnyRevision;
  any_signature : SignatureRev -> AnyRevision;
  as_typed : AnyRevision -> option TypedObject;
  as_signature : AnyRevision -> option SignatureRev;
  (** [Tree] and [AquaTreeWrapper]; a tree's revisions come in key order. *)
  Tree : Type;
  tree_of_revisions : list (RevisionLink * AnyRevision) -> Tree;
  tree_revisions : Tree -> list (RevisionLink * AnyRevision);
  AquaTreeWrapper : Type;
  wrapper_new : Tree -> option RevisionLink -> AquaTreeWrapper;
  tsa_template_link : RevisionLink;
  (** [core::timestamp]: the batch producer. *)
  PreparedBatch : Type;
  prepared_merkle_root : PreparedBatch -> string;
  prepare_batch_timestamp : list AquaTreeWrapper -> result SdkError PreparedBatch;
  finish_batch_timestamp :
    PreparedBatch -> list AquaTreeWrapper -> TimestampValue -> result SdkError (list Tree);
  (** [primitives::merkle]. *)
  BatchProof : Type;
  parse_batch_root : string -> result SdkError Hash32;
  parse_batch_digest : string -> result SdkError Hash32;
  parse_batch_proof : Value -> result SdkError BatchProof;
  shielded_leaf : RevisionLink -> Hash32 -> result SdkError Hash32;
  verify_batch_inclusion :
    Hash32 -> u64 -> u64 -> BatchProof -> Hash32 -> result SdkError unit;
  (** The service's key. *)
  Secp256k1Signer : Type;
  sign_revision : Secp256k1Signer -> RevisionLink -> result SdkError SignatureRev;
  derive_did_pkh : Secp256k1Signer -> result SdkError string;
  (** [core::signature]. *)
  LeafVerdict : Type;
  LeafVerdict_eq_dec :: EqDecision LeafVerdict;
  LeafVerified : LeafVerdict;
  leaf_verdict_text : LeafVerdict -> string;
  classify_signature_leaf : SignatureRev -> RevisionLink -> result SdkError LeafVerdict;
  (** Hosts. *)
  QualifiedVerifyLevel : Type;
  QualifiedVerifyLevel_eq_dec :: EqDecision QualifiedVerifyLevel;
  LevelQualifiedVerified : QualifiedVerifyLevel;
  LevelVerified : QualifiedVerifyLevel;
  level_text : QualifiedVerifyLevel -> string;
  WebHost : Type;
  verify_tsa_token :
    WebHost -> string -> string -> u64 -> result SdkError (QualifiedVerifyLevel * string);
  BlockchainHost : Type;
  EvmFinalityRequirement : Type;
  Finalized : EvmFinalityRequirement;
  EvmAnchorClaim : Type;
  claim_from_payload : Value -> EvmAnchorClaim;
  judge_evm_anchor :
    EvmAnchorClaim -> BlockchainHost -> EvmFinalityRequirement -> EvmAnchorVerdict;
  invalid_reason_str : EvmAnchorInvalidReason -> string;
  not_evaluable_str : EvmAnchorNotEvaluableReason -> string;
}.

Class SdkLaws `{Sdk} := {
  (** A SHA3-256 link is the multihash of its digest (PCA-0015 section 3.5). *)
  multihash_decode_link h :
    multihash_decode (link_as_ref (link_from_bytes h)) = Ok (Sha3_256, arr h);
  (** The sum's projections. *)
  as_typed_typed o : as_typed (any_typed o) = Some o;
  as_signature_signature s : as_signature (any_signature s) = Some s;
}.

Section sdk_facts.
Context `{SdkLaws}.

#[export] Instance link_from_bytes_inj : Inj (=) (=) link_from_bytes.
Proof.
  intros a b Hab. pose proof (multihash_decode_link a) as Ha.
  rewrite Hab, multihash_decode_link in Ha. injection Ha as Ha. symmetry. by apply arr_inj.
Qed.
End sdk_facts.
