(* ===== verification/Merkle.v ===== *)
(** * Leaf decoding and the empty-epoch root
    ([crates/aqua-timestamp-core/src/merkle.rs]) *)

From S2P Require Import Prelude External.

Definition SHA3_256_MULTIHASH_PREFIX : string := "1620".

Inductive LeafParseError `{HexCrate} :=
| BadLength (len : usize)
| BadHex (e : FromHexError)
(** Not a value of the source's type: [copy_from_slice] panics when the
    decoded bytes are not 32.  [parse_leaf_hex_no_panic] shows it is never
    returned. *)
| CopyPanic.

Section merkle.
Context `{HexCrate}.

(** The hex digits [parse_leaf_hex] decodes: the input without [0x] and
    without the multihash prefix of the 68-character form. *)
Definition leaf_digest_hex (trimmed : string) : string :=
  match get_to (String.length SHA3_256_MULTIHASH_PREFIX) trimmed with
  | Some prefix =>
      if bool_decide (String.length trimmed
                      = (String.length SHA3_256_MULTIHASH_PREFIX + 64)%nat)
         && eq_ignore_ascii_case prefix SHA3_256_MULTIHASH_PREFIX
      then get_from (String.length SHA3_256_MULTIHASH_PREFIX) trimmed
      else trimmed
  | None => trimmed
  end.

Definition parse_leaf_hex (input : string) : result LeafParseError Hash32 :=
  let trimmed := strip_prefix_or "0x" input in
  let digest_hex := leaf_digest_hex trimmed in
  if decide (String.length digest_hex <> 64%nat)
  then Err (BadLength (Z.of_nat (String.length trimmed)))
  else
    let? b := map_err BadHex (hex_decode digest_hex) in
    ok_or (try_array 32 b) CopyPanic.

Definition hex_lower (b : Hash32) : string := ("0x" +:+ hex_encode (arr b))%string.

Definition empty_merkle_root `{Sha3Crate} : Hash32 := sha3_256 [].

(** The two spellings of a digest [parse_leaf_hex] is documented to accept,
    each with or without [0x]. *)
Inductive leaf_spelling : string -> string -> Prop :=
| spell_bare d : leaf_spelling d d
| spell_multihash d : leaf_spelling (SHA3_256_MULTIHASH_PREFIX +:+ d)%string d
| spell_0x s d : ~ is_Some (strip_prefix "0x" s) -> leaf_spelling s d ->
    leaf_spelling ("0x" +:+ s)%string d.
End merkle.

Section merkle_facts.
Context `{HexLaws}.

Lemma leaf_digest_hex_bare d : String.length d = 64%nat -> leaf_digest_hex d = d.
Proof.
  intros Hd. unfold leaf_digest_hex. destruct (get_to _ _); [|done].
  rewrite bool_decide_eq_false_2 by (rewrite Hd; done). done.
Qed.

(** A decodable digest is made of hex digits, so its start is a char boundary. *)
Lemma decodable_boundary d b : hex_decode d = Ok b -> is_char_boundary 0 d = true.
Proof.
  intros Hd%hex_encode_decode. pose proof (hex_encode_digits b) as Hx. rewrite Hd in Hx.
  destruct d as [|c d]; [done|]. cbn in *. inversion Hx as [|? ? Hc _]; subst.
  clear -Hc. unfold is_lower_hex_digit, ascii_lower in Hc. apply Is_true_true in Hc.
  destruct ((65 <=? Ascii.N_of_ascii c)%N && (Ascii.N_of_ascii c <=? 90)%N)%bool eqn:E.
  - apply andb_true_iff in E as [?%N.leb_le ?%N.leb_le].
    apply negb_true_iff, andb_false_iff. left. apply Z.leb_gt. lia.
  - apply negb_true_iff, andb_false_iff. left. apply Z.leb_gt.
    apply orb_true_iff in Hc as [Hc|Hc];
      apply andb_true_iff in Hc as [?%N.leb_le ?%N.leb_le]; lia.
Qed.

Lemma leaf_digest_hex_multihash d b :
  String.length d = 64%nat -> hex_decode d = Ok b ->
  leaf_digest_hex (SHA3_256_MULTIHASH_PREFIX +:+ d)%string = d.
Proof.
  intros Hl Hb%decodable_boundary. unfold leaf_digest_hex, get_to.
  change (is_char_boundary _ _) with (is_char_boundary 0 d). rewrite Hb.
  rewrite bool_decide_eq_true_2 by (rewrite string_length_app, Hl; done).
  change (get_from _ _) with (String.substring 0 (String.length d - 0) d).
  rewrite Nat.sub_0_r, substring_full. destruct d; reflexivity.
Qed.

Lemma leaf_digest_hex_inv t :
  t = leaf_digest_hex t \/ t = (SHA3_256_MULTIHASH_PREFIX +:+ leaf_digest_hex t)%string.
Proof.
  unfold leaf_digest_hex. destruct (get_to _ _) as [p|] eqn:Hp; [|by left].
  destruct (_ && _)%bool eqn:E; [|by left]. right.
  apply andb_true_iff in E as [_ E%bool_decide_eq_true].
  unfold get_to in Hp. cbn [Nat.eqb String.length SHA3_256_MULTIHASH_PREFIX] in *.
  destruct (is_char_boundary _ _); [|done]. injection Hp as <-.
  destruct t as [|c1 [|c2 [|c3 [|c4 t]]]]; try done.
  unfold get_from. cbn [String.substring String.length Nat.sub].
  rewrite ?Nat.sub_0_r, substring_full. cbn in E. injection E as H1 H2 H3 H4 _.
  apply ascii_lower_digit in H1 as ->, H2 as ->, H3 as ->, H4 as ->; reflexivity.
Qed.

Lemma parse_trimmed_ok t h :
  (let digest_hex := leaf_digest_hex t in
   if decide (String.length digest_hex <> 64%nat)
   then Err (BadLength (Z.of_nat (String.length t)))
   else let? b := map_err BadHex (hex_decode digest_hex) in ok_or (try_array 32 b) CopyPanic)
  = Ok h <->
  exists d, (t = d \/ t = (SHA3_256_MULTIHASH_PREFIX +:+ d)%string)
            /\ String.length d = 64%nat /\ hex_decode d = Ok (arr h).
Proof.
  cbv zeta. split.
  - case_decide as Hl; [done|]. rewrite result_bind_ok. setoid_rewrite map_err_ok.
    intros (b & Hb & Ha%ok_or_ok%try_array_Some). subst b.
    exists (leaf_digest_hex t). split; [apply leaf_digest_hex_inv|]. split; [lia | done].
  - intros (d & Hd & Hl & Hb).
    assert (leaf_digest_hex t = d) as ->.
    { destruct Hd as [-> | ->]; [by apply leaf_digest_hex_bare | by eapply leaf_digest_hex_multihash]. }
    rewrite decide_False by lia. rewrite Hb. cbn. by rewrite try_array_arr.
Qed.

(** What the server writes it reads back. *)
Lemma parse_leaf_hex_encode (h : Hash32) : parse_leaf_hex (hex_encode (arr h)) = Ok h.
Proof.
  unfold parse_leaf_hex. rewrite (parse_trimmed_ok (strip_prefix_or "0x" _) h).
  unfold strip_prefix_or. rewrite hex_encode_no_0x. exists (hex_encode (arr h)).
  split; [by left|]. split; [apply hex_encode_length32|apply hex_decode_encode].
Qed.

Lemma parse_leaf_hex_0x_encode (h : Hash32) :
  parse_leaf_hex ("0x" +:+ hex_encode (arr h))%string = Ok h.
Proof.
  unfold parse_leaf_hex. rewrite (parse_trimmed_ok (strip_prefix_or "0x" _) h).
  unfold strip_prefix_or. rewrite strip_prefix_app. exists (hex_encode (arr h)).
  split; [by left|]. split; [apply hex_encode_length32|apply hex_decode_encode].
Qed.

(** [parse_leaf_hex] accepts exactly the documented spellings of a hash: 64
    hex digits of either case, bare or after the [1620] multihash prefix, with
    at most one [0x] before them; it answers the bytes they decode to. *)
Theorem parse_leaf_hex_spec s h :
  parse_leaf_hex s = Ok h <->
  exists d, leaf_spelling s d /\ String.length d = 64%nat /\ hex_decode d = Ok (arr h).
Proof.
  unfold parse_leaf_hex. rewrite (parse_trimmed_ok (strip_prefix_or "0x" s) h).
  unfold strip_prefix_or. split.
  - intros (d & Ht & Hl & Hb). exists d. split; [|done].
    destruct (strip_prefix "0x" s) as [t|] eqn:Hp; cbn in Ht.
    + apply strip_prefix_Some in Hp as ->. apply spell_0x.
      * intros [r Hr%strip_prefix_Some]. destruct Ht as [-> | ->]; [|done].
        subst d.
        pose proof (hex_encode_decode _ _ Hb) as He.
        apply (f_equal (strip_prefix "0x")) in He. rewrite hex_encode_no_0x in He. done.
      * destruct Ht as [-> | ->]; constructor.
    + destruct Ht as [-> | ->]; constructor.
  - intros (d & Hsp & Hl & Hb). exists d. split; [|done].
    assert (forall u, leaf_spelling u d -> ~ is_Some (strip_prefix "0x" u) ->
              u = d \/ u = (SHA3_256_MULTIHASH_PREFIX +:+ d)%string) as Hin.
    { intros u Hu Hno. destruct Hu as [|d'|u d' _ _]; [by left|by right|].
      destruct Hno. rewrite strip_prefix_app. by eexists. }
    destruct Hsp as [d|d|s d Hno Hs].
    + left. destruct (strip_prefix "0x" d) as [r|] eqn:Hr; [|done].
      apply strip_prefix_Some in Hr as ->. pose proof (hex_encode_decode _ _ Hb) as He.
      apply (f_equal (strip_prefix "0x")) in He. rewrite hex_encode_no_0x in He. done.
    + by right.
    + rewrite strip_prefix_app. cbn [default]. by apply Hin.
Qed.

(** Parsing a leaf never panics: the copy of the decoded bytes always has the
    right length. *)
Theorem parse_leaf_hex_no_panic s : parse_leaf_hex s <> Err CopyPanic.
Proof.
  unfold parse_leaf_hex. cbv zeta. case_decide as Hl; [done|].
  destruct (hex_decode (leaf_digest_hex (strip_prefix_or "0x" s))) as [b|e] eqn:Hd; [|done].
  cbn. apply hex_decode_length in Hd.
  unfold try_array. destruct (decide _); [done | lia].
Qed.
End merkle_facts.
