(* ===== verification/Accumulator.v ===== *)
(** * The leaf accumulator of the open epoch
    ([crates/aqua-timestamp-core/src/accumulator.rs])

    [AccumulatorInner] is the state behind the mutex; each operation takes the
    lock once, so it is one function on that state and a run of the service is
    a sequence of them ([acc_op], [run_acc]). *)

From S2P Require Import Prelude.

Definition MAX_LEAVES_PER_EPOCH : usize := Z.shiftl 1 20.

Record EpochFull := {
  full_epoch_id : u64;
  full_epoch_closes_at : u64;
  full_cap : usize;
}.

Record LeafEntry := {
  leaf : Hash32;
  submitter_did : string;
}.

Record AccumulatorInner := {
  acc_epoch_id : u64;
  acc_opened_at : u64;
  acc_closes_at : u64;
  acc_leaves : list LeafEntry;
  acc_seen : gmap Hash32 nat;
  acc_leaf_cap : usize;
}.

Record AcceptOutcome := {
  out_epoch_id : u64;
  out_epoch_closes_at : u64;
  out_accepted : u64;
  out_duplicates : u64;
}.

Record CurrentView := {
  view_epoch_id : u64;
  view_opened_at : u64;
  view_closes_at : u64;
}.

Record SealedSnapshot := {
  snap_epoch_id : u64;
  snap_opened_at : u64;
  snap_closed_at : u64;
  snap_leaves : list LeafEntry;
}.

Definition with_leaf_cap (epoch_id opened_at duration_secs : u64) (cap : usize)
    : AccumulatorInner :=
  {| acc_epoch_id := epoch_id;
     acc_opened_at := opened_at;
     acc_closes_at := sat_add opened_at duration_secs;
     acc_leaves := [];
     acc_seen := ∅;
     acc_leaf_cap := Z.min cap MAX_LEAVES_PER_EPOCH |}.

Definition acc_new (epoch_id opened_at duration_secs : u64) : AccumulatorInner :=
  with_leaf_cap epoch_id opened_at duration_secs MAX_LEAVES_PER_EPOCH.

(** One round of the [for leaf in batch] loop: the state and the two counters. *)
Definition append_leaf (did : string) (st : AccumulatorInner * u64 * u64) (l : Hash32)
    : AccumulatorInner * u64 * u64 :=
  let '(inner, accepted, duplicates) := st in
  match acc_seen inner !! l with
  | Some _ => (inner, accepted, sat_add duplicates 1)
  | None =>
      let idx := length (acc_leaves inner) in
      ({| acc_epoch_id := acc_epoch_id inner;
          acc_opened_at := acc_opened_at inner;
          acc_closes_at := acc_closes_at inner;
          acc_leaves := acc_leaves inner ++ [{| leaf := l; submitter_did := did |}];
          acc_seen := <[l := idx]> (acc_seen inner);
          acc_leaf_cap := acc_leaf_cap inner |},
       sat_add accepted 1, duplicates)
  end.

(** The distinct leaves of the batch the epoch does not hold yet. *)
Definition fresh_leaves (inner : AccumulatorInner) (batch : list Hash32) : gset Hash32 :=
  list_to_set (filter (fun l => acc_seen inner !! l = None) batch).

Definition append_batch (batch : list Hash32) (did : string) (inner : AccumulatorInner)
    : AccumulatorInner * result EpochFull AcceptOutcome :=
  let fresh := fresh_leaves inner batch in
  if decide (acc_leaf_cap inner
             < sat_add (Z.of_nat (length (acc_leaves inner))) (Z.of_nat (size fresh)))
  then
    (inner, Err {| full_epoch_id := acc_epoch_id inner;
                   full_epoch_closes_at := acc_closes_at inner;
                   full_cap := acc_leaf_cap inner |})
  else
    let '(inner', accepted, duplicates) := fold_left (append_leaf did) batch (inner, 0, 0) in
    (inner', Ok {| out_epoch_id := acc_epoch_id inner';
                   out_epoch_closes_at := acc_closes_at inner';
                   out_accepted := accepted;
                   out_duplicates := duplicates |}).

Definition swap_and_open_next (closed_at next_opened_at duration_secs : u64)
    (inner : AccumulatorInner) : AccumulatorInner * SealedSnapshot :=
  let old_id := acc_epoch_id inner in
  ({| acc_epoch_id := sat_add old_id 1;
      acc_opened_at := next_opened_at;
      acc_closes_at := sat_add next_opened_at duration_secs;
      acc_leaves := [];
      acc_seen := ∅;
      acc_leaf_cap := acc_leaf_cap inner |},
   {| snap_epoch_id := old_id;
      snap_opened_at := acc_opened_at inner;
      snap_closed_at := closed_at;
      snap_leaves := acc_leaves inner |}).

Definition current_view (inner : AccumulatorInner) : CurrentView :=
  {| view_epoch_id := acc_epoch_id inner;
     view_opened_at := acc_opened_at inner;
     view_closes_at := acc_closes_at inner |}.

(** ** Runs: submissions and seals in the order they take the lock *)

Inductive acc_op :=
| OpAppend (batch : list Hash32) (did : string)
| OpSwap (closed_at next_opened_at duration_secs : u64).

Inductive acc_event :=
| EvAccepted (batch : list Hash32) (did : string) (o : AcceptOutcome)
| EvFull (batch : list Hash32) (did : string) (f : EpochFull)
| EvSealed (s : SealedSnapshot).

Definition step_acc (op : acc_op) (inner : AccumulatorInner) : AccumulatorInner * acc_event :=
  match op with
  | OpAppend batch did =>
      let '(inner', r) := append_batch batch did inner in
      (inner', match r with Ok o => EvAccepted batch did o | Err f => EvFull batch did f end)
  | OpSwap c n d =>
      let '(inner', s) := swap_and_open_next c n d inner in (inner', EvSealed s)
  end.

Fixpoint run_acc (ops : list acc_op) (inner : AccumulatorInner)
    : AccumulatorInner * list acc_event :=
  match ops with
  | [] => (inner, [])
  | op :: ops' =>
      let '(inner1, ev) := step_acc op inner in
      let '(inner2, evs) := run_acc ops' inner1 in (inner2, ev :: evs)
  end.

(** The leaf hashes an epoch holds. *)
Definition leaf_set (es : list LeafEntry) : gset Hash32 := list_to_set (leaf <$> es).

(** The dedup index and the list agree, and the cap holds. *)
Record acc_inv (inner : AccumulatorInner) : Prop := {
  inv_nodup : NoDup (leaf <$> acc_leaves inner);
  inv_seen : forall l i, acc_seen inner !! l = Some i <->
               (leaf <$> acc_leaves inner) !! i = Some l;
  inv_cap : Z.of_nat (length (acc_leaves inner)) <= acc_leaf_cap inner;
  inv_cap_max : acc_leaf_cap inner <= MAX_LEAVES_PER_EPOCH;
}.

(** ** Reference: what a batch adds, as a plain list *)

(** The leaves of [batch] not in [known], each once, in order of first
    occurrence. *)
Fixpoint novel (known : gset Hash32) (batch : list Hash32) : list Hash32 :=
  match batch with
  | [] => []
  | l :: batch' =>
      if decide (l ∈ known) then novel known batch' else l :: novel ({[l]} ∪ known) batch'
  end.

Definition entry_of (did : string) (l : Hash32) : LeafEntry :=
  {| leaf := l; submitter_did := did |}.

Lemma elem_of_novel known batch l : l ∈ novel known batch <-> l ∈ batch /\ l ∉ known.
Proof.
  revert known; induction batch as [|x batch IH]; intros known; cbn; [set_solver|].
  case_decide as Hx; rewrite ?elem_of_cons, IH.
  - split; [tauto|]. intros [[-> | ?] ?]; tauto.
  - rewrite not_elem_of_union, not_elem_of_singleton.
    destruct (decide (l = x)) as [-> | ?]; tauto.
Qed.

Lemma novel_NoDup known batch : NoDup (novel known batch).
Proof.
  revert known; induction batch as [|x batch IH]; intros known; cbn; [constructor|].
  case_decide; [done|]. constructor; [rewrite elem_of_novel; set_solver | done].
Qed.

Lemma novel_length_le known batch : (length (novel known batch) <= length batch)%nat.
Proof.
  revert known; induction batch as [|x batch IH]; intros known; cbn; [done|].
  case_decide; cbn; [rewrite IH | apply le_n_S, IH]; lia.
Qed.

Lemma elem_of_leaf_set es l : l ∈ leaf_set es <-> l ∈ leaf <$> es.
Proof. unfold leaf_set. by rewrite elem_of_list_to_set. Qed.

Lemma leaf_set_app es es' : leaf_set (es ++ es') = leaf_set es ∪ leaf_set es'.
Proof. unfold leaf_set. by rewrite fmap_app, list_to_set_app_L. Qed.

Lemma leaf_set_entries did ls : leaf_set (entry_of did <$> ls) = list_to_set ls.
Proof. unfold leaf_set. rewrite <- list_fmap_compose. by rewrite list_fmap_id. Qed.

(** Membership in the dedup index is membership in the list. *)
Lemma seen_None_iff inner l :
  acc_inv inner -> acc_seen inner !! l = None <-> l ∉ leaf_set (acc_leaves inner).
Proof.
  intros Hi. rewrite elem_of_leaf_set, eq_None_not_Some. apply not_iff_compat.
  rewrite list_elem_of_lookup. unfold is_Some. by setoid_rewrite (inv_seen _ Hi).
Qed.

Lemma size_list_to_set_NoDup (ls : list Hash32) :
  NoDup ls -> size (list_to_set ls : gset Hash32) = length ls.
Proof. apply size_list_to_set. Qed.

(** The HashSet the source counts is the reference list. *)
Lemma fresh_leaves_novel inner batch :
  acc_inv inner ->
  size (fresh_leaves inner batch) = length (novel (leaf_set (acc_leaves inner)) batch).
Proof.
  intros Hi. rewrite <- size_list_to_set_NoDup by apply novel_NoDup. f_equal.
  apply set_eq. intros l. unfold fresh_leaves.
  rewrite !elem_of_list_to_set, list_elem_of_filter, elem_of_novel, (seen_None_iff _ _ Hi). tauto.
Qed.

Lemma acc_inv_push inner l did :
  acc_inv inner -> acc_seen inner !! l = None ->
  Z.of_nat (S (length (acc_leaves inner))) <= acc_leaf_cap inner ->
  acc_inv {| acc_epoch_id := acc_epoch_id inner;
             acc_opened_at := acc_opened_at inner;
             acc_closes_at := acc_closes_at inner;
             acc_leaves := acc_leaves inner ++ [{| leaf := l; submitter_did := did |}];
             acc_seen := <[l := length (acc_leaves inner)]> (acc_seen inner);
             acc_leaf_cap := acc_leaf_cap inner |}.
Proof.
  intros Hi Hl Hc. apply (seen_None_iff _ _ Hi) in Hl as Hn. rewrite elem_of_leaf_set in Hn.
  split; cbn.
  - rewrite fmap_app. apply NoDup_app. split_and!; [apply Hi| |apply NoDup_singleton].
    intros x Hx ->%list_elem_of_singleton. done.
  - intros l' i. rewrite fmap_app, lookup_insert. case_decide as Hd.
    + subst l'. split.
      * intros [= <-]. rewrite lookup_app_r by (by rewrite length_fmap).
        by rewrite length_fmap, Nat.sub_diag.
      * rewrite lookup_app_Some. intros [Hx | [Hx Hy]].
        -- destruct Hn. by eapply list_elem_of_lookup_2.
        -- f_equal. rewrite length_fmap in *. destruct (i - length (acc_leaves inner))%nat eqn:E; [lia|done].
    + rewrite (inv_seen _ Hi), lookup_app_Some. split; [by left|].
      intros [Hx | [Hx Hy]]; [done|]. apply list_lookup_singleton_Some in Hy as [_ Hy]. done.
  - rewrite length_app. cbn. lia.
  - apply Hi.
Qed.

(** The loop, against the reference list. *)
Lemma fold_append_leaf did batch inner a d :
  acc_inv inner ->
  let n := novel (leaf_set (acc_leaves inner)) batch in
  Z.of_nat (length (acc_leaves inner) + length n) <= acc_leaf_cap inner ->
  0 <= a -> 0 <= d -> a + d + Z.of_nat (length batch) <= U64_MAX ->
  exists inner',
    fold_left (append_leaf did) batch (inner, a, d)
    = (inner', a + Z.of_nat (length n), d + Z.of_nat (length batch) - Z.of_nat (length n)) /\
    acc_inv inner' /\
    acc_leaves inner' = acc_leaves inner ++ (entry_of did <$> n) /\
    acc_epoch_id inner' = acc_epoch_id inner /\
    acc_opened_at inner' = acc_opened_at inner /\
    acc_closes_at inner' = acc_closes_at inner /\
    acc_leaf_cap inner' = acc_leaf_cap inner.
Proof.
  cbv zeta. revert inner a d; induction batch as [|l batch IH]; intros inner a d Hi; cbn [novel].
  - intros _ Ha Hd _. exists inner. cbn. rewrite app_nil_r. split_and!; try done. apply triple_eq; [done|lia..].
  - destruct (acc_seen inner !! l) as [i|] eqn:Hl.
    + rewrite decide_True
        by (apply elem_of_leaf_set; apply (inv_seen _ Hi) in Hl; by eapply list_elem_of_lookup_2).
      intros Hc Ha Hd Hb. cbn [fold_left append_leaf length] in *. rewrite Hl.
      pose proof (novel_length_le (leaf_set (acc_leaves inner)) batch).
      rewrite sat_add_exact by lia.
      destruct (IH inner a (d + 1) Hi Hc Ha ltac:(lia) ltac:(lia)) as (inner' & -> & Hrest).
      exists inner'. split; [apply triple_eq; [done|lia..] | done].
    + pose proof (proj1 (seen_None_iff _ _ Hi) Hl) as Hn. rewrite decide_False by done.
      intros Hc Ha Hd Hb. cbn [fold_left append_leaf length] in *. rewrite Hl.
      rewrite sat_add_exact by lia. set (inner1 := {| acc_leaves := _ |}).
      assert (acc_inv inner1) as Hi1 by (apply acc_inv_push; [done..|lia]).
      assert (leaf_set (acc_leaves inner1) = {[l]} ∪ leaf_set (acc_leaves inner)) as Hls.
      { subst inner1; cbn [acc_leaves]. rewrite leaf_set_app. unfold leaf_set at 2. cbn. set_solver. }
      rewrite <- Hls in Hc |- *.
      destruct (IH inner1 (a + 1) d Hi1) as (inner' & -> & Hi' & Hle & ? & ? & ? & ?);
        try (subst inner1; cbn in *; rewrite ?length_app; cbn; lia).
      exists inner'. subst inner1; cbn in *. split_and!; try done; [apply triple_eq; [done|lia..]|].
      rewrite Hle, <- app_assoc. done.
Qed.

(** ** [append_batch] against the reference *)

(** A [Vec]'s length fits [usize]. *)
Definition batch_ok (batch : list Hash32) : Prop := Z.of_nat (length batch) <= U64_MAX.

Lemma cap_check inner batch :
  acc_inv inner ->
  acc_leaf_cap inner < sat_add (Z.of_nat (length (acc_leaves inner)))
                         (Z.of_nat (size (fresh_leaves inner batch))) <->
  acc_leaf_cap inner < Z.of_nat (length (acc_leaves inner)
                         + length (novel (leaf_set (acc_leaves inner)) batch)).
Proof.
  intros Hi. rewrite fresh_leaves_novel by done. pose proof (inv_cap_max _ Hi) as Hm.
  assert (MAX_LEAVES_PER_EPOCH < U64_MAX) as Hu by done.
  unfold sat_add. rewrite Nat2Z.inj_add.
  lia.
Qed.

(** The closed form of one call, on both branches. *)
Lemma append_batch_cases batch did inner :
  acc_inv inner -> batch_ok batch ->
  let n := novel (leaf_set (acc_leaves inner)) batch in
  (acc_leaf_cap inner < Z.of_nat (length (acc_leaves inner) + length n) /\
   append_batch batch did inner
   = (inner, Err {| full_epoch_id := acc_epoch_id inner;
                    full_epoch_closes_at := acc_closes_at inner;
                    full_cap := acc_leaf_cap inner |})) \/
  (Z.of_nat (length (acc_leaves inner) + length n) <= acc_leaf_cap inner /\
   exists inner',
     append_batch batch did inner
     = (inner', Ok {| out_epoch_id := acc_epoch_id inner;
                      out_epoch_closes_at := acc_closes_at inner;
                      out_accepted := Z.of_nat (length n);
                      out_duplicates := Z.of_nat (length batch) - Z.of_nat (length n) |}) /\
     acc_inv inner' /\
     acc_leaves inner' = acc_leaves inner ++ (entry_of did <$> n) /\
     acc_epoch_id inner' = acc_epoch_id inner /\
     acc_opened_at inner' = acc_opened_at inner /\
     acc_closes_at inner' = acc_closes_at inner /\
     acc_leaf_cap inner' = acc_leaf_cap inner).
Proof.
  intros Hi Hb n. unfold append_batch. cbv zeta. case_decide as Hc.
  - left. apply cap_check in Hc; [|done]. done.
  - right. rewrite cap_check in Hc by done.
    destruct (fold_append_leaf did batch inner 0 0 Hi) as (inner' & Hf & Hrest);
      [apply Z.nlt_ge, Hc | lia | lia | unfold batch_ok in Hb; lia |].
    split; [apply Z.nlt_ge, Hc|]. exists inner'. rewrite Hf. cbn.
    destruct Hrest as (? & ? & He & ? & Hcl & ?). rewrite He, Hcl. split_and!; try done.
Qed.

Lemma acc_inv_new_cap id o d cap : 0 <= cap -> acc_inv (with_leaf_cap id o d cap).
Proof.
  intros Hc. assert (0 <= MAX_LEAVES_PER_EPOCH) by done.
  split; cbn; [apply NoDup_nil_2| |lia|lia].
  intros l i. rewrite lookup_empty. split; [done|]. by destruct i.
Qed.

Lemma acc_inv_new id o d : acc_inv (acc_new id o d).
Proof. by apply acc_inv_new_cap. Qed.

Lemma acc_inv_swap c n d inner :
  acc_inv inner -> acc_inv (swap_and_open_next c n d inner).1.
Proof.
  intros Hi. pose proof (inv_cap _ Hi). split; cbn; [apply NoDup_nil_2| |lia|apply Hi].
  intros l i. rewrite lookup_empty. split; [done|]. by destruct i.
Qed.

Lemma acc_inv_append batch did inner :
  acc_inv inner -> batch_ok batch -> acc_inv (append_batch batch did inner).1.
Proof.
  intros Hi Hb. destruct (append_batch_cases batch did inner Hi Hb)
    as [[_ ->] | (_ & inner' & -> & Hi' & _)]; done.
Qed.

Definition op_ok (op : acc_op) : Prop :=
  match op with OpAppend batch _ => batch_ok batch | OpSwap _ _ _ => True end.

Lemma acc_inv_step op inner : acc_inv inner -> op_ok op -> acc_inv (step_acc op inner).1.
Proof.
  destruct op as [batch did | c n d]; cbn; intros Hi Ho.
  - pose proof (acc_inv_append batch did inner Hi Ho). by destruct (append_batch _ _ _).
  - by apply (acc_inv_swap c n d).
Qed.

#[export] Hint Resolve acc_inv_new acc_inv_swap acc_inv_append acc_inv_step : aqua.

(** ** Runs *)

(** The batches accepted since the last seal, oldest first. *)
Fixpoint open_batches (bs : list (list Hash32 * string)) (evs : list acc_event)
    : list (list Hash32 * string) :=
  match evs with
  | [] => bs
  | EvAccepted batch did _ :: evs' => open_batches (bs ++ [(batch, did)]) evs'
  | EvFull _ _ _ :: evs' => open_batches bs evs'
  | EvSealed _ :: evs' => open_batches [] evs'
  end.

(** What an epoch that accepted [bs] holds: every leaf once, under the first
    submitter, in order of submission. *)
Definition spec_epoch (bs : list (list Hash32 * string)) : list LeafEntry :=
  fold_left (fun es b => es ++ (entry_of b.2 <$> novel (leaf_set es) b.1)) bs [].

#[global] Arguments spec_epoch : simpl never.

Lemma spec_epoch_snoc bs b :
  spec_epoch (bs ++ [b]) = spec_epoch bs ++ (entry_of b.2 <$> novel (leaf_set (spec_epoch bs)) b.1).
Proof. unfold spec_epoch. by rewrite fold_left_app. Qed.

(** One step, against the reference: the open epoch's list stays the
    reference of its accepted batches, a seal hands exactly that list out. *)
Lemma step_acc_spec op inner inner' ev bs :
  acc_inv inner -> op_ok op -> step_acc op inner = (inner', ev) ->
  acc_leaves inner = spec_epoch bs ->
  acc_leaves inner' = spec_epoch (open_batches bs [ev]) /\
  (forall s, ev = EvSealed s ->
     snap_leaves s = spec_epoch bs /\ snap_epoch_id s = acc_epoch_id inner) /\
  (forall batch did o, ev = EvAccepted batch did o ->
     out_epoch_id o = acc_epoch_id inner /\ acc_epoch_id inner' = acc_epoch_id inner).
Proof.
  destruct op as [batch did | c n d]; cbn; intros Hi Ho Hs Hl.
  - destruct (append_batch_cases batch did inner Hi Ho)
      as [[_ Ha] | (_ & inner1 & Ha & _ & Hl' & He & _)]; rewrite Ha in Hs; simplify_eq; cbn.
    + split_and!; try done.
    + split_and!; try done; [|by intros ? ? ? [= <- <- <-]].
      rewrite spec_epoch_snoc. cbn. by rewrite Hl', Hl.
  - simplify_eq. cbn. split_and!; try done. by intros s [= <-].
Qed.

Lemma run_acc_inv ops inner inner' evs :
  acc_inv inner -> Forall op_ok ops -> run_acc ops inner = (inner', evs) -> acc_inv inner'.
Proof.
  revert inner evs; induction ops as [|op ops IH]; intros inner evs Hi Ho Hr; cbn in Hr.
  - by simplify_eq.
  - inversion Ho; subst. pose proof (acc_inv_step op inner Hi ltac:(done)) as Hi1.
    destruct (step_acc op inner) as [inner1 ev]. destruct (run_acc ops inner1) as [inner2 evs2] eqn:E.
    simplify_eq. by eapply IH.
Qed.

Lemma run_acc_spec ops inner inner' evs bs :
  acc_inv inner -> Forall op_ok ops -> acc_leaves inner = spec_epoch bs ->
  run_acc ops inner = (inner', evs) ->
  acc_leaves inner' = spec_epoch (open_batches bs evs) /\
  (forall pre s post, evs = pre ++ EvSealed s :: post ->
     snap_leaves s = spec_epoch (open_batches bs pre)).
Proof.
  revert inner evs bs; induction ops as [|op ops IH]; intros inner evs bs Hi Ho Hl Hr; cbn in Hr.
  - simplify_eq. split; [done|]. intros pre s post Hp. by destruct pre.
  - inversion Ho as [|? ? Hop Hops]; subst.
    pose proof (acc_inv_step op inner Hi Hop) as Hi1.
    destruct (step_acc op inner) as [inner1 ev] eqn:Es. cbn in Hi1.
    destruct (run_acc ops inner1) as [inner2 evs2] eqn:E. simplify_eq.
    destruct (step_acc_spec _ _ _ _ _ Hi Hop Es Hl) as (Hl1 & Hseal & _).
    destruct (IH _ _ _ Hi1 Hops Hl1 E) as [Hfin Hpre].
    assert (forall evs0, open_batches bs (ev :: evs0) = open_batches (open_batches bs [ev]) evs0)
      as Hcons by (intros; by destruct ev).
    split; [by rewrite Hcons|].
    intros [|ev' pre] s post Hp; simplify_eq/=; [by apply Hseal|].
    specialize (Hpre pre s post eq_refl). rewrite Hpre. by destruct ev'.
Qed.

(** Every leaf an accepted batch carried is in the reference of its epoch. *)
Lemma spec_epoch_covers bs batch did l :
  (batch, did) ∈ bs -> l ∈ batch -> l ∈ leaf_set (spec_epoch bs).
Proof.
  revert l; induction bs as [|b bs IH] using rev_ind; intros l Hb Hl; [by apply elem_of_nil in Hb|].
  rewrite spec_epoch_snoc, leaf_set_app, leaf_set_entries, elem_of_union, elem_of_list_to_set,
    elem_of_novel.
  destruct (decide (l ∈ leaf_set (spec_epoch bs))) as [?|Hn]; [by left|].
  apply elem_of_app in Hb as [Hb | <-%list_elem_of_singleton]; [by left; apply IH | by right].
Qed.

(** An accepted leaf is in the snapshot that sealed its epoch, or the epoch is
    still open and holds it. *)
Definition leaf_kept (l : Hash32) (id : u64) (evs : list acc_event) (fin : AccumulatorInner) : Prop :=
  (exists s, EvSealed s ∈ evs /\ snap_epoch_id s = id /\ l ∈ leaf_set (snap_leaves s)) \/
  (acc_epoch_id fin = id /\ l ∈ leaf_set (acc_leaves fin)).

Lemma leaf_kept_cons l id ev evs fin : leaf_kept l id evs fin -> leaf_kept l id (ev :: evs) fin.
Proof. intros [(s & Hs & ? & ?) | ?]; [left; exists s; by rewrite elem_of_cons; auto | by right]. Qed.

(** One step keeps every leaf of the open epoch, or seals it. *)
Lemma step_acc_keeps op inner inner1 ev l :
  acc_inv inner -> op_ok op -> step_acc op inner = (inner1, ev) ->
  l ∈ leaf_set (acc_leaves inner) ->
  leaf_kept l (acc_epoch_id inner) [ev] inner1.
Proof.
  destruct op as [batch did | c n d]; cbn; intros Hi Ho Hs Hl.
  - right. destruct (append_batch_cases batch did inner Hi Ho)
      as [[_ Ha] | (_ & inner' & Ha & _ & Hl' & He & _)]; rewrite Ha in Hs; simplify_eq; [done|].
    split; [done|]. rewrite Hl', leaf_set_app. set_solver.
  - simplify_eq. left. eexists. split; [by apply list_elem_of_singleton|]. done.
Qed.

Lemma run_acc_keeps ops inner fin evs l :
  acc_inv inner -> Forall op_ok ops -> run_acc ops inner = (fin, evs) ->
  l ∈ leaf_set (acc_leaves inner) -> leaf_kept l (acc_epoch_id inner) evs fin.
Proof.
  revert inner evs; induction ops as [|op ops IH]; intros inner evs Hi Ho Hr Hl; cbn in Hr.
  - simplify_eq. by right.
  - inversion Ho as [|? ? Hop Hops]; subst.
    pose proof (acc_inv_step op inner Hi Hop) as Hi1.
    destruct (step_acc op inner) as [inner1 ev] eqn:Es. cbn in Hi1.
    destruct (run_acc ops inner1) as [inner2 evs2] eqn:E. simplify_eq.
    destruct (step_acc_keeps _ _ _ _ _ Hi Hop Es Hl) as [(s & Hs & ? & ?) | [He Hl1]].
    + left. exists s. apply list_elem_of_singleton in Hs as ->. by rewrite elem_of_cons; auto.
    + apply leaf_kept_cons. rewrite <- He. by apply IH.
Qed.

(** ** The properties *)

(** One submission, on both branches: with [n] the leaves of the batch the
    open epoch does not hold yet (each once, in order), the call is refused
    whole (state untouched, the refusal naming the epoch, its close and the
    cap) exactly when [n] does not fit under the cap; otherwise it appends
    exactly [n], tagged with the caller, to the epoch's list, counts the rest
    of the batch as duplicates, and leaves the epoch's identity alone. *)
Theorem append_batch_spec batch did inner :
  acc_inv inner -> batch_ok batch ->
  let n := novel (leaf_set (acc_leaves inner)) batch in
  let '(inner', r) := append_batch batch did inner in
  acc_inv inner' /\
  match r with
  | Err f =>
      acc_leaf_cap inner < Z.of_nat (length (acc_leaves inner) + length n) /\
      inner' = inner /\
      f = {| full_epoch_id := acc_epoch_id inner;
             full_epoch_closes_at := acc_closes_at inner;
             full_cap := acc_leaf_cap inner |}
  | Ok o =>
      Z.of_nat (length (acc_leaves inner) + length n) <= acc_leaf_cap inner /\
      acc_leaves inner' = acc_leaves inner ++ (entry_of did <$> n) /\
      current_view inner' = current_view inner /\
      o = {| out_epoch_id := acc_epoch_id inner;
             out_epoch_closes_at := acc_closes_at inner;
             out_accepted := Z.of_nat (length n);
             out_duplicates := Z.of_nat (length batch) - Z.of_nat (length n) |}
  end.
Proof.
  cbv zeta. intros Hi Hb.
  destruct (append_batch_cases batch did inner Hi Hb)
    as [[Hc ->] | (Hc & inner' & -> & Hi' & Hl & He & Ho & Hcl & _)].
  - done.
  - unfold current_view. rewrite He, Ho, Hcl. done.
Qed.

(** C40. A run of submissions and seals from a fresh service: the invariant
    (index and list agree, no leaf twice in an epoch, the cap of at most 2^20
    leaves holds) in the final state, and every snapshot a seal handed out is
    the reference epoch of exactly the batches accepted since the seal before:
    every leaf once, under its first submitter, in submission order. *)
Theorem run_acc_refines id opened dur ops fin evs :
  Forall op_ok ops ->
  run_acc ops (acc_new id opened dur) = (fin, evs) ->
  acc_inv fin /\
  acc_leaves fin = spec_epoch (open_batches [] evs) /\
  forall pre s post, evs = pre ++ EvSealed s :: post ->
    snap_leaves s = spec_epoch (open_batches [] pre).
Proof.
  intros Ho Hr. split; [eapply run_acc_inv; eauto with aqua|].
  by eapply run_acc_spec; eauto with aqua.
Qed.

Lemma run_acc_accepted_kept ops inner fin evs pre batch did o post l :
  acc_inv inner -> Forall op_ok ops -> run_acc ops inner = (fin, evs) ->
  evs = pre ++ EvAccepted batch did o :: post -> l ∈ batch ->
  leaf_kept l (out_epoch_id o) post fin.
Proof.
  revert inner evs pre; induction ops as [|op ops IH]; intros inner evs pre Hi Ho Hr He Hl; cbn in Hr.
  - simplify_eq. by destruct pre.
  - inversion Ho as [|? ? Hop Hops]; subst.
    pose proof (acc_inv_step op inner Hi Hop) as Hi1.
    destruct (step_acc op inner) as [inner1 ev] eqn:Es. cbn in Hi1.
    destruct (run_acc ops inner1) as [inner2 evs2] eqn:E. simplify_eq.
    destruct pre as [|ev' pre]; simplify_eq/=; [|by eapply IH].
    destruct op as [b d | c n d]; cbn in Es; [|by simplify_eq].
    destruct (append_batch_cases b d inner Hi Hop)
      as [[_ Ha] | (_ & inner' & Ha & _ & Hl' & Hid & _)]; rewrite Ha in Es; simplify_eq/=.
    rewrite <- Hid. eapply run_acc_keeps; try done.
    rewrite Hl', leaf_set_app, leaf_set_entries, elem_of_union, elem_of_list_to_set, elem_of_novel.
    destruct (decide (l ∈ leaf_set (acc_leaves inner))); [by left | by right].
Qed.

(** A submission racing the close of its epoch loses no leaf: whatever the
    interleaving of submissions and seals, every leaf of a batch the service
    accepted for epoch [e] is in the snapshot that sealed [e], or [e] is still
    open and holds it. *)
Theorem accepted_leaf_kept id opened dur ops fin evs pre batch did o post l :
  Forall op_ok ops ->
  run_acc ops (acc_new id opened dur) = (fin, evs) ->
  evs = pre ++ EvAccepted batch did o :: post ->
  l ∈ batch ->
  leaf_kept l (out_epoch_id o) post fin.
Proof. intros ? ? ? ?. eapply run_acc_accepted_kept; eauto with aqua. Qed.

(** ** Witnesses *)

Definition leaf_a : Hash32 := filled 32 Byte.x0a.
Definition leaf_b : Hash32 := filled 32 Byte.x0b.
Definition sample_ops : list acc_op :=
  [OpAppend [leaf_a; leaf_b; leaf_a] "did:a"; OpSwap 60 60 60; OpAppend [leaf_a] "did:b"].

Lemma sample_ops_ok : Forall op_ok sample_ops.
Proof. by repeat constructor. Qed.

Lemma append_batch_spec_witness :
  exists inner' o,
    append_batch [leaf_a; leaf_b; leaf_a] "did:a" (acc_new 1 0 60) = (inner', Ok o) /\
    acc_inv inner' /\
    acc_leaves inner' = [entry_of "did:a" leaf_a; entry_of "did:a" leaf_b] /\
    out_accepted o = 2 /\ out_duplicates o = 1.
Proof.
  pose proof (append_batch_spec [leaf_a; leaf_b; leaf_a] "did:a" (acc_new 1 0 60)
                (acc_inv_new 1 0 60) (Forall_inv sample_ops_ok)) as H.
  assert (is_ok (append_batch [leaf_a; leaf_b; leaf_a] "did:a" (acc_new 1 0 60)).2 = true)
    as Hok by (vm_compute; reflexivity).
  destruct (append_batch [leaf_a; leaf_b; leaf_a] "did:a" (acc_new 1 0 60)) as [inner' [o|f]];
    [|discriminate Hok].
  destruct H as (Hi & _ & Hl & _ & Ho). exists inner', o.
  rewrite Hl, Ho. split; [reflexivity|]. split; [exact Hi|]. vm_compute. repeat split.
Defined.

Lemma run_acc_refines_witness :
  acc_leaves (run_acc sample_ops (acc_new 1 0 60)).1
  = [{| leaf := leaf_a; submitter_did := "did:b" |}].
Proof.
  destruct (run_acc_refines 1 0 60 sample_ops _ _ sample_ops_ok (surjective_pairing _))
    as (_ & -> & _).
  vm_compute. reflexivity.
Defined.

Lemma accepted_leaf_kept_witness :
  exists fin batch did o evs,
    run_acc sample_ops (acc_new 1 0 60) = (fin, EvAccepted batch did o :: evs) /\
    out_epoch_id o = 1 /\ leaf_kept leaf_b (out_epoch_id o) evs fin.
Proof.
  assert (match (run_acc sample_ops (acc_new 1 0 60)).2 with
          | EvAccepted batch _ o :: _ => (bool_decide (leaf_b ∈ batch), out_epoch_id o)
          | _ => (false, 0)
          end = (true, 1)) as H by (vm_compute; reflexivity).
  destruct (run_acc sample_ops (acc_new 1 0 60)) as [fin evs] eqn:E. cbn [snd] in H.
  destruct evs as [|[batch did o | | ] evs]; try discriminate H.
  injection H as Hb Ho. apply bool_decide_eq_true_1 in Hb.
  exists fin, batch, did, o, evs. split; [reflexivity|]. split; [exact Ho|].
  exact (accepted_leaf_kept 1 0 60 sample_ops fin (EvAccepted batch did o :: evs)
           [] batch did o evs leaf_b sample_ops_ok E eq_refl Hb).
Defined.

(** ** Machine widths *)

Definition acc_typed (inner : AccumulatorInner) : Prop :=
  u64_ok (acc_epoch_id inner) /\ u64_ok (acc_opened_at inner) /\ u64_ok (acc_closes_at inner) /\
  0 <= acc_leaf_cap inner <= MAX_LEAVES_PER_EPOCH /\ acc_inv inner.

(** The operands a caller can pass. *)
Definition op_typed (op : acc_op) : Prop :=
  match op with
  | OpAppend batch _ => batch_ok batch
  | OpSwap c n d => u64_ok c /\ u64_ok n /\ u64_ok d
  end.

Definition event_typed (ev : acc_event) : Prop :=
  match ev with
  | EvAccepted batch _ o =>
      u64_ok (out_epoch_id o) /\ u64_ok (out_epoch_closes_at o) /\ u64_ok (out_accepted o) /\
      u64_ok (out_duplicates o) /\ out_accepted o + out_duplicates o = Z.of_nat (length batch)
  | EvFull _ _ f =>
      u64_ok (full_epoch_id f) /\ u64_ok (full_epoch_closes_at f) /\
      0 <= full_cap f <= MAX_LEAVES_PER_EPOCH
  | EvSealed s =>
      u64_ok (snap_epoch_id s) /\ u64_ok (snap_opened_at s) /\ u64_ok (snap_closed_at s) /\
      Z.of_nat (length (snap_leaves s)) <= MAX_LEAVES_PER_EPOCH
  end.

Lemma step_acc_typed op inner :
  acc_typed inner -> op_typed op ->
  acc_typed (step_acc op inner).1 /\ event_typed (step_acc op inner).2.
Proof.
  intros (He & Ho & Hc & Hcap & Hi) Hop. destruct op as [batch did|c n d]; cbn [step_acc op_typed] in *.
  - pose proof (novel_length_le (leaf_set (acc_leaves inner)) batch) as Hn.
    destruct (append_batch_cases batch did inner Hi Hop)
      as [[_ ->]|(_ & inner' & -> & Hi' & _ & E1 & E2 & E3 & E4)]; cbn; unfold acc_typed;
      [by split_and!; try apply Hcap|].
    rewrite E1, E2, E3, E4. unfold batch_ok in Hop. split; [by split_and!; try apply Hcap|].
    unfold u64_ok in *. split_and!; try tauto; lia.
  - destruct Hop as (Hcl & Hnx & Hd). cbn. split.
    + assert (u64_ok (sat_add (acc_epoch_id inner) 1)) as Hid
        by (apply sat_add_ok; [done|unfold u64_ok, U64_MAX; lia]).
      assert (u64_ok (sat_add n d)) as Hcs by by apply sat_add_ok.
      pose proof (acc_inv_swap c n d inner Hi) as Hsw. by split_and!; try apply Hcap.
    + split_and!; try done. etrans; [apply (inv_cap _ Hi)|]. tauto.
Qed.

(** C39. Every number of the accumulator fits its width. From a start on 64-bit
    times, over any run of submissions and seals with 64-bit operands, the open
    epoch's id and times are 64-bit values, and so is every number that leaves
    it: ids and times of answers and snapshots, and an accepted batch's two
    counts, which add up to the batch; and no snapshot has more leaves than the
    timestamp template takes. *)
Theorem run_acc_typed epoch_id opened_at duration_secs ops :
  u64_ok epoch_id -> u64_ok opened_at -> u64_ok duration_secs -> Forall op_typed ops ->
  acc_typed (run_acc ops (acc_new epoch_id opened_at duration_secs)).1 /\
  Forall event_typed (run_acc ops (acc_new epoch_id opened_at duration_secs)).2.
Proof.
  intros He Ho Hd Hops.
  assert (acc_typed (acc_new epoch_id opened_at duration_secs)) as Hi.
  { split_and!; try done; [by apply sat_add_ok|apply acc_inv_new]. }
  revert Hi. generalize (acc_new epoch_id opened_at duration_secs) as inner.
  induction Hops as [|op ops Hop _ IH]; intros inner Hi; [by split|]. cbn [run_acc].
  pose proof (step_acc_typed op inner Hi Hop) as [Hi' Hev].
  destruct (step_acc op inner) as [inner1 ev]. destruct (IH inner1 Hi') as [Hf Hevs].
  destruct (run_acc ops inner1) as [inner2 evs]. split; [done|]. by constructor.
Qed.

Lemma run_acc_typed_witness :
  acc_typed (run_acc sample_ops (acc_new 1 0 60)).1 /\
  Forall event_typed (run_acc sample_ops (acc_new 1 0 60)).2.
Proof.
  apply run_acc_typed; [vm_compute; split; discriminate..|].
  repeat first [apply Forall_nil_2|apply Forall_cons_2]; vm_compute; repeat split; discriminate.
Defined.
