(* ===== verification/Witness.v ===== *)
(** * Witnesses and pending epochs
    ([crates/aqua-timestamp-core/src/witness.rs])

    Anchor methods and their bytes, the anchor outcome handed to the SDK, the
    pending record of an epoch whose anchors are outstanding, and the minter. *)

From S2P Require Import Prelude External Merkle Accumulator.
Open Scope string_scope.
Open Scope list_scope.

Definition QTSA_NETWORK_LABEL : string := "tsa".
Definition METHOD_BYTE_EVM : byte := Byte.x01.
Definition METHOD_BYTE_QTSA : byte := Byte.x02.

Inductive AnchorMethod := Evm | Qtsa.

#[export] Instance AnchorMethod_eq_dec : EqDecision AnchorMethod.
Proof. solve_decision. Defined.
#[export] Instance AnchorMethod_countable : Countable AnchorMethod :=
  inj_countable' (fun m => match m with Evm => true | Qtsa => false end)
    (fun b => if b : bool then Evm else Qtsa) (fun m => match m with Evm | Qtsa => eq_refl end).

Definition ALL : list AnchorMethod := [Evm; Qtsa].

Definition as_str (m : AnchorMethod) : string :=
  match m with Evm => "evm" | Qtsa => "qtsa" end.

Definition method_byte (m : AnchorMethod) : byte :=
  match m with Evm => METHOD_BYTE_EVM | Qtsa => METHOD_BYTE_QTSA end.

Definition from_method_byte (b : byte) : option AnchorMethod :=
  if decide (b = METHOD_BYTE_EVM) then Some Evm
  else if decide (b = METHOD_BYTE_QTSA) then Some Qtsa else None.

Definition parse_method (input : string) : option AnchorMethod :=
  if decide (input = "evm") then Some Evm
  else if decide (input = "qtsa") then Some Qtsa else None.

Definition from_byte (b : byte) : option AnchorMethod :=
  if decide (b = METHOD_BYTE_EVM) then Some Evm
  else if decide (b = METHOD_BYTE_QTSA) then Some Qtsa else None.

Inductive WitnessError :=
| WObject (text : string)
| WBatch (text : string)
| WSign (text : string)
| WBadHash (len : usize)
(** Not a value of the source's type: the index [objects[m][i]] of
    [mint_witnesses_for_epoch] panics when the SDK returned fewer trees than
    it was given. *)
| WIndexPanic.

(** ** Anchor outcomes *)

Record MethodAnchorOutcome := {
  o_transaction_hash : string;
  o_sender_account_address : string;
  o_smart_contract_address : string;
  o_network : string;
  o_tsa_provider : string;
  o_timestamp : u64;
}.

Definition from_evm_timestamp_value (value : TimestampValue) : MethodAnchorOutcome :=
  {| o_transaction_hash := tv_transaction_hash value;
     o_sender_account_address := tv_sender_account_address value;
     o_smart_contract_address := tv_smart_contract_address value;
     o_network := tv_network value;
     o_tsa_provider := "";
     o_timestamp := tv_timestamp value |}.

Definition from_tsa_timestamp_value (value : TimestampValue) : MethodAnchorOutcome :=
  let sender :=
    if decide (tv_sender_account_address value = "") then tv_tsa_provider value
    else tv_sender_account_address value in
  {| o_transaction_hash := tv_transaction_hash value;
     o_sender_account_address := sender;
     o_smart_contract_address := tv_smart_contract_address value;
     o_network := QTSA_NETWORK_LABEL;
     o_tsa_provider := tv_tsa_provider value;
     o_timestamp := tv_timestamp value |}.

Definition from_value (method : AnchorMethod) (value : TimestampValue) : MethodAnchorOutcome :=
  match method with
  | Evm => from_evm_timestamp_value value
  | Qtsa => from_tsa_timestamp_value value
  end.

Definition ensure_0x (addr : string) : string :=
  if starts_with "0x" addr || starts_with "0X" addr then addr else "0x" +:+ addr.

Definition facts (o : MethodAnchorOutcome) (method : AnchorMethod) (root : string)
    : TimestampValue :=
  let '(sender, net) :=
    match method with
    | Evm => (ensure_0x (o_sender_account_address o), o_network o)
    | Qtsa => (o_sender_account_address o, QTSA_NETWORK_LABEL)
    end in
  {| tv_merkle_proof := [];
     tv_sender_account_address := sender;
     tv_tsa_provider := o_tsa_provider o;
     tv_transaction_hash := o_transaction_hash o;
     tv_smart_contract_address := o_smart_contract_address o;
     tv_network := net;
     tv_merkle_root := root;
     tv_timestamp := o_timestamp o;
     tv_batch_tree_size := 0;
     tv_batch_leaf_index := 0;
     tv_shielding_nonce := "" |}.

(** ** Data *)

Record StoredAnchor := {
  sa_method : AnchorMethod;
  sa_value : TimestampValue;
  sa_first_seen : option u64;
}.

Record AnchorFaults := {
  af_method : AnchorMethod;
  af_count : u32;
}.

Record PendingLeaf := {
  pl_leaf : string;
  pl_submitter_did : string;
}.

Section witness.
Context `{HexCrate, Sdk}.

Record MintedWitness := {
  w_object_hash : Hash32;
  w_signature_hash : Hash32;
  w_leaf : Hash32;
  w_method : AnchorMethod;
  w_epoch_id : u64;
  w_submitter_did : string;
  w_object_file_name : string;
  w_signature_file_name : string;
  w_object_revision : AnyRevision;
  w_signature_revision : AnyRevision;
}.

Record EpochBatch := {
  prepared : PreparedBatch;
  b_leaves : list Hash32;
  carriers : list AquaTreeWrapper;
}.

Record PendingEpoch := {
  p_epoch_id : u64;
  p_opened_at : u64;
  p_closed_at : u64;
  p_methods : list AnchorMethod;
  p_leaves : list PendingLeaf;
  p_batch : PreparedBatch;
  p_anchors : list StoredAnchor;
  p_anchor_faults : list AnchorFaults;
}.

Definition hex_lower_bytes (b : Hash32) : string := "0x" +:+ hex_encode (arr b).

Definition revision_wire_hex (digest : Hash32) : string :=
  link_to_string (link_from_bytes digest).

Definition revision_link_to_hash (link : RevisionLink) : result WitnessError Hash32 :=
  let b := link_as_ref link in
  let bad := WBadHash (Z.of_nat (length b)) in
  let? d := map_err (fun _ => bad) (multihash_decode b) in
  if decide (d.1 <> Sha3_256) then Err bad else ok_or (try_array 32 d.2) bad.

(** ** The batch of an epoch *)

Definition link_only_carrier (l : Hash32) : AquaTreeWrapper :=
  let link := link_from_bytes l in
  let placeholder :=
    object_new (link_from_bytes (filled 32 Byte.x00)) tsa_template_link json_null in
  wrapper_new (tree_of_revisions [(link, any_typed placeholder)]) (Some link).

Definition EpochBatch_prepare (ls : list Hash32) : result WitnessError (option EpochBatch) :=
  match ls with
  | [] => Ok None
  | _ =>
      let cs := link_only_carrier <$> ls in
      let? prep := map_err (fun e => WBatch ("prepare_batch_timestamp: " +:+ sdk_error_text e))
                     (prepare_batch_timestamp cs) in
      Ok (Some {| prepared := prep; b_leaves := ls; carriers := cs |})
  end.

Definition EpochBatch_anchor_root (b : EpochBatch) : string := prepared_merkle_root (prepared b).

Definition root_digest (b : EpochBatch) : result WitnessError Hash32 :=
  map_err (fun e => WBatch ("batch root: " +:+ sdk_error_text e))
    (parse_batch_root (prepared_merkle_root (prepared b))).

Definition from_parts (prep : PreparedBatch) (ls : list Hash32) : EpochBatch :=
  {| prepared := prep; b_leaves := ls; carriers := link_only_carrier <$> ls |}.

(** ** The pending record *)

Definition PendingEpoch_new (snapshot : SealedSnapshot) (batch : EpochBatch)
    (methods : list AnchorMethod) : PendingEpoch :=
  {| p_epoch_id := snap_epoch_id snapshot;
     p_opened_at := snap_opened_at snapshot;
     p_closed_at := snap_closed_at snapshot;
     p_methods := methods;
     p_leaves :=
       (fun e => {| pl_leaf := hex_lower_bytes (leaf e); pl_submitter_did := submitter_did e |})
         <$> snap_leaves snapshot;
     p_batch := prepared batch;
     p_anchors := [];
     p_anchor_faults := [] |}.

Definition set_anchors (p : PendingEpoch) (l : list StoredAnchor) : PendingEpoch :=
  {| p_epoch_id := p_epoch_id p; p_opened_at := p_opened_at p; p_closed_at := p_closed_at p;
     p_methods := p_methods p; p_leaves := p_leaves p; p_batch := p_batch p;
     p_anchors := l; p_anchor_faults := p_anchor_faults p |}.
Definition set_faults (p : PendingEpoch) (l : list AnchorFaults) : PendingEpoch :=
  {| p_epoch_id := p_epoch_id p; p_opened_at := p_opened_at p; p_closed_at := p_closed_at p;
     p_methods := p_methods p; p_leaves := p_leaves p; p_batch := p_batch p;
     p_anchors := p_anchors p; p_anchor_faults := l |}.
Definition set_methods (p : PendingEpoch) (l : list AnchorMethod) : PendingEpoch :=
  {| p_epoch_id := p_epoch_id p; p_opened_at := p_opened_at p; p_closed_at := p_closed_at p;
     p_methods := l; p_leaves := p_leaves p; p_batch := p_batch p;
     p_anchors := p_anchors p; p_anchor_faults := p_anchor_faults p |}.

(** [self.anchors.iter().find(|a| a.method == method).map(|a| &a.value)]. *)
Definition anchor (p : PendingEpoch) (method : AnchorMethod) : option TimestampValue :=
  sa_value <$> List.find (fun a => bool_decide (sa_method a = method)) (p_anchors p).

Definition drop_anchor (p : PendingEpoch) (method : AnchorMethod) : PendingEpoch :=
  set_anchors p (filter (fun a => sa_method a <> method) (p_anchors p)).

Definition set_anchor (p : PendingEpoch) (method : AnchorMethod) (value : TimestampValue)
    (now : u64) : PendingEpoch :=
  let p := drop_anchor p method in
  set_anchors p (p_anchors p ++
    [{| sa_method := method; sa_value := value; sa_first_seen := Some now |}]).

(** The [find] of [anchor_first_seen] through [iter_mut]: the list with the
    first match's [first_seen] filled in, and the answer. *)
Fixpoint first_seen_in (method : AnchorMethod) (now : u64) (l : list StoredAnchor)
    : list StoredAnchor * option (u64 * bool) :=
  match l with
  | [] => ([], None)
  | a :: l' =>
      if decide (sa_method a = method) then
        match sa_first_seen a with
        | Some t => (a :: l', Some (t, false))
        | None =>
            ({| sa_method := sa_method a; sa_value := sa_value a;
                sa_first_seen := Some now |} :: l', Some (now, true))
        end
      else let '(l'', r) := first_seen_in method now l' in (a :: l'', r)
  end.

Definition anchor_first_seen (p : PendingEpoch) (method : AnchorMethod) (now : u64)
    : PendingEpoch * option (u64 * bool) :=
  let '(l, r) := first_seen_in method now (p_anchors p) in (set_anchors p l, r).

Definition anchor_fault_count (p : PendingEpoch) (method : AnchorMethod) : u32 :=
  match List.find (fun f => bool_decide (af_method f = method)) (p_anchor_faults p) with
  | Some f => af_count f
  | None => 0
  end.

Fixpoint count_fault_in (method : AnchorMethod) (l : list AnchorFaults)
    : list AnchorFaults * option u32 :=
  match l with
  | [] => ([], None)
  | f :: l' =>
      if decide (af_method f = method) then
        let c := wrapping_add 32 (af_count f) 1 in
        ({| af_method := af_method f; af_count := c |} :: l', Some c)
      else let '(l'', r) := count_fault_in method l' in (f :: l'', r)
  end.

Definition count_anchor_fault (p : PendingEpoch) (method : AnchorMethod)
    : PendingEpoch * u32 :=
  match count_fault_in method (p_anchor_faults p) with
  | (l, Some c) => (set_faults p l, c)
  | (_, None) =>
      (set_faults p (p_anchor_faults p ++ [{| af_method := method; af_count := 1 |}]), 1)
  end.

Definition p_anchor_root (p : PendingEpoch) : string := prepared_merkle_root (p_batch p).

Definition leaf_hash (l : PendingLeaf) : result WitnessError Hash32 :=
  let? b := map_err (fun e => WBatch ("pending leaf hex: " +:+ hex_error_text e))
              (hex_decode (trim_start_matches "0x" (pl_leaf l))) in
  ok_or (try_array 32 b) (WBadHash (Z.of_nat (length b))).

Definition leaf_hashes (p : PendingEpoch) : result WitnessError (list Hash32) :=
  collect leaf_hash (p_leaves p).

Definition restore (p : PendingEpoch) : result WitnessError (SealedSnapshot * EpochBatch) :=
  let? leaves := leaf_hashes p in
  Ok ({| snap_epoch_id := p_epoch_id p;
         snap_opened_at := p_opened_at p;
         snap_closed_at := p_closed_at p;
         snap_leaves :=
           zip_with (fun h l => {| leaf := h; submitter_did := pl_submitter_did l |})
             leaves (p_leaves p) |},
      from_parts (p_batch p) leaves).

(** ** Minting *)

Definition added_timestamp (tree : Tree) (l : Hash32)
    : result WitnessError (RevisionLink * AnyRevision) :=
  let leaf_link := link_from_bytes l in
  match filter (fun kv => kv.1 <> leaf_link) (tree_revisions tree) with
  | [] => Err (WObject "batch producer added no revision")
  | [(link, revision)] =>
      match as_typed revision with
      | Some obj =>
          if decide (object_previous_revision obj = Some leaf_link) then Ok (link, revision)
          else Err (WObject "batch producer's revision is not a timestamp object on the leaf")
      | None =>
          Err (WObject "batch producer's revision is not a timestamp object on the leaf")
      end
  | _ :: _ :: _ => Err (WObject "batch producer added more than one revision")
  end.

Definition sign_witness (l : Hash32) (did : string) (epoch_id : u64) (method : AnchorMethod)
    (object_link : RevisionLink) (object_revision : AnyRevision) (signer : Secp256k1Signer)
    : result WitnessError MintedWitness :=
  let? object_hash := revision_link_to_hash object_link in
  let? sig := map_err (fun e => WSign (sdk_error_text e)) (sign_revision signer object_link) in
  let? signature_link :=
    map_err (fun e => WSign ("calculate_link: " +:+ sdk_error_text e))
      (signature_calculate_link sig Sha3_256) in
  let? signature_hash := revision_link_to_hash signature_link in
  let leaf_short := String.substring 2 8 (hex_lower_bytes l) in
  Ok {| w_object_hash := object_hash;
        w_signature_hash := signature_hash;
        w_leaf := l;
        w_method := method;
        w_epoch_id := epoch_id;
        w_submitter_did := did;
        w_object_file_name := "witness_" +:+ as_str method +:+ "_" +:+ leaf_short;
        w_signature_file_name := "witness_sig_" +:+ as_str method +:+ "_" +:+ leaf_short;
        w_object_revision := object_revision;
        w_signature_revision := any_signature sig |}.

(** The objects of one method: one finish, one object per leaf. *)
Definition method_objects (batch : EpochBatch) (mo : AnchorMethod * MethodAnchorOutcome)
    : result WitnessError (list (RevisionLink * AnyRevision)) :=
  let '(method, outcome) := mo in
  let? trees :=
    map_err (fun e => WBatch ("finish_batch_timestamp: " +:+ sdk_error_text e))
      (finish_batch_timestamp (prepared batch) (carriers batch)
         (facts outcome method (EpochBatch_anchor_root batch))) in
  collect (fun '(t, l) => added_timestamp t l) (zip trees (b_leaves batch)).

Definition mint_one (snapshot : SealedSnapshot) (objects : list (list (RevisionLink * AnyRevision)))
    (signer : Secp256k1Signer) (i : nat) (entry : LeafEntry) (m : nat) (method : AnchorMethod)
    : result WitnessError MintedWitness :=
  let? o := ok_or (objects !! m ≫= (fun per_leaf => per_leaf !! i)) WIndexPanic in
  sign_witness (leaf entry) (submitter_did entry) (snap_epoch_id snapshot) method o.1 o.2 signer.

Definition mint_witnesses_for_epoch (snapshot : SealedSnapshot) (batch : EpochBatch)
    (method_outcomes : list (AnchorMethod * MethodAnchorOutcome)) (signer : Secp256k1Signer)
    : result WitnessError (list MintedWitness) :=
  if bool_decide (leaf <$> snap_leaves snapshot = b_leaves batch) then
    let? objects := collect (method_objects batch) method_outcomes in
    let? out :=
      collect (fun '(i, entry) =>
        collect (fun '(m, (method, _)) =>
          mint_one snapshot objects signer i entry m method) (enumerate method_outcomes))
        (enumerate (snap_leaves snapshot)) in
    Ok (concat out)
  else Err (WBatch "prepared batch does not hold the snapshot's leaves in order").
End witness.

(** ** Facts *)

Section method_facts.
Lemma method_byte_roundtrip m : from_method_byte (method_byte m) = Some m.
Proof. by destruct m. Qed.

#[export] Instance method_byte_inj : Inj (=) (=) method_byte.
Proof. by intros [] []. Qed.

(** The two decoders of the method byte agree and invert it, and the name
    parser inverts the name: a [(leaf, method)] key names one method. *)
Theorem method_codec_roundtrip :
  (forall m b, from_method_byte b = Some m <-> b = method_byte m) /\
  (forall b, from_byte b = from_method_byte b) /\
  (forall m s, parse_method s = Some m <-> s = as_str m).
Proof.
  split_and!; [| |].
  - intros m b. unfold from_method_byte. destruct m; repeat case_decide; naive_solver.
  - done.
  - intros m s. unfold parse_method. destruct m; repeat case_decide; naive_solver.
Qed.
End method_facts.

Section pending_facts.
Context `{HexCrate, Sdk}.

Lemma find_filter_ne (l : list StoredAnchor) m m' :
  List.find (fun a => bool_decide (sa_method a = m')) (filter (fun a => sa_method a <> m) l)
  = if decide (m' = m) then None
    else List.find (fun a => bool_decide (sa_method a = m')) l.
Proof.
  induction l as [|a l IH]; [by cbn; case_decide|].
  rewrite filter_cons. destruct (decide (sa_method a <> m)) as [Ha|Ha]; cbn [List.find];
    rewrite IH; repeat case_bool_decide; repeat case_decide; subst; naive_solver.
Qed.

Lemma find_app {A} (f : A -> bool) l k :
  List.find f (l ++ k) = match List.find f l with Some x => Some x | None => List.find f k end.
Proof. induction l as [|a l IH]; cbn; [done|]. by destruct (f a). Qed.

Lemma anchor_drop p m m' :
  anchor (drop_anchor p m) m' = if decide (m' = m) then None else anchor p m'.
Proof. unfold anchor, drop_anchor. cbn. rewrite find_filter_ne. by case_decide. Qed.

Lemma anchor_set p m v now m' :
  anchor (set_anchor p m v now) m' = if decide (m' = m) then Some v else anchor p m'.
Proof.
  unfold set_anchor, anchor. cbn. rewrite find_app, find_filter_ne. case_decide; subst; cbn.
  - by rewrite bool_decide_eq_true_2.
  - destruct (List.find _ _); [done|]. by rewrite bool_decide_eq_false_2 by congruence.
Qed.

Lemma first_seen_in_spec m now l :
  let '(l', r) := first_seen_in m now l in
  (forall m', sa_value <$> List.find (fun a => bool_decide (sa_method a = m')) l'
             = sa_value <$> List.find (fun a => bool_decide (sa_method a = m')) l) /\
  r = match List.find (fun a => bool_decide (sa_method a = m)) l with
      | Some a => Some (match sa_first_seen a with Some t => (t, false) | None => (now, true) end)
      | None => None
      end.
Proof.
  induction l as [|a l IH]; cbn; [done|]. case_decide as Ha.
  - rewrite (bool_decide_eq_true_2 (sa_method a = m)) by done.
    destruct (sa_first_seen a) eqn:Hf; [done|]. split; [|done].
    intros m'. cbn. by case_bool_decide.
  - rewrite (bool_decide_eq_false_2 (sa_method a = m)) by done.
    destruct (first_seen_in m now l) as [l' r]. destruct IH as [IH ->]. split; [|done].
    intros m'. cbn. by case_bool_decide.
Qed.

Lemma anchor_first_seen_anchor p m now m' :
  anchor (anchor_first_seen p m now).1 m' = anchor p m'.
Proof.
  unfold anchor_first_seen, anchor. pose proof (first_seen_in_spec m now (p_anchors p)) as Hs.
  destruct (first_seen_in m now (p_anchors p)) as [l r]. by destruct Hs.
Qed.

Lemma count_fault_in_spec m l :
  let '(l', r) := count_fault_in m l in
  let c := (fun k m' => match List.find (fun f => bool_decide (af_method f = m')) k with
                        | Some f => Some (af_count f) | None => None end) in
  r = (fun n => wrapping_add 32 n 1) <$> c l m /\
  forall m', c l' m' = if decide (m' = m) then r else c l m'.
Proof.
  cbv zeta. induction l as [|f l IH]; cbn; [by split; [|intros; case_decide]|].
  case_decide as Ha.
  - rewrite (bool_decide_eq_true_2 (af_method f = m)) by done. split; [done|].
    intros m'. cbn. case_decide; subst.
    + by rewrite bool_decide_eq_true_2.
    + by rewrite bool_decide_eq_false_2 by congruence.
  - rewrite (bool_decide_eq_false_2 (af_method f = m)) by done.
    destruct (count_fault_in m l) as [l' r]. destruct IH as [-> IH]. split; [done|].
    intros m'. cbn. case_bool_decide; [|by rewrite IH].
    subst m'. by rewrite decide_False.
Qed.

Lemma count_anchor_fault_spec p m :
  let '(p', c) := count_anchor_fault p m in
  c = wrapping_add 32 (anchor_fault_count p m) 1 /\
  forall m', anchor_fault_count p' m' = if decide (m' = m) then c else anchor_fault_count p m'.
Proof.
  unfold count_anchor_fault, anchor_fault_count.
  pose proof (count_fault_in_spec m (p_anchor_faults p)) as Hs.
  destruct (count_fault_in m (p_anchor_faults p)) as [l [c|]]; cbv zeta in Hs; destruct Hs as [Hr Hs].
  - destruct (List.find _ (p_anchor_faults p)) as [f|]; [|done]. injection Hr as ->. cbn.
    split; [done|]. intros m'. specialize (Hs m').
    destruct (List.find _ l) as [g|]; case_decide; try congruence.
    + destruct (List.find _ (p_anchor_faults p)); congruence.
    + by destruct (List.find _ (p_anchor_faults p)).
  - destruct (List.find (fun f => bool_decide (af_method f = m)) (p_anchor_faults p)) eqn:Hf; [done|].
    split; [done|]. intros m'. cbn. rewrite find_app. case_decide; subst.
    + rewrite Hf. cbn. by rewrite bool_decide_eq_true_2.
    + destruct (List.find (fun f => bool_decide (af_method f = m')) (p_anchor_faults p)); [done|].
      cbn. by case_bool_decide; subst.
Qed.

(** The pending record's anchor and fault bookkeeping is a pair of maps by
    method: storing an anchor replaces that method's and no other's, dropping
    it removes that method's and no other's, filling in a missing first-seen
    time changes no anchor, and counting a fault adds one (at [u32]) to that
    method's count, answers the new count, and leaves the other method's. *)
Theorem pending_bookkeeping p m v now m' :
  anchor (set_anchor p m v now) m' = (if decide (m' = m) then Some v else anchor p m') /\
  anchor (drop_anchor p m) m' = (if decide (m' = m) then None else anchor p m') /\
  anchor (anchor_first_seen p m now).1 m' = anchor p m' /\
  (let '(p', c) := count_anchor_fault p m in
   c = wrapping_add 32 (anchor_fault_count p m) 1 /\
   anchor p' m' = anchor p m' /\
   anchor_fault_count p' m' = if decide (m' = m) then c else anchor_fault_count p m').
Proof.
  split_and!; [apply anchor_set | apply anchor_drop | apply anchor_first_seen_anchor |].
  pose proof (count_anchor_fault_spec p m) as Hs.
  destruct (count_anchor_fault p m) as [p' c] eqn:E. destruct Hs as [-> Hs]. split_and!; [done| |done].
  unfold count_anchor_fault in E. destruct (count_fault_in _ _) as [l [c'|]]; by injection E as <-.
Qed.
End pending_facts.

(** ** Restoring a pending epoch, and minting from it *)

(** What the aggregator relies on of the SDK's batch producer: one tree back
    for each carrier handed over. *)
Class BatchProducerLaws `{Sdk} := {
  finish_length p cs f trees :
    finish_batch_timestamp p cs f = Ok trees -> length trees = length cs;
}.

Section mint_facts.
Context `{HexLaws, SdkLaws}.

Lemma revision_link_to_hash_link h : revision_link_to_hash (link_from_bytes h) = Ok h.
Proof.
  unfold revision_link_to_hash. rewrite multihash_decode_link. cbn.
  rewrite decide_False by tauto. by rewrite try_array_arr.
Qed.

Lemma leaf_hash_hex h did :
  leaf_hash {| pl_leaf := hex_lower_bytes h; pl_submitter_did := did |} = Ok h.
Proof.
  unfold leaf_hash, hex_lower_bytes. cbn [pl_leaf].
  rewrite trim_0x_hex, hex_decode_encode. cbn. by rewrite try_array_arr.
Qed.

Lemma leaf_hashes_new snap batch ms :
  leaf_hashes (PendingEpoch_new snap batch ms) = Ok (leaf <$> snap_leaves snap).
Proof.
  unfold leaf_hashes, PendingEpoch_new. cbn [p_leaves].
  apply (collect_map_ok leaf_hash _ leaf). intros e. apply leaf_hash_hex.
Qed.

(** The batch [prepare] built over a snapshot's leaves. *)
Definition batch_of (snap : SealedSnapshot) (b : EpochBatch) : Prop :=
  b = from_parts (prepared b) (leaf <$> snap_leaves snap).

Lemma prepare_batch_of snap b :
  EpochBatch_prepare (leaf <$> snap_leaves snap) = Ok (Some b) -> batch_of snap b.
Proof.
  unfold batch_of, EpochBatch_prepare. destruct (leaf <$> snap_leaves snap) as [|l ls]; [done|].
  intros Hp. run_result Hp. injection Hp as <-. done.
Qed.

Lemma zip_with_restore (es : list LeafEntry) :
  zip_with (fun h l => {| leaf := h; submitter_did := pl_submitter_did l |})
    (leaf <$> es)
    ((fun e => {| pl_leaf := hex_lower_bytes (leaf e); pl_submitter_did := submitter_did e |})
       <$> es)
  = es.
Proof. induction es as [|[h d] es IH]; cbn; [done|]. by f_equal. Qed.

(** The pending record loses nothing minting needs: the record made of a
    sealed snapshot and the batch prepared over its leaves restores exactly
    that snapshot (leaves, order and submitters) and that batch, so a retry
    anchors the same root and mints the same witnesses as the first attempt. *)
Theorem restore_new snap b ms :
  EpochBatch_prepare (leaf <$> snap_leaves snap) = Ok (Some b) ->
  restore (PendingEpoch_new snap b ms) = Ok (snap, b) /\
  p_anchor_root (PendingEpoch_new snap b ms) = EpochBatch_anchor_root b.
Proof.
  intros Hb%prepare_batch_of. split; [|done]. unfold restore. rewrite leaf_hashes_new. cbn -[from_parts].
  rewrite zip_with_restore, <- Hb. by destruct snap.
Qed.

(** What a minted witness of [entry] for [method] is: it names the leaf, its
    submitter, the epoch and the method; its object is the one revision the
    SDK's finish added to the leaf's carrier, typed and chained to the leaf;
    its signature is the service's over that object. *)
Record witness_for (snap : SealedSnapshot) (trees : list Tree) (signer : Secp256k1Signer)
    (i : nat) (entry : LeafEntry) (method : AnchorMethod) (w : MintedWitness) : Prop := {
  wf_leaf : w_leaf w = leaf entry;
  wf_did : w_submitter_did w = submitter_did entry;
  wf_epoch : w_epoch_id w = snap_epoch_id snap;
  wf_method : w_method w = method;
  wf_object : exists tree link obj,
    trees !! i = Some tree /\
    filter (fun kv => kv.1 <> link_from_bytes (leaf entry)) (tree_revisions tree)
      = [(link, w_object_revision w)] /\
    as_typed (w_object_revision w) = Some obj /\
    object_previous_revision obj = Some (link_from_bytes (leaf entry)) /\
    revision_link_to_hash link = Ok (w_object_hash w) /\
    exists sig slink,
      sign_revision signer link = Ok sig /\
      w_signature_revision w = any_signature sig /\
      signature_calculate_link sig Sha3_256 = Ok slink /\
      revision_link_to_hash slink = Ok (w_signature_hash w);
}.

Lemma added_timestamp_ok tree l link rev :
  added_timestamp tree l = Ok (link, rev) ->
  filter (fun kv => kv.1 <> link_from_bytes l) (tree_revisions tree) = [(link, rev)] /\
  exists obj, as_typed rev = Some obj /\
    object_previous_revision obj = Some (link_from_bytes l).
Proof.
  unfold added_timestamp. destruct (filter _ _) as [|[k r] [|]]; [done| |done].
  destruct (as_typed r) as [obj|] eqn:Ho; [|done]. case_decide; [|done].
  intros [= <- <-]. eauto.
Qed.

Lemma sign_witness_ok l did e m link rev signer w :
  sign_witness l did e m link rev signer = Ok w ->
  w_leaf w = l /\ w_submitter_did w = did /\ w_epoch_id w = e /\ w_method w = m /\
  w_object_revision w = rev /\ revision_link_to_hash link = Ok (w_object_hash w) /\
  exists sig slink,
    sign_revision signer link = Ok sig /\
    w_signature_revision w = any_signature sig /\
    signature_calculate_link sig Sha3_256 = Ok slink /\
    revision_link_to_hash slink = Ok (w_signature_hash w).
Proof.
  unfold sign_witness. intros Hs.
  apply result_bind_ok in Hs as (oh & Hoh & Hs).
  apply result_bind_ok in Hs as (sig & Hsig%map_err_ok & Hs).
  apply result_bind_ok in Hs as (sl & Hsl%map_err_ok & Hs).
  apply result_bind_ok in Hs as (sh & Hsh & Hs).
  injection Hs as <-. cbn. split_and!; try done. by exists sig, sl.
Qed.

Lemma method_objects_ok batch m o objs :
  method_objects batch (m, o) = Ok objs ->
  exists trees,
    finish_batch_timestamp (prepared batch) (carriers batch)
      (facts o m (EpochBatch_anchor_root batch)) = Ok trees /\
    forall i l or, objs !! i = Some or -> b_leaves batch !! i = Some l ->
      exists tree, trees !! i = Some tree /\ added_timestamp tree l = Ok or.
Proof.
  unfold method_objects. intros Hm.
  apply result_bind_ok in Hm as (trees & Hf%map_err_ok & Hm). exists trees. split; [done|].
  intros i l or Hor Hl. apply collect_ok in Hm.
  destruct (Forall2_lookup_r _ _ _ _ _ Hm Hor) as ([t l'] & Hz & Ha).
  apply lookup_zip_with_Some in Hz as (t' & l'' & [= <- <-] & Ht & Hl').
  exists t. split; [done|]. congruence.
Qed.

Lemma collect_lookup {E A B} (f : A -> result E B) l ys i x :
  collect f l = Ok ys -> l !! i = Some x -> exists y, ys !! i = Some y /\ f x = Ok y.
Proof.
  intros Hc%collect_ok Hx. destruct (Forall2_lookup_l _ _ _ _ _ Hc Hx) as (y & ? & ?). by exists y.
Qed.

(** The whole of what minting answers. *)
Lemma mint_witnesses_ok snap batch mos signer ws :
  mint_witnesses_for_epoch snap batch mos signer = Ok ws ->
  b_leaves batch = leaf <$> snap_leaves snap /\
  exists rows, ws = concat rows /\ length rows = length (snap_leaves snap) /\
    forall i entry row, snap_leaves snap !! i = Some entry -> rows !! i = Some row ->
      length row = length mos /\
      forall m method outcome w, mos !! m = Some (method, outcome) -> row !! m = Some w ->
        exists trees,
          finish_batch_timestamp (prepared batch) (carriers batch)
            (facts outcome method (EpochBatch_anchor_root batch)) = Ok trees /\
          witness_for snap trees signer i entry method w.
Proof.
  unfold mint_witnesses_for_epoch. case_bool_decide as Hl; [|done]. intros Hm.
  apply result_bind_ok in Hm as (objects & Hobj & Hm).
  apply result_bind_ok in Hm as (rows & Hrows & Hm). injection Hm as <-.
  split; [done|]. exists rows. split; [done|].
  apply collect_enumerate in Hrows as [Hlen Hrows]. split; [done|].
  intros i entry row He Hr. specialize (Hrows i entry row He Hr).
  apply collect_enumerate in Hrows as [Hrl Hrow]. split; [done|].
  intros m method outcome w Hmo Hw. specialize (Hrow m (method, outcome) w Hmo Hw).
  cbn in Hrow. unfold mint_one in Hrow.
  apply result_bind_ok in Hrow as ([link rev] & Ho%ok_or_ok & Hsig). cbn in Hsig.
  apply bind_Some in Ho as (objs & Hobjs & Hoi).
  destruct (collect_lookup _ _ _ _ _ Hobj Hmo) as (objs' & Hobjs' & Hmobj).
  assert (objs' = objs) as -> by congruence.
  apply method_objects_ok in Hmobj as (trees & Hf & Htree). exists trees. split; [done|].
  assert (b_leaves batch !! i = Some (leaf entry)) as Hbl
    by (rewrite <- Hl, list_lookup_fmap, He; done).
  destruct (Htree i (leaf entry) _ Hoi Hbl) as (tree & Ht & Hadd).
  apply added_timestamp_ok in Hadd as (Hfil & obj & Hty & Hprev).
  apply sign_witness_ok in Hsig as (? & ? & ? & ? & Hrev & Hoh & Hss).
  split; try done. exists tree, link, obj. rewrite Hrev. done.
Qed.

(** Minted for one method: every leaf of the snapshot has a witness, and every
    witness is of that method and epoch. *)
Lemma mint_covers snap batch method outcome signer ws :
  mint_witnesses_for_epoch snap batch [(method, outcome)] signer = Ok ws ->
  (forall e, e ∈ snap_leaves snap -> exists w, w ∈ ws /\ w_leaf w = leaf e /\ w_method w = method) /\
  (forall w, w ∈ ws -> w_method w = method /\ w_epoch_id w = snap_epoch_id snap).
Proof.
  intros (_ & rows & -> & Hlen & Hrows)%mint_witnesses_ok. split.
  - intros e He. apply list_elem_of_lookup in He as [i Hi].
    destruct (lookup_lt_is_Some_2 rows i) as [row Hrow].
    { rewrite Hlen. by eapply lookup_lt_Some. }
    destruct (Hrows i e row Hi Hrow) as [Hl Hw]. destruct row as [|w [|? ?]]; try done.
    destruct (Hw 0%nat method outcome w eq_refl eq_refl) as (trees & _ & Hf).
    exists w. split; [|split; apply Hf]. apply list_elem_of_In, in_concat. exists [w].
    split; [|by left]. by eapply list_elem_of_In, list_elem_of_lookup_2.
  - intros w Hin. apply list_elem_of_In, in_concat in Hin as (row & Hrow & Hw).
    apply list_elem_of_In, list_elem_of_lookup in Hrow as [i Hrow].
    destruct (lookup_lt_is_Some_2 (snap_leaves snap) i) as [e He].
    { rewrite <- Hlen. by eapply lookup_lt_Some. }
    destruct (Hrows i e row He Hrow) as [Hl Hws]. destruct row as [|w' [|? ?]]; try done.
    destruct Hw as [<-|[]].
    destruct (Hws 0%nat method outcome w' eq_refl eq_refl) as (trees & _ & Hf).
    split; apply Hf.
Qed.

(** Minting returns, leaves in batch order and methods in the order given,
    exactly one witness for every (leaf, method), each the SDK's timestamp
    object of that leaf under that method's anchor facts (which carry the
    batch's own root) signed by the service; and it refuses a batch that is
    not the snapshot's leaves in order. *)
Theorem mint_witnesses_spec snap batch mos signer ws :
  mint_witnesses_for_epoch snap batch mos signer = Ok ws ->
  b_leaves batch = leaf <$> snap_leaves snap /\
  exists rows, ws = concat rows /\ length rows = length (snap_leaves snap) /\
    forall i entry row, snap_leaves snap !! i = Some entry -> rows !! i = Some row ->
      length row = length mos /\
      forall m method outcome w, mos !! m = Some (method, outcome) -> row !! m = Some w ->
        exists trees,
          finish_batch_timestamp (prepared batch) (carriers batch)
            (facts outcome method (EpochBatch_anchor_root batch)) = Ok trees /\
          witness_for snap trees signer i entry method w.
Proof. apply mint_witnesses_ok. Qed.

Lemma collect_err {E A B} (f : A -> result E B) l e :
  collect f l = Err e -> exists x, x ∈ l /\ f x = Err e.
Proof.
  induction l as [|x l IH]; cbn; [done|]. destruct (f x) as [y|e'] eqn:Hf; cbn.
  - destruct (collect f l) as [ys|e'] eqn:Hc; cbn; [done|].
    intros [= ->]. destruct (IH eq_refl) as (z & Hz & ?). exists z. by rewrite elem_of_cons; auto.
  - intros [= ->]. exists x. by rewrite elem_of_cons; auto.
Qed.

Lemma revision_link_to_hash_no_panic l : revision_link_to_hash l <> Err WIndexPanic.
Proof.
  unfold revision_link_to_hash. destruct (multihash_decode _) as [d|e]; cbn; [|done].
  case_decide; [done|]. by destruct (try_array _ _).
Qed.

Lemma sign_witness_no_panic l did e m link rev signer :
  sign_witness l did e m link rev signer <> Err WIndexPanic.
Proof.
  unfold sign_witness. pose proof (revision_link_to_hash_no_panic link).
  destruct (revision_link_to_hash link); cbn; [|congruence].
  destruct (sign_revision _ _) as [sig|]; cbn; [|done].
  destruct (signature_calculate_link _ _) as [sl|]; cbn; [|done].
  pose proof (revision_link_to_hash_no_panic sl).
  destruct (revision_link_to_hash sl); cbn; congruence.
Qed.

Lemma added_timestamp_no_panic t l : added_timestamp t l <> Err WIndexPanic.
Proof.
  unfold added_timestamp. destruct (filter _ _) as [|[k r] [|]]; try done.
  destruct (as_typed r); [|done]. by case_decide.
Qed.

Lemma method_objects_no_panic batch mo : method_objects batch mo <> Err WIndexPanic.
Proof.
  destruct mo as [m o]. unfold method_objects.
  destruct (finish_batch_timestamp _ _ _) as [trees|]; cbn; [|done].
  intros Hc. apply collect_err in Hc as ([t l] & _ & Ha). by eapply added_timestamp_no_panic.
Qed.

Lemma method_objects_length `{!BatchProducerLaws} batch mo objs :
  length (carriers batch) = length (b_leaves batch) ->
  method_objects batch mo = Ok objs -> length objs = length (b_leaves batch).
Proof.
  destruct mo as [m o]. unfold method_objects. intros Hc Hm.
  apply result_bind_ok in Hm as (trees & Hf%map_err_ok & Hm).
  apply collect_length in Hm. rewrite Hm, length_zip_with, (finish_length _ _ _ _ Hf). lia.
Qed.

(** Minting never panics on the index [objects[m][i]]: for a batch with
    one carrier a leaf, every method's object list covers every leaf. *)
Theorem mint_no_panic `{!BatchProducerLaws} snap batch mos signer :
  length (carriers batch) = length (b_leaves batch) ->
  mint_witnesses_for_epoch snap batch mos signer <> Err WIndexPanic.
Proof.
  intros Hc. unfold mint_witnesses_for_epoch. case_bool_decide as Hl; [|done].
  destruct (collect (method_objects batch) mos) as [objects|e] eqn:Hobj; cbn.
  2: { intros [= ->]. apply collect_err in Hobj as (mo & _ & Hmo). by eapply method_objects_no_panic. }
  destruct (collect _ (enumerate (snap_leaves snap))) as [rows|e] eqn:Hrows; cbn; [done|].
  intros [= ->]. apply collect_err in Hrows as ([i entry] & Hi & Hrow).
  apply collect_err in Hrow as ([m [method o]] & Hm & Hone).
  apply list_elem_of_lookup in Hi as [k Hk]. apply enumerate_lookup in Hk as [Hik Hk].
  apply list_elem_of_lookup in Hm as [k' Hk']. apply enumerate_lookup in Hk' as [Hmk Hk'].
  cbn in Hik, Hk, Hmk, Hk'. subst k k'.
  destruct (collect_lookup _ _ _ _ _ Hobj Hk') as (objs & Hobjs & Hmo).
  apply method_objects_length in Hmo; [|done].
  assert (i < length objs)%nat as Hlt.
  { rewrite Hmo, <- Hl, length_fmap. by apply lookup_lt_Some in Hk. }
  apply lookup_lt_is_Some_2 in Hlt as [[link rev] Hor].
  unfold mint_one in Hone. rewrite Hobjs in Hone. cbn in Hone. rewrite Hor in Hone. cbn in Hone.
  by eapply sign_witness_no_panic.
Qed.
End mint_facts.
