(* ===== verification/Selfcheck.v ===== *)
(** * The pre-serve self-check
    ([crates/aqua-timestamp-core/src/selfcheck.rs])

    Every minted witness is verified with the SDK before it is served; a batch
    of one (epoch, method) judges its shared anchor once. *)

From S2P Require Import Prelude External Accumulator Witness.
Open Scope string_scope.
Open Scope list_scope.

Inductive SelfCheckVerdict :=
| Verified
| NotYet (reason : string)
| Missing (reason : string)
| Failed (reason : string) (anchor_at_fault : bool).

#[export] Instance SelfCheckVerdict_eq_dec : EqDecision SelfCheckVerdict.
Proof. solve_decision. Defined.

Definition failed (reason : string) : SelfCheckVerdict := Failed reason false.
Definition anchor_failed (reason : string) : SelfCheckVerdict := Failed reason true.

Definition ANCHOR_FIELDS : list string :=
  ["network"; "transaction_hash"; "merkle_root"; "smart_contract_address";
   "sender_account_address"; "tsa_provider"; "timestamp"].

(** [format!("{n}")] of an integer. *)
Definition show_Z (n : Z) : string := pretty.pretty n.

Section selfcheck.
Context `{Sdk}.

Record SelfCheckHosts := {
  blockchain : option BlockchainHost;
  tsa : option WebHost;
  evm_finality : EvmFinalityRequirement;
}.

Definition hosts_default : SelfCheckHosts :=
  {| blockchain := None; tsa := None; evm_finality := Finalized |}.

Definition anchor_fields (payloads : Value) : list (option Value) :=
  json_get payloads <$> ANCHOR_FIELDS.

Definition text_field (payloads : Value) (field : string) : result string string :=
  ok_or (json_get payloads field ≫= json_as_str) ("missing " +:+ field).
Definition integer_field (payloads : Value) (field : string) : result string u64 :=
  ok_or (json_get payloads field ≫= json_as_u64) ("missing " +:+ field).

(** [.map_err(|e| format!("{what}: {e}"))]. *)
Definition sdk_context {A} (what : string) (r : result SdkError A) : result string A :=
  map_err (fun e => what +:+ sdk_error_text e) r.

Definition batch_inclusion (payloads : Value) (target : RevisionLink) : result string unit :=
  let? merkle_root := text_field payloads "merkle_root" in
  let? size := integer_field payloads "batch_tree_size" in
  if decide (MAX_LEAVES_PER_EPOCH < size)
  then Err ("batch_tree_size " +:+ show_Z size +:+ " exceeds the template maximum "
            +:+ show_Z MAX_LEAVES_PER_EPOCH)
  else
    let? index := integer_field payloads "batch_leaf_index" in
    let? proof := ok_or (json_get payloads "merkle_proof") "missing merkle_proof" in
    let? nonce := text_field payloads "shielding_nonce" in
    let? nonce := sdk_context "shielding_nonce: " (parse_batch_digest nonce) in
    let? proof := sdk_context "merkle_proof: " (parse_batch_proof proof) in
    let? root := sdk_context "merkle_root: " (parse_batch_root merkle_root) in
    let? leaf := sdk_context "leaf: " (shielded_leaf target nonce) in
    sdk_context "the inclusion proof: " (verify_batch_inclusion leaf index size proof root).

Definition content_and_inclusion (w : MintedWitness) : result SelfCheckVerdict Value :=
  let leaf_link := link_from_bytes (w_leaf w) in
  let object_link := link_from_bytes (w_object_hash w) in
  match as_typed (w_object_revision w) with
  | None => Err (failed "timestamp revision is not a typed object")
  | Some object =>
      match object_calculate_link object Sha3_256 with
      | Err e => Err (failed ("timestamp revision hash: " +:+ sdk_error_text e))
      | Ok link =>
          if decide (link = object_link) then
            if decide (object_previous_revision object <> Some leaf_link)
            then Err (failed "timestamp revision does not chain to the leaf")
            else
              let payloads := object_payloads object in
              match batch_inclusion payloads leaf_link with
              | Err reason => Err (failed ("batch inclusion: " +:+ reason))
              | Ok _ => Ok payloads
              end
          else Err (failed "timestamp revision does not hash to its key")
      end
  end.

Definition check_tsa (payloads : Value) (hosts : SelfCheckHosts) : SelfCheckVerdict :=
  match tsa hosts with
  | None => failed "no TSA host configured for the self-check"
  | Some host =>
      let field k := json_get payloads k ≫= json_as_str in
      match field "transaction_hash", field "merkle_root",
            json_get payloads "timestamp" ≫= json_as_u64 with
      | Some response, Some root, Some time =>
          match verify_tsa_token host response root time with
          | Ok (level, message) =>
              if decide (level = LevelQualifiedVerified \/ level = LevelVerified) then Verified
              else anchor_failed ("TSA token " +:+ level_text level +:+ ": " +:+ message)
          | Err e => anchor_failed ("TSA token: " +:+ sdk_error_text e)
          end
      | _, _, _ => failed "qTSA payload lacks transaction_hash, merkle_root or timestamp"
      end
  end.

Definition check_evm (payloads : Value) (hosts : SelfCheckHosts) : SelfCheckVerdict :=
  match blockchain hosts with
  | None => failed "no chain host configured for the self-check"
  | Some host =>
      match judge_evm_anchor (claim_from_payload payloads) host (evm_finality hosts) with
      | EvmVerified => Verified
      | EvmInvalid reason =>
          let text := "EVM anchor invalid: " +:+ invalid_reason_str reason in
          match reason with
          | MalformedClaim => failed text
          | ContractMismatch | SenderMismatch | InputMismatch | Reverted => anchor_failed text
          end
      | EvmNotEvaluable reason finality =>
          let text := "EVM anchor not evaluable: " +:+ not_evaluable_str reason
                      +:+ " (" +:+ finality +:+ ")" in
          match reason with
          | UnsupportedNetwork | NetworkNotConfigured => failed text
          | NotFound => Missing text
          | OtherNotEvaluable _ => NotYet text
          end
      end
  end.

Definition judge_anchor (method : AnchorMethod) (payloads : Value) (hosts : SelfCheckHosts)
    : SelfCheckVerdict :=
  match method with
  | Qtsa => check_tsa payloads hosts
  | Evm => check_evm payloads hosts
  end.

Definition service_signature (w : MintedWitness) (service_did : string) : SelfCheckVerdict :=
  let object_link := link_from_bytes (w_object_hash w) in
  let signature_link := link_from_bytes (w_signature_hash w) in
  match as_signature (w_signature_revision w) with
  | None => failed "signature revision is not a signature"
  | Some sig =>
      match classify_signature_leaf sig signature_link with
      | Err e => failed ("signature: " +:+ sdk_error_text e)
      | Ok v =>
          if decide (v = LeafVerified) then
            if decide (signature_previous_revision sig <> object_link)
            then failed "signature does not sign the timestamp revision"
            else if decide (signature_signer sig <> service_did)
            then failed ("signature signer " +:+ signature_signer sig
                         +:+ " is not the service DID " +:+ service_did)
            else Verified
          else failed ("signature: " +:+ leaf_verdict_text v)
      end
  end.

Definition verify_minted_witness (w : MintedWitness) (service_did : string)
    (hosts : SelfCheckHosts) : SelfCheckVerdict :=
  match content_and_inclusion w with
  | Err v => v
  | Ok payloads =>
      let anchor := judge_anchor (w_method w) payloads hosts in
      if decide (anchor <> Verified) then anchor else service_signature w service_did
  end.

(** The closure [verify_minted_batch] maps over the witnesses once the first
    one's anchor held. *)
Definition verify_member (first : MintedWitness) (judged : list (option Value))
    (service_did : string) (w : MintedWitness) : SelfCheckVerdict :=
  match content_and_inclusion w with
  | Err v => v
  | Ok payloads =>
      if decide (w_method w <> w_method first \/ anchor_fields payloads <> judged)
      then failed "anchor fields differ from the judged anchor"
      else service_signature w service_did
  end.

Definition verify_minted_batch (ws : list MintedWitness) (service_did : string)
    (hosts : SelfCheckHosts) : list SelfCheckVerdict :=
  match ws with
  | [] => []
  | first :: _ =>
      let settled v := replicate (length ws) v in
      match content_and_inclusion first with
      | Err v => settled v
      | Ok judged =>
          let anchor := judge_anchor (w_method first) judged hosts in
          if decide (anchor <> Verified) then settled anchor
          else verify_member first (anchor_fields judged) service_did <$> ws
      end
  end.
End selfcheck.

(** What the batch check relies on of [EvmAnchorClaim::from_payload]: it reads
    no field outside [ANCHOR_FIELDS]. *)
Class ClaimLaws `{Sdk} := {
  claim_reads_anchor_fields p q :
    anchor_fields p = anchor_fields q -> claim_from_payload p = claim_from_payload q;
}.

Section selfcheck_facts.
Context `{ClaimLaws}.

Lemma anchor_fields_get p q k :
  anchor_fields p = anchor_fields q -> k ∈ ANCHOR_FIELDS -> json_get p k = json_get q k.
Proof.
  unfold anchor_fields. induction ANCHOR_FIELDS as [|x l IH]; [by intros _ ?%elem_of_nil|].
  cbn. intros [= Hx Hl] [-> | Hk]%elem_of_cons; [done | by apply IH].
Qed.

(** The anchor's verdict depends on the anchor fields alone. *)
Lemma judge_anchor_fields m p q hosts :
  anchor_fields p = anchor_fields q -> judge_anchor m p hosts = judge_anchor m q hosts.
Proof.
  intros Hf. destruct m; cbn.
  - unfold check_evm. by rewrite (claim_reads_anchor_fields _ _ Hf).
  - unfold check_tsa.
    rewrite (anchor_fields_get p q "transaction_hash"), (anchor_fields_get p q "merkle_root"),
      (anchor_fields_get p q "timestamp") by (done || unfold ANCHOR_FIELDS; set_solver).
    done.
Qed.

Lemma service_signature_cases w did :
  service_signature w did = Verified \/ exists r, service_signature w did = Failed r false.
Proof.
  unfold service_signature, failed. destruct (as_signature _); [|eauto].
  destruct (classify_signature_leaf _ _); [|eauto]. repeat case_decide; eauto.
Qed.

Lemma content_and_inclusion_err w v :
  content_and_inclusion w = Err v -> exists r, v = Failed r false.
Proof.
  unfold content_and_inclusion, failed. destruct (as_typed _); [|intros [= <-]; eauto].
  destruct (object_calculate_link _ _); [|intros [= <-]; eauto].
  repeat case_decide; try (intros [= <-]; eauto). destruct (batch_inclusion _ _); [done|].
  intros [= <-]; eauto.
Qed.

Lemma verify_member_cases first judged did w :
  verify_member first judged did w = Verified \/
  exists r, verify_member first judged did w = Failed r false.
Proof.
  unfold verify_member, failed. destruct (content_and_inclusion w) as [p|v] eqn:Hc.
  - case_decide; [eauto|]. apply service_signature_cases.
  - apply content_and_inclusion_err in Hc as [r ->]. eauto.
Qed.

(** The anchor fields and the method are the same in every witness that
    passes checks 1 and 2. *)
Definition one_anchor (ws : list MintedWitness) : Prop :=
  forall w w' p p', w ∈ ws -> w' ∈ ws ->
    content_and_inclusion w = Ok p -> content_and_inclusion w' = Ok p' ->
    w_method w = w_method w' /\ anchor_fields p = anchor_fields p'.

Lemma verify_minted_batch_length ws did hosts :
  length (verify_minted_batch ws did hosts) = length ws.
Proof.
  unfold verify_minted_batch. destruct ws as [|first ws]; [done|].
  destruct (content_and_inclusion first); [case_decide|]; by rewrite ?length_replicate, ?length_fmap.
Qed.

Lemma verify_member_verified first did w p :
  content_and_inclusion first = Ok p ->
  verify_member first (anchor_fields p) did w = Verified <->
  exists q, content_and_inclusion w = Ok q /\ w_method w = w_method first /\
    anchor_fields q = anchor_fields p /\ service_signature w did = Verified.
Proof.
  intros Hf. unfold verify_member. destruct (content_and_inclusion w) as [q|v] eqn:Hc.
  - case_decide as Hd; unfold failed.
    + split; [done|]. intros (q' & [= <-] & Hm & Hq & _). tauto.
    + apply Decidable.not_or in Hd as [Hm%dec_stable Hq%dec_stable]. split.
      * intros Hs. by exists q.
      * by intros (q' & [= <-] & _ & _ & ?).
  - split; [|by intros (q & ? & _)]. intros ->. by apply content_and_inclusion_err in Hc as [? ?].
Qed.

Lemma verify_minted_witness_verified w did hosts :
  verify_minted_witness w did hosts = Verified <->
  exists p, content_and_inclusion w = Ok p /\ judge_anchor (w_method w) p hosts = Verified /\
    service_signature w did = Verified.
Proof.
  unfold verify_minted_witness. destruct (content_and_inclusion w) as [p|v] eqn:Hc.
  - case_decide as Hd.
    + split; [done|]. by intros (q & [= <-] & ? & _).
    + split; [by exists p | by intros (q & _ & _ & ?)].
  - split; [|by intros (q & ? & _)]. intros ->. by apply content_and_inclusion_err in Hc as [? ?].
Qed.

Lemma Forall_replicate {A} (P : A -> Prop) n x : Forall P (replicate (S n) x) <-> P x.
Proof.
  split; [by intros ?%Forall_inv|]. intros Hx. by apply Forall_replicate.
Qed.

(** The batch check against the per-witness check. *)
Lemma verify_minted_batch_all ws did hosts :
  length (verify_minted_batch ws did hosts) = length ws /\
  (Forall (fun v => v = Verified) (verify_minted_batch ws did hosts) <->
   Forall (fun w => verify_minted_witness w did hosts = Verified) ws /\ one_anchor ws).
Proof.
  split; [apply verify_minted_batch_length|]. destruct ws as [|first ws].
  { cbn. split; [|constructor]. intros _. split; [constructor|]. intros w w' p p' ?%elem_of_nil. done. }
  unfold verify_minted_batch. cbn [length]. set (all := first :: ws).
  destruct (content_and_inclusion first) as [p|v] eqn:Hc.
  - case_decide as Hj.
    + rewrite Forall_replicate. split; [by intros ?|]. intros [Hw _].
      apply Forall_inv, verify_minted_witness_verified in Hw as (q & Hq & Hjq & _). congruence.
    + rewrite Forall_fmap.
      split.
      * intros Hm. unfold compose in Hm.
        assert (forall w, w ∈ all -> exists q, content_and_inclusion w = Ok q /\
          w_method w = w_method first /\ anchor_fields q = anchor_fields p /\
          service_signature w did = Verified) as Hall.
        { intros w Hw. rewrite Forall_forall in Hm. apply verify_member_verified; auto. }
        split.
        -- apply Forall_forall. intros w (q & Hq & Hmw & Hf & Hs)%Hall.
           apply verify_minted_witness_verified. exists q. split_and!; [done| |done].
           rewrite Hmw. by rewrite (judge_anchor_fields _ q p hosts Hf).
        -- intros w w' q q' (q1 & ? & ? & ? & _)%Hall (q2 & ? & ? & ? & _)%Hall ? ?.
           split; congruence.
      * intros [Hw Hone]. apply Forall_forall. intros w Hin. unfold compose.
        apply verify_member_verified; [done..|]. rewrite Forall_forall in Hw.
        pose proof (proj1 (verify_minted_witness_verified _ _ _) (Hw w Hin)) as (q & Hq & _ & Hs).
        exists q.
        destruct (Hone w first q p Hin (list_elem_of_here _ _) Hq Hc). done.
  - rewrite Forall_replicate. split; [intros Hv; subst v|].
    + apply content_and_inclusion_err in Hc as [? ?]. done.
    + intros [Hw _]. apply Forall_inv, verify_minted_witness_verified in Hw as (q & Hq & _). congruence.
Qed.

(** C21. The batch check is the per-witness check with the anchor judged once:
    it answers one verdict per witness, and it says Verified for all of a
    batch exactly when [verify_minted_witness] says it for each of them and
    they share one anchor. *)
Theorem verify_minted_batch_equiv ws did hosts :
  length (verify_minted_batch ws did hosts) = length ws /\
  (Forall (fun v => v = Verified) (verify_minted_batch ws did hosts) <->
   Forall (fun w => verify_minted_witness w did hosts = Verified) ws /\ one_anchor ws).
Proof. apply verify_minted_batch_all. Qed.

(** The stored anchor is discarded only for what the anchor itself did: a
    verdict that blames the anchor comes from the host's answer on the first
    witness's anchor claim, an EVM judgement of an invalid anchor other than
    a malformed claim, or a TSA token the host does not report verified.
    Every other failure (content, inclusion, signature, configuration) keeps
    the anchor. *)
Theorem anchor_blame_sound ws did hosts r :
  Failed r true ∈ verify_minted_batch ws did hosts ->
  exists first p, head ws = Some first /\ content_and_inclusion first = Ok p /\
    match w_method first with
    | Evm => exists host reason, blockchain hosts = Some host /\ reason <> MalformedClaim /\
        judge_evm_anchor (claim_from_payload p) host (evm_finality hosts) = EvmInvalid reason
    | Qtsa => exists host resp root t, tsa hosts = Some host /\
        json_get p "transaction_hash" ≫= json_as_str = Some resp /\
        json_get p "merkle_root" ≫= json_as_str = Some root /\
        json_get p "timestamp" ≫= json_as_u64 = Some t /\
        forall level m, verify_tsa_token host resp root t = Ok (level, m) ->
          level <> LevelVerified /\ level <> LevelQualifiedVerified
    end.
Proof.
  destruct ws as [|first ws]; [by intros ?%elem_of_nil|]. unfold verify_minted_batch.
  destruct (content_and_inclusion first) as [p|v] eqn:Hc.
  2: { intros [Hv _]%elem_of_replicate. apply content_and_inclusion_err in Hc as [? Hv'].
       congruence. }
  case_decide as Hj; intros Hv.
  2: { apply list_elem_of_fmap in Hv as (w & Hv & _). symmetry in Hv.
       destruct (verify_member_cases first (anchor_fields p) did w) as [?|[? ?]]; congruence. }
  apply elem_of_replicate in Hv as [Hv _]. exists first, p. split_and!; [done..|].
  symmetry in Hv. destruct (w_method first); cbn in Hv.
  - unfold check_evm in Hv. destruct (blockchain hosts) as [host|]; [|done].
    destruct (judge_evm_anchor _ _ _) as [|reason|reason fin] eqn:Hjudge; [done| |by destruct reason].
    exists host, reason. split_and!; [done| |done]. by intros ->.
  - unfold check_tsa in Hv. destruct (tsa hosts) as [host|]; [|done].
    destruct (json_get p "transaction_hash" ≫= json_as_str) as [resp|]; [|done].
    destruct (json_get p "merkle_root" ≫= json_as_str) as [root|]; [|done].
    destruct (json_get p "timestamp" ≫= json_as_u64) as [t|]; [|done].
    exists host, resp, root, t. split_and!; [done..|]. intros level m Ht. rewrite Ht in Hv.
    case_decide as Hl; [done|]. tauto.
Qed.
End selfcheck_facts.
