(* ===== verification/Epoch.v ===== *)
(** * Records: epochs, contributors, events, clocks
    ([epoch.rs], [leaderboard.rs], [events.rs], [time.rs] of
    [crates/aqua-timestamp-core/src]) *)

From S2P Require Import Prelude External Merkle.
Open Scope string_scope.
Open Scope list_scope.

Definition HASH_TYPE_LABEL : string := "FIPS_202-SHA3-256".

Record EpochRecord := {
  er_id : u64;
  er_opened_at : u64;
  er_closed_at : u64;
  er_merkle_root : Hash32;
  er_leaf_count : u64;
  er_hash_type : string;
}.

Definition merkle_root_hex `{HexCrate} (r : EpochRecord) : string :=
  "0x" +:+ hex_encode (arr (er_merkle_root r)).

Record ContributorEntry := {
  ce_did : string;
  ce_fuel_contributed_wei : u128;
  ce_fuel_contributed_sat : u64;
  ce_hashes_submitted : u64;
  ce_last_active : u64;
}.

Record FuelTransfer := {
  ft_sender : Address20;
  ft_value_wei : u128;
  ft_block_number : u64;
  ft_block_timestamp : u64;
}.

Inductive SseEvent :=
| EpochSealed (epoch_id leaf_count : u64) (merkle_root : string) (timestamp : u64)
| AnchorEvm (epoch_id : u64) (tx_hash : string) (block : u64) (network : string)
| AnchorQtsa (epoch_id : u64) (tsa_provider : string) (gen_time : string)
| HealthTick (uptime_secs epochs_total leaves_total : u64).

Definition event_name (e : SseEvent) : string :=
  match e with
  | EpochSealed _ _ _ _ => "epoch:sealed"
  | AnchorEvm _ _ _ _ => "anchor:evm"
  | AnchorQtsa _ _ _ => "anchor:qtsa"
  | HealthTick _ _ _ => "health:tick"
  end.

(** [SystemClock::now_secs]: seconds since the epoch, 0 when the system clock
    is before it. *)
Definition now_secs (since_epoch : option u64) : u64 := default 0 since_epoch.

Definition FixedClock_now_secs (clock : u64) : u64 := clock.
