(* ===== verification/Utf8.v ===== *)
(** * [String::from_utf8_lossy]

    The Standard Library's decoder: every maximal ill-formed sequence becomes
    U+FFFD, well-formed bytes stay. *)

From S2P Require Import Prelude.

Definition in_range (lo hi : Z) (b : byte) : bool := (lo <=? Z_of_byte b) && (Z_of_byte b <=? hi).
Definition cont (b : byte) : bool := in_range 0x80 0xBF b.

(** Width of the sequence a lead byte starts, and the range of its second
    byte. *)
Definition lead (b : byte) : option (nat * Z * Z) :=
  if in_range 0xC2 0xDF b then Some (2%nat, 0x80, 0xBF)
  else if in_range 0xE0 0xE0 b then Some (3%nat, 0xA0, 0xBF)
  else if in_range 0xE1 0xEC b then Some (3%nat, 0x80, 0xBF)
  else if in_range 0xED 0xED b then Some (3%nat, 0x80, 0x9F)
  else if in_range 0xEE 0xEF b then Some (3%nat, 0x80, 0xBF)
  else if in_range 0xF0 0xF0 b then Some (4%nat, 0x90, 0xBF)
  else if in_range 0xF1 0xF3 b then Some (4%nat, 0x80, 0xBF)
  else if in_range 0xF4 0xF4 b then Some (4%nat, 0x80, 0x8F)
  else None.

(** The next chunk of a non-empty string: is it a character, and how many bytes
    it takes. *)
Definition utf8_chunk (b0 : byte) (r : bytes) : bool * nat :=
  if Z_of_byte b0 <? 0x80 then (true, 1%nat)
  else
    match lead b0 with
    | None => (false, 1%nat)
    | Some (w, lo, hi) =>
        match r with
        | b1 :: r1 =>
            if in_range lo hi b1 then
              if (w =? 2)%nat then (true, 2%nat)
              else
                match r1 with
                | b2 :: r2 =>
                    if cont b2 then
                      if (w =? 3)%nat then (true, 3%nat)
                      else
                        match r2 with
                        | b3 :: _ => if cont b3 then (true, 4%nat) else (false, 3%nat)
                        | [] => (false, 3%nat)
                        end
                    else (false, 2%nat)
                | [] => (false, 2%nat)
                end
            else (false, 1%nat)
        | [] => (false, 1%nat)
        end
    end.

(** U+FFFD. *)
Definition replacement : bytes := [Byte.xef; Byte.xbf; Byte.xbd].

(** A chunk takes at least one byte, so the length of the input is fuel
    enough. *)
Fixpoint utf8_lossy_fuel (fuel : nat) (l : bytes) : bytes :=
  match fuel, l with
  | S f, b0 :: r =>
      let '(good, n) := utf8_chunk b0 r in
      (if good : bool then take n l else replacement) ++ utf8_lossy_fuel f (drop n l)
  | _, _ => []
  end.
Definition from_utf8_lossy (l : bytes) : string := of_bytes (utf8_lossy_fuel (length l) l).

Fixpoint utf8_valid_fuel (fuel : nat) (l : bytes) : bool :=
  match fuel, l with
  | S f, b0 :: r =>
      let '(good, n) := utf8_chunk b0 r in good && utf8_valid_fuel f (drop n l)
  | _, _ => true
  end.
(** The invariant of Rust's [str]. *)
Definition valid_utf8 (s : string) : bool :=
  let l := as_bytes s in utf8_valid_fuel (length l) l.

#[global] Arguments from_utf8_lossy : simpl never.
#[global] Arguments valid_utf8 : simpl never.

Lemma utf8_chunk_pos b0 r : (1 <= (utf8_chunk b0 r).2)%nat.
Proof. unfold utf8_chunk. repeat destruct_match_goal; cbn; lia. Qed.

Lemma utf8_lossy_valid fuel l :
  (length l <= fuel)%nat -> utf8_valid_fuel fuel l = true -> utf8_lossy_fuel fuel l = l.
Proof.
  revert l; induction fuel as [|f IH]; intros [|b0 r] Hl; cbn [length] in Hl; try (done || lia).
  cbn. pose proof (utf8_chunk_pos b0 r) as Hp. destruct (utf8_chunk b0 r) as [good n]. cbn in Hp.
  intros [-> Hv]%andb_true_iff. rewrite IH; [apply take_drop| |done].
  rewrite length_drop. cbn. lia.
Qed.

(** What is stored as the bytes of a [str] reads back as that [str]. *)
Lemma from_utf8_lossy_as_bytes s : valid_utf8 s = true -> from_utf8_lossy (as_bytes s) = s.
Proof.
  intros Hv. unfold from_utf8_lossy. rewrite utf8_lossy_valid; [|lia|done]. apply of_bytes_as_bytes.
Qed.
