(* ===== verification/Kv.v ===== *)
(** * The keyspace under the store

    [fjall] is not part of the repository: [Fjall] is the interface of the
    calls the store makes, [FjallLaws] what it relies on (reads answer the
    partition's contents or an error, iteration is in key order, a batch is
    atomic).  [codec] is the serialisers' interface, and [rep] relates a
    partition to a typed map. *)

From S2P Require Import Prelude.

Inductive Partition :=
| epochs | epoch_leaves | witness_revisions | leaf_to_tips | leaf_owner | tip_to_pair
| contributor_stats | watcher_watermark | pending_anchors | pending_leaves | self_checked_tips.

#[export] Instance Partition_eq_dec : EqDecision Partition.
Proof. solve_decision. Defined.

Inductive batch_op :=
| BInsert (p : Partition) (k v : bytes)
| BRemove (p : Partition) (k : bytes).

(** The contents of every partition. *)
Definition contents := Partition -> gmap bytes bytes.

Definition apply_op (v : contents) (o : batch_op) : contents :=
  match o with
  | BInsert p k x => fun q => if decide (p = q) then <[k := x]> (v q) else v q
  | BRemove p k => fun q => if decide (p = q) then delete k (v q) else v q
  end.

Definition key_le (a b : bytes * bytes) : Prop := bytes_le a.1 b.1.
#[export] Instance key_le_dec : RelDecision key_le.
Proof. intros a b. unfold key_le. apply _. Defined.
#[export] Instance key_le_total : Total key_le.
Proof. intros a b. apply (total bytes_le). Qed.
#[export] Instance key_le_trans : Transitive key_le.
Proof. intros a b c. apply (transitivity (R := bytes_le)). Qed.

(** A partition's entries in key order. *)
Definition sorted_entries (m : gmap bytes bytes) : list (bytes * bytes) :=
  merge_sort key_le (map_to_list m).

Fixpoint is_prefix (pre k : bytes) : bool :=
  match pre, k with
  | [], _ => true
  | x :: pre', y :: k' => bool_decide (x = y) && is_prefix pre' k'
  | _ :: _, [] => false
  end.

Class Fjall := {
  FjallError : Type;
  Keyspace : Type;
  kv_open_partition : string -> Keyspace -> Keyspace * result FjallError unit;
  kv_get : Keyspace -> Partition -> bytes -> result FjallError (option bytes);
  kv_contains_key : Keyspace -> Partition -> bytes -> result FjallError bool;
  kv_iter : Keyspace -> Partition -> list (result FjallError (bytes * bytes));
  kv_prefix : Keyspace -> Partition -> bytes -> list (result FjallError (bytes * bytes));
  (** [range(..=upper).rev()]. *)
  kv_range_rev : Keyspace -> Partition -> bytes -> list (result FjallError (bytes * bytes));
  kv_last_key_value : Keyspace -> Partition -> result FjallError (option (bytes * bytes));
  kv_insert : Partition -> bytes -> bytes -> Keyspace -> Keyspace * result FjallError unit;
  kv_commit : list batch_op -> Keyspace -> Keyspace * result FjallError unit;
  (** [persist(PersistMode::SyncAll)]. *)
  kv_persist : Keyspace -> Keyspace * result FjallError unit;
}.

(** An item of an iteration is the entry, or the error of reading it. *)
Definition item_ok {E} (item : result E (bytes * bytes)) (kv : bytes * bytes) : Prop :=
  forall kv', item = Ok kv' -> kv' = kv.

Class FjallLaws `{Fjall} := {
  view : Keyspace -> contents;
  kv_open_view name ks : view (kv_open_partition name ks).1 = view ks;
  kv_get_ok ks p k r : kv_get ks p k = Ok r -> r = view ks p !! k;
  kv_contains_ok ks p k r :
    kv_contains_key ks p k = Ok r -> r = bool_decide (is_Some (view ks p !! k));
  kv_iter_ok ks p : Forall2 item_ok (kv_iter ks p) (sorted_entries (view ks p));
  kv_prefix_ok ks p pre :
    Forall2 item_ok (kv_prefix ks p pre)
      (filter (fun kv => is_prefix pre kv.1 = true) (sorted_entries (view ks p)));
  kv_range_rev_ok ks p upper :
    Forall2 item_ok (kv_range_rev ks p upper)
      (reverse (filter (fun kv => bytes_le kv.1 upper) (sorted_entries (view ks p))));
  kv_last_ok ks p r : kv_last_key_value ks p = Ok r -> r = last (sorted_entries (view ks p));
  kv_insert_ok p k v ks :
    view (kv_insert p k v ks).1
    = if is_ok (kv_insert p k v ks).2 then apply_op (view ks) (BInsert p k v) else view ks;
  kv_commit_ok ops ks :
    view (kv_commit ops ks).1
    = if is_ok (kv_commit ops ks).2 then fold_left apply_op ops (view ks) else view ks;
  kv_persist_ok ks : view (kv_persist ks).1 = view ks;
}.

(** ** Serialisers ([postcard], [serde_json]) *)
Class codec (E V : Type) := {
  encode : V -> result E bytes;
  decode : bytes -> result E V;
}.
Class codec_laws {E V} (c : codec E V) := {
  decode_encode v b : encode v = Ok b -> decode b = Ok v;
}.

(** The two serialisers' error types. *)
Class SerdeCrates := { PostcardError : Type; JsonError : Type }.

(** ** Sorted entries *)

Lemma sorted_entries_perm m : sorted_entries m ≡ₚ map_to_list m.
Proof. apply merge_sort_Permutation. Qed.
Lemma sorted_entries_sorted m : StronglySorted key_le (sorted_entries m).
Proof. apply (StronglySorted_merge_sort key_le). Qed.
Lemma elem_of_sorted_entries m k v : (k, v) ∈ sorted_entries m <-> m !! k = Some v.
Proof. rewrite sorted_entries_perm. apply elem_of_map_to_list. Qed.
Lemma sorted_entries_keys_NoDup m : NoDup (sorted_entries m).*1.
Proof. rewrite sorted_entries_perm. apply NoDup_fst_map_to_list. Qed.

(** ** A partition as a typed map *)

Section rep.
Context {K V : Type} `{Countable K}.
Context (kok : K -> Prop) (kenc : K -> bytes) (venc : V -> bytes -> Prop).

Record rep (m : gmap K V) (b : gmap bytes bytes) : Prop := {
  rep_keys k v : m !! k = Some v -> kok k;
  rep_fwd k v : m !! k = Some v -> exists vb, b !! kenc k = Some vb /\ venc v vb;
  rep_bwd kb vb : b !! kb = Some vb -> exists k v, m !! k = Some v /\ kb = kenc k /\ venc v vb;
}.

Context (kenc_inj : forall k k', kok k -> kok k' -> kenc k = kenc k' -> k = k').

Lemma rep_empty : rep ∅ ∅.
Proof. split; [by intros ? ? ?%lookup_empty_Some..|]. by intros ? ? ?%lookup_empty_Some. Qed.

Lemma rep_lookup m b k :
  rep m b -> kok k ->
  match b !! kenc k with
  | Some vb => exists v, m !! k = Some v /\ venc v vb
  | None => m !! k = None
  end.
Proof.
  intros Hr Hk. destruct (b !! kenc k) as [vb|] eqn:Hb.
  - destruct (rep_bwd _ _ Hr _ _ Hb) as (k' & v & Hv & He & Henc).
    apply kenc_inj in He as ->; [by exists v | done | by eapply rep_keys].
  - destruct (m !! k) as [v|] eqn:Hm; [|done].
    destruct (rep_fwd _ _ Hr _ _ Hm) as (vb & Hvb & _). congruence.
Qed.

Lemma rep_insert m b k v vb :
  rep m b -> kok k -> venc v vb -> rep (<[k := v]> m) (<[kenc k := vb]> b).
Proof.
  intros Hr Hk Hv. split.
  - intros k' v' Hk'. apply lookup_insert_Some in Hk' as [[<- _]|[_ ?]]; [done|].
    by eapply rep_keys.
  - intros k' v' Hk'. apply lookup_insert_Some in Hk' as [[<- <-]|[Hne Hk']].
    + exists vb. by rewrite lookup_insert_eq.
    + destruct (rep_fwd _ _ Hr _ _ Hk') as (vb' & Hvb & ?). exists vb'.
      rewrite lookup_insert_ne; [done|]. intros He. apply Hne.
      apply kenc_inj; [done | by eapply rep_keys | done].
  - intros kb vb' Hb. apply lookup_insert_Some in Hb as [[<- <-]|[Hne Hb]].
    + exists k, v. by rewrite lookup_insert_eq.
    + destruct (rep_bwd _ _ Hr _ _ Hb) as (k' & v' & ? & -> & ?). exists k', v'.
      rewrite lookup_insert_ne by congruence. done.
Qed.

Lemma rep_delete m b k : rep m b -> kok k -> rep (delete k m) (delete (kenc k) b).
Proof.
  intros Hr Hk. split.
  - intros k' v' [_ Hk']%lookup_delete_Some. by eapply rep_keys.
  - intros k' v' [Hne Hk']%lookup_delete_Some.
    destruct (rep_fwd _ _ Hr _ _ Hk') as (vb' & Hvb & ?). exists vb'.
    rewrite lookup_delete_ne; [done|]. intros He. apply Hne.
    apply kenc_inj; [done | by eapply rep_keys | done].
  - intros kb vb' [Hne Hb]%lookup_delete_Some.
    destruct (rep_bwd _ _ Hr _ _ Hb) as (k' & v' & ? & -> & ?). exists k', v'.
    rewrite lookup_delete_ne by congruence. done.
Qed.

(** The typed entries, in the key order of the partition. *)
Lemma rep_entries m b :
  rep m b ->
  exists l, l ≡ₚ map_to_list m /\
    Forall2 (fun kv kvb => kvb.1 = kenc kv.1 /\ venc kv.2 kvb.2) l (sorted_entries b).
Proof.
  intros Hr.
  assert (exists l, Forall2 (fun kv kvb =>
    m !! kv.1 = Some kv.2 /\ kvb.1 = kenc kv.1 /\ venc kv.2 kvb.2) l (sorted_entries b)) as [l Hl].
  { assert (forall kvb, kvb ∈ sorted_entries b -> exists kv : K * V,
      m !! kv.1 = Some kv.2 /\ kvb.1 = kenc kv.1 /\ venc kv.2 kvb.2) as Hall.
    { intros [kb vb] Hin%elem_of_sorted_entries.
      destruct (rep_bwd _ _ Hr _ _ Hin) as (k & v & ? & ? & ?). by exists (k, v). }
    clear -Hall. induction (sorted_entries b) as [|x xs IH]; [by exists []|].
    destruct (Hall x) as [y Hy]; [apply list_elem_of_here|].
    destruct IH as [ys Hys]; [intros; apply Hall; by apply list_elem_of_further|].
    exists (y :: ys). by constructor. }
  exists l. split; [|eapply Forall2_impl; [done|]; cbn; tauto].
  assert (kenc <$> l.*1 = (sorted_entries b).*1) as Hk.
  { clear -Hl. induction Hl as [|? ? ? ? (? & ? & ?) ? IH]; cbn; [done|]. congruence. }
  apply NoDup_Permutation.
  - apply (NoDup_fmap_1 fst), (NoDup_fmap_1 kenc). rewrite Hk. apply sorted_entries_keys_NoDup.
  - apply NoDup_map_to_list.
  - intros [k v]. rewrite elem_of_map_to_list. split.
    + intros Hin. apply list_elem_of_lookup in Hin as [i Hi].
      destruct (Forall2_lookup_l _ _ _ _ _ Hl Hi) as (? & _ & Hm & _). done.
    + intros Hm. destruct (rep_fwd _ _ Hr _ _ Hm) as (vb & Hvb & _).
      apply elem_of_sorted_entries, list_elem_of_lookup in Hvb as [i Hi].
      destruct (Forall2_lookup_r _ _ _ _ _ Hl Hi) as ([k' v'] & Hkv & Hm' & He & _). cbn in *.
      apply kenc_inj in He; [subst k'|by eapply rep_keys..]. 
      assert (v' = v) as -> by congruence. by eapply list_elem_of_lookup_2.
Qed.
End rep.
