(* ===== verification/Storage.v ===== *)
(** * The store
    ([crates/aqua-timestamp-core/src/storage.rs])

    Every operation of [Store] on the keyspace of [Kv], byte keys and encoded
    values as the source writes them.  The abstract store and the refinement
    are in [StoreSpec] and [StoreRefine], the scans in [StoreScans].

    The injected faults of [save_pending] under the [test-doubles] feature are
    not modelled (a production build has none); a failing keyspace covers
    them. *)

From S2P Require Import Prelude External Merkle Accumulator Witness Epoch Utf8 Kv.
Open Scope string_scope.
Open Scope list_scope.

Definition EPOCHS_PARTITION : string := "epochs".
Definition EPOCH_LEAVES_PARTITION : string := "epoch_leaves".
Definition WITNESS_REVISIONS_PARTITION : string := "witness_revisions".
Definition LEAF_TO_TIPS_PARTITION : string := "leaf_to_tips".
Definition LEAF_OWNER_PARTITION : string := "leaf_owner".
Definition TIP_TO_PAIR_PARTITION : string := "tip_to_pair".
Definition PENDING_ANCHORS_PARTITION : string := "pending_anchors".
Definition PENDING_LEAVES_PARTITION : string := "pending_leaves".
Definition SELF_CHECKED_TIPS_PARTITION : string := "self_checked_tips".
Definition CONTRIBUTOR_STATS_PARTITION : string := "contributor_stats".
Definition WATCHER_WATERMARK_PARTITION : string := "watcher_watermark".

Definition LEAF_TO_TIPS_KEY_LEN : usize := 32 + 1.
Definition EPOCH_LEAVES_KEY_LEN : usize := 8 + 32.

Record TipPairIndex := {
  ti_object_hash : Hash32;
  ti_signature_hash : Hash32;
  ti_leaf : Hash32;
  ti_method_byte : byte;
  ti_epoch_id : u64;
  ti_submitter_did : string;
  ti_object_file_name : string;
  ti_signature_file_name : string;
}.

Definition compose_leaf_to_tips_key (l : Hash32) (mb : byte) : bytes := arr l ++ [mb].
Definition compose_leaves_key (epoch_id : u64) (l : Hash32) : bytes := u64_to_be epoch_id ++ arr l.

(** [#[error(..)]] of [WitnessError]. *)
Definition witness_error_text (e : WitnessError) : string :=
  match e with
  | WObject t => "witness object build failed: " +:+ t
  | WBatch t => "witness batch failed: " +:+ t
  | WSign t => "witness signature failed: " +:+ t
  | WBadHash n => "hash conversion: expected 32 bytes, got " +:+ pretty.pretty n
  | WIndexPanic => ""
  end.

Section storage.
Context `{HexCrate, Sdk, Fjall, SerdeCrates}.

Inductive StoreError :=
| SFjall (e : FjallError)
| SEncode (e : PostcardError)
| SDecode (e : PostcardError)
| SBadLeavesKey (len : usize)
| SBadLeafTipsKey (len : usize)
| SWitnessJson (e : JsonError)
| SUnknownMethodByte (b : byte)
| SPending (text : string).

Class StoreCodecs := {
  epoch_codec :: codec PostcardError EpochRecord;
  tip_pair_codec :: codec PostcardError TipPairIndex;
  contributor_codec :: codec PostcardError ContributorEntry;
  pending_codec :: codec JsonError PendingEpoch;
  revision_codec :: codec JsonError AnyRevision;
}.
Context `{!StoreCodecs}.

(** [store]: an operation that changes the keyspace. *)
Definition store_res (A : Type) : Type := Keyspace * result StoreError A.

Definition u64_from_be_slice (slice : bytes) : result StoreError u64 :=
  if decide (length slice <> 8%nat) then Err (SBadLeavesKey (Z.of_nat (length slice)))
  else Ok (of_be_bytes slice).

(** Stops at the first failing call, like the [?]s of [open]. *)
Fixpoint open_partitions (names : list string) (ks : Keyspace) : store_res unit :=
  match names with
  | [] => (ks, Ok tt)
  | n :: names' =>
      match kv_open_partition n ks with
      | (ks', Ok _) => open_partitions names' ks'
      | (ks', Err e) => (ks', Err (SFjall e))
      end
  end.

(** [Store::open] on the opened keyspace ([Config::open] is the parameter). *)
Definition open_store (opened : result FjallError Keyspace) : result StoreError (store_res unit) :=
  let? ks := map_err SFjall opened in
  Ok (open_partitions
        [EPOCHS_PARTITION; EPOCH_LEAVES_PARTITION; WITNESS_REVISIONS_PARTITION;
         LEAF_TO_TIPS_PARTITION; LEAF_OWNER_PARTITION; TIP_TO_PAIR_PARTITION;
         CONTRIBUTOR_STATS_PARTITION; WATCHER_WATERMARK_PARTITION;
         PENDING_ANCHORS_PARTITION; PENDING_LEAVES_PARTITION; SELF_CHECKED_TIPS_PARTITION] ks).

(** [self.keyspace.persist(PersistMode::SyncAll)?; Ok(())]. *)
Definition persist_now (ks : Keyspace) : store_res unit :=
  let '(ks', r) := kv_persist ks in (ks', map_err SFjall r).

(** [batch.commit()?; self.keyspace.persist(..)?; Ok(())] after the batch was
    built. *)
Definition commit_batch (built : result StoreError (list batch_op)) (ks : Keyspace)
    : store_res unit :=
  match built with
  | Err e => (ks, Err e)
  | Ok ops =>
      match kv_commit ops ks with
      | (ks', Err e) => (ks', Err (SFjall e))
      | (ks', Ok _) => persist_now ks'
      end
  end.

(** ** Writes *)

Definition witness_ops (w : MintedWitness) : result StoreError (list batch_op) :=
  let? obj_json := map_err SWitnessJson (encode (w_object_revision w)) in
  let? sig_json := map_err SWitnessJson (encode (w_signature_revision w)) in
  let index :=
    {| ti_object_hash := w_object_hash w;
       ti_signature_hash := w_signature_hash w;
       ti_leaf := w_leaf w;
       ti_method_byte := method_byte (w_method w);
       ti_epoch_id := w_epoch_id w;
       ti_submitter_did := w_submitter_did w;
       ti_object_file_name := w_object_file_name w;
       ti_signature_file_name := w_signature_file_name w |} in
  let? index_bytes := map_err SEncode (encode index) in
  Ok [BInsert witness_revisions (arr (w_object_hash w)) obj_json;
      BInsert witness_revisions (arr (w_signature_hash w)) sig_json;
      BInsert leaf_to_tips (compose_leaf_to_tips_key (w_leaf w) (method_byte (w_method w)))
        (arr (w_signature_hash w));
      BInsert tip_to_pair (arr (w_signature_hash w)) index_bytes].

Definition write_witnesses (ws : list MintedWitness) : result StoreError (list batch_op) :=
  let? ops := collect witness_ops ws in Ok (concat ops).

Definition pending_ops (p : PendingEpoch) : result StoreError (list batch_op) :=
  let? json := map_err SWitnessJson (encode p) in
  let? ls := map_err (fun e => SPending (witness_error_text e)) (leaf_hashes p) in
  Ok (BInsert pending_anchors (u64_to_be (p_epoch_id p)) json ::
      concat ((fun l => (fun m => BInsert pending_leaves
                           (compose_leaf_to_tips_key l (method_byte m))
                           (u64_to_be (p_epoch_id p))) <$> p_methods p) <$> ls)).

Definition leaf_ops (epoch_id : u64) (entry : LeafEntry) : list batch_op :=
  [BInsert epoch_leaves (compose_leaves_key epoch_id (leaf entry))
     (as_bytes (submitter_did entry));
   BInsert leaf_owner (arr (leaf entry)) (as_bytes (submitter_did entry))].

Definition sealed_batch (record : EpochRecord) (leaves : list LeafEntry)
    (witnesses : list MintedWitness) (pending : option PendingEpoch)
    : result StoreError (list batch_op) :=
  let? pend := match pending with Some p => pending_ops p | None => Ok [] end in
  let? encoded := map_err SEncode (encode record) in
  let? wits := write_witnesses witnesses in
  Ok (pend ++ [BInsert epochs (u64_to_be (er_id record)) encoded]
        ++ concat (leaf_ops (er_id record) <$> leaves) ++ wits).

Definition persist_sealed_epoch_with_pending (record : EpochRecord) (leaves : list LeafEntry)
    (witnesses : list MintedWitness) (pending : option PendingEpoch) (ks : Keyspace)
    : store_res unit :=
  commit_batch (sealed_batch record leaves witnesses pending) ks.

Definition persist_sealed_epoch (record : EpochRecord) (leaves : list LeafEntry)
    (witnesses : list MintedWitness) (ks : Keyspace) : store_res unit :=
  persist_sealed_epoch_with_pending record leaves witnesses None ks.

(** The removal of one leaf's pending lookup, when it belongs to this epoch. *)
Definition pending_leaf_removal (ks : Keyspace) (epoch_key : bytes) (done : AnchorMethod)
    (l : Hash32) : result StoreError (list batch_op) :=
  let key := compose_leaf_to_tips_key l (method_byte done) in
  let? cur := map_err SFjall (kv_get ks pending_leaves key) in
  Ok (if decide (cur = Some epoch_key) then [BRemove pending_leaves key] else []).

Definition minted_batch (remaining : PendingEpoch) (done : AnchorMethod)
    (witnesses : list MintedWitness) (ks : Keyspace) : result StoreError (list batch_op) :=
  let? wits := write_witnesses witnesses in
  let checked := (fun w => BInsert self_checked_tips (arr (w_signature_hash w)) []) <$> witnesses in
  let epoch_key := u64_to_be (p_epoch_id remaining) in
  let? ls := map_err (fun e => SPending (witness_error_text e)) (leaf_hashes remaining) in
  let? removals := collect (pending_leaf_removal ks epoch_key done) ls in
  let? record :=
    if decide (p_methods remaining = []) then Ok (BRemove pending_anchors epoch_key)
    else let? json := map_err SWitnessJson (encode remaining) in
         Ok (BInsert pending_anchors epoch_key json) in
  Ok (wits ++ checked ++ concat removals ++ [record]).

Definition persist_pending_minted (remaining : PendingEpoch) (done : AnchorMethod)
    (witnesses : list MintedWitness) (ks : Keyspace) : store_res unit :=
  commit_batch (minted_batch remaining done witnesses ks) ks.

(** [partition.insert(k, v)?; keyspace.persist(..)?; Ok(())]. *)
Definition insert_and_persist (p : Partition) (k v : bytes) (ks : Keyspace) : store_res unit :=
  match kv_insert p k v ks with
  | (ks', Err e) => (ks', Err (SFjall e))
  | (ks', Ok _) => persist_now ks'
  end.

Definition save_pending (pending : PendingEpoch) (ks : Keyspace) : store_res unit :=
  match encode pending with
  | Err e => (ks, Err (SWitnessJson e))
  | Ok json => insert_and_persist pending_anchors (u64_to_be (p_epoch_id pending)) json ks
  end.

Definition contributor_ops (u : Address20 * ContributorEntry) : result StoreError batch_op :=
  let? encoded := map_err SEncode (encode u.2) in
  Ok (BInsert contributor_stats (arr u.1) encoded).

Definition upsert_contributors_and_watermark (updates : list (Address20 * ContributorEntry))
    (chain : string) (block_number : u64) (ks : Keyspace) : store_res unit :=
  commit_batch
    (let? ops := collect contributor_ops updates in
     Ok (ops ++ [BInsert watcher_watermark (as_bytes chain) (u64_to_be block_number)])) ks.

Definition set_watermark (chain : string) (block : u64) (ks : Keyspace) : store_res unit :=
  insert_and_persist watcher_watermark (as_bytes chain) (u64_to_be block) ks.

(** ** Reads *)

(** One [let (k, v) = kv?;] of a scan, with its decoding. *)
Definition scan {A} (f : bytes -> bytes -> result StoreError A)
    (items : list (result FjallError (bytes * bytes))) : result StoreError (list A) :=
  collect (fun item => let? kv := map_err SFjall item in f kv.1 kv.2) items.

Definition get_decoded {A} (p : Partition) (k : bytes) (dec : bytes -> result StoreError A)
    (ks : Keyspace) : result StoreError (option A) :=
  let? r := map_err SFjall (kv_get ks p k) in
  match r with
  | Some b => let? a := dec b in Ok (Some a)
  | None => Ok None
  end.

Definition dec_pending (b : bytes) : result StoreError PendingEpoch :=
  map_err SWitnessJson (decode b).
Definition dec_postcard {A} `{!codec PostcardError A} (b : bytes) : result StoreError A :=
  map_err SDecode (decode b).

Definition list_pending_epochs (ks : Keyspace) : result StoreError (list PendingEpoch) :=
  scan (fun _ v => dec_pending v) (kv_iter ks pending_anchors).

Definition get_pending_epoch_for_leaf (l : Hash32) (method : AnchorMethod) (ks : Keyspace)
    : result StoreError (option u64) :=
  get_decoded pending_leaves (compose_leaf_to_tips_key l (method_byte method))
    u64_from_be_slice ks.

Definition is_epoch_pending (epoch_id : u64) (method : AnchorMethod) (ks : Keyspace)
    : result StoreError bool :=
  let? p := get_decoded pending_anchors (u64_to_be epoch_id) dec_pending ks in
  Ok (match p with Some p => bool_decide (method ∈ p_methods p) | None => false end).

Definition get_epoch (id : u64) (ks : Keyspace) : result StoreError (option EpochRecord) :=
  get_decoded epochs (u64_to_be id) dec_postcard ks.

Definition last_sealed_epoch_id (ks : Keyspace) : result StoreError (option u64) :=
  let? last := map_err SFjall (kv_last_key_value ks epochs) in
  match last with
  | Some (k, _) => let? id := u64_from_be_slice k in Ok (Some id)
  | None => Ok None
  end.

(** The loop of [list_epochs_desc]: [room] more records fit. *)
Fixpoint take_page (room : nat) (items : list (result FjallError (bytes * bytes))) {struct items}
    : result StoreError (list EpochRecord * option u64) :=
  match items with
  | [] => Ok ([], None)
  | item :: items' =>
      let? kv := map_err SFjall item in
      let? r := dec_postcard (A := EpochRecord) kv.2 in
      match room with
      | O => Ok ([], Some (er_id r))
      | S room' =>
          let? rest := take_page room' items' in Ok (r :: rest.1, rest.2)
      end
  end.

Definition list_epochs_desc (start : option u64) (limit : nat) (ks : Keyspace)
    : result StoreError (list EpochRecord * option u64) :=
  if decide (limit = 0%nat) then Ok ([], start)
  else
    let upper := u64_to_be (default U64_MAX start) in
    take_page limit (kv_range_rev ks epochs upper).

Definition list_epoch_leaves (id : u64) (ks : Keyspace)
    : result StoreError (list (bytes * string)) :=
  scan (fun k v =>
          if decide (Z.of_nat (length k) <> EPOCH_LEAVES_KEY_LEN)
          then Err (SBadLeavesKey (Z.of_nat (length k)))
          else Ok (drop 8 k, from_utf8_lossy v))
    (kv_prefix ks epoch_leaves (u64_to_be id)).

Definition get_revision_json (hash : Hash32) (ks : Keyspace) : result StoreError (option bytes) :=
  map_err SFjall (kv_get ks witness_revisions (arr hash)).

Definition get_tip_pair (signature_hash : Hash32) (ks : Keyspace)
    : result StoreError (option TipPairIndex) :=
  get_decoded tip_to_pair (arr signature_hash) dec_postcard ks.

Definition is_self_checked (signature_hash : Hash32) (ks : Keyspace) : result StoreError bool :=
  map_err SFjall (kv_contains_key ks self_checked_tips (arr signature_hash)).

Definition get_tip_for_leaf (l : Hash32) (method : AnchorMethod) (ks : Keyspace)
    : result StoreError (option Hash32) :=
  get_decoded leaf_to_tips (compose_leaf_to_tips_key l (method_byte method))
    (fun b => ok_or (try_array 32 b) (SBadLeafTipsKey (Z.of_nat (length b)))) ks.

Definition get_leaf_owner (l : Hash32) (ks : Keyspace) : result StoreError (option string) :=
  get_decoded leaf_owner (arr l) (fun b => Ok (from_utf8_lossy b)) ks.

(** Descending by epoch, then by tip. *)
Definition tip_order (a b : u64 * Hash32) : Prop :=
  b.1 < a.1 \/ (a.1 = b.1 /\ bytes_le (arr a.2) (arr b.2)).
#[export] Instance tip_order_dec : RelDecision tip_order.
Proof. intros a b. unfold tip_order. apply _. Defined.

Definition list_witness_tips_for_did (did : string) (ks : Keyspace)
    : result StoreError (list (u64 * Hash32)) :=
  let? rows :=
    scan (fun k v =>
            match try_array 32 k with
            | None => Ok None
            | Some tip =>
                let? idx := dec_postcard (A := TipPairIndex) v in
                Ok (if decide (ti_submitter_did idx = did) then Some (ti_epoch_id idx, tip)
                    else None)
            end)
      (kv_iter ks tip_to_pair) in
  Ok (merge_sort tip_order (omap id rows)).

Definition file_order (a b : TipPairIndex) : Prop :=
  bytes_le (as_bytes (ti_signature_file_name a)) (as_bytes (ti_signature_file_name b)).
#[export] Instance file_order_dec : RelDecision file_order.
Proof. intros a b. unfold file_order. apply _. Defined.

Definition list_witnesses_for_did_in_epoch (did : string) (epoch_id : u64)
    (method : AnchorMethod) (ks : Keyspace) : result StoreError (list TipPairIndex) :=
  let mb := method_byte method in
  let? rows := scan (fun _ v => dec_postcard (A := TipPairIndex) v) (kv_iter ks tip_to_pair) in
  Ok (merge_sort file_order
        (filter (fun idx => ti_epoch_id idx = epoch_id /\ ti_method_byte idx = mb /\
                            ti_submitter_did idx = did) rows)).

Definition get_contributor (address : Address20) (ks : Keyspace)
    : result StoreError (option ContributorEntry) :=
  get_decoded contributor_stats (arr address) dec_postcard ks.

Definition fuel_order (a b : ContributorEntry) : Prop :=
  ce_fuel_contributed_wei b <= ce_fuel_contributed_wei a.
#[export] Instance fuel_order_dec : RelDecision fuel_order.
Proof. intros a b. unfold fuel_order. apply _. Defined.

Definition list_contributors_sorted (limit : nat) (ks : Keyspace)
    : result StoreError (list ContributorEntry) :=
  let? entries :=
    scan (fun _ v => dec_postcard (A := ContributorEntry) v) (kv_iter ks contributor_stats) in
  Ok (take limit (merge_sort fuel_order entries)).

Definition get_watermark (chain : string) (ks : Keyspace) : result StoreError (option u64) :=
  get_decoded watcher_watermark (as_bytes chain) u64_from_be_slice ks.

(** The two counters of [totals], at [u64]. *)
Definition totals (ks : Keyspace) : result StoreError (u64 * u64) :=
  let? recs := scan (fun _ v => dec_postcard (A := EpochRecord) v) (kv_iter ks epochs) in
  Ok (fold_left (fun acc r => (wrapping_add 64 acc.1 1, wrapping_add 64 acc.2 (er_leaf_count r)))
        recs (0, 0)).

Definition contributor_count (ks : Keyspace) : result StoreError usize :=
  let? rows := scan (fun _ _ => Ok tt) (kv_iter ks contributor_stats) in
  Ok (Z.of_nat (length rows)).
End storage.
