(* ===== verification/StoreSpec.v ===== *)
(** * The abstract store

    What [crates/aqua-timestamp-core/src/storage.rs] promises: one typed map a
    partition ([AStore]), every write a list of typed updates applied at once
    ([sealed_aops], [minted_aops], ...).  [represents] relates it to the bytes
    of the keyspace, partition by partition. *)

From S2P Require Import Prelude External Merkle Accumulator Witness Epoch Utf8 Kv Storage.

(** The key type of a partition. *)
Definition pkey (p : Partition) : Type :=
  match p with
  | epochs | pending_anchors => Z
  | epoch_leaves => Z * Hash32
  | witness_revisions | leaf_owner | tip_to_pair | self_checked_tips => Hash32
  | leaf_to_tips | pending_leaves => Hash32 * AnchorMethod
  | contributor_stats => Address20
  | watcher_watermark => string
  end.
#[export] Instance pkey_eq_dec p : EqDecision (pkey p).
Proof. destruct p; cbn; apply _. Defined.
#[export] Instance pkey_countable p : Countable (pkey p).
Proof. destruct p; cbn; apply _. Defined.

(** The keys the store forms: epoch ids are [u64]. *)
Definition kok (p : Partition) : pkey p -> Prop :=
  match p with
  | epochs | pending_anchors => u64_ok
  | epoch_leaves => fun k => u64_ok k.1
  | _ => fun _ => True
  end.

Definition kenc (p : Partition) : pkey p -> bytes :=
  match p with
  | epochs | pending_anchors => u64_to_be
  | epoch_leaves => fun k => compose_leaves_key k.1 k.2
  | witness_revisions | leaf_owner | tip_to_pair | self_checked_tips => arr
  | leaf_to_tips | pending_leaves => fun k => compose_leaf_to_tips_key k.1 (method_byte k.2)
  | contributor_stats => arr
  | watcher_watermark => as_bytes
  end.

Lemma compose_leaf_to_tips_key_inj (a b : Hash32 * AnchorMethod) :
  compose_leaf_to_tips_key a.1 (method_byte a.2) = compose_leaf_to_tips_key b.1 (method_byte b.2) ->
  a = b.
Proof.
  destruct a as [l m], b as [l' m']. unfold compose_leaf_to_tips_key. cbn. intros Heq.
  apply app_inj_1 in Heq as [Hl [= Hm]]; [|by rewrite !arr_length].
  apply arr_inj in Hl as ->. apply (inj method_byte) in Hm as ->. done.
Qed.

(** Two keys of a partition are never encoded alike: the fixed-width composite
    keys [epoch id || leaf] and [leaf || method byte] decode uniquely. *)
Lemma kenc_inj p (k k' : pkey p) : kok p k -> kok p k' -> kenc p k = kenc p k' -> k = k'.
Proof.
  destruct p; cbn; intros Hk Hk' He;
    try (by apply u64_to_be_inj); try (by apply arr_inj); try (by apply as_bytes_inj);
    try (by apply compose_leaf_to_tips_key_inj).
  destruct k as [e l], k' as [e' l']. cbn [fst snd] in *. unfold compose_leaves_key in He. cbn in *.
  apply app_inj_1 in He as [He Hl]; [|by rewrite !u64_to_be_length].
  apply u64_to_be_inj in He as ->; [|done..]. by apply arr_inj in Hl as ->.
Qed.

Section store_spec.
Context `{HexCrate, Sdk, SerdeCrates, !StoreCodecs}.

(** The value type of a partition, and its encoding. *)
Definition pval (p : Partition) : Type :=
  match p with
  | epochs => EpochRecord
  | epoch_leaves | leaf_owner => string
  | witness_revisions => AnyRevision
  | leaf_to_tips => Hash32
  | tip_to_pair => TipPairIndex
  | contributor_stats => ContributorEntry
  | watcher_watermark | pending_leaves => Z
  | pending_anchors => PendingEpoch
  | self_checked_tips => unit
  end.

Definition enc_did (s : string) (b : bytes) : Prop := valid_utf8 s = true /\ b = as_bytes s.
Definition enc_u64 (z : Z) (b : bytes) : Prop := u64_ok z /\ b = u64_to_be z.

Definition venc (p : Partition) : pval p -> bytes -> Prop :=
  match p with
  | epochs => fun v b => encode v = Ok b
  | epoch_leaves | leaf_owner => enc_did
  | witness_revisions => fun v b => encode v = Ok b
  | leaf_to_tips => fun v b => b = arr v
  | tip_to_pair => fun v b => encode v = Ok b
  | contributor_stats => fun v b => encode v = Ok b
  | watcher_watermark | pending_leaves => enc_u64
  | pending_anchors => fun v b => encode v = Ok b
  | self_checked_tips => fun _ b => b = []
  end.

Definition AStore : Type := forall p, gmap (pkey p) (pval p).

Definition look (A : AStore) (p : Partition) (k : pkey p) : option (pval p) := A p !! k.

Definition represents (c : contents) (A : AStore) : Prop :=
  forall p, rep (kok p) (kenc p) (venc p) (A p) (c p).

Lemma represents_look c A p k :
  represents c A -> kok p k ->
  match c p !! kenc p k with
  | Some vb => exists v, look A p k = Some v /\ venc p v vb
  | None => look A p k = None
  end.
Proof. intros Hr Hk. exact (rep_lookup _ _ _ (kenc_inj p) _ _ k (Hr p) Hk). Qed.

(** ** Typed updates *)

Inductive aop :=
| APut (p : Partition) (k : pkey p) (v : pval p)
| ADel (p : Partition) (k : pkey p).

Definition part (a : aop) : Partition := match a with APut p _ _ | ADel p _ => p end.

Definition upd (A : AStore) (p : Partition) (m : gmap (pkey p) (pval p)) : AStore :=
  fun q => match decide (p = q) with
           | left e => eq_rect p (fun q => gmap (pkey q) (pval q)) m q e
           | right _ => A q
           end.

Definition apply_aop (A : AStore) (a : aop) : AStore :=
  match a with
  | APut p k v => upd A p (<[k := v]> (A p))
  | ADel p k => upd A p (delete k (A p))
  end.

Definition apply_aops (A : AStore) (l : list aop) : AStore := fold_left apply_aop l A.

Lemma upd_eq A p m : upd A p m p = m.
Proof.
  unfold upd. destruct (decide (p = p)) as [e|]; [|done].
  by rewrite (proof_irrel e eq_refl).
Qed.
Lemma upd_ne A p q m : p <> q -> upd A p m q = A q.
Proof. intros Hne. unfold upd. by destruct (decide (p = q)). Qed.

(** A batch operation writes a typed update. *)
Inductive enc_op : aop -> batch_op -> Prop :=
| enc_put p k v vb : kok p k -> venc p v vb -> enc_op (APut p k v) (BInsert p (kenc p k) vb)
| enc_del p k : kok p k -> enc_op (ADel p k) (BRemove p (kenc p k)).

Lemma represents_apply c A a o :
  represents c A -> enc_op a o -> represents (apply_op c o) (apply_aop A a).
Proof.
  intros Hr Ho q. destruct Ho as [p k v vb Hk Hv | p k Hk]; cbn.
  - destruct (decide (p = q)) as [<-|Hne].
    + rewrite upd_eq. apply rep_insert; auto using kenc_inj.
    + by rewrite upd_ne.
  - destruct (decide (p = q)) as [<-|Hne].
    + rewrite upd_eq. apply rep_delete; auto using kenc_inj.
    + by rewrite upd_ne.
Qed.

Lemma represents_fold c A l ops :
  Forall2 enc_op l ops -> represents c A ->
  represents (fold_left apply_op ops c) (apply_aops A l).
Proof.
  unfold apply_aops. intros Hf. revert c A. induction Hf as [|a o l ops Ha _ IH]; intros c A Hr;
    cbn; [done|]. apply IH. by apply represents_apply.
Qed.

Lemma represents_empty : represents (fun _ => ∅) (fun _ => ∅).
Proof. intros p. apply rep_empty. Qed.

(** ** What each write does *)

Definition tip_pair_of (w : MintedWitness) : TipPairIndex :=
  {| ti_object_hash := w_object_hash w;
     ti_signature_hash := w_signature_hash w;
     ti_leaf := w_leaf w;
     ti_method_byte := method_byte (w_method w);
     ti_epoch_id := w_epoch_id w;
     ti_submitter_did := w_submitter_did w;
     ti_object_file_name := w_object_file_name w;
     ti_signature_file_name := w_signature_file_name w |}.

Definition witness_aops (w : MintedWitness) : list aop :=
  [APut witness_revisions (w_object_hash w) (w_object_revision w);
   APut witness_revisions (w_signature_hash w) (w_signature_revision w);
   APut leaf_to_tips (w_leaf w, w_method w) (w_signature_hash w);
   APut tip_to_pair (w_signature_hash w) (tip_pair_of w)].

(** The leaves of a pending record; [leaf_hashes] answers on every record the
    sealer writes. *)
Definition hashes_of (p : PendingEpoch) : list Hash32 :=
  match leaf_hashes p with Ok ls => ls | Err _ => [] end.

Definition pending_aops (p : PendingEpoch) : list aop :=
  APut pending_anchors (p_epoch_id p) p ::
  concat ((fun l => (fun m => APut pending_leaves (l, m) (p_epoch_id p)) <$> p_methods p)
            <$> hashes_of p).

Definition leaf_aops (epoch_id : u64) (e : LeafEntry) : list aop :=
  [APut epoch_leaves (epoch_id, leaf e) (submitter_did e);
   APut leaf_owner (leaf e) (submitter_did e)].

Definition sealed_aops (record : EpochRecord) (leaves : list LeafEntry)
    (witnesses : list MintedWitness) (pending : option PendingEpoch) : list aop :=
  match pending with Some p => pending_aops p | None => [] end ++
  [APut epochs (er_id record) record] ++
  concat (leaf_aops (er_id record) <$> leaves) ++
  concat (witness_aops <$> witnesses).

(** The lookups of [done] that belong to the epoch, and the record itself
    when no method is left. *)
Definition minted_aops (A : AStore) (remaining : PendingEpoch) (done : AnchorMethod)
    (witnesses : list MintedWitness) : list aop :=
  concat (witness_aops <$> witnesses) ++
  ((fun w => APut self_checked_tips (w_signature_hash w) tt) <$> witnesses) ++
  concat ((fun l => if decide (look A pending_leaves (l, done) = Some (p_epoch_id remaining))
                    then [ADel pending_leaves (l, done)] else []) <$> hashes_of remaining) ++
  [if decide (p_methods remaining = []) then ADel pending_anchors (p_epoch_id remaining)
   else APut pending_anchors (p_epoch_id remaining) remaining].

Definition contributor_aops (updates : list (Address20 * ContributorEntry)) (chain : string)
    (block_number : u64) : list aop :=
  ((fun u => APut contributor_stats u.1 u.2) <$> updates) ++
  [APut watcher_watermark chain block_number].

(** ** Inputs the types of the source guarantee *)

Definition entry_ok (e : LeafEntry) : Prop := valid_utf8 (submitter_did e) = true.
Definition pending_ok (p : PendingEpoch) : Prop := u64_ok (p_epoch_id p).
Definition sealed_ok (record : EpochRecord) (leaves : list LeafEntry)
    (pending : option PendingEpoch) : Prop :=
  u64_ok (er_id record) /\ Forall entry_ok leaves /\ (forall p, pending = Some p -> pending_ok p).

(** ** Reading updates back *)

Lemma apply_aops_app A l k : apply_aops A (l ++ k) = apply_aops (apply_aops A l) k.
Proof. apply fold_left_app. Qed.

Lemma apply_aops_other A l p : Forall (fun a => part a <> p) l -> apply_aops A l p = A p.
Proof.
  unfold apply_aops. revert A; induction l as [|a l IH]; intros A Hf; cbn; [done|].
  inversion Hf as [|? ? Ha Hl]; subst. rewrite IH by done.
  destruct a as [q k v | q k]; cbn in *; by rewrite upd_ne.
Qed.

(** Updates that never write [k] of [p] leave it. *)
Definition hits (p : Partition) (k : pkey p) (a : aop) : Prop :=
  (exists v, a = APut p k v) \/ a = ADel p k.

Lemma apply_aop_lookup_ne A a p k : ~ hits p k a -> look (apply_aop A a) p k = look A p k.
Proof.
  unfold hits, look. intros Hn. destruct a as [q k' v | q k']; cbn.
  - destruct (decide (q = p)) as [<-|]; [|by rewrite upd_ne]. rewrite upd_eq.
    destruct (decide (k' = k)) as [->|]; [|by rewrite lookup_insert_ne].
    destruct Hn. left. by exists v.
  - destruct (decide (q = p)) as [<-|]; [|by rewrite upd_ne]. rewrite upd_eq.
    destruct (decide (k' = k)) as [->|]; [|by rewrite lookup_delete_ne].
    destruct Hn. by right.
Qed.

Lemma apply_aops_lookup_ne A l p k :
  Forall (fun a => ~ hits p k a) l -> look (apply_aops A l) p k = look A p k.
Proof.
  unfold apply_aops. revert A; induction l as [|a l IH]; intros A Hf; cbn; [done|].
  inversion Hf; subst. rewrite IH by done. by apply apply_aop_lookup_ne.
Qed.

(** When every update that writes [k] puts [v] there, and one does, [v] is
    there afterwards. *)
Lemma apply_aops_lookup_put A l p k v :
  APut p k v ∈ l -> (forall a, a ∈ l -> hits p k a -> a = APut p k v) ->
  look (apply_aops A l) p k = Some v.
Proof.
  revert A; induction l as [|a l IH] using rev_ind; intros A Hin Hall; [by apply elem_of_nil in Hin|].
  rewrite apply_aops_app. unfold look in *. cbn.
  destruct (decide (part a = p)) as [Hp|Hp].
  - destruct a as [q k' v' | q k']; cbn in Hp; subst q; cbn; rewrite upd_eq.
    + destruct (decide (k' = k)) as [->|Hk].
      * rewrite lookup_insert_eq.
        assert (APut p k v' = APut p k v) as [= Hv].
        { apply Hall; [apply elem_of_app; right; by apply list_elem_of_singleton|]. left. by exists v'. }
        f_equal. by apply Eqdep_dec.inj_pair2_eq_dec in Hv; [|apply Partition_eq_dec].
      * rewrite lookup_insert_ne by done. apply IH.
        -- apply elem_of_app in Hin as [?|Hin%list_elem_of_singleton]; [done|].
           injection Hin as Hk' _. apply Eqdep_dec.inj_pair2_eq_dec in Hk'; [congruence|apply Partition_eq_dec].
        -- intros a Ha. apply Hall, elem_of_app. by left.
    + destruct (decide (k' = k)) as [->|Hk].
      * assert (ADel p k = APut p k v); [|done].
        apply Hall; [apply elem_of_app; right; by apply list_elem_of_singleton|]. by right.
      * rewrite lookup_delete_ne by done. apply IH.
        -- apply elem_of_app in Hin as [?|Hin%list_elem_of_singleton]; [done|]. done.
        -- intros a Ha. apply Hall, elem_of_app. by left.
  - pose proof (apply_aop_lookup_ne (apply_aops A l) a p k) as Hne. unfold look in Hne.
    rewrite Hne by (intros [[? ->]| ->]; done). apply IH.
    + apply elem_of_app in Hin as [?|Hin%list_elem_of_singleton]; [done|]. by subst a.
    + intros a' Ha. apply Hall, elem_of_app. by left.
Qed.
End store_spec.
