(* ===== verification/StoreRefine.v ===== *)
(** * The store refines its abstract state

    Every write of [Storage] is one atomic abstract update of [StoreSpec], and
    every read answers the abstract maps. *)

From S2P Require Import Prelude External Merkle Accumulator Witness Epoch Utf8 Kv Storage StoreSpec.

(** What the store relies on of the serialisers. *)
Class StoreCodecLaws `{HexCrate, Sdk, SerdeCrates, !StoreCodecs} := {
  epoch_codec_laws :: codec_laws epoch_codec;
  tip_pair_codec_laws :: codec_laws tip_pair_codec;
  contributor_codec_laws :: codec_laws contributor_codec;
  pending_codec_laws :: codec_laws pending_codec;
  revision_codec_laws :: codec_laws revision_codec;
}.

Section writes.
Context `{HexCrate, Sdk, FjallLaws, SerdeCrates, !StoreCodecs}.

(** ** The batch the code builds encodes the abstract update *)

Lemma witness_ops_enc w ops :
  witness_ops w = Ok ops -> Forall2 enc_op (witness_aops w) ops.
Proof.
  unfold witness_ops. intros Hw.
  apply result_bind_ok in Hw as (oj & Hoj%map_err_ok & Hw).
  apply result_bind_ok in Hw as (sj & Hsj%map_err_ok & Hw).
  apply result_bind_ok in Hw as (ib & Hib%map_err_ok & Hw). injection Hw as <-.
  repeat constructor; done.
Qed.

Lemma collect_concat_enc {A E} (f : A -> result E (list batch_op)) (g : A -> list aop) l opss :
  (forall x ops, x ∈ l -> f x = Ok ops -> Forall2 enc_op (g x) ops) ->
  collect f l = Ok opss -> Forall2 enc_op (concat (g <$> l)) (concat opss).
Proof.
  intros Hfg Hc%collect_ok. induction Hc as [|x ops l opss Hx Hc IH]; cbn; [constructor|].
  apply Forall2_app; [apply Hfg; [apply list_elem_of_here|done]|].
  apply IH. intros y ops' Hy. apply Hfg. by apply list_elem_of_further.
Qed.

Lemma concat_enc {A} (f : A -> list batch_op) (g : A -> list aop) l :
  (forall x, x ∈ l -> Forall2 enc_op (g x) (f x)) ->
  Forall2 enc_op (concat (g <$> l)) (concat (f <$> l)).
Proof.
  induction l as [|x l IH]; intros Hfg; cbn; [constructor|].
  apply Forall2_app; [apply Hfg, list_elem_of_here|].
  apply IH. intros y Hy. apply Hfg. by apply list_elem_of_further.
Qed.

Lemma fmap_enc {A} (f : A -> batch_op) (g : A -> aop) l :
  (forall x, x ∈ l -> enc_op (g x) (f x)) -> Forall2 enc_op (g <$> l) (f <$> l).
Proof.
  induction l as [|x l IH]; intros Hfg; cbn; constructor; [apply Hfg, list_elem_of_here|].
  apply IH. intros y Hy. apply Hfg. by apply list_elem_of_further.
Qed.

Lemma write_witnesses_enc ws ops :
  write_witnesses ws = Ok ops -> Forall2 enc_op (concat (witness_aops <$> ws)) ops.
Proof.
  unfold write_witnesses. intros Hw. apply result_bind_ok in Hw as (opss & Hc & Hw).
  injection Hw as <-. eapply collect_concat_enc, Hc. intros; by apply witness_ops_enc.
Qed.

Lemma pending_ops_enc p ops :
  pending_ok p -> pending_ops p = Ok ops -> Forall2 enc_op (pending_aops p) ops.
Proof.
  intros Hp Ho. unfold pending_ops in Ho. apply result_bind_ok in Ho as (json & Hj%map_err_ok & Ho).
  apply result_bind_ok in Ho as (ls & Hls%map_err_ok & Ho). injection Ho as <-.
  unfold pending_aops, hashes_of. rewrite Hls. constructor.
  - by apply (enc_put pending_anchors (p_epoch_id p)).
  - apply concat_enc. intros l _. apply fmap_enc. intros m _.
    apply (enc_put pending_leaves (l, m) (p_epoch_id p)); [done|]. by split.
Qed.

Lemma sealed_batch_enc record leaves ws pending ops :
  sealed_ok record leaves pending ->
  sealed_batch record leaves ws pending = Ok ops ->
  Forall2 enc_op (sealed_aops record leaves ws pending) ops.
Proof.
  intros (Hid & Hl & Hp) Hs. unfold sealed_batch in Hs.
  apply result_bind_ok in Hs as (pend & Hpend & Hs).
  apply result_bind_ok in Hs as (enc & Henc%map_err_ok & Hs).
  apply result_bind_ok in Hs as (wits & Hw & Hs). injection Hs as <-.
  unfold sealed_aops. apply Forall2_app; [|cbn [app]; constructor; [|apply Forall2_app]].
  - destruct pending as [p|]; [|injection Hpend as <-; constructor].
    apply pending_ops_enc; auto.
  - by apply (enc_put epochs (er_id record)).
  - apply concat_enc. intros e He. rewrite Forall_forall in Hl. specialize (Hl e He).
    constructor; [by apply (enc_put epoch_leaves (er_id record, leaf e))|].
    constructor; [by apply (enc_put leaf_owner (leaf e)) | constructor].
  - by apply write_witnesses_enc.
Qed.

Lemma pending_leaf_lookup c (A : AStore) l m :
  represents c A -> 
  forall z, u64_ok z ->
  c pending_leaves !! compose_leaf_to_tips_key l (method_byte m) = Some (u64_to_be z) <->
  look A pending_leaves (l, m) = Some z.
Proof.
  intros Hr z Hz. pose proof (represents_look _ A pending_leaves (l, m) Hr I) as Hl.
  cbn [kenc fst snd] in Hl. destruct (c pending_leaves !! _) as [vb|].
  - destruct Hl as (v & -> & Hv & ->). split.
    + intros He%(inj Some). f_equal. by apply u64_to_be_inj.
    + by intros [= ->].
  - rewrite Hl. done.
Qed.

Lemma minted_batch_enc remaining done ws ks (A : AStore) ops :
  pending_ok remaining -> represents (view ks) A ->
  minted_batch remaining done ws ks = Ok ops ->
  Forall2 enc_op (minted_aops A remaining done ws) ops.
Proof.
  intros Hp Hr Hm. unfold minted_batch in Hm.
  apply result_bind_ok in Hm as (wits & Hw & Hm). cbv zeta in Hm.
  apply result_bind_ok in Hm as (ls & Hls%map_err_ok & Hm).
  apply result_bind_ok in Hm as (rem & Hrem & Hm).
  apply result_bind_ok in Hm as (rec & Hrec & Hm). injection Hm as <-.
  unfold minted_aops, hashes_of. rewrite Hls. repeat apply Forall2_app.
  - by apply write_witnesses_enc.
  - apply fmap_enc. intros w _. by apply (enc_put self_checked_tips).
  - eapply collect_concat_enc, Hrem. intros l lops _ Hl. unfold pending_leaf_removal in Hl.
    apply result_bind_ok in Hl as (cur & Hcur%map_err_ok & Hl). injection Hl as <-.
    apply kv_get_ok in Hcur as ->.
    pose proof (pending_leaf_lookup _ _ l done Hr _ Hp) as Hiff.
    destruct (decide (look A pending_leaves (l, done) = Some (p_epoch_id remaining))) as [Hd|Hd];
      [rewrite decide_True by tauto | rewrite decide_False by tauto; constructor].
    constructor; [by apply (enc_del pending_leaves (l, done)) | constructor].
  - constructor; [|constructor]. case_decide.
    + injection Hrec as <-. by apply (enc_del pending_anchors (p_epoch_id remaining)).
    + apply result_bind_ok in Hrec as (json & Hj%map_err_ok & Hrec). injection Hrec as <-.
      by apply (enc_put pending_anchors (p_epoch_id remaining)).
Qed.

(** ** Atomicity *)

(** [r] is the answer of an operation meant to update [A] to [A']: applied
    when it says so; a failure leaves [A], or the update is in place but not
    synced to disk ([commit] done, [persist] failed). *)
Definition refined {X} (A A' : AStore) (s : Keyspace * result StoreError X) : Prop :=
  match s.2 with
  | Ok _ => represents (view s.1) A'
  | Err _ => represents (view s.1) A \/ represents (view s.1) A'
  end.

Lemma persist_now_refined ks (A A' : AStore) :
  represents (view ks) A' -> refined A A' (persist_now ks).
Proof.
  intros Hr. unfold persist_now, refined. pose proof (kv_persist_ok ks) as Hp.
  destruct (kv_persist ks) as [ks' [[]|e]]; cbn in *; rewrite Hp; auto.
Qed.

Lemma commit_batch_refined built ks (A : AStore) l :
  represents (view ks) A ->
  (forall ops, built = Ok ops -> Forall2 enc_op l ops) ->
  refined A (apply_aops A l) (commit_batch built ks).
Proof.
  intros Hr Hb. unfold commit_batch. destruct built as [ops|e]; [|by left].
  pose proof (kv_commit_ok ops ks) as Hc.
  destruct (kv_commit ops ks) as [ks' [[]|e]]; cbn in Hc.
  - apply persist_now_refined. rewrite Hc. apply represents_fold; auto.
  - left. cbn. by rewrite Hc.
Qed.

Lemma insert_and_persist_refined p k v vb ks (A : AStore) :
  represents (view ks) A -> kok p k -> venc p v vb ->
  refined A (apply_aops A [APut p k v]) (insert_and_persist p (kenc p k) vb ks).
Proof.
  intros Hr Hk Hv. unfold insert_and_persist.
  pose proof (kv_insert_ok p (kenc p k) vb ks) as Hi.
  destruct (kv_insert p (kenc p k) vb ks) as [ks' [[]|e]]; cbn in Hi.
  - apply persist_now_refined. rewrite Hi.
    apply (represents_apply (view ks) A (APut p k v) (BInsert p (kenc p k) vb)); [done|].
    by constructor.
  - left. cbn. by rewrite Hi.
Qed.

Lemma persist_sealed_refined record leaves ws pending ks (A : AStore) :
  represents (view ks) A -> sealed_ok record leaves pending ->
  refined A (apply_aops A (sealed_aops record leaves ws pending))
    (persist_sealed_epoch_with_pending record leaves ws pending ks).
Proof.
  intros Hr Hok. apply commit_batch_refined; [done|]. intros ops. by apply sealed_batch_enc.
Qed.

Lemma persist_minted_refined remaining done ws ks (A : AStore) :
  represents (view ks) A -> pending_ok remaining ->
  refined A (apply_aops A (minted_aops A remaining done ws))
    (persist_pending_minted remaining done ws ks).
Proof.
  intros Hr Hok. apply commit_batch_refined; [done|]. intros ops. by apply minted_batch_enc.
Qed.

Lemma save_pending_refined p ks (A : AStore) :
  represents (view ks) A -> pending_ok p ->
  refined A (apply_aops A [APut pending_anchors (p_epoch_id p) p]) (save_pending p ks).
Proof.
  intros Hr Hok. unfold save_pending. destruct (encode p) as [json|e] eqn:He; [|by left].
  by apply (insert_and_persist_refined pending_anchors (p_epoch_id p) p).
Qed.

Lemma upsert_refined updates chain block ks (A : AStore) :
  represents (view ks) A -> u64_ok block ->
  refined A (apply_aops A (contributor_aops updates chain block))
    (upsert_contributors_and_watermark updates chain block ks).
Proof.
  intros Hr Hb. apply commit_batch_refined; [done|]. intros ops Ho.
  apply result_bind_ok in Ho as (cops & Hc & Ho). injection Ho as <-.
  unfold contributor_aops. apply Forall2_app.
  - apply collect_ok in Hc. induction Hc as [|u o us os Hu _ IH]; cbn; constructor; [|done].
    unfold contributor_ops in Hu. apply result_bind_ok in Hu as (enc & He%map_err_ok & Hu).
    injection Hu as <-. by apply (enc_put contributor_stats u.1 u.2).
  - constructor; [by apply (enc_put watcher_watermark chain block) | constructor].
Qed.

Lemma set_watermark_refined chain block ks (A : AStore) :
  represents (view ks) A -> u64_ok block ->
  refined A (apply_aops A [APut watcher_watermark chain block]) (set_watermark chain block ks).
Proof.
  intros Hr Hb. by apply (insert_and_persist_refined watcher_watermark chain block).
Qed.

Lemma open_store_view names ks : view (open_partitions names ks).1 = view ks.
Proof.
  revert ks; induction names as [|n names IH]; intros ks; cbn; [done|].
  pose proof (kv_open_view n ks) as Ho. destruct (kv_open_partition n ks) as [ks' [[]|e]]; cbn in *.
  - by rewrite IH.
  - done.
Qed.

(** C20. Each write of the store is atomic: whatever fails (an encoding, the
    commit, the final sync), the keyspace afterwards represents either the
    state before or the whole update, and the whole update when the call
    answers [Ok]. The update is the abstract one: a sealed epoch with its
    leaves, owners, witnesses and, for a pending epoch, its record and one
    lookup a (leaf, method); the served witnesses of a method with their
    self-checked marks, the removal of that method's lookups that still point
    to this epoch and the shrunk (or removed) record; a saved record; the
    contributors with the watermark. *)
Theorem store_writes_atomic ks (A : AStore) :
  represents (view ks) A ->
  (forall record leaves ws pending, sealed_ok record leaves pending ->
     refined A (apply_aops A (sealed_aops record leaves ws pending))
       (persist_sealed_epoch_with_pending record leaves ws pending ks)) /\
  (forall remaining done ws, pending_ok remaining ->
     refined A (apply_aops A (minted_aops A remaining done ws))
       (persist_pending_minted remaining done ws ks)) /\
  (forall p, pending_ok p ->
     refined A (apply_aops A [APut pending_anchors (p_epoch_id p) p]) (save_pending p ks)) /\
  (forall updates chain block, u64_ok block ->
     refined A (apply_aops A (contributor_aops updates chain block))
       (upsert_contributors_and_watermark updates chain block ks)).
Proof.
  intros Hr. split_and!; intros.
  - by apply persist_sealed_refined.
  - by apply persist_minted_refined.
  - by apply save_pending_refined.
  - by apply upsert_refined.
Qed.
End writes.

(** ** Reads *)

(** The answer of a read of a represented state: [P] of the value, or the
    keyspace's own failure (decoding never fails). *)
Definition read_ok `{HexCrate, Sdk, Fjall, SerdeCrates} {A} (r : result StoreError A)
    (P : A -> Prop) : Prop :=
  match r with Ok a => P a | Err e => exists fe, e = SFjall fe end.

Section reads.
Context `{HexLaws, Sdk, FjallLaws, SerdeCrates, !StoreCodecs, !StoreCodecLaws}.

Lemma read_ok_bind {A B} (r : result StoreError A) (f : A -> result StoreError B) P Q :
  read_ok r P -> (forall a, P a -> read_ok (f a) Q) -> read_ok (result_bind r f) Q.
Proof. destruct r; cbn; auto. Qed.

Lemma get_decoded_read {X} (A : AStore) p k (dec : bytes -> result StoreError X)
    (g : pval p -> X) ks :
  represents (view ks) A -> kok p k ->
  (forall v vb, venc p v vb -> dec vb = Ok (g v)) ->
  read_ok (get_decoded p (kenc p k) dec ks) (fun r => r = g <$> look A p k).
Proof.
  intros Hr Hk Hd. unfold get_decoded.
  destruct (kv_get ks p (kenc p k)) as [b|e] eqn:Hg; cbn; [|by eexists].
  apply kv_get_ok in Hg as ->.
  pose proof (represents_look _ A p k Hr Hk) as Hl.
  destruct (view ks p !! kenc p k) as [vb|].
  - destruct Hl as (v & Hv & Henc). rewrite (Hd _ _ Henc). cbn. by rewrite Hv.
  - cbn. by rewrite Hl.
Qed.

Lemma u64_slice_read v vb : enc_u64 v vb -> u64_from_be_slice vb = Ok v.
Proof.
  intros [Hv ->]. unfold u64_from_be_slice. rewrite decide_False by (rewrite u64_to_be_length; lia).
  by rewrite u64_be_roundtrip.
Qed.

Lemma did_read v vb : enc_did v vb -> Ok (E := StoreError) (from_utf8_lossy vb) = Ok v.
Proof. intros [Hv ->]. by rewrite from_utf8_lossy_as_bytes. Qed.

Lemma postcard_read {V} (c : codec PostcardError V) `{!codec_laws c} (v : V) vb :
  encode v = Ok vb -> dec_postcard vb = Ok v.
Proof. intros He. unfold dec_postcard. by rewrite (decode_encode _ _ He). Qed.

Section lookups.
Context (ks : Keyspace) (A : AStore) (Hr : represents (view ks) A).

Lemma option_id {X} (o : option X) : (fun x => x) <$> o = o.
Proof. by destruct o. Qed.

(** A point lookup whose decoder inverts the encoding. *)
Lemma point_read p k (dec : bytes -> result StoreError (pval p)) :
  kok p k -> (forall v vb, venc p v vb -> dec vb = Ok v) ->
  read_ok (get_decoded p (kenc p k) dec ks) (fun r => r = look A p k).
Proof.
  intros Hk Hd. pose proof (get_decoded_read A p k dec (fun v => v) ks Hr Hk Hd) as Hg.
  by rewrite option_id in Hg.
Qed.

Lemma get_epoch_read id : u64_ok id -> read_ok (get_epoch id ks) (fun r => r = look A epochs id).
Proof. intros Hid. apply (point_read epochs); [done|]. intros. by apply (postcard_read epoch_codec). Qed.

Lemma get_tip_pair_read t : read_ok (get_tip_pair t ks) (fun r => r = look A tip_to_pair t).
Proof. apply (point_read tip_to_pair t); [done|]. intros. by apply (postcard_read tip_pair_codec). Qed.

Lemma get_tip_for_leaf_read l m :
  read_ok (get_tip_for_leaf l m ks) (fun r => r = look A leaf_to_tips (l, m)).
Proof.
  apply (point_read leaf_to_tips (l, m)); [done|]. intros v vb ->. by rewrite try_array_arr.
Qed.

Lemma get_leaf_owner_read l : read_ok (get_leaf_owner l ks) (fun r => r = look A leaf_owner l).
Proof. apply (point_read leaf_owner l); [done|]. intros. by apply did_read. Qed.

Lemma get_pending_epoch_read l m :
  read_ok (get_pending_epoch_for_leaf l m ks) (fun r => r = look A pending_leaves (l, m)).
Proof. apply (point_read pending_leaves (l, m)); [done|]. intros. by apply u64_slice_read. Qed.

Lemma is_epoch_pending_read id m :
  u64_ok id ->
  read_ok (is_epoch_pending id m ks)
    (fun r => r = match look A pending_anchors id with
                  | Some p => bool_decide (m ∈ p_methods p) | None => false end).
Proof.
  intros Hid. unfold is_epoch_pending. eapply read_ok_bind.
  - apply (point_read pending_anchors id); [done|]. intros v vb Hv. unfold dec_pending.
    by rewrite (decode_encode (c := pending_codec) v vb Hv).
  - by intros a ->.
Qed.

Lemma is_self_checked_read t :
  read_ok (is_self_checked t ks) (fun r => r = bool_decide (is_Some (look A self_checked_tips t))).
Proof.
  unfold is_self_checked. destruct (kv_contains_key _ _ _) as [b|e] eqn:Hc; cbn; [|by eexists].
  apply kv_contains_ok in Hc as ->. apply bool_decide_ext.
  pose proof (represents_look _ A self_checked_tips t Hr I) as Hl. cbn [kenc] in Hl.
  destruct (view ks self_checked_tips !! arr t).
  - destruct Hl as (v & -> & _). split; eauto.
  - rewrite Hl. split; by intros [].
Qed.

Lemma get_contributor_read a :
  read_ok (get_contributor a ks) (fun r => r = look A contributor_stats a).
Proof.
  apply (point_read contributor_stats a); [done|]. intros. by apply (postcard_read contributor_codec).
Qed.

Lemma get_watermark_read c : read_ok (get_watermark c ks) (fun r => r = look A watcher_watermark c).
Proof. apply (point_read watcher_watermark c); [done|]. intros. by apply u64_slice_read. Qed.

(** A revision's stored bytes are its encoding. *)
Lemma get_revision_read h :
  read_ok (get_revision_json h ks) (fun r =>
    match r with
    | Some b => exists rev, look A witness_revisions h = Some rev /\ encode rev = Ok b
    | None => look A witness_revisions h = None
    end).
Proof.
  unfold get_revision_json. destruct (kv_get ks witness_revisions (arr h)) as [b|e] eqn:Hg; cbn;
    [|by eexists]. apply kv_get_ok in Hg as ->.
  pose proof (represents_look _ A witness_revisions h Hr I) as Hl. cbn [kenc] in Hl.
  by destruct (view ks witness_revisions !! arr h).
Qed.
End lookups.

(** Every point lookup of the store answers its abstract map, and fails
    only when the keyspace does: a value the store wrote always decodes to
    what was written. *)
Theorem store_lookups_spec ks (A : AStore) :
  represents (view ks) A ->
  (forall id, u64_ok id -> read_ok (get_epoch id ks) (fun r => r = look A epochs id)) /\
  (forall t, read_ok (get_tip_pair t ks) (fun r => r = look A tip_to_pair t)) /\
  (forall l m, read_ok (get_tip_for_leaf l m ks) (fun r => r = look A leaf_to_tips (l, m))) /\
  (forall l, read_ok (get_leaf_owner l ks) (fun r => r = look A leaf_owner l)) /\
  (forall l m, read_ok (get_pending_epoch_for_leaf l m ks)
     (fun r => r = look A pending_leaves (l, m))) /\
  (forall id m, u64_ok id -> read_ok (is_epoch_pending id m ks)
     (fun r => r = match look A pending_anchors id with
                   | Some p => bool_decide (m ∈ p_methods p) | None => false end)) /\
  (forall t, read_ok (is_self_checked t ks)
     (fun r => r = bool_decide (is_Some (look A self_checked_tips t)))) /\
  (forall a, read_ok (get_contributor a ks) (fun r => r = look A contributor_stats a)) /\
  (forall c, read_ok (get_watermark c ks) (fun r => r = look A watcher_watermark c)).
Proof.
  intros Hr. split_and!; intros;
    [by apply get_epoch_read|by apply get_tip_pair_read|by apply get_tip_for_leaf_read
    |by apply get_leaf_owner_read|by apply get_pending_epoch_read|by apply is_epoch_pending_read
    |by apply is_self_checked_read|by apply get_contributor_read|by apply get_watermark_read].
Qed.
End reads.
