(* ===== verification/StoreScans.v ===== *)
(** * Scans of the store

    The operations of [Storage] that iterate a partition (the pending epochs,
    the epoch pages, a contributor list, a DID's tips, the totals) against the
    abstract maps of [StoreSpec]. *)

From S2P Require Import Prelude External Merkle Accumulator Witness Epoch Utf8 Kv Storage StoreSpec StoreRefine.

Section scans.
Context `{HexLaws, Sdk, FjallLaws, SerdeCrates, !StoreCodecs, !StoreCodecLaws}.

(** A typed entry and the entry of the keyspace it is stored as. *)
Definition entry_rel (p : Partition) (kv : pkey p * pval p) (kvb : bytes * bytes) : Prop :=
  kvb.1 = kenc p kv.1 /\ venc p kv.2 kvb.2.

Definition entry_le (p : Partition) (a b : pkey p * pval p) : Prop :=
  bytes_le (kenc p a.1) (kenc p b.1).

(** The entries of [A p] in key order. *)
Record in_order (A : AStore) (p : Partition) (l : list (pkey p * pval p)) : Prop := {
  io_perm : l ≡ₚ map_to_list (A p);
  io_sorted : StronglySorted (entry_le p) l;
  io_ok : Forall (fun kv => kok p kv.1) l;
}.

Lemma StronglySorted_rel {X Y} (R : X -> Y -> Prop) (P : X -> X -> Prop) (Q : Y -> Y -> Prop) l k :
  (forall a b x y, R a x -> R b y -> Q x y -> P a b) ->
  Forall2 R l k -> StronglySorted Q k -> StronglySorted P l.
Proof.
  intros Hpq Hf. induction Hf as [|a x l k Ha Hf IH]; intros Hs; constructor;
    apply StronglySorted_inv in Hs as [Hs Hall]; [auto|].
  rewrite Forall_forall in Hall. apply Forall_forall. intros b Hb.
  apply list_elem_of_lookup in Hb as [i Hi].
  destruct (Forall2_lookup_l _ _ _ _ _ Hf Hi) as (y & Hy & Hr).
  eapply Hpq; [done..|]. apply Hall. by eapply list_elem_of_lookup_2.
Qed.

Lemma represents_in_order c A p :
  represents c A ->
  exists l, in_order A p l /\ Forall2 (entry_rel p) l (sorted_entries (c p)).
Proof.
  intros Hr. destruct (rep_entries _ _ _ (kenc_inj p) _ _ (Hr p)) as (l & Hl & Hf).
  exists l. split; [|done]. split; [done| |].
  - eapply StronglySorted_rel; [|done|apply sorted_entries_sorted].
    intros a b x y [Ha _] [Hb _]. unfold entry_le, key_le. by rewrite Ha, Hb.
  - apply Forall_forall. intros [k v] Hin. rewrite Hl in Hin.
    apply elem_of_map_to_list in Hin. by eapply rep_keys.
Qed.

Lemma scan_read {X} p (f : bytes -> bytes -> result StoreError X) (g : pkey p * pval p -> X)
    items l es :
  (forall kv kvb, entry_rel p kv kvb -> f kvb.1 kvb.2 = Ok (g kv)) ->
  Forall2 (entry_rel p) l es -> Forall2 item_ok items es ->
  read_ok (scan f items) (fun r => r = g <$> l).
Proof.
  intros Hfg Hl Hi. revert l Hl. unfold scan.
  induction Hi as [|item kvb items es Hit _ IH]; intros l Hl; inversion Hl; subst; cbn; [done|].
  destruct item as [kv|e]; cbn; [|by eexists]. rewrite (Hit kv eq_refl).
  erewrite Hfg by done. cbn. eapply read_ok_bind; [by apply IH|]. intros r ->. done.
Qed.

Lemma pending_read v vb : encode v = Ok vb -> dec_pending vb = Ok v.
Proof. intros He. unfold dec_pending. by rewrite (decode_encode (c := pending_codec) v vb He). Qed.

(** ** Epoch keys *)

Lemma u64_key_le a b :
  u64_ok a -> u64_ok b -> bytes_le (u64_to_be a) (u64_to_be b) <-> a <= b.
Proof. intros Ha Hb. unfold bytes_le. rewrite u64_to_be_compare by done. done. Qed.

(** Entries in the byte order of their big-endian ids are in numeric order. *)
Lemma ids_sorted {V} (l : list (Z * V)) :
  NoDup l.*1 -> Forall (fun kv => u64_ok kv.1) l ->
  StronglySorted (fun a b => bytes_le (u64_to_be a.1) (u64_to_be b.1)) l ->
  StronglySorted Z.lt l.*1.
Proof.
  induction l as [|[k v] l IH]; cbn; intros Hnd Hk Hs; [constructor|].
  apply StronglySorted_inv in Hs as [Hs Hall]. inversion Hk as [|? ? Hk0 Hk']; subst.
  apply NoDup_cons in Hnd as [Hn Hnd]. constructor; [by apply IH|].
  rewrite Forall_forall in Hall, Hk'. apply Forall_forall. intros k' Hk1.
  apply list_elem_of_fmap in Hk1 as ([k2 v2] & -> & Hin). cbn in *.
  specialize (Hall _ Hin). specialize (Hk' _ Hin). cbn in *. apply u64_key_le in Hall; [|done..].
  assert (k <> k2); [|lia]. intros ->. apply Hn. apply list_elem_of_fmap. by exists (k2, v2).
Qed.

Lemma in_order_NoDup A p l : in_order A p l -> NoDup l.*1.
Proof. intros Ho. rewrite (io_perm _ _ _ Ho). apply NoDup_fst_map_to_list. Qed.

(** The pending epochs, oldest first. *)
Lemma list_pending_epochs_read ks (A : AStore) :
  represents (view ks) A ->
  read_ok (list_pending_epochs ks) (fun ps =>
    exists l : list (Z * PendingEpoch), ps = l.*2 /\
      l ≡ₚ map_to_list (A pending_anchors) /\ StronglySorted Z.lt l.*1).
Proof.
  intros Hr. destruct (represents_in_order _ _ pending_anchors Hr) as (l & Ho & Hf).
  unfold list_pending_epochs.
  pose proof (scan_read pending_anchors (fun _ v => dec_pending v) snd _ _ _
    ltac:(intros kv kvb [_ Hv]; by apply pending_read) Hf (kv_iter_ok ks pending_anchors)) as Hs.
  destruct (scan _ _) as [ps|e]; [|done]. cbn in Hs. subst ps. exists l.
  split; [done|]. split; [apply Ho|].
  exact (ids_sorted l (in_order_NoDup A pending_anchors l Ho) (io_ok _ _ _ Ho) (io_sorted _ _ _ Ho)).
Qed.

(** ** Pages of epochs *)

(** Every epoch record is stored under its own id. *)
Definition epochs_keyed (A : AStore) : Prop :=
  forall id r, look A epochs id = Some r -> er_id r = id.

Definition newer (a b : EpochRecord) : Prop := er_id b < er_id a.

(** The stored epochs up to id [s], newest first. *)
Record epochs_desc (A : AStore) (s : Z) (L : list EpochRecord) : Prop := {
  ed_mem r : r ∈ L <-> look A epochs (er_id r) = Some r /\ er_id r <= s;
  ed_sorted : StronglySorted newer L;
}.

Lemma StronglySorted_snoc {X} (R : X -> X -> Prop) l x :
  StronglySorted R l -> Forall (fun y => R y x) l -> StronglySorted R (l ++ [x]).
Proof.
  induction l as [|a l IH]; cbn; intros Hs Hf; [by repeat constructor|].
  apply StronglySorted_inv in Hs as [Hs Ha]. inversion Hf; subst. constructor; [by apply IH|].
  apply Forall_app. split; [done|]. by constructor.
Qed.

Lemma StronglySorted_reverse {X} (R : X -> X -> Prop) l :
  StronglySorted R l -> StronglySorted (flip R) (reverse l).
Proof.
  induction 1 as [|a l Hs IH Ha]; [constructor|]. rewrite reverse_cons.
  apply StronglySorted_snoc; [done|]. by apply Forall_reverse.
Qed.

Lemma StronglySorted_filter' {X} (R : X -> X -> Prop) (P : X -> Prop) `{!forall x, Decision (P x)} l :
  StronglySorted R l -> StronglySorted R (filter P l).
Proof.
  induction 1 as [|a l Hs IH Ha]; [constructor|]. rewrite filter_cons. case_decide; [|done].
  constructor; [done|]. rewrite Forall_forall in *.
  intros x [_ Hx]%list_elem_of_filter. by apply Ha.
Qed.

Lemma Forall2_filter {X Y} (R : X -> Y -> Prop) (P : X -> Prop) (Q : Y -> Prop)
    `{!forall x, Decision (P x), !forall y, Decision (Q y)} l k :
  Forall2 R l k -> (forall a x, a ∈ l -> R a x -> P a <-> Q x) ->
  Forall2 R (filter P l) (filter Q k).
Proof.
  induction 1 as [|a x l k Ha Hf IH]; intros Hpq; [constructor|]. rewrite !filter_cons.
  assert (Forall2 R (filter P l) (filter Q k)) as Hrest
    by (apply IH; intros; apply Hpq; [by apply list_elem_of_further|done]).
  pose proof (Hpq a x (list_elem_of_here _ _) Ha) as Hax.
  destruct (decide (P a)), (decide (Q x)); try tauto. by constructor.
Qed.

Lemma take_page_read room items L es :
  Forall2 (entry_rel epochs) L es -> Forall2 item_ok items es ->
  read_ok (take_page room items)
    (fun r => r = (take room L.*2, er_id <$> L.*2 !! room)).
Proof.
  intros Hl Hi. revert room L Hl.
  induction Hi as [|item kvb items es Hit _ IH]; intros room L Hl;
    inversion Hl as [|kv ? L' ? [_ Hv] HL']; subst; cbn [take_page].
  - cbn. by destruct room.
  - destruct item as [kv'|e]; cbn; [|by eexists]. rewrite (Hit kv' eq_refl).
    rewrite (postcard_read epoch_codec _ _ Hv). cbn. destruct room as [|room]; [done|].
    eapply read_ok_bind; [by apply IH|]. intros [r c] Hrc. cbn in Hrc.
    injection Hrc as -> ->. done.
Qed.

Lemma list_epochs_desc_read ks (A : AStore) start limit :
  represents (view ks) A -> epochs_keyed A ->
  (forall s, start = Some s -> u64_ok s) -> limit <> 0%nat ->
  exists L, epochs_desc A (default U64_MAX start) L /\
    read_ok (list_epochs_desc start limit ks)
      (fun r => r = (take limit L, er_id <$> L !! limit)).
Proof.
  intros Hr Hkey Hs Hl. set (s := default U64_MAX start).
  assert (u64_ok s) as Hsok by (destruct start; [by apply Hs | done]).
  destruct (represents_in_order _ _ epochs Hr) as (l & Ho & Hf).
  set (D := reverse (filter (fun kv : pkey epochs * pval epochs => (kv.1 : Z) <= s) l)).
  exists D.*2. split.
  - pose proof (ids_sorted l (in_order_NoDup A epochs l Ho) (io_ok _ _ _ Ho) (io_sorted _ _ _ Ho))
      as Hids.
    assert (forall kv : Z * EpochRecord, kv ∈ l -> look A epochs kv.1 = Some kv.2) as Hin.
    { intros [k v] Hkv. rewrite (io_perm _ _ _ Ho) in Hkv. by apply elem_of_map_to_list in Hkv. }
    split.
    + intros r. rewrite list_elem_of_fmap. split.
      * intros ([k v] & -> & Hkv). subst D. rewrite elem_of_reverse in Hkv.
        apply list_elem_of_filter in Hkv as [Hle Hkv]. apply Hin in Hkv. cbn in *.
        by rewrite (Hkey _ _ Hkv).
      * intros [Hlk Hle]. exists (er_id r, r). split; [done|]. subst D.
        rewrite elem_of_reverse. apply list_elem_of_filter. split; [done|].
        rewrite (io_perm _ _ _ Ho). by apply elem_of_map_to_list.
    + subst D. rewrite fmap_reverse. apply (StronglySorted_reverse (flip newer)).
      assert (forall l' : list (Z * EpochRecord), (forall kv, kv ∈ l' -> er_id kv.2 = kv.1) ->
        StronglySorted Z.lt l'.*1 -> StronglySorted (flip newer) l'.*2) as Hconv.
      { induction l' as [|[k v] l' IH]; cbn; intros Hk Hss; [constructor|].
        apply StronglySorted_inv in Hss as [Hss Hall]. constructor.
        - apply IH; [|done]. intros; apply Hk. by apply list_elem_of_further.
        - rewrite Forall_forall in Hall. apply Forall_forall. intros r Hrin.
          apply list_elem_of_fmap in Hrin as ([k2 v2] & -> & Hin2). cbn. unfold newer.
          pose proof (Hk (k, v) (list_elem_of_here _ _)) as E1.
          pose proof (Hk (k2, v2) (list_elem_of_further _ _ _ Hin2)) as E2. cbn in E1, E2.
          rewrite E1, E2. apply Hall. apply list_elem_of_fmap. by exists (k2, v2). }
      apply Hconv.
      * intros kv Hkv. apply list_elem_of_filter in Hkv as [_ Hkv]. by apply Hkey, Hin.
      * clear -Hids. induction l as [|[k v] l IH]; [constructor|].
        cbn [fmap list_fmap fst] in Hids. apply StronglySorted_inv in Hids as [Hss Hall].
        rewrite filter_cons. case_decide; [|by apply IH]. cbn. constructor; [by apply IH|].
        rewrite Forall_forall in Hall. apply Forall_forall. intros k' Hk'. apply Hall.
        apply list_elem_of_fmap in Hk' as (kv & -> & Hkv).
        apply list_elem_of_filter in Hkv as [_ Hkv]. by apply list_elem_of_fmap_2.
  - unfold list_epochs_desc. rewrite decide_False by done. fold s.
    eapply take_page_read; [|apply kv_range_rev_ok]. subst D. apply Forall2_reverse.
    apply Forall2_filter; [done|]. intros kv kvb Hkv [Hk _]. rewrite Hk. cbn.
    rewrite u64_key_le; [done| |done]. pose proof (io_ok _ _ _ Ho) as Hok.
    rewrite Forall_forall in Hok. by apply (Hok kv).
Qed.

Lemma epochs_desc_unique A s L L' : epochs_desc A s L -> epochs_desc A s L' -> L = L'.
Proof.
  intros [Hm Hs] [Hm' Hs']. apply (StronglySorted_unique_strong newer); [|done..|].
  - intros x1 x2 _ _. unfold newer. lia.
  - assert (forall M, StronglySorted newer M -> NoDup M) as Hnd.
    { intros M HM. induction HM as [|a M HM IH Ha]; constructor; [|done].
      rewrite Forall_forall in Ha. intros Hin%Ha. unfold newer in Hin. lia. }
    apply NoDup_Permutation; [by apply Hnd..|]. intros r. by rewrite Hm, Hm'.
Qed.

Lemma newer_drop L n r :
  StronglySorted newer L -> L !! n = Some r ->
  forall x, x ∈ drop n L <-> x ∈ L /\ er_id x <= er_id r.
Proof.
  intros Hs. revert n. induction Hs as [|a M HM IH Ha]; intros n Hr x; [done|].
  rewrite Forall_forall in Ha. unfold newer in Ha. destruct n as [|n]; cbn in *.
  - injection Hr as ->. rewrite elem_of_cons. split; [|tauto].
    intros [-> | Hx]; [split; [by left | lia]|]. split; [by right|]. apply Ha in Hx. lia.
  - rewrite (IH n Hr), elem_of_cons. apply list_elem_of_lookup_2, Ha in Hr.
    split; [tauto|]. intros [[-> | ?] ?]; [lia | done].
Qed.

(** Below the record at position [n], what is left is the rest of the list. *)
Lemma epochs_desc_drop A s L n r :
  epochs_desc A s L -> L !! n = Some r -> epochs_desc A (er_id r) (drop n L).
Proof.
  intros [Hm Hs] Hr. assert (er_id r <= s) by (by apply Hm; eapply list_elem_of_lookup_2).
  split.
  - intros x. rewrite (newer_drop L n r Hs Hr), Hm. split; intros; [tauto|]. split_and!; [tauto|lia|tauto].
  - clear -Hs. revert n. induction Hs as [|a M HM IH Ha]; intros [|n]; cbn; try constructor; auto.
Qed.

(** A reader of [GET /v1/epochs]: pages of [limit], each from the cursor the
    one before handed out. *)
Fixpoint walk_pages (fuel : nat) (start : option u64) (limit : nat) (ks : Keyspace)
    : result StoreError (list EpochRecord) :=
  match fuel with
  | O => Ok []
  | S fuel' =>
      let? pg := list_epochs_desc start limit ks in
      match pg.2 with
      | None => Ok pg.1
      | Some c => let? rest := walk_pages fuel' (Some c) limit ks in Ok (pg.1 ++ rest)
      end
  end.

Lemma walk_pages_read ks (A : AStore) limit fuel start L :
  represents (view ks) A -> epochs_keyed A -> limit <> 0%nat ->
  (forall s, start = Some s -> u64_ok s) ->
  epochs_desc A (default U64_MAX start) L -> (length L < fuel)%nat ->
  read_ok (walk_pages fuel start limit ks) (fun r => r = L).
Proof.
  intros Hr Hk Hl. revert start L. induction fuel as [|fuel IH]; intros start L Hs HL Hf; [lia|].
  cbn [walk_pages].
  destruct (list_epochs_desc_read ks A start limit Hr Hk Hs Hl) as (L' & HL' & Hpg).
  pose proof (epochs_desc_unique _ _ _ _ HL HL') as <-.
  eapply read_ok_bind; [done|]. intros [recs c] Hrc. cbn in Hrc. injection Hrc as -> ->. cbn.
  destruct (L !! limit) as [r|] eqn:Hlim; cbn.
  - pose proof (epochs_desc_drop _ _ _ _ _ HL Hlim) as Hd.
    eapply read_ok_bind; [apply (IH _ (drop limit L)); [|done|]|].
    + intros s [= <-]. apply list_elem_of_lookup_2, (ed_mem _ _ _ HL) in Hlim as [Hlk _].
      pose proof (Hr epochs) as Hre. exact (rep_keys _ _ _ _ _ Hre _ _ Hlk).
    + apply lookup_lt_Some in Hlim as Hlt. rewrite length_drop. lia.
    + intros rest ->. cbn. by rewrite take_drop.
  - apply lookup_ge_None in Hlim. by rewrite take_ge.
Qed.

(** Paging the epochs loses and repeats nothing: whatever the page size,
    following the cursors from the newest epoch to the end reads every stored
    epoch exactly once, newest first, and the walk ends (a page more than
    there are epochs is never needed). *)
Theorem epoch_pages_complete ks (A : AStore) limit L :
  represents (view ks) A -> epochs_keyed A -> limit <> 0%nat ->
  epochs_desc A U64_MAX L ->
  read_ok (walk_pages (S (length L)) None limit ks) (fun r => r = L).
Proof. intros Hr Hk Hl HL. apply (walk_pages_read ks A); [done..|lia]. Qed.

(** The id recovery starts from: the greatest stored one. *)
Lemma last_sealed_read ks (A : AStore) :
  represents (view ks) A ->
  read_ok (last_sealed_epoch_id ks) (fun r =>
    match r with
    | Some id => is_Some (look A epochs id) /\ (forall id', is_Some (look A epochs id') -> id' <= id)
    | None => forall id, look A epochs id = None
    end).
Proof.
  intros Hr. destruct (represents_in_order _ _ epochs Hr) as (l & Ho & Hf).
  unfold last_sealed_epoch_id. destruct (kv_last_key_value ks epochs) as [lst|e] eqn:Hlast;
    cbn; [|by eexists].
  apply kv_last_ok in Hlast as ->. destruct l as [|kv0 l0 _] using rev_ind.
  - apply Forall2_nil_inv_l in Hf. rewrite Hf. cbn. intros id. unfold look.
    destruct (A epochs !! (id : pkey epochs)) eqn:Hi; [|done].
    apply elem_of_map_to_list in Hi. rewrite <- (io_perm _ _ _ Ho) in Hi. by apply elem_of_nil in Hi.
  - apply Forall2_app_inv_l in Hf as (k1 & k2 & _ & Hf2 & Heq).
    inversion Hf2 as [|? kvb ? ? [Hkb _] Hnil]; subst. inversion Hnil; subst.
    rewrite Heq, last_snoc. destruct kvb as [kb vb]. cbn in Hkb. subst kb.
    pose proof (io_ok _ _ _ Ho) as Hok. rewrite Forall_app, Forall_singleton in Hok.
    destruct Hok as [_ Hok0].
    destruct kv0 as [k0 v0]. cbn in Hok0 |- *.
    rewrite (u64_slice_read k0 (u64_to_be k0)) by done. cbn. split.
    + exists v0. unfold look. apply elem_of_map_to_list. rewrite <- (io_perm _ _ _ Ho).
      apply elem_of_app. right. by apply list_elem_of_singleton.
    + intros id' [v' Hv']. unfold look in Hv'. apply elem_of_map_to_list in Hv'.
      rewrite <- (io_perm _ _ _ Ho) in Hv'.
      pose proof (ids_sorted _ (in_order_NoDup A epochs _ Ho) (io_ok _ _ _ Ho) (io_sorted _ _ _ Ho)) as Hss.
      rewrite fmap_app in Hss. apply elem_of_app in Hv' as [Hv'|Hv'%list_elem_of_singleton].
      * apply Z.lt_le_incl. apply (StronglySorted_app_1_elem_of Z.lt l0.*1 [k0]); [done| |].
        -- apply list_elem_of_fmap. by exists (id', v').
        -- by apply list_elem_of_singleton.
      * injection Hv' as -> _. lia.
Qed.

(** ** Witness and contributor scans *)

Lemma read_ok_mono {X} (r : result StoreError X) (P Q : X -> Prop) :
  read_ok r P -> (forall a, P a -> Q a) -> read_ok r Q.
Proof. destruct r; cbn; auto. Qed.

Lemma tip_entry_read did (kv : pkey tip_to_pair * pval tip_to_pair) kvb :
  entry_rel tip_to_pair kv kvb ->
  match try_array 32 kvb.1 with
  | None => Ok None
  | Some tip =>
      let? idx := dec_postcard (A := TipPairIndex) kvb.2 in
      Ok (if decide (ti_submitter_did idx = did) then Some (ti_epoch_id idx, tip) else None)
  end
  = Ok (E := StoreError)
      (if decide (ti_submitter_did kv.2 = did) then Some (ti_epoch_id kv.2, kv.1) else None).
Proof.
  intros [Hk Hv]. rewrite Hk. cbn [kenc]. rewrite try_array_arr.
  by rewrite (postcard_read tip_pair_codec _ _ Hv).
Qed.

Lemma elem_of_entries (A : AStore) p l k v :
  in_order A p l -> (k, v) ∈ l <-> look A p k = Some v.
Proof. intros Ho. rewrite (io_perm _ _ _ Ho). apply elem_of_map_to_list. Qed.

#[local] Instance tip_order_total : Total tip_order.
Proof.
  intros a b. unfold tip_order. destruct (Z.lt_trichotomy a.1 b.1) as [?|[?|?]]; [right; by left| |left; by left].
  destruct (total bytes_le (arr a.2) (arr b.2)); [left|right]; right; done.
Qed.

#[local] Instance tip_order_trans : Transitive tip_order.
Proof.
  intros a b c [Hab|[Hab Hab']] [Hbc|[Hbc Hbc']]; unfold tip_order; [left; lia..|].
  right. split; [lia|]. by etrans.
Qed.

(** A caller's tips: exactly those minted for it. *)
Lemma witness_tips_read ks (A : AStore) did :
  represents (view ks) A ->
  read_ok (list_witness_tips_for_did did ks) (fun r =>
    StronglySorted tip_order r /\
    forall e t, (e, t) ∈ r <->
      exists idx, look A tip_to_pair t = Some idx /\ ti_submitter_did idx = did /\
        ti_epoch_id idx = e).
Proof.
  intros Hr. destruct (represents_in_order _ _ tip_to_pair Hr) as (l & Ho & Hf).
  unfold list_witness_tips_for_did. eapply read_ok_bind.
  { eapply (scan_read tip_to_pair); [apply tip_entry_read|done|apply kv_iter_ok]. }
  intros rows ->. cbn. split; [apply (StronglySorted_merge_sort tip_order)|].
  intros e t. rewrite merge_sort_Permutation, list_elem_of_omap. split.
  - intros (o & Hin & Ho'). apply list_elem_of_fmap in Hin as ([k v] & -> & Hin). cbn in Ho'.
    apply (elem_of_entries _ _ _ _ _ Ho) in Hin. case_decide; [|done]. injection Ho' as <- <-.
    exists v. done.
  - intros (idx & Hlk & Hd & He). eexists. split.
    + apply list_elem_of_fmap. exists (t, idx). split; [done|]. by apply (elem_of_entries _ _ _ _ _ Ho).
    + cbn. rewrite decide_True by done. cbn. by rewrite He.
Qed.

(** Its witnesses of an epoch and method. *)
Lemma epoch_witnesses_read ks (A : AStore) did epoch_id method :
  represents (view ks) A ->
  read_ok (list_witnesses_for_did_in_epoch did epoch_id method ks) (fun r =>
    forall idx, idx ∈ r <->
      exists t, look A tip_to_pair t = Some idx /\ ti_submitter_did idx = did /\
        ti_epoch_id idx = epoch_id /\ ti_method_byte idx = method_byte method).
Proof.
  intros Hr. destruct (represents_in_order _ _ tip_to_pair Hr) as (l & Ho & Hf).
  unfold list_witnesses_for_did_in_epoch. cbv zeta. eapply read_ok_bind.
  { eapply (scan_read tip_to_pair _ snd); [|done|apply kv_iter_ok].
    intros kv kvb [_ Hv]. by apply (postcard_read tip_pair_codec). }
  intros rows ->. cbn. intros idx. rewrite merge_sort_Permutation, list_elem_of_filter. split.
  - intros [(He & Hm & Hd) Hin]. apply list_elem_of_fmap in Hin as ([k v] & -> & Hin).
    exists k. split_and!; try done. by apply (elem_of_entries _ _ _ _ _ Ho) in Hin.
  - intros (t & Hlk & Hd & He & Hm). split; [done|]. apply list_elem_of_fmap.
    exists (t, idx). split; [done|]. by apply (elem_of_entries _ _ _ _ _ Ho).
Qed.

(** What a DID can list is what it submitted: the tips and witness indexes
    a scan answers for a DID are exactly those the store holds under that
    submitter (and that epoch and method), the tips newest epoch first. *)
Theorem did_scans_isolated ks (A : AStore) did epoch_id method :
  represents (view ks) A ->
  read_ok (list_witness_tips_for_did did ks) (fun r =>
    StronglySorted tip_order r /\
    forall e t, (e, t) ∈ r <->
      exists idx, look A tip_to_pair t = Some idx /\ ti_submitter_did idx = did /\
        ti_epoch_id idx = e) /\
  read_ok (list_witnesses_for_did_in_epoch did epoch_id method ks) (fun r =>
    forall idx, idx ∈ r <->
      exists t, look A tip_to_pair t = Some idx /\ ti_submitter_did idx = did /\
        ti_epoch_id idx = epoch_id /\ ti_method_byte idx = method_byte method).
Proof. intros Hr. split; [by apply witness_tips_read|by apply epoch_witnesses_read]. Qed.

Lemma is_prefix_app pre k : is_prefix pre k = true <-> exists r, k = pre ++ r.
Proof.
  revert k; induction pre as [|x pre IH]; intros [|y k]; cbn.
  - split; [by exists [] | done].
  - split; [by exists (y :: k) | done].
  - split; [done | by intros [? ?]].
  - rewrite andb_true_iff, bool_decide_eq_true, IH. split.
    + intros [-> [r ->]]. by exists r.
    + intros [r [= -> ->]]. split; [done | by exists r].
Qed.

(** The leaves persisted for an epoch, with their submitters. *)
Lemma list_epoch_leaves_read ks (A : AStore) id :
  represents (view ks) A -> u64_ok id ->
  read_ok (list_epoch_leaves id ks) (fun r =>
    forall l did, (arr l, did) ∈ r <-> look A epoch_leaves (id, l) = Some did).
Proof.
  intros Hr Hid. destruct (represents_in_order _ _ epoch_leaves Hr) as (l & Ho & Hf).
  set (mine := filter (fun kv : pkey epoch_leaves * pval epoch_leaves => (kv.1.1 : Z) = id) l).
  assert (forall kv kvb, kv ∈ l -> entry_rel epoch_leaves kv kvb ->
    kv.1.1 = id <-> is_prefix (u64_to_be id) kvb.1 = true) as Hpre.
  { intros [[e h] v] [kb vb] Hin [Hk _]. cbn in Hk |- *. subst kb. rewrite is_prefix_app.
    unfold compose_leaves_key. split.
    - intros ->. by eexists.
    - intros [r Hx]. apply app_inj_1 in Hx as [Hx _]; [|by rewrite !u64_to_be_length].
      pose proof (io_ok _ _ _ Ho) as Hok. rewrite Forall_forall in Hok.
      by apply u64_to_be_inj in Hx; [|apply (Hok _ Hin)|]. }
  unfold list_epoch_leaves. eapply read_ok_mono.
  - apply (scan_read epoch_leaves _ (fun kv => (arr kv.1.2, kv.2)) _ mine
             (filter (fun kv => is_prefix (u64_to_be id) kv.1 = true)
                (sorted_entries (view ks epoch_leaves)))).
    + intros [[e h] v] [kb vb] [Hk Hv]. cbn in Hk, Hv |- *. subst kb.
      rewrite decide_False.
      * destruct Hv as [Hv ->]. rewrite from_utf8_lossy_as_bytes by done. unfold compose_leaves_key.
        rewrite drop_app_length' by (by rewrite u64_to_be_length). done.
      * unfold compose_leaves_key. rewrite length_app, u64_to_be_length, arr_length. intros Hx. by apply Hx.
    + apply Forall2_filter; [done|]. intros kv kvb Hin Hkv. by apply Hpre.
    + apply kv_prefix_ok.
  - intros r ->. intros h did. rewrite list_elem_of_fmap. split.
    + intros ([[e h'] v] & [= Hh ->] & Hin). apply list_elem_of_filter in Hin as [He Hin].
      cbn in *. subst e. apply arr_inj in Hh as ->. by apply (elem_of_entries _ _ _ _ _ Ho).
    + intros Hlk. exists ((id, h), did). split; [done|]. apply list_elem_of_filter.
      split; [done|]. by apply (elem_of_entries _ _ _ _ _ Ho).
Qed.

(** The leaderboard page is the contributors with the most fuel: a prefix
    of at most [limit] of all stored contributors, sorted by fuel
    descending. *)
Theorem contributors_sorted ks (A : AStore) limit :
  represents (view ks) A ->
  read_ok (list_contributors_sorted limit ks) (fun r =>
    exists all, r = take limit all /\ StronglySorted fuel_order all /\
      all ≡ₚ (map_to_list (A contributor_stats)).*2).
Proof.
  intros Hr. destruct (represents_in_order _ _ contributor_stats Hr) as (l & Ho & Hf).
  unfold list_contributors_sorted. eapply read_ok_bind.
  { eapply (scan_read contributor_stats _ snd); [|done|apply kv_iter_ok].
    intros kv kvb [_ Hv]. by apply (postcard_read contributor_codec). }
  intros rows ->. cbn. eexists. split; [done|]. split.
  - assert (Total fuel_order) by (intros a b; unfold fuel_order; lia).
    assert (Transitive fuel_order) by (intros a b c; unfold fuel_order; lia).
    by apply (StronglySorted_merge_sort fuel_order).
  - rewrite merge_sort_Permutation. by rewrite (io_perm _ _ _ Ho).
Qed.

(** The totals are the number of epochs and of leaves, at [u64]. *)
Lemma totals_read ks (A : AStore) :
  represents (view ks) A ->
  read_ok (totals ks) (fun r => exists recs,
    recs ≡ₚ (map_to_list (A epochs)).*2 /\
    r = (Z.of_nat (length recs) mod 2 ^ 64,
         foldr Z.add 0 (er_leaf_count <$> recs) mod 2 ^ 64)).
Proof.
  intros Hr. destruct (represents_in_order _ _ epochs Hr) as (l & Ho & Hf).
  unfold totals. eapply read_ok_bind.
  { eapply (scan_read epochs _ snd); [|done|apply kv_iter_ok].
    intros kv kvb [_ Hv]. by apply (postcard_read epoch_codec). }
  intros recs ->. cbn [read_ok]. exists l.*2. split; [by rewrite (io_perm _ _ _ Ho)|].
  assert (forall (rs : list EpochRecord) a b,
    fold_left (fun acc r => (wrapping_add 64 acc.1 1, wrapping_add 64 acc.2 (er_leaf_count r)))
      rs (a mod 2 ^ 64, b mod 2 ^ 64)
    = ((a + Z.of_nat (length rs)) mod 2 ^ 64,
       (b + foldr Z.add 0 (er_leaf_count <$> rs)) mod 2 ^ 64)) as Hfold.
  { induction rs as [|r rs IH]; intros a b; cbn [fold_left length fmap list_fmap foldr].
    - by rewrite !Z.add_0_r.
    - cbn [fst snd]. rewrite !wrapping_add_mod, IH.
      f_equal; f_equal; lia. }
  exact (Hfold l.*2 0 0).
Qed.
End scans.
