(* ===== verification/SealStore.v ===== *)
(** * The store as the sealer sees it

    [SealStore] is the interface of the four store operations the sealer calls
    and [SealStoreLaws] what they promise, as atomic updates of the abstract
    store; the sealer's theorems are proved against it.  Then those updates read
    back; and last the store on a fjall keyspace as its instance, by the
    refinement of [StoreRefine] and [StoreScans]. *)

From S2P Require Import Prelude External Merkle Accumulator Witness Epoch Utf8 Kv Storage StoreSpec StoreRefine StoreScans.

Class SealStore `{HexCrate, Sdk, SerdeCrates, !StoreCodecs} := {
  Sto : Type;
  StoErr : Type;
  st_list_pending_epochs : Sto -> result StoErr (list PendingEpoch);
  st_save_pending : PendingEpoch -> Sto -> Sto * result StoErr unit;
  st_persist_sealed_epoch_with_pending :
    EpochRecord -> list LeafEntry -> list MintedWitness -> option PendingEpoch ->
    Sto -> Sto * result StoErr unit;
  st_persist_pending_minted :
    PendingEpoch -> AnchorMethod -> list MintedWitness -> Sto -> Sto * result StoErr unit;
}.

(** A failed write left the state before, or the whole update unsynced. *)
Definition atomic {S E X A : Type} (absr : S -> A -> Prop) (a a' : A) (s : S * result E X) : Prop :=
  match s.2 with
  | Ok _ => absr s.1 a'
  | Err _ => absr s.1 a \/ absr s.1 a'
  end.

Class SealStoreLaws `{SealStore} := {
  absr : Sto -> AStore -> Prop;
  st_list_pending_ok s A ps :
    absr s A -> st_list_pending_epochs s = Ok ps ->
    exists l : list (Z * PendingEpoch), ps = l.*2 /\
      l ≡ₚ map_to_list (A pending_anchors) /\ StronglySorted Z.lt l.*1;
  st_save_pending_ok s A p :
    absr s A -> pending_ok p ->
    atomic absr A (apply_aops A [APut pending_anchors (p_epoch_id p) p]) (st_save_pending p s);
  st_persist_sealed_ok s A record leaves ws pending :
    absr s A -> sealed_ok record leaves pending ->
    atomic absr A (apply_aops A (sealed_aops record leaves ws pending))
      (st_persist_sealed_epoch_with_pending record leaves ws pending s);
  st_persist_minted_ok s A remaining done ws :
    absr s A -> pending_ok remaining ->
    atomic absr A (apply_aops A (minted_aops A remaining done ws))
      (st_persist_pending_minted remaining done ws s);
}.

Section updates.
Context `{HexCrate, Sdk, SerdeCrates, !StoreCodecs}.

Lemma elem_of_concat_fmap {X Y} (f : X -> list Y) l y :
  y ∈ concat (f <$> l) <-> exists x, x ∈ l /\ y ∈ f x.
Proof.
  induction l as [|x l IH]; cbn.
  - split; [by intros ?%elem_of_nil | by intros (? & ?%elem_of_nil & _)].
  - rewrite elem_of_app, IH. split.
    + intros [Hy | (x' & Hx & Hy)]; [exists x; by rewrite elem_of_cons; auto|].
      exists x'. by rewrite elem_of_cons; auto.
    + intros (x' & [-> | Hx]%elem_of_cons & Hy); [by left | right; by exists x'].
Qed.

Lemma apply_aops_cons A a l : apply_aops A (a :: l) = apply_aops (apply_aop A a) l.
Proof. done. Qed.

Lemma APut_inj p k v k' v' : APut p k v = APut p k' v' -> k = k' /\ v = v'.
Proof.
  intros [= Hk Hv]. apply Eqdep_dec.inj_pair2_eq_dec in Hk; [|apply Partition_eq_dec].
  apply Eqdep_dec.inj_pair2_eq_dec in Hv; [done|apply Partition_eq_dec].
Qed.
Lemma ADel_inj p k k' : ADel p k = ADel p k' -> k = k'.
Proof. intros [= Hk]. by apply Eqdep_dec.inj_pair2_eq_dec in Hk; [|apply Partition_eq_dec]. Qed.

Lemma look_put A p k v : look (apply_aop A (APut p k v)) p k = Some v.
Proof. unfold look. cbn. by rewrite upd_eq, lookup_insert_eq. Qed.
Lemma look_del A p k : look (apply_aop A (ADel p k)) p k = None.
Proof. unfold look. cbn. by rewrite upd_eq, lookup_delete_eq. Qed.

Lemma apply_aops_look_other A l p k :
  (forall a, a ∈ l -> part a <> p) -> look (apply_aops A l) p k = look A p k.
Proof.
  intros Hl. unfold look. rewrite apply_aops_other; [done|]. by apply Forall_forall.
Qed.

Lemma hits_dec p k a : hits p k a \/ ~ hits p k a.
Proof.
  destruct (decide (p = part a)) as [->|Hp].
  2: { right. by intros [[v ->]| ->]. }
  destruct a as [q k' v | q k']; cbn in k; destruct (decide (k = k')) as [->|Hk].
  - left. left. by exists v.
  - right. intros [[v' [? _]%APut_inj]|[=]]. congruence.
  - left. by right.
  - right. intros [[v' [=]]|He%ADel_inj]. congruence.
Qed.

(** What a list of updates leaves under a key: a value it puts there, nothing
    where it deletes it, or what was there when it writes the key nowhere. *)
Lemma look_aops A l p k :
  (exists v, APut p k v ∈ l /\ look (apply_aops A l) p k = Some v) \/
  (ADel p k ∈ l /\ look (apply_aops A l) p k = None) \/
  ((forall a, a ∈ l -> ~ hits p k a) /\ look (apply_aops A l) p k = look A p k).
Proof.
  induction l as [|a l IH] using rev_ind.
  - right; right. split; [by intros a ?%elem_of_nil|done].
  - rewrite apply_aops_app. change (apply_aops (apply_aops A l) [a]) with (apply_aop (apply_aops A l) a).
    setoid_rewrite elem_of_app. setoid_rewrite list_elem_of_singleton.
    destruct (hits_dec p k a) as [[[v ->]| ->]|Hn].
    + left. exists v. split; [by right|apply look_put].
    + right; left. split; [by right|apply look_del].
    + rewrite apply_aop_lookup_ne by done.
      destruct IH as [(v & ? & ->)|[[? ->]|[Hl ->]]].
      * left. exists v. auto.
      * right; left. auto.
      * right; right. split; [|done]. intros b [Hb| ->]; [by apply Hl|done].
Qed.

(** ** What the writes contain *)

Lemma elem_of_pending_aops a p :
  a ∈ pending_aops p <->
  a = APut pending_anchors (p_epoch_id p) p \/
  exists l m, l ∈ hashes_of p /\ m ∈ p_methods p /\ a = APut pending_leaves (l, m) (p_epoch_id p).
Proof.
  unfold pending_aops. rewrite elem_of_cons, elem_of_concat_fmap. f_equiv. split.
  - intros (l & Hl & Ha). apply list_elem_of_fmap in Ha as (m & -> & Hm). eauto.
  - intros (l & m & Hl & Hm & ->). exists l. split; [done|]. by apply list_elem_of_fmap; exists m.
Qed.

Lemma elem_of_witness_aops a w :
  a ∈ witness_aops w <->
  a = APut witness_revisions (w_object_hash w) (w_object_revision w) \/
  a = APut witness_revisions (w_signature_hash w) (w_signature_revision w) \/
  a = APut leaf_to_tips (w_leaf w, w_method w) (w_signature_hash w) \/
  a = APut tip_to_pair (w_signature_hash w) (tip_pair_of w).
Proof.
  unfold witness_aops. rewrite !elem_of_cons. pose proof (not_elem_of_nil a). tauto.
Qed.

Lemma elem_of_sealed_aops a record leaves pending :
  a ∈ sealed_aops record leaves [] pending <->
  (exists p, pending = Some p /\ a ∈ pending_aops p) \/
  a = APut epochs (er_id record) record \/
  exists e, e ∈ leaves /\
    (a = APut epoch_leaves (er_id record, leaf e) (submitter_did e) \/
     a = APut leaf_owner (leaf e) (submitter_did e)).
Proof.
  unfold sealed_aops. rewrite !elem_of_app, list_elem_of_singleton, elem_of_concat_fmap. cbn.
  pose proof (not_elem_of_nil a) as Hnil. split.
  - intros [Hin|[->|[(e & He & Hin)|?]]]; [|by right; left| |done].
    + destruct pending as [p|]; [left; eauto|done].
    + right; right. exists e. split; [done|]. unfold leaf_aops in Hin.
      rewrite !elem_of_cons, elem_of_nil in Hin. tauto.
  - intros [(p & -> & Hp)|[->|(e & He & Ha)]]; [by left|by right; left|].
    right; right; left. exists e. split; [done|]. unfold leaf_aops. rewrite !elem_of_cons. tauto.
Qed.

Lemma elem_of_minted_aops a A remaining d ws :
  a ∈ minted_aops A remaining d ws <->
  (exists w, w ∈ ws /\ a ∈ witness_aops w) \/
  (exists w, w ∈ ws /\ a = APut self_checked_tips (w_signature_hash w) tt) \/
  (exists l, l ∈ hashes_of remaining /\
     look A pending_leaves (l, d) = Some (p_epoch_id remaining) /\ a = ADel pending_leaves (l, d)) \/
  a = (if decide (p_methods remaining = []) then ADel pending_anchors (p_epoch_id remaining)
       else APut pending_anchors (p_epoch_id remaining) remaining).
Proof.
  unfold minted_aops. rewrite !elem_of_app, !elem_of_concat_fmap, list_elem_of_singleton.
  rewrite list_elem_of_fmap. setoid_rewrite (and_comm (_ = APut self_checked_tips _ _)).
  assert ((exists x, x ∈ hashes_of remaining /\
    a ∈ (if decide (look A pending_leaves (x, d) = Some (p_epoch_id remaining))
         then [ADel pending_leaves (x, d)] else [])) <->
    (exists l, l ∈ hashes_of remaining /\
     look A pending_leaves (l, d) = Some (p_epoch_id remaining) /\ a = ADel pending_leaves (l, d)))
    as ->; [|tauto].
  apply exist_proper. intros l. case_decide; rewrite ?list_elem_of_singleton, ?elem_of_nil; tauto.
Qed.
End updates.

(** Invert the membership of an update in a write's list. *)
Ltac inv_aop :=
  repeat match goal with
  | H : _ ∈ sealed_aops _ _ [] _ |- _ => apply elem_of_sealed_aops in H
  | H : _ ∈ minted_aops _ _ _ _ |- _ => apply elem_of_minted_aops in H
  | H : _ ∈ pending_aops _ |- _ => apply elem_of_pending_aops in H
  | H : _ ∈ witness_aops _ |- _ => apply elem_of_witness_aops in H
  | H : exists _, _ |- _ => destruct H
  | H : _ /\ _ |- _ => destruct H
  | H : _ \/ _ |- _ => destruct H
  | H : APut ?p _ _ = APut ?p _ _ |- _ => apply APut_inj in H
  | H : ADel ?p _ = ADel ?p _ |- _ => apply ADel_inj in H
  | H : APut _ _ _ = APut _ _ _ |- _ => discriminate H
  | H : ADel _ _ = APut _ _ _ |- _ => discriminate H
  | H : APut _ _ _ = ADel _ _ |- _ => discriminate H
  | H : ADel _ _ = ADel _ _ |- _ => discriminate H
  | H : _ = (if decide ?P then _ else _) |- _ => destruct (decide P)
  end.

Section readback.
Context `{HexCrate, Sdk, SerdeCrates, !StoreCodecs}.

Lemma sealed_look_pending A record leaves pend (id : Z) :
  look (apply_aops A (sealed_aops record leaves [] pend)) pending_anchors id
  = match pend with
    | Some p => if decide (id = p_epoch_id p) then Some p else look A pending_anchors id
    | None => look A pending_anchors id
    end.
Proof.
  destruct (look_aops A (sealed_aops record leaves [] pend) pending_anchors id)
    as [(v & Hin & ->)|[[Hin ->]|[Hn ->]]]; inv_aop; subst.
  - by rewrite decide_True.
  - destruct pend as [p|]; [|done]. case_decide; [|done]. subst.
    destruct (Hn (APut pending_anchors (p_epoch_id p) p)); [|left; by eexists].
    apply elem_of_sealed_aops. left. exists p. split; [done|]. apply elem_of_pending_aops. by left.
Qed.

Lemma sealed_look_epochs A record leaves pend (id : Z) :
  look (apply_aops A (sealed_aops record leaves [] pend)) epochs id
  = if decide (id = er_id record) then Some record else look A epochs id.
Proof.
  destruct (look_aops A (sealed_aops record leaves [] pend) epochs id)
    as [(v & Hin & ->)|[[Hin ->]|[Hn ->]]]; inv_aop; subst.
  - by rewrite decide_True.
  - case_decide; [|done]. subst.
    destruct (Hn (APut epochs (er_id record) record)); [|left; by eexists].
    apply elem_of_sealed_aops. by right; left.
Qed.

Lemma sealed_look_lookup A record leaves pend l m id :
  look (apply_aops A (sealed_aops record leaves [] pend)) pending_leaves (l, m) = Some id ->
  (exists p, pend = Some p /\ id = p_epoch_id p /\ l ∈ hashes_of p /\ m ∈ p_methods p) \/
  look A pending_leaves (l, m) = Some id.
Proof.
  destruct (look_aops A (sealed_aops record leaves [] pend) pending_leaves (l, m))
    as [(v & Hin & ->)|[[Hin ->]|[Hn ->]]]; inv_aop; subst; [|tauto].
  intros [= <-]. left. simplify_eq. eexists. eauto.
Qed.

Lemma sealed_look_lookup_new A record leaves p l m :
  l ∈ hashes_of p -> m ∈ p_methods p ->
  look (apply_aops A (sealed_aops record leaves [] (Some p))) pending_leaves (l, m)
  = Some (p_epoch_id p).
Proof.
  intros Hl Hm.
  destruct (look_aops A (sealed_aops record leaves [] (Some p)) pending_leaves (l, m))
    as [(v & Hin & ->)|[[Hin ->]|[Hn ->]]]; inv_aop; simplify_eq; [done|].
  destruct (Hn (APut pending_leaves (l, m) (p_epoch_id p))); [|left; by eexists].
  apply elem_of_sealed_aops. left. exists p. split; [done|]. apply elem_of_pending_aops.
  right. eauto.
Qed.

(** Every leaf of the epoch is persisted under it, with its submitter. *)
Lemma sealed_look_leaf A record leaves pend e :
  e ∈ leaves -> NoDup (leaf <$> leaves) ->
  look (apply_aops A (sealed_aops record leaves [] pend)) epoch_leaves (er_id record, leaf e)
  = Some (submitter_did e).
Proof.
  intros He Hnd.
  destruct (look_aops A (sealed_aops record leaves [] pend) epoch_leaves (er_id record, leaf e))
    as [(v & Hin & ->)|[[Hin ->]|[Hn ->]]]; inv_aop.
  - f_equal. subst v. 
    match goal with Hx : ?x ∈ leaves, Hk : (_, leaf e) = (_, leaf ?x) |- _ =>
      injection Hk as Hk; apply list_elem_of_lookup in Hx as [j Hj] end.
    apply list_elem_of_lookup in He as [i Hi].
    assert (i = j) as ->; [|by simplify_eq].
    apply (NoDup_lookup (leaf <$> leaves) i j (leaf e)); [done|..];
      rewrite list_lookup_fmap; [by rewrite Hi|rewrite Hj; cbn; congruence].
  - destruct (Hn (APut epoch_leaves (er_id record, leaf e) (submitter_did e))); [|left; by eexists].
    apply elem_of_sealed_aops. right; right. eauto.
Qed.

Lemma sealed_look_leaf_other A record leaves pend id l :
  id <> er_id record ->
  look (apply_aops A (sealed_aops record leaves [] pend)) epoch_leaves (id, l)
  = look A epoch_leaves (id, l).
Proof.
  intros Hid.
  destruct (look_aops A (sealed_aops record leaves [] pend) epoch_leaves (id, l))
    as [(v & Hin & _)|[[Hin _]|[Hn ->]]]; inv_aop; simplify_eq. done.
Qed.

(** Sealing serves no witness. *)
Lemma sealed_look_serving A record leaves pend :
  (forall t, look (apply_aops A (sealed_aops record leaves [] pend)) tip_to_pair t
             = look A tip_to_pair t) /\
  (forall k, look (apply_aops A (sealed_aops record leaves [] pend)) leaf_to_tips k
             = look A leaf_to_tips k) /\
  (forall t, look (apply_aops A (sealed_aops record leaves [] pend)) self_checked_tips t
             = look A self_checked_tips t).
Proof.
  split_and!; intros k; apply apply_aops_look_other; intros a Ha; inv_aop; by subst.
Qed.

(** ** The served witnesses of a method *)

Lemma minted_look_pending A remaining d ws (id : Z) :
  look (apply_aops A (minted_aops A remaining d ws)) pending_anchors id
  = if decide (id = p_epoch_id remaining)
    then (if decide (p_methods remaining = []) then None else Some remaining)
    else look A pending_anchors id.
Proof.
  destruct (look_aops A (minted_aops A remaining d ws) pending_anchors id)
    as [(v & Hin & ->)|[[Hin ->]|[Hn ->]]]; inv_aop; subst.
  - by rewrite decide_True.
  - by rewrite decide_True.
  - case_decide; [|done]. subst. exfalso. eapply Hn.
    + apply elem_of_minted_aops. right; right; right. done.
    + case_decide; [by right|left; by eexists].
Qed.

Lemma minted_look_lookup A remaining d ws l m id :
  look (apply_aops A (minted_aops A remaining d ws)) pending_leaves (l, m) = Some id ->
  look A pending_leaves (l, m) = Some id /\
  ~ (m = d /\ l ∈ hashes_of remaining /\ id = p_epoch_id remaining).
Proof.
  destruct (look_aops A (minted_aops A remaining d ws) pending_leaves (l, m))
    as [(v & Hin & ->)|[[Hin ->]|[Hn ->]]]; inv_aop; subst; [done..|].
  intros Hl. split; [done|]. intros (-> & Hin & ->).
  apply (Hn (ADel pending_leaves (l, d))); [|by right].
  apply elem_of_minted_aops. right; right; left. eauto.
Qed.

Lemma minted_look_epochs A remaining d ws id :
  look (apply_aops A (minted_aops A remaining d ws)) epochs id = look A epochs id.
Proof. apply apply_aops_look_other. intros a Ha. inv_aop; by subst. Qed.

Lemma minted_look_epoch_leaves A remaining d ws k :
  look (apply_aops A (minted_aops A remaining d ws)) epoch_leaves k = look A epoch_leaves k.
Proof. apply apply_aops_look_other. intros a Ha. inv_aop; by subst. Qed.

(** A tip served after the write was served before or is one of [ws]. *)
Lemma minted_look_tip A remaining d ws t idx :
  look (apply_aops A (minted_aops A remaining d ws)) tip_to_pair t = Some idx ->
  (exists w, w ∈ ws /\ t = w_signature_hash w /\ idx = tip_pair_of w) \/
  look A tip_to_pair t = Some idx.
Proof.
  destruct (look_aops A (minted_aops A remaining d ws) tip_to_pair t)
    as [(v & Hin & ->)|[[Hin ->]|[Hn ->]]]; inv_aop; subst; [|tauto].
  intros [= <-]. left. eauto.
Qed.

Lemma minted_look_checked A remaining d ws t :
  is_Some (look (apply_aops A (minted_aops A remaining d ws)) self_checked_tips t) <->
  is_Some (look A self_checked_tips t) \/ exists w, w ∈ ws /\ t = w_signature_hash w.
Proof.
  destruct (look_aops A (minted_aops A remaining d ws) self_checked_tips t)
    as [(v & Hin & ->)|[[Hin ->]|[Hn ->]]]; inv_aop; subst.
  - split; [|by eexists]. intros _. right. eauto.
  - split; [tauto|]. intros [?|(w & Hw & ->)]; [done|].
    destruct (Hn (APut self_checked_tips (w_signature_hash w) tt)); [|left; by eexists].
    apply elem_of_minted_aops. right; left. eauto.
Qed.

(** Every served witness is found under its leaf and method. *)
Lemma minted_look_by_leaf A remaining d ws w :
  w ∈ ws ->
  exists w', w' ∈ ws /\ w_leaf w' = w_leaf w /\ w_method w' = w_method w /\
    look (apply_aops A (minted_aops A remaining d ws)) leaf_to_tips (w_leaf w, w_method w)
    = Some (w_signature_hash w').
Proof.
  intros Hw.
  destruct (look_aops A (minted_aops A remaining d ws) leaf_to_tips (w_leaf w, w_method w))
    as [(v & Hin & ->)|[[Hin ->]|[Hn ->]]]; inv_aop; simplify_eq; [eexists; eauto|].
  destruct (Hn (APut leaf_to_tips (w_leaf w, w_method w) (w_signature_hash w))); [|left; by eexists].
  apply elem_of_minted_aops. left. exists w. split; [done|]. apply elem_of_witness_aops. tauto.
Qed.

(** ** Saving a record *)

Lemma saved_look_pending A p (id : Z) :
  look (apply_aops A [APut pending_anchors (p_epoch_id p) p]) pending_anchors id
  = if decide (id = p_epoch_id p) then Some p else look A pending_anchors id.
Proof.
  unfold look. cbn. rewrite upd_eq. rewrite lookup_insert. repeat case_decide; congruence.
Qed.

Lemma saved_look_other A p q k :
  q <> pending_anchors ->
  look (apply_aops A [APut pending_anchors (p_epoch_id p) p]) q k = look A q k.
Proof. intros Hq. apply apply_aops_look_other. intros a ->%list_elem_of_singleton. cbn. congruence. Qed.
(** ** What a write keeps of the keys it does not remove *)

Lemma look_kept A l p k :
  ADel p k ∉ l -> is_Some (look A p k) -> is_Some (look (apply_aops A l) p k).
Proof.
  intros Hn Hs. destruct (look_aops A l p k) as [(v & _ & ->)|[[Hd _]|[_ ->]]]; [by eexists|done..].
Qed.

Lemma look_new A l p k v :
  ADel p k ∉ l -> APut p k v ∈ l -> is_Some (look (apply_aops A l) p k).
Proof.
  intros Hn Hp. destruct (look_aops A l p k) as [(v' & _ & ->)|[[Hd _]|[Hh _]]]; [by eexists|done|].
  destruct (Hh _ Hp). left. by eexists.
Qed.

Lemma minted_deletes A remaining d ws p k :
  ADel p k ∈ minted_aops A remaining d ws ->
  p = pending_anchors \/
  p = pending_leaves /\ exists l, l ∈ hashes_of remaining /\ ADel p k = ADel pending_leaves (l, d).
Proof.
  intros Hin. inv_aop; try discriminate.
  - right. match goal with Hd : _ = ADel pending_leaves _ |- _ =>
      pose proof (f_equal part Hd) as Hp; cbn in Hp end. subst. split; [done|]. eauto.
  - left. by match goal with Hd : _ = ADel _ _ |- _ => pose proof (f_equal part Hd) as Hp end.
Qed.

Lemma minted_look_kept A remaining d ws p k :
  p <> pending_anchors -> p <> pending_leaves -> is_Some (look A p k) ->
  is_Some (look (apply_aops A (minted_aops A remaining d ws)) p k).
Proof. intros Ha Hl. apply look_kept. intros [?|[? _]]%minted_deletes; done. Qed.

(** A lookup survives unless its witness of [d] is served by the write. *)
Lemma minted_lookup_kept A remaining d ws l m :
  is_Some (look A pending_leaves (l, m)) ->
  is_Some (look (apply_aops A (minted_aops A remaining d ws)) pending_leaves (l, m)) \/
  l ∈ hashes_of remaining /\ m = d.
Proof.
  intros Hs. destruct (look_aops A (minted_aops A remaining d ws) pending_leaves (l, m))
    as [(v & _ & ->)|[[Hd _]|[_ ->]]]; [left; by eexists| |by left].
  right. apply minted_deletes in Hd as [?|(_ & l' & Hl' & [= -> ->]%ADel_inj)]; done.
Qed.

Lemma minted_look_pair A remaining d ws w :
  w ∈ ws ->
  let A' := apply_aops A (minted_aops A remaining d ws) in
  is_Some (look A' tip_to_pair (w_signature_hash w)) /\
  is_Some (look A' witness_revisions (w_object_hash w)) /\
  is_Some (look A' witness_revisions (w_signature_hash w)).
Proof.
  intros Hw A'. assert (forall p k v, p <> pending_anchors -> p <> pending_leaves ->
    APut p k v ∈ witness_aops w -> is_Some (look A' p k)) as Hnew.
  { intros p k v Ha Hl Hin. apply (look_new _ _ _ _ v).
    - intros [?|[? _]]%minted_deletes; done.
    - apply elem_of_minted_aops. left. by exists w. }
  split_and!; (eapply Hnew; [done..|]); apply elem_of_witness_aops; eauto.
Qed.

Lemma minted_look_leaf_tip A remaining d ws l m t :
  look (apply_aops A (minted_aops A remaining d ws)) leaf_to_tips (l, m) = Some t ->
  (exists w, w ∈ ws /\ l = w_leaf w /\ m = w_method w /\ t = w_signature_hash w) \/
  look A leaf_to_tips (l, m) = Some t.
Proof.
  destruct (look_aops A (minted_aops A remaining d ws) leaf_to_tips (l, m))
    as [(v & Hin & ->)|[[Hin ->]|[Hn ->]]]; inv_aop; simplify_eq; [|tauto].
  intros [= <-]. left. eauto.
Qed.

Lemma minted_look_revision A remaining d ws h r :
  look (apply_aops A (minted_aops A remaining d ws)) witness_revisions h = Some r ->
  (exists w, w ∈ ws /\ (h = w_object_hash w /\ r = w_object_revision w \/
                       h = w_signature_hash w /\ r = w_signature_revision w)) \/
  look A witness_revisions h = Some r.
Proof.
  destruct (look_aops A (minted_aops A remaining d ws) witness_revisions h)
    as [(v & Hin & ->)|[[Hin ->]|[Hn ->]]]; inv_aop; subst; [..|tauto];
    intros [= <-]; left; eauto.
Qed.

Lemma sealed_deletes record leaves pend p k : ADel p k ∉ sealed_aops record leaves [] pend.
Proof. intros Hin. inv_aop. Qed.

Lemma sealed_look_kept A record leaves pend p k :
  is_Some (look A p k) -> is_Some (look (apply_aops A (sealed_aops record leaves [] pend)) p k).
Proof. apply look_kept, sealed_deletes. Qed.

Lemma sealed_look_owner A record leaves pend e :
  e ∈ leaves ->
  is_Some (look (apply_aops A (sealed_aops record leaves [] pend)) leaf_owner (leaf e)).
Proof.
  intros He.
  apply (look_new _ _ leaf_owner (leaf e) (submitter_did e)); [apply sealed_deletes|].
  apply elem_of_sealed_aops. right; right. eauto.
Qed.

Lemma sealed_look_revisions A record leaves pend k :
  look (apply_aops A (sealed_aops record leaves [] pend)) witness_revisions k
  = look A witness_revisions k.
Proof. apply apply_aops_look_other. intros a Ha. inv_aop; by subst. Qed.

Lemma sealed_leaf_inv A record leaves pend id l did :
  look (apply_aops A (sealed_aops record leaves [] pend)) epoch_leaves (id, l) = Some did ->
  (exists e, e ∈ leaves /\ leaf e = l) \/ look A epoch_leaves (id, l) = Some did.
Proof.
  destruct (look_aops A (sealed_aops record leaves [] pend) epoch_leaves (id, l))
    as [(v & Hin & ->)|[[Hin ->]|[Hn ->]]]; inv_aop; subst; [|tauto].
  intros _. left. simplify_eq. eauto.
Qed.
End readback.

(** ** The store on a keyspace *)

Section instance.
Context `{HexLaws, Sdk, FjallLaws, SerdeCrates, !StoreCodecs, !StoreCodecLaws}.

#[export] Instance Store_SealStore : SealStore := {
  Sto := Keyspace;
  StoErr := StoreError;
  st_list_pending_epochs := list_pending_epochs;
  st_save_pending := save_pending;
  st_persist_sealed_epoch_with_pending := persist_sealed_epoch_with_pending;
  st_persist_pending_minted := persist_pending_minted;
}.

Lemma refined_atomic {X} (A A' : AStore) (s : Keyspace * result StoreError X) :
  refined A A' s -> atomic (fun ks A => represents (view ks) A) A A' s.
Proof. done. Qed.

#[export] Instance Store_SealStoreLaws : SealStoreLaws.
Proof.
  refine {| absr := fun (s : Sto) A => represents (view (s : Keyspace)) A |}.
  - intros s A ps Ha Hps. pose proof (list_pending_epochs_read s A Ha) as Hr.
    unfold st_list_pending_epochs in Hps. cbn in Hps. rewrite Hps in Hr. exact Hr.
  - intros s A p Ha Hp. by apply refined_atomic, save_pending_refined.
  - intros s A record leaves ws pending Ha Hok. by apply refined_atomic, persist_sealed_refined.
  - intros s A remaining d ws Ha Hok. by apply refined_atomic, persist_minted_refined.
Defined.
End instance.
