(* ===== verification/Anchors.v ===== *)
(** * Anchor providers
    ([crates/aqua-timestamp-core/src/anchors.rs])

    A provider acts on the world (a transaction is broadcast, a token issued)
    and answers a timestamp value or an error. *)

From S2P Require Import Prelude External.
Open Scope string_scope.
Open Scope list_scope.

Inductive AnchorError := Provider (text : string).

(** The SDK's provider error, as the source matches it. *)
Inductive SdkTimestampError :=
| TsConfig (s : string) | TsProvider (s : string) | TsNotSupported (s : string).

Definition AnchorError_from (value : SdkTimestampError) : AnchorError :=
  match value with
  | TsConfig s => Provider ("config: " +:+ s)
  | TsProvider s => Provider s
  | TsNotSupported s => Provider ("not supported: " +:+ s)
  end.

(** The world the providers and hosts live in. *)
Class AnchorWorld `{Sdk} := {
  World : Type;
  SdkProvider : Type;
  sdk_create_timestamp :
    SdkProvider -> string -> World -> World * result SdkTimestampError TimestampValue;
  (** Why the blocking task of a self-check did not finish, if it did not. *)
  check_task_failure : World -> option string;
}.

Section anchors.
Context `{AnchorWorld}.

(** The implementations of the trait: every SDK provider, and the two test
    providers. *)
Inductive AnchorProvider :=
| SdkOne (p : SdkProvider)
| MockProvider (value : TimestampValue)
| FailingProvider (message : string).

Definition create_timestamp (p : AnchorProvider) (root : string) (w : World)
    : World * result AnchorError TimestampValue :=
  match p with
  | SdkOne p =>
      let '(w', r) := sdk_create_timestamp p root w in (w', map_err AnchorError_from r)
  | MockProvider value => (w, Ok value)
  | FailingProvider message => (w, Err (Provider message))
  end.
End anchors.
