(* ===== verification/Doubles.v ===== *)
(** * The simulated chain and TSA
    ([crates/aqua-timestamp-core/src/selfcheck.rs], [doubles]; the TSA of the
    seal's dry run in [crates/aqua-timestamp-e2e/src/selfcheck.rs])

    Each is an anchor provider and the host its anchors are judged by.  An
    operation is one access to its locked state.  A transaction's hash is ASCII. *)

From S2P Require Import Prelude External Accumulator Witness Selfcheck Anchors.
Open Scope string_scope.
Open Scope list_scope.
Open Scope Z_scope.

(** ** What the hosts answer *)

Record EvmInclusion := { in_block_number : u64; in_block_hash : Hash32; in_block_time : u64; in_succeeded : bool }.
Record EvmChainHead := { he_latest : u64; he_safe : option u64; he_finalized : option u64 }.
Record EvmTransactionFacts := {
  fx_chain_id : u64;
  fx_tx_hash : Hash32;
  fx_from : Address20;
  fx_to : option Address20;
  fx_input : bytes;
  fx_inclusion : option EvmInclusion;
  fx_head : EvmChainHead;
}.
Record TsaTokenFacts := { tf_policy_oid : string; tf_issuer : string; tf_qualified_root : bool }.

(** A value with its root. *)
Definition with_root (v : TimestampValue) (root : string) : TimestampValue :=
  {| tv_merkle_proof := tv_merkle_proof v; tv_sender_account_address := tv_sender_account_address v;
     tv_tsa_provider := tv_tsa_provider v; tv_transaction_hash := tv_transaction_hash v;
     tv_smart_contract_address := tv_smart_contract_address v; tv_network := tv_network v; tv_merkle_root := root;
     tv_timestamp := tv_timestamp v; tv_batch_tree_size := tv_batch_tree_size v;
     tv_batch_leaf_index := tv_batch_leaf_index v; tv_shielding_nonce := tv_shielding_nonce v |}.

Definition BLOCK : u64 := 20000100.

Section chain.
Context `{HexCrate}.

(** [bytes::<N>]. *)
Definition hex_bytes (n : nat) (s : string) : option (array n) :=
  r ← strip_prefix "0x" s; b ← ok (hex_decode r); try_array n b.

(** ** [SimChain] *)

Record SimChain := {
  ch_template : TimestampValue;
  ch_txs : gmap string bytes;
  ch_is_final : bool;
  ch_dropped : bool;
  ch_unmined : bool;
  ch_calls : Z;
}.

Definition SimChain_new (template : TimestampValue) : SimChain :=
  {| ch_template := template; ch_txs := ∅; ch_is_final := true; ch_dropped := false; ch_unmined := false; ch_calls := 0 |}.

Definition set_final (b : bool) (c : SimChain) : SimChain :=
  {| ch_template := ch_template c; ch_txs := ch_txs c; ch_is_final := b; ch_dropped := ch_dropped c;
     ch_unmined := ch_unmined c; ch_calls := ch_calls c |}.
Definition set_dropped (b : bool) (c : SimChain) : SimChain :=
  {| ch_template := ch_template c; ch_txs := if b then ∅ else ch_txs c; ch_is_final := ch_is_final c; ch_dropped := b;
     ch_unmined := ch_unmined c; ch_calls := ch_calls c |}.
Definition set_unmined (b : bool) (c : SimChain) : SimChain :=
  {| ch_template := ch_template c; ch_txs := ch_txs c; ch_is_final := ch_is_final c; ch_dropped := ch_dropped c;
     ch_unmined := b; ch_calls := ch_calls c |}.

(** The witness selector. *)
Definition SELECTOR : bytes := [Byte.x11; Byte.x4e; Byte.xe1; Byte.x97].
Definition root_bytes (root : string) : bytes := default [] (strip_prefix "0x" root ≫= fun r => ok (hex_decode r)).
Definition witness_input (root : string) : bytes := SELECTOR ++ root_bytes root.

(** [create_timestamp]; [usize] of 64 bits. *)
Definition chain_create_timestamp (root : string) (c : SimChain) : SimChain * result AnchorError TimestampValue :=
  ({| ch_template := ch_template c;
      ch_txs := if ch_dropped c then ch_txs c
                else <[to_ascii_lowercase (tv_transaction_hash (ch_template c)) := witness_input root]> (ch_txs c);
      ch_is_final := ch_is_final c; ch_dropped := ch_dropped c; ch_unmined := ch_unmined c;
      ch_calls := wrapping_add 64 (ch_calls c) 1 |},
   Ok (with_root (ch_template c) root)).

(** A transaction of the template that carries the input. *)
Definition facts_of (template : TimestampValue) (is_final unmined : bool) (chain_id : u64) (tx_hash : string) (input : bytes)
    : EvmTransactionFacts :=
  {| fx_chain_id := chain_id;
     fx_tx_hash := default (filled 32 Byte.x00) (hex_bytes 32 tx_hash);
     fx_from := default (filled 20 Byte.x00) (hex_bytes 20 (tv_sender_account_address template));
     fx_to := hex_bytes 20 (tv_smart_contract_address template);
     fx_input := input;
     fx_inclusion := if unmined then None
                     else Some {| in_block_number := if is_final then BLOCK else BLOCK + 60;
                                  in_block_hash := filled 32 Byte.xee; in_block_time := tv_timestamp template;
                                  in_succeeded := true |};
     fx_head := {| he_latest := BLOCK + 100; he_safe := Some (BLOCK + 50); he_finalized := Some (BLOCK + 20) |} |}.

Definition transaction_facts (chain_id : u64) (tx_hash : string) (c : SimChain) : option EvmTransactionFacts :=
  facts_of (ch_template c) (ch_is_final c) (ch_unmined c) chain_id tx_hash <$> ch_txs c !! to_ascii_lowercase tx_hash.

(** ** Its runs *)

Inductive ChainOp := Anchor (root : string) | SetFinal (b : bool) | SetDropped (b : bool) | SetUnmined (b : bool).

Definition chain_step (c : SimChain) (o : ChainOp) : SimChain :=
  match o with
  | Anchor root => (chain_create_timestamp root c).1
  | SetFinal b => set_final b c
  | SetDropped b => set_dropped b c
  | SetUnmined b => set_unmined b c
  end.
Definition chain_run (ops : list ChainOp) (template : TimestampValue) : SimChain := fold_left chain_step ops (SimChain_new template).

(** The last setting of a switch, and what a run ends with on the chain. *)
Definition last_set (switch : ChainOp -> option bool) (start : bool) (ops : list ChainOp) : bool :=
  fold_left (fun b o => default b (switch o)) ops start.
Definition finality (o : ChainOp) : option bool := match o with SetFinal b => Some b | _ => None end.
Definition dropping (o : ChainOp) : option bool := match o with SetDropped b => Some b | _ => None end.
Definition unmining (o : ChainOp) : option bool := match o with SetUnmined b => Some b | _ => None end.

(** Neither anchors nor drops. *)
Definition leaves_chain (o : ChainOp) : Prop := match o with Anchor _ => False | SetDropped b => b = false | _ => True end.

(** The root was the last anchored while nothing was dropped, and not dropped since. *)
Definition carries (ops : list ChainOp) (root : string) : Prop :=
  exists before after, ops = before ++ Anchor root :: after /\ last_set dropping false before = false /\
    Forall leaves_chain after.

Lemma last_set_snoc switch start ops o :
  last_set switch start (ops ++ [o]) = default (last_set switch start ops) (switch o).
Proof. unfold last_set. by rewrite fold_left_app. Qed.

Lemma carries_snoc ops o root :
  carries (ops ++ [o]) root <->
  (o = Anchor root /\ last_set dropping false ops = false) \/ (leaves_chain o /\ carries ops root).
Proof.
  unfold carries. split.
  - intros (before & after & He & Hb & Ha). destruct (decide (after = [])) as [->|Hn].
    + apply app_inj_tail in He as [-> ->]. by left.
    + destruct (exists_last Hn) as (after' & o' & ->). rewrite app_comm_cons, (assoc_L (++)) in He.
      apply app_inj_tail in He as [-> ->]. apply Forall_app in Ha as [Ha Ho%List.Forall_inv]. right. split; [done|].
      by exists before, after'.
  - intros [[-> Hd]|(Ho & before & after & -> & Hb & Ha)]; [by exists ops, []|].
    exists before, (after ++ [o]). rewrite <- (assoc_L (++)). split_and!; [done..|]. apply Forall_app. split; [done|by repeat constructor].
Qed.

(** What is on the chain after a run. *)
Definition on_chain (ops : list ChainOp) (template : TimestampValue) (c : SimChain) : Prop :=
  ch_template c = template /\ ch_is_final c = last_set finality true ops /\
  ch_dropped c = last_set dropping false ops /\ ch_unmined c = last_set unmining false ops /\
  (ch_dropped c = true -> ch_txs c = ∅) /\
  forall tx input, ch_txs c !! tx = Some input <->
    tx = to_ascii_lowercase (tv_transaction_hash template) /\ exists root, carries ops root /\ input = witness_input root.

(** An operation that leaves the chain. *)
Ltac kept_on_chain Hx :=
  rewrite Hx; split; intros (-> & r & Hc & ->); (split; [done|]); exists r; (split; [|done]);
  [by right|by destruct Hc as [[]|[]]].

Lemma chain_run_on_chain ops template : on_chain ops template (chain_run ops template).
Proof.
  induction ops as [|o ops IH] using rev_ind.
  { split_and!; try done. intros tx input. cbn. rewrite lookup_empty. split; [done|].
    intros (_ & root & (before & after & He & _) & _). by destruct before. }
  unfold chain_run in *. rewrite fold_left_app. cbn [fold_left]. set (c := fold_left chain_step ops _) in *. clearbody c.
  destruct IH as (Ht & Hf & Hd & Hu & He & Hx). unfold on_chain. rewrite !last_set_snoc.
  destruct o as [root|b|b|b]; cbn [chain_step chain_create_timestamp set_final set_dropped set_unmined fst ch_template ch_is_final
    ch_dropped ch_unmined ch_txs finality dropping unmining default]; split_and!; try done;
    try (intros tx input; setoid_rewrite carries_snoc; cbn [leaves_chain]).
  - intros Hdc. rewrite Hdc. by apply He.
  - rewrite Ht. destruct (ch_dropped c) eqn:Hdc.
    + rewrite He by done. rewrite lookup_empty. split; [done|]. intros (-> & r & [[_ Hn]|[[] _]] & _). congruence.
    + destruct (decide (tx = to_ascii_lowercase (tv_transaction_hash template))) as [->|Hn].
      * rewrite lookup_insert_eq. split.
        -- intros [= <-]. split; [done|]. exists root. split; [|done]. left. split; [done|congruence].
        -- intros (_ & r & [[[= ->] _]|[[] _]] & ->). done.
      * rewrite lookup_insert_ne by done. rewrite Hx. split; [by intros [? _]|by intros [? _]].
  - by kept_on_chain Hx.
  - by intros ->.
  - destruct b.
    + rewrite lookup_empty. split; [done|]. intros (_ & r & [[]|[]] & _); done.
    + by kept_on_chain Hx.
  - by kept_on_chain Hx.
Qed.

(** After any run of anchor calls and switches, the simulated chain knows
    exactly the template's transaction, and only while a root is carried; it
    then carries the last root anchored, included unless unmined and final as
    last set. *)
Theorem sim_chain_spec ops template chain_id tx f :
  transaction_facts chain_id tx (chain_run ops template) = Some f <->
  to_ascii_lowercase tx = to_ascii_lowercase (tv_transaction_hash template) /\
  exists root, carries ops root /\
    f = facts_of template (last_set finality true ops) (last_set unmining false ops) chain_id tx (witness_input root).
Proof.
  destruct (chain_run_on_chain ops template) as (Ht & Hf & _ & Hu & _ & Hx). unfold transaction_facts.
  rewrite fmap_Some. setoid_rewrite Hx. rewrite Ht, Hf, Hu. naive_solver.
Qed.
End chain.

(** ** [SimTsa] *)

Section tsa.
Context `{Sdk}.

(** [QualifiedVerifyLevel::Failed]. *)
Context (LevelFailed : QualifiedVerifyLevel).

Record SimTsa := {
  st_template : TimestampValue;
  st_issued : list (string * string * u64);
  st_calls : Z;
}.
Definition SimTsa_new (template : TimestampValue) : SimTsa := {| st_template := template; st_issued := []; st_calls := 0 |}.

Definition tsa_create_timestamp (root : string) (t : SimTsa) : SimTsa * result AnchorError TimestampValue :=
  let value := with_root (st_template t) root in
  ({| st_template := st_template t; st_issued := st_issued t ++ [(tv_transaction_hash value, root, tv_timestamp value)];
      st_calls := wrapping_add 64 (st_calls t) 1 |}, Ok value).

Definition sim_verify_tsa_token (response root : string) (timestamp : u64) (t : SimTsa)
    : QualifiedVerifyLevel * string * option TsaTokenFacts :=
  if existsb (fun i => bool_decide (i = (response, root, timestamp))) (st_issued t)
  then (LevelVerified, "sim tsa", None) else (LevelFailed, "not issued by sim tsa", None).

Definition OFFLINE_TSA_POLICY_OID : string := "1.2.3.4.5".
Definition OFFLINE_TSA_ISSUER : string := "CN=Offline Selfcheck TSA".

(** [FactsOfVerifiedTokens]: the inner host's answer, with the facts of a
    verified token. *)
Definition facts_of_verified (answer : result SdkError (QualifiedVerifyLevel * string * option TsaTokenFacts))
    : result SdkError (QualifiedVerifyLevel * string * option TsaTokenFacts) :=
  let? '(level, message, _) := answer in
  Ok (level, message,
      if decide (level = LevelVerified)
      then Some {| tf_policy_oid := OFFLINE_TSA_POLICY_OID; tf_issuer := OFFLINE_TSA_ISSUER; tf_qualified_root := true |}
      else None).

(** ** Its runs *)

Definition tsa_run (roots : list string) (template : TimestampValue) : SimTsa :=
  fold_left (fun t root => (tsa_create_timestamp root t).1) roots (SimTsa_new template).

Lemma tsa_run_issued roots template :
  st_template (tsa_run roots template) = template /\
  st_issued (tsa_run roots template) = map (fun root => (tv_transaction_hash template, root, tv_timestamp template)) roots.
Proof.
  unfold tsa_run. induction roots as [|root roots IH] using rev_ind; [done|]. rewrite fold_left_app, map_app.
  set (t := fold_left _ roots _) in *. clearbody t. cbn. by destruct IH as [-> ->].
Qed.

(** What a host that answers as the simulated TSA does makes of the self-check:
    after any anchor calls, a witness's token passes exactly when it is the
    template's, over a root the TSA stamped, at its time; otherwise the anchor
    is at fault. *)
Theorem sim_tsa_judged roots template hosts host p response root time :
  LevelFailed <> LevelVerified -> LevelFailed <> LevelQualifiedVerified ->
  tsa hosts = Some host ->
  (forall response root time, verify_tsa_token host response root time =
     Ok (sim_verify_tsa_token response root time (tsa_run roots template)).1) ->
  (json_get p "transaction_hash" ≫= json_as_str) = Some response ->
  (json_get p "merkle_root" ≫= json_as_str) = Some root -> (json_get p "timestamp" ≫= json_as_u64) = Some time ->
  let issued := response = tv_transaction_hash template /\ root ∈ roots /\ time = tv_timestamp template in
  (issued -> check_tsa p hosts = Verified) /\ (~ issued -> exists reason, check_tsa p hosts = Failed reason true).
Proof.
  intros Hf1 Hf2 Hh Hhost Hr Hm Ht issued. unfold check_tsa. rewrite Hh, Hr, Hm, Ht, Hhost. unfold sim_verify_tsa_token.
  destruct (tsa_run_issued roots template) as [_ ->].
  assert (existsb (fun i => bool_decide (i = (response, root, time)))
    (map (fun root => (tv_transaction_hash template, root, tv_timestamp template)) roots) = true <-> issued) as Hi.
  { rewrite existsb_exists. unfold issued. setoid_rewrite in_map_iff. split.
    - intros (i & (r & <- & Hin) & [= <- <- <-]%bool_decide_eq_true). split_and!; [done|by apply list_elem_of_In|done].
    - intros (-> & Hin & ->). eexists. split; [exists root; split; [done|by apply list_elem_of_In]|by apply bool_decide_eq_true]. }
  destruct (existsb _ _).
  - split; [|intros []; by apply Hi]. intros _. cbn. by rewrite decide_True by auto.
  - split; [intros Hy; apply Hi in Hy; done|]. intros _. cbn. rewrite decide_False by (intros [?|?]; done). by eexists.
Qed.
End tsa.
