(* ===== verification/Sealer.v ===== *)
(** * The sealer
    ([crates/aqua-timestamp-core/src/sealer.rs])

    [seal_once] closes the open epoch, persists it with every enabled method
    pending, and settles what is pending: anchor, mint, self-check, serve.  The
    functions pass the store, the world and the set of methods that are down
    this tick; [t_calls] records the provider calls and is read by theorems
    only.  Log lines are left out.  The [after_mint] test hook (feature
    [test-doubles]) is not modelled. *)

From S2P Require Import Prelude External Merkle Accumulator Witness Selfcheck Epoch Utf8 Kv Storage StoreSpec SealStore Anchors.
Open Scope string_scope.
Open Scope list_scope.

Definition DEFAULT_EVM_NOT_FOUND_TIMEOUT_SECS : u64 := 3600.
Definition DEFAULT_MAX_ANCHOR_FAULTS : u32 := 3.

(** One call of [create_timestamp]. *)
Record call := {
  c_method : AnchorMethod;
  c_root : string;
  c_ok : bool;
}.

Section sealer.
Context `{HexCrate, Sdk, !AnchorWorld, SerdeCrates, !StoreCodecs, !SealStore}.

(** [c_self_check] gives the hosts as they answer in the current world. *)
Record WitnessContext := {
  c_signer : Secp256k1Signer;
  c_service_eth_address : string;
  c_methods : list AnchorMethod;
  c_evm_anchor : option AnchorProvider;
  c_qtsa_anchor : option AnchorProvider;
  c_self_check : World -> SelfCheckHosts;
  c_evm_not_found_timeout_secs : u64;
  c_max_anchor_faults : u32;
  c_service_did : string;
}.

Inductive SealError :=
| SealStoreErr (e : StoErr)
| SealWitness (e : WitnessError)
| MissingProvider (m : AnchorMethod)
| MissingSelfCheckHost (m : AnchorMethod)
| NoServiceDid.

Definition WitnessContext_new (signer : Secp256k1Signer) (service_eth_address : string)
    (methods : list AnchorMethod) : WitnessContext :=
  {| c_signer := signer;
     c_service_eth_address := service_eth_address;
     c_methods := methods;
     c_evm_anchor := None;
     c_qtsa_anchor := None;
     c_self_check := fun _ => hosts_default;
     c_evm_not_found_timeout_secs := DEFAULT_EVM_NOT_FOUND_TIMEOUT_SECS;
     c_max_anchor_faults := DEFAULT_MAX_ANCHOR_FAULTS;
     c_service_did := default "" (ok (derive_did_pkh signer)) |}.

Definition with_self_check (c : WitnessContext) (hosts : World -> SelfCheckHosts)
    : WitnessContext :=
  {| c_signer := c_signer c; c_service_eth_address := c_service_eth_address c;
     c_methods := c_methods c; c_evm_anchor := c_evm_anchor c; c_qtsa_anchor := c_qtsa_anchor c;
     c_self_check := hosts; c_evm_not_found_timeout_secs := c_evm_not_found_timeout_secs c;
     c_max_anchor_faults := c_max_anchor_faults c; c_service_did := c_service_did c |}.

Definition with_evm_anchor (c : WitnessContext) (a : AnchorProvider) : WitnessContext :=
  {| c_signer := c_signer c; c_service_eth_address := c_service_eth_address c;
     c_methods := c_methods c; c_evm_anchor := Some a; c_qtsa_anchor := c_qtsa_anchor c;
     c_self_check := c_self_check c;
     c_evm_not_found_timeout_secs := c_evm_not_found_timeout_secs c;
     c_max_anchor_faults := c_max_anchor_faults c; c_service_did := c_service_did c |}.

Definition with_qtsa_anchor (c : WitnessContext) (a : AnchorProvider) : WitnessContext :=
  {| c_signer := c_signer c; c_service_eth_address := c_service_eth_address c;
     c_methods := c_methods c; c_evm_anchor := c_evm_anchor c; c_qtsa_anchor := Some a;
     c_self_check := c_self_check c;
     c_evm_not_found_timeout_secs := c_evm_not_found_timeout_secs c;
     c_max_anchor_faults := c_max_anchor_faults c; c_service_did := c_service_did c |}.

Definition provider (c : WitnessContext) (method : AnchorMethod) : option AnchorProvider :=
  match method with Evm => c_evm_anchor c | Qtsa => c_qtsa_anchor c end.

Definition host_missing (hosts : SelfCheckHosts) (m : AnchorMethod) : bool :=
  match m with
  | Evm => bool_decide (blockchain hosts = None)
  | Qtsa => bool_decide (tsa hosts = None)
  end.

Definition validate (c : WitnessContext) (w : World) : result SealError unit :=
  match List.find (fun m => bool_decide (provider c m = None)) (c_methods c) with
  | Some m => Err (MissingProvider m)
  | None =>
      match List.find (host_missing (c_self_check c w)) (c_methods c) with
      | Some m => Err (MissingSelfCheckHost m)
      | None => if decide (c_service_did c = "") then Err NoServiceDid else Ok tt
      end
  end.

(** What a tick threads through its calls. *)
Record Tick := {
  t_sto : Sto;
  t_world : World;
  t_down : gset AnchorMethod;
  t_calls : list call;
}.
Definition on_sto (t : Tick) (s : Sto) : Tick :=
  {| t_sto := s; t_world := t_world t; t_down := t_down t; t_calls := t_calls t |}.
Definition put_down (t : Tick) (m : AnchorMethod) : Tick :=
  {| t_sto := t_sto t; t_world := t_world t; t_down := {[m]} ∪ t_down t; t_calls := t_calls t |}.

Definition anchor_root (ctx : WitnessContext) (method : AnchorMethod) (root : string) (t : Tick)
    : Tick * option TimestampValue :=
  match provider ctx method with
  | None => (t, None)
  | Some a =>
      let '(w', r) := create_timestamp a root (t_world t) in
      ({| t_sto := t_sto t; t_world := w'; t_down := t_down t;
          t_calls := t_calls t ++ [{| c_method := method; c_root := root; c_ok := is_ok r |}] |},
       ok r)
  end.

(** Saves the record, once more on failure. *)
Definition store_anchor (pending : PendingEpoch) (s : Sto) : Sto * bool :=
  match st_save_pending pending s with
  | (s1, Ok _) => (s1, true)
  | (s1, Err _) =>
      match st_save_pending pending s1 with
      | (s2, Ok _) => (s2, true)
      | (s2, Err _) => (s2, false)
      end
  end.

(** [save_pending] where the source only logs a failure. *)
Definition save_or_log (pending : PendingEpoch) (t : Tick) : Tick :=
  on_sto t (st_save_pending pending (t_sto t)).1.

Definition settle_missing (ctx : WitnessContext) (method : AnchorMethod) (now : u64)
    (pending : PendingEpoch) (t : Tick) : PendingEpoch * Tick :=
  match anchor_first_seen pending method now with
  | (pending, None) => (pending, t)
  | (pending, Some (first_seen, changed)) =>
      let age := sat_sub now first_seen in
      if decide (age < c_evm_not_found_timeout_secs ctx) then
        (pending, if changed : bool then save_or_log pending t else t)
      else
        let '(pending, _) := count_anchor_fault pending method in
        let pending := drop_anchor pending method in
        (pending, save_or_log pending t)
  end.

Definition self_check (ctx : WitnessContext) (w : World) (minted : list MintedWitness)
    : list SelfCheckVerdict :=
  match check_task_failure w with
  | Some e => replicate (length minted) (Failed ("self-check task: " +:+ e) false)
  | None => verify_minted_batch minted (c_service_did ctx) (c_self_check ctx w)
  end.

(** Step 1: the anchor to mint from; [None] ends the method's turn. *)
Definition settle_anchor (ctx : WitnessContext) (method : AnchorMethod) (now : u64)
    (pending : PendingEpoch) (t : Tick) : PendingEpoch * Tick * option TimestampValue :=
  match anchor pending method with
  | Some value => (pending, t, Some value)
  | None =>
      if decide (method ∈ t_down t) then (pending, t, None)
      else if decide (c_max_anchor_faults ctx <= anchor_fault_count pending method)
      then (pending, t, None)
      else
        match anchor_root ctx method (p_anchor_root pending) t with
        | (t, None) => (pending, put_down t method, None)
        | (t, Some value) =>
            let pending := set_anchor pending method value now in
            let '(s', stored) := store_anchor pending (t_sto t) in
            if stored : bool then (pending, on_sto t s', Some value)
            else (pending, put_down (on_sto t s') method, None)
        end
  end.

(** Step 2: the witnesses minted from the anchor. *)
Definition mint_pending (ctx : WitnessContext) (pending : PendingEpoch) (method : AnchorMethod)
    (value : TimestampValue) : result WitnessError (list MintedWitness) :=
  let outcome := from_value method value in
  let? '(snapshot, batch) := restore pending in
  mint_witnesses_for_epoch snapshot batch [(method, outcome)] (c_signer ctx).

(** Step 3: the loop over the verdicts stops at the first that is not
    [Verified]. *)
Fixpoint first_refusal (verdicts : list SelfCheckVerdict) : option SelfCheckVerdict :=
  match verdicts with
  | [] => None
  | Verified :: verdicts' => first_refusal verdicts'
  | v :: _ => Some v
  end.

Definition settle_refused (ctx : WitnessContext) (method : AnchorMethod) (now : u64)
    (v : SelfCheckVerdict) (pending : PendingEpoch) (t : Tick) : PendingEpoch * Tick :=
  match v with
  | Verified | NotYet _ => (pending, t)
  | Missing _ => settle_missing ctx method now pending t
  | Failed _ anchor_at_fault =>
      if anchor_at_fault : bool then
        let '(pending, _) := count_anchor_fault pending method in
        let t := put_down t method in
        let pending := drop_anchor pending method in
        (pending, save_or_log pending t)
      else (pending, t)
  end.

(** Step 4: write the witnesses for serving and drop the method. *)
Definition serve (method : AnchorMethod) (minted : list MintedWitness) (pending : PendingEpoch)
    (t : Tick) : PendingEpoch * Tick * option (list MintedWitness) :=
  let remaining :=
    drop_anchor (set_methods pending (filter (fun m => m <> method) (p_methods pending))) method in
  match st_persist_pending_minted remaining method minted (t_sto t) with
  | (s', Err _) => (pending, on_sto t s', None)
  | (s', Ok _) => (remaining, on_sto t s', Some minted)
  end.

Definition settle_method (ctx : WitnessContext) (now : u64) (method : AnchorMethod)
    (pending : PendingEpoch) (t : Tick) : PendingEpoch * Tick * option (list MintedWitness) :=
  if decide (method ∈ c_methods ctx) then
    match settle_anchor ctx method now pending t with
    | (pending, t, None) => (pending, t, None)
    | (pending, t, Some value) =>
        match mint_pending ctx pending method value with
        | Err _ => (pending, t, None)
        | Ok minted =>
            let verdicts := self_check ctx (t_world t) minted in
            match first_refusal (take (length minted) verdicts) with
            | Some v =>
                let '(pending, t) := settle_refused ctx method now v pending t in
                (pending, t, None)
            | None => serve method minted pending t
            end
        end
    end
  else (pending, t, None).

(** [for method in pending.methods.clone()]. *)
Fixpoint settle_methods (ctx : WitnessContext) (now : u64) (methods : list AnchorMethod)
    (pending : PendingEpoch) (t : Tick) : PendingEpoch * Tick * list MintedWitness :=
  match methods with
  | [] => (pending, t, [])
  | m :: methods' =>
      let '(pending, t, o) := settle_method ctx now m pending t in
      let '(pending, t, ws) := settle_methods ctx now methods' pending t in
      (pending, t, default [] o ++ ws)
  end.

Fixpoint settle_epochs (ctx : WitnessContext) (now : u64) (pendings : list PendingEpoch)
    (t : Tick) : Tick * list MintedWitness :=
  match pendings with
  | [] => (t, [])
  | p :: pendings' =>
      let '(_, t, ws) := settle_methods ctx now (p_methods p) p t in
      let '(t, ws') := settle_epochs ctx now pendings' t in
      (t, ws ++ ws')
  end.

Definition retry_pending (ctx : WitnessContext) (now : u64) (t : Tick)
    : Tick * list MintedWitness :=
  match st_list_pending_epochs (t_sto t) with
  | Err _ => (t, [])
  | Ok pendings => settle_epochs ctx now pendings t
  end.

Definition build_record `{Sha3Crate} (snapshot : SealedSnapshot) (batch : option EpochBatch)
    : result WitnessError EpochRecord :=
  let? root := match batch with Some b => root_digest b | None => Ok empty_merkle_root end in
  Ok {| er_id := snap_epoch_id snapshot;
        er_opened_at := snap_opened_at snapshot;
        er_closed_at := snap_closed_at snapshot;
        er_merkle_root := root;
        er_leaf_count := Z.of_nat (length (snap_leaves snapshot));
        er_hash_type := HASH_TYPE_LABEL |}.

(** The state a seal works on: the accumulator, the store and the world, and
    the provider calls so far. *)
Record SealState := {
  s_acc : AccumulatorInner;
  s_sto : Sto;
  s_world : World;
  s_calls : list call;
}.
Definition tick_of (s : SealState) : Tick :=
  {| t_sto := s_sto s; t_world := s_world s; t_down := ∅; t_calls := s_calls s |}.
Definition state_of (acc : AccumulatorInner) (t : Tick) : SealState :=
  {| s_acc := acc; s_sto := t_sto t; s_world := t_world t; s_calls := t_calls t |}.

(** The pending record of the closed epoch. *)
Definition pending_of (witness_ctx : option WitnessContext) (snapshot : SealedSnapshot)
    (batch : option EpochBatch) : option PendingEpoch :=
  match witness_ctx, batch with
  | Some ctx, Some b =>
      if decide (c_methods ctx <> []) then Some (PendingEpoch_new snapshot b (c_methods ctx))
      else None
  | _, _ => None
  end.

Definition seal_once `{Sha3Crate} (closed_at duration_secs : u64)
    (witness_ctx : option WitnessContext) (s : SealState)
    : SealState * result SealError (EpochRecord * list MintedWitness) :=
  let valid := match witness_ctx with Some ctx => validate ctx (s_world s) | None => Ok tt end in
  match valid with
  | Err e => (s, Err e)
  | Ok _ =>
      let '(t, witnesses) :=
        match witness_ctx with
        | Some ctx => retry_pending ctx closed_at (tick_of s)
        | None => (tick_of s, [])
        end in
      let '(acc, snapshot) := swap_and_open_next closed_at closed_at duration_secs (s_acc s) in
      let prepared :=
        let? batch := EpochBatch_prepare (leaf <$> snap_leaves snapshot) in
        let? record := build_record snapshot batch in
        Ok (batch, record) in
      match prepared with
      | Err e => (state_of acc t, Err (SealWitness e))
      | Ok (batch, record) =>
          let pending := pending_of witness_ctx snapshot batch in
          match st_persist_sealed_epoch_with_pending record (snap_leaves snapshot) [] pending
                  (t_sto t) with
          | (sto, Err e) => (state_of acc (on_sto t sto), Err (SealStoreErr e))
          | (sto, Ok _) =>
              let t := on_sto t sto in
              let '(t, minted) :=
                match witness_ctx, pending with
                | Some ctx, Some p =>
                    let '(_, t, ws) := settle_methods ctx closed_at (p_methods p) p t in (t, ws)
                | _, _ => (t, [])
                end in
              (state_of acc t, Ok (record, witnesses ++ minted))
          end
      end
  end.
End sealer.
