(* ===== verification/SealInv.v ===== *)
(** * What sealing keeps of the store

    The invariant of the abstract store under the sealer's writes, and the
    relation "nothing is lost" between the store before and after: sealed
    epochs and their leaves stay, and an outstanding (epoch, method, leaf) stays
    outstanding until a self-checked witness of it is served. *)

From S2P Require Import Prelude External Merkle Accumulator Witness Epoch Utf8 Kv Storage StoreSpec SealStore.

Section seal_inv.
Context `{HexCrate, Sdk, SerdeCrates, !StoreCodecs}.

(** A self-checked witness of the leaf is found by the fetch routes. *)
Definition served (A : AStore) (l : Hash32) (m : AnchorMethod) : Prop :=
  exists t, look A leaf_to_tips (l, m) = Some t /\ is_Some (look A self_checked_tips t).

(** The fetch routes find the leaf: an epoch it waits for, or its served
    witness. *)
Definition found (A : AStore) (l : Hash32) (m : AnchorMethod) : Prop :=
  is_Some (look A pending_leaves (l, m)) \/ served A l m.

(** [next] is the id of the open epoch. *)
Record store_inv (A : AStore) (next : Z) : Prop := {
  si_epochs id r : look A epochs id = Some r -> er_id r = id /\ id < next;
  si_pending id p : look A pending_anchors id = Some p ->
    p_epoch_id p = id /\ u64_ok id /\ is_Some (look A epochs id);
  si_leaves id l did : look A epoch_leaves (id, l) = Some did -> is_Some (look A epochs id);
  (** A pending lookup points to an epoch that is pending for that leaf and
      method. *)
  si_lookup l m id : look A pending_leaves (l, m) = Some id ->
    exists p, look A pending_anchors id = Some p /\ l ∈ hashes_of p /\ m ∈ p_methods p;
  (** What is outstanding is found. *)
  si_found id p l m : look A pending_anchors id = Some p -> l ∈ hashes_of p -> m ∈ p_methods p ->
    found A l m;
  (** Every stored leaf has an owner. *)
  si_owner id l : is_Some (look A epoch_leaves (id, l)) -> is_Some (look A leaf_owner l);
  (** Every tip has its pair, every pair its two revisions. *)
  si_tips k t : look A leaf_to_tips k = Some t -> is_Some (look A tip_to_pair t);
  si_pairs t idx : look A tip_to_pair t = Some idx ->
    ti_signature_hash idx = t /\ is_Some (look A witness_revisions (ti_object_hash idx)) /\
    is_Some (look A witness_revisions t);
}.

Record nothing_lost (A A' : AStore) : Prop := {
  nl_epochs id r : look A epochs id = Some r -> look A' epochs id = Some r;
  nl_leaves id l did : look A epoch_leaves (id, l) = Some did ->
    look A' epoch_leaves (id, l) = Some did;
  nl_served l m : served A l m -> served A' l m;
  nl_found l m : found A l m -> found A' l m;
  nl_pending id p m l : look A pending_anchors id = Some p -> m ∈ p_methods p -> l ∈ hashes_of p ->
    (exists p', look A' pending_anchors id = Some p' /\ m ∈ p_methods p' /\ l ∈ hashes_of p') \/
    served A' l m;
}.

Lemma nothing_lost_refl A : nothing_lost A A.
Proof. split; eauto. Qed.

Lemma nothing_lost_trans A B C : nothing_lost A B -> nothing_lost B C -> nothing_lost A C.
Proof.
  intros HAB HBC. split.
  1-4: intros; by eapply HBC, HAB.
  - intros id p m l Hp Hm Hl. destruct (nl_pending _ _ HAB _ _ _ _ Hp Hm Hl) as [(p' & ? & ? & ?)|?].
    + by eapply HBC.
    + right. by eapply HBC.
Qed.

#[export] Instance nothing_lost_preorder : PreOrder nothing_lost.
Proof. split; [exact nothing_lost_refl|exact nothing_lost_trans]. Qed.

(** The two revisions of a witness with property [V], under their hashes. *)
Definition revision_of (V : MintedWitness -> Prop) (h : Hash32) (r : AnyRevision) : Prop :=
  exists w, V w /\ (h = w_object_hash w /\ r = w_object_revision w \/
                   h = w_signature_hash w /\ r = w_signature_revision w).

(** What is served since is witnesses with property [V]: every new pair of a
    tip, every new tip of a leaf and every new revision is one's. *)
Record tips_from (V : MintedWitness -> Prop) (A A' : AStore) : Prop := {
  tf_pair t idx : look A' tip_to_pair t = Some idx ->
    look A tip_to_pair t = Some idx \/
    exists w, V w /\ t = w_signature_hash w /\ idx = tip_pair_of w;
  tf_leaf l m t : look A' leaf_to_tips (l, m) = Some t ->
    look A leaf_to_tips (l, m) = Some t \/
    exists w, V w /\ l = w_leaf w /\ m = w_method w /\ t = w_signature_hash w;
  tf_revision h r : look A' witness_revisions h = Some r ->
    look A witness_revisions h = Some r \/ revision_of V h r;
}.

#[export] Instance tips_from_preorder V : PreOrder (tips_from V).
Proof.
  split; [intros A; split; by left|]. intros A B C HAB HBC. split.
  - intros t idx Ht. destruct (tf_pair _ _ _ HBC t idx Ht); [by apply HAB|by right].
  - intros l m t Ht. destruct (tf_leaf _ _ _ HBC l m t Ht); [by apply HAB|by right].
  - intros h r Hr. destruct (tf_revision _ _ _ HBC h r Hr); [by apply HAB|by right].
Qed.

Lemma tips_from_weaken (V W : MintedWitness -> Prop) A A' :
  (forall w, V w -> W w) -> tips_from V A A' -> tips_from W A A'.
Proof.
  intros HVW Ht. split.
  - intros t idx Hl. destruct (tf_pair _ _ _ Ht t idx Hl) as [?|(w & ? & ?)]; eauto.
  - intros l m t Hl. destruct (tf_leaf _ _ _ Ht l m t Hl) as [?|(w & ? & ?)]; eauto.
  - intros h r Hl. destruct (tf_revision _ _ _ Ht h r Hl) as [?|(w & ? & ?)]; [by left|].
    right. exists w. auto.
Qed.

Lemma saved_tips V A p : tips_from V A (apply_aops A [APut pending_anchors (p_epoch_id p) p]).
Proof. split; intros *; rewrite saved_look_other by done; by left. Qed.

Lemma minted_tips V A remaining d ws :
  Forall V ws -> tips_from V A (apply_aops A (minted_aops A remaining d ws)).
Proof.
  rewrite Forall_forall. intros Hv. split.
  - intros t idx [(w & Hw & Ht & Hi)|?]%minted_look_tip; [right|by left]. exists w. auto.
  - intros l m t [(w & Hw & ? & ? & ?)|?]%minted_look_leaf_tip; [right|by left]. exists w. auto.
  - intros h r [(w & Hw & Hr)|?]%minted_look_revision; [right|by left]. exists w. auto.
Qed.

Lemma sealed_tips V A record leaves pend :
  tips_from V A (apply_aops A (sealed_aops record leaves [] pend)).
Proof.
  destruct (sealed_look_serving A record leaves pend) as (Hp & Hl & _).
  split; intros *; [rewrite Hp|rewrite Hl|rewrite sealed_look_revisions]; by left.
Qed.

(** The record in memory during a tick: the stored one lists no more methods
    and the same leaves, and what it lists is found. *)
Record tracks (A : AStore) (p : PendingEpoch) : Prop := {
  tr_stored q : look A pending_anchors (p_epoch_id p) = Some q ->
    hashes_of q = hashes_of p /\ (forall m, m ∈ p_methods q -> m ∈ p_methods p);
  tr_found l m : l ∈ hashes_of p -> m ∈ p_methods p -> found A l m;
}.

(** ** The three writes *)

Lemma saved_inv A next p :
  store_inv A next -> tracks A p -> u64_ok (p_epoch_id p) -> is_Some (look A epochs (p_epoch_id p)) ->
  let A' := apply_aops A [APut pending_anchors (p_epoch_id p) p] in
  store_inv A' next /\ nothing_lost A A'.
Proof.
  intros Hi Ht Hu He A'.
  assert (forall q k, q <> pending_anchors -> look A' q k = look A q k) as Hoth
    by (intros; by apply saved_look_other).
  assert (forall l m, found A l m -> found A' l m) as Hfound.
  { intros l m Hf. unfold found, served. setoid_rewrite Hoth; done. }
  split; split.
  - intros id r. rewrite Hoth by done. apply Hi.
  - intros id q. unfold A'. rewrite saved_look_pending, saved_look_other by done.
    case_decide; [intros [= <-]; by subst|apply Hi].
  - intros id l did. rewrite !Hoth by done. apply Hi.
  - intros l m id. rewrite Hoth by done. intros Hl.
    destruct (si_lookup _ _ Hi _ _ _ Hl) as (q & Hq & Hlq & Hmq).
    unfold A'. rewrite saved_look_pending. case_decide as Hid; [|by exists q].
    exists p. subst id. destruct (tr_stored _ _ Ht _ Hq) as [Hls Hms]. rewrite <- Hls. auto.
  - intros id q l m. unfold A' at 1. rewrite saved_look_pending.
    intros Hq Hl Hm. apply Hfound. case_decide; [|by eapply (si_found _ _ Hi id)].
    injection Hq as <-. by apply Ht.
  - intros id l. rewrite !Hoth by done. apply Hi.
  - intros k t. rewrite !Hoth by done. apply Hi.
  - intros t idx. rewrite !Hoth by done. apply Hi.
  - intros id r. by rewrite Hoth.
  - intros id l did. by rewrite Hoth.
  - intros l m (t & Hl & Hc). exists t. by rewrite !Hoth.
  - done.
  - intros id q m l Hq Hm Hl. left. unfold A'. rewrite saved_look_pending. case_decide as Hid.
    + exists p. subst id. destruct (tr_stored _ _ Ht _ Hq) as [Hls Hms]. rewrite <- Hls. auto.
    + by exists q.
Qed.

(** [remaining] is [p] without the method [d], whose witnesses [ws] cover
    every leaf. *)
Lemma minted_inv A next p remaining d ws :
  store_inv A next -> tracks A p -> u64_ok (p_epoch_id p) -> is_Some (look A epochs (p_epoch_id p)) ->
  p_epoch_id remaining = p_epoch_id p -> hashes_of remaining = hashes_of p ->
  (forall m, m ∈ p_methods remaining <-> m ∈ p_methods p /\ m <> d) ->
  (forall l, l ∈ hashes_of p -> exists w, w ∈ ws /\ w_leaf w = l /\ w_method w = d) ->
  let A' := apply_aops A (minted_aops A remaining d ws) in
  store_inv A' next /\ nothing_lost A A' /\ tracks A' remaining /\
  (forall l, l ∈ hashes_of p -> served A' l d).
Proof.
  intros Hi Ht Hu He Hid Hls Hms Hcov A'.
  assert (forall l, l ∈ hashes_of p -> served A' l d) as Hserved.
  { intros l Hl. destruct (Hcov l Hl) as (w & Hw & <- & <-).
    destruct (minted_look_by_leaf A remaining (w_method w) ws w Hw) as (w' & Hw' & _ & _ & Hlk).
    exists (w_signature_hash w'). split; [done|]. apply minted_look_checked. right. eauto. }
  assert (forall l m, served A l m -> served A' l m) as Hmono.
  { intros l m (t & Hl & Hc). unfold A'.
    destruct (look_aops A (minted_aops A remaining d ws) leaf_to_tips (l, m))
      as [(v & Hin & Hv)|[[Hin _]|[_ Hv]]]; inv_aop; try done.
    - eexists. split; [exact Hv|]. apply minted_look_checked. right. subst. eauto.
    - exists t. rewrite Hv. split; [done|]. apply minted_look_checked. by left. }
  assert (forall l m, found A l m -> found A' l m) as Hfound.
  { intros l m [Hl|Hs]; [|right; by apply Hmono].
    destruct (minted_lookup_kept A remaining d ws l m Hl) as [?|[Hin ->]]; [by left|].
    right. apply Hserved. by rewrite <- Hls. }
  split_and!; [split|split|split|..].
  - intros id r. unfold A'. rewrite minted_look_epochs. apply Hi.
  - intros id q. unfold A'. rewrite minted_look_pending, minted_look_epochs.
    case_decide as Hd; [|apply Hi]. case_decide; [done|]. intros [= <-]. subst id. by rewrite Hid.
  - intros id l did. unfold A'. rewrite minted_look_epochs, minted_look_epoch_leaves. apply Hi.
  - intros l m id Hl. apply minted_look_lookup in Hl as [Hl Hno].
    destruct (si_lookup _ _ Hi _ _ _ Hl) as (q & Hq & Hlq & Hmq).
    unfold A'. rewrite minted_look_pending. case_decide as Hd; [|by exists q].
    rewrite Hid in Hd. subst id. destruct (tr_stored _ _ Ht _ Hq) as [Hlp Hmp].
    assert (m ∈ p_methods remaining) as Hmr.
    { apply Hms. split; [by apply Hmp|]. intros ->. apply Hno. rewrite Hls, <- Hlp. auto. }
    rewrite decide_False by (intros Hnil; rewrite Hnil in Hmr; by apply elem_of_nil in Hmr).
    exists remaining. rewrite Hls, <- Hlp. auto.
  - intros id q l m. unfold A' at 1. rewrite minted_look_pending. intros Hq Hl Hm. apply Hfound.
    case_decide; [|by eapply (si_found _ _ Hi id)]. case_decide; [done|]. injection Hq as <-.
    apply (tr_found _ _ Ht); [by rewrite <- Hls|by apply Hms].
  - intros id l. unfold A'. rewrite minted_look_epoch_leaves. intros Ho%(si_owner _ _ Hi).
    by apply minted_look_kept.
  - intros [l m] t [(w & Hw & _ & _ & ->)|Hk]%minted_look_leaf_tip.
    + by destruct (minted_look_pair A remaining d ws w Hw) as (? & _).
    + apply minted_look_kept; [done..|]. by eapply (si_tips _ _ Hi).
  - intros t idx [(w & Hw & -> & ->)|Hk]%minted_look_tip.
    + by destruct (minted_look_pair A remaining d ws w Hw) as (_ & ? & ?).
    + apply (si_pairs _ _ Hi) in Hk as (<- & Ho & Hs).
      split_and!; [done|by apply minted_look_kept..].
  - intros id r. unfold A'. by rewrite minted_look_epochs.
  - intros id l did. unfold A'. by rewrite minted_look_epoch_leaves.
  - apply Hmono.
  - apply Hfound.
  - intros id q m l Hq Hm Hl. unfold A'. rewrite minted_look_pending. case_decide as Hd.
    + rewrite Hid in Hd. subst id. destruct (tr_stored _ _ Ht _ Hq) as [Hlp Hmp].
      destruct (decide (m = d)) as [->|Hmd].
      * right. apply Hserved. by rewrite <- Hlp.
      * assert (m ∈ p_methods remaining) as Hmr by (apply Hms; auto).
        rewrite decide_False by (intros Hnil; rewrite Hnil in Hmr; by apply elem_of_nil in Hmr).
        left. exists remaining. rewrite Hls, <- Hlp. auto.
    + left. by exists q.
  - intros q. unfold A'. rewrite minted_look_pending, decide_True by done.
    case_decide; [done|]. intros [= <-]. auto.
  - intros l m Hl [Hm _]%Hms. apply Hfound, (tr_found _ _ Ht); [by rewrite <- Hls|done].
  - done.
Qed.

(** Sealing the open epoch [next]. *)
Lemma sealed_inv A next record leaves pend :
  store_inv A next -> er_id record = next -> u64_ok next -> NoDup (leaf <$> leaves) ->
  (forall p, pend = Some p -> p_epoch_id p = next) ->
  let A' := apply_aops A (sealed_aops record leaves [] pend) in
  store_inv A' (next + 1) /\ nothing_lost A A' /\ look A' epochs next = Some record /\
  (forall e, e ∈ leaves -> look A' epoch_leaves (next, leaf e) = Some (submitter_did e)) /\
  look A' pending_anchors next = pend /\
  (forall p l m, pend = Some p -> l ∈ hashes_of p -> m ∈ p_methods p ->
     look A' pending_leaves (l, m) = Some next).
Proof.
  intros Hi Hr Hu Hnd Hp A'.
  assert (look A epochs next = None) as Hfresh.
  { destruct (look A epochs next) as [r|] eqn:Hr'; [|done]. apply Hi in Hr'. lia. }
  assert (look A pending_anchors next = None) as Hfreshp.
  { destruct (look A pending_anchors next) as [q|] eqn:Hq; [|done].
    destruct (si_pending _ _ Hi _ _ Hq) as (_ & _ & [? ?]). congruence. }
  assert (forall id, look A' pending_anchors id
            = if decide (id = next) then pend else look A pending_anchors id) as Hpend.
  { intros id. unfold A'. rewrite sealed_look_pending. destruct pend as [p|].
    - by rewrite (Hp p eq_refl).
    - case_decide; [subst id; exact Hfreshp|done]. }
  assert (forall id, look A' epochs id = if decide (id = next) then Some record else look A epochs id)
    as Hep by (intros id; unfold A'; by rewrite sealed_look_epochs, Hr).
  assert (forall p l m, pend = Some p -> l ∈ hashes_of p -> m ∈ p_methods p ->
     look A' pending_leaves (l, m) = Some next) as Hnew.
  { intros p l m -> Hl Hm. unfold A'. rewrite sealed_look_lookup_new by done. by rewrite (Hp p eq_refl). }
  destruct (sealed_look_serving A record leaves pend) as (Hs1 & Hs2 & Hs3).
  assert (forall l m, served A l m -> served A' l m) as Hserved.
  { intros l m (t & Hl & Hc). exists t. unfold A'. by rewrite Hs2, Hs3. }
  assert (forall l m, found A l m -> found A' l m) as Hfound.
  { intros l m [Hl|Hl]; [left; by apply sealed_look_kept|right; by apply Hserved]. }
  split_and!; [split|split|..].
  - intros id r. rewrite Hep. case_decide; [intros [= <-]; split; [congruence|lia]|].
    intros [? ?]%(si_epochs _ _ Hi). split; [done|lia].
  - intros id q. rewrite Hpend, Hep. destruct (decide ((id : Z) = next)) as [->|].
    + rewrite !decide_True by done. intros ->. split_and!; [by apply Hp|done|by eexists].
    + rewrite !decide_False by done. apply Hi.
  - intros id l did. rewrite Hep. case_decide; [by eexists|]. unfold A'.
    rewrite sealed_look_leaf_other by congruence. apply Hi.
  - intros l m id Hl. rewrite Hpend. unfold A' in Hl.
    apply sealed_look_lookup in Hl as [(p & -> & -> & Hl & Hm)|Hl].
    + rewrite (Hp p eq_refl), decide_True by done. by exists p.
    + destruct (si_lookup _ _ Hi _ _ _ Hl) as (q & Hq & ?).
      rewrite decide_False by congruence. by exists q.
  - intros id q l m. rewrite Hpend. case_decide as Hid.
    + intros Hq Hl Hm. left. exists next. by eapply Hnew.
    + intros Hq Hl Hm. by eapply Hfound, (si_found _ _ Hi id).
  - intros id l [did [(e & He & <-)|Hl]%sealed_leaf_inv]; [by apply sealed_look_owner|].
    apply sealed_look_kept, (si_owner _ _ Hi id). by eexists.
  - intros k t. unfold A'. rewrite Hs1, Hs2. apply Hi.
  - intros t idx. unfold A'. rewrite Hs1, !sealed_look_revisions. apply Hi.
  - intros id r Hlk. rewrite Hep. case_decide; congruence.
  - intros id l did Hlk. unfold A'. rewrite sealed_look_leaf_other; [done|]. rewrite Hr. intros ->.
    apply (si_leaves _ _ Hi) in Hlk as [? ?]. congruence.
  - done.
  - done.
  - intros id q m l Hq Hm Hl. left. exists q. rewrite Hpend.
    rewrite decide_False by congruence. done.
  - rewrite Hep. by rewrite decide_True.
  - intros e He. unfold A'. rewrite <- Hr. by apply sealed_look_leaf.
  - rewrite Hpend. by rewrite decide_True.
  - done.
Qed.
End seal_inv.
