(* ===== verification/SealerProofs.v ===== *)
(** * The sealer is correct

    Against the store interface of [SealStore]: what a tick asks of the anchor
    providers, what it serves, and what it can never lose. *)

From S2P Require Import Prelude External Merkle Accumulator Witness Selfcheck Epoch Utf8 Kv Storage StoreSpec SealStore SealInv Anchors Sealer.

(** ** The store across a tick *)

Section kept.
Context `{HexCrate, Sdk, !AnchorWorld, SerdeCrates, !StoreCodecs, !SealStore, !SealStoreLaws}.
(** What is known of every witness a step serves. *)
Context (V : MintedWitness -> Prop).

(** Same epoch, leaves and methods; anchors and fault counts may differ. *)
Definition similar (p p' : PendingEpoch) : Prop :=
  p_epoch_id p' = p_epoch_id p /\ p_leaves p' = p_leaves p /\ p_methods p' = p_methods p.

Lemma similar_refl p : similar p p.
Proof. done. Qed.
Lemma similar_trans p q r : similar p q -> similar q r -> similar p r.
Proof. unfold similar. intuition congruence. Qed.
Lemma similar_drop p m : similar p (drop_anchor p m).
Proof. done. Qed.
Lemma similar_set p m v now : similar p (set_anchor p m v now).
Proof. done. Qed.
Lemma similar_first_seen p m now : similar p (anchor_first_seen p m now).1.
Proof. unfold anchor_first_seen. by destruct (first_seen_in m now (p_anchors p)). Qed.
Lemma similar_count p m : similar p (count_anchor_fault p m).1.
Proof. unfold count_anchor_fault. by destruct (count_fault_in m (p_anchor_faults p)) as [l [c|]]. Qed.

Lemma similar_hashes p p' : similar p p' -> hashes_of p' = hashes_of p.
Proof. intros (_ & Hl & _). unfold hashes_of, leaf_hashes. by rewrite Hl. Qed.

Lemma tracks_similar A p p' : similar p p' -> tracks A p -> tracks A p'.
Proof.
  intros Hs [Ht Hf]. pose proof (similar_hashes p p' Hs) as Hh. destruct Hs as (Hid & _ & Hm).
  split; rewrite ?Hid, Hm, Hh; done.
Qed.

(** What the turn of [p] needs of the store. *)
Record ready (A : AStore) (next : Z) (p : PendingEpoch) : Prop := {
  rd_inv : store_inv A next;
  rd_tracks : tracks A p;
  rd_u64 : u64_ok (p_epoch_id p);
  rd_epoch : is_Some (look A epochs (p_epoch_id p));
}.

(** What a step on [p], in memory [p'] afterwards, leaves. *)
Record settled (A : AStore) (next : Z) (p : PendingEpoch) (A' : AStore) (p' : PendingEpoch) : Prop := {
  sd_ready : ready A' next p';
  sd_lost : nothing_lost A A';
  sd_tips : tips_from V A A';
  sd_id : p_epoch_id p' = p_epoch_id p;
  sd_hashes : hashes_of p' = hashes_of p;
  sd_frame id : id <> p_epoch_id p -> look A' pending_anchors id = look A pending_anchors id;
}.

Lemma ready_similar A next p p' : similar p p' -> ready A next p -> ready A next p'.
Proof.
  intros Hs [Hi Ht Hu He]. pose proof (tracks_similar A p p' Hs Ht). destruct Hs as (Hid & _ & _).
  split; [done..|by rewrite Hid|by rewrite Hid].
Qed.

Lemma settled_similar A next p p' : similar p p' -> ready A next p -> settled A next p A p'.
Proof.
  intros Hs Hr. split; [by eapply ready_similar|reflexivity|reflexivity|apply Hs|by apply similar_hashes|done].
Qed.

Lemma settled_trans A next p A1 p1 A2 p2 :
  settled A next p A1 p1 -> settled A1 next p1 A2 p2 -> settled A next p A2 p2.
Proof.
  intros S1 S2. split.
  - exact (sd_ready _ _ _ _ _ S2).
  - exact (nothing_lost_trans _ _ _ (sd_lost _ _ _ _ _ S1) (sd_lost _ _ _ _ _ S2)).
  - exact (transitivity (R := tips_from V) (sd_tips _ _ _ _ _ S1) (sd_tips _ _ _ _ _ S2)).
  - rewrite (sd_id _ _ _ _ _ S2). exact (sd_id _ _ _ _ _ S1).
  - rewrite (sd_hashes _ _ _ _ _ S2). exact (sd_hashes _ _ _ _ _ S1).
  - intros id Hid. rewrite (sd_frame _ _ _ _ _ S2) by by rewrite (sd_id _ _ _ _ _ S1).
    exact (sd_frame _ _ _ _ _ S1 id Hid).
Qed.

(** [save_pending] of the record in memory, whatever it answers. *)
Lemma save_settled s A next p :
  absr s A -> ready A next p ->
  exists A', absr (st_save_pending p s).1 A' /\ settled A next p A' p.
Proof.
  intros Ha Hr. pose proof (st_save_pending_ok s A p Ha (rd_u64 _ _ _ Hr)) as Hs.
  set (A' := apply_aops A [APut pending_anchors (p_epoch_id p) p]) in *.
  assert (settled A next p A' p) as Hset.
  { destruct (saved_inv A next p) as [Hi Hn]; [apply Hr..|].
    split; [split; [done| | apply Hr|]|done|apply saved_tips|done|done|].
    - split; [|intros l m Hl Hm; by apply Hn, (tr_found _ _ (rd_tracks _ _ _ Hr))].
      intros q. unfold A'. rewrite saved_look_pending, decide_True by done. by intros [= <-].
    - unfold A'. rewrite saved_look_other by done. apply Hr.
    - intros id Hid. unfold A'. rewrite saved_look_pending. by rewrite decide_False. }
  unfold atomic in Hs. destruct (st_save_pending p s) as [s' [[]|e]]; cbn in *.
  - by exists A'.
  - destruct Hs as [Hs|Hs]; [exists A; split; [done|by apply settled_similar]|by exists A'].
Qed.

Lemma save_or_log_settled t A next p :
  absr (t_sto t) A -> ready A next p ->
  exists A', absr (t_sto (save_or_log p t)) A' /\ settled A next p A' p.
Proof. apply save_settled. Qed.

Lemma store_anchor_settled s A next p :
  absr s A -> ready A next p ->
  exists A', absr (store_anchor p s).1 A' /\ settled A next p A' p.
Proof.
  intros Ha Hr. unfold store_anchor. destruct (save_settled s A next p Ha Hr) as (A1 & Ha1 & Hs1).
  destruct (st_save_pending p s) as [s1 [[]|e]]; cbn in *; [by exists A1|].
  destruct (save_settled s1 A1 next p Ha1 (sd_ready _ _ _ _ _ Hs1)) as (A2 & Ha2 & Hs2).
  destruct (st_save_pending p s1) as [s2 [[]|e']]; cbn in *; exists A2;
    (split; [done|by eapply settled_trans]).
Qed.

Lemma settle_missing_settled ctx m now t A next p :
  absr (t_sto t) A -> ready A next p ->
  exists A', absr (t_sto (settle_missing ctx m now p t).2) A' /\
    settled A next p A' (settle_missing ctx m now p t).1 /\
    p_methods (settle_missing ctx m now p t).1 = p_methods p.
Proof.
  intros Ha Hr. unfold settle_missing. pose proof (similar_first_seen p m now) as Hs1.
  destruct (anchor_first_seen p m now) as [p1 [[fs changed]|]]; cbn in *.
  2: { exists A. split; [done|]. split; [by apply settled_similar|apply Hs1]. }
  case_decide.
  - destruct changed.
    + destruct (save_or_log_settled t A next p1 Ha (ready_similar _ _ _ _ Hs1 Hr)) as (A' & ? & Hset).
      exists A'. split; [done|]. split; [|apply Hs1].
      eapply settled_trans; [by apply settled_similar|done].
    + exists A. split; [done|]. split; [by apply settled_similar|apply Hs1].
  - pose proof (similar_count p1 m) as Hs2. destruct (count_anchor_fault p1 m) as [p2 c]. cbn in *.
    assert (similar p (drop_anchor p2 m)) as Hs3.
    { eapply similar_trans; [|apply similar_drop]. by eapply similar_trans. }
    destruct (save_or_log_settled t A next (drop_anchor p2 m) Ha (ready_similar _ _ _ _ Hs3 Hr))
      as (A' & ? & Hset).
    exists A'. split; [done|]. split; [|apply Hs3].
    eapply settled_trans; [by apply settled_similar|done].
Qed.

Lemma settle_refused_settled ctx m now v t A next p :
  absr (t_sto t) A -> ready A next p ->
  exists A', absr (t_sto (settle_refused ctx m now v p t).2) A' /\
    settled A next p A' (settle_refused ctx m now v p t).1 /\
    p_methods (settle_refused ctx m now v p t).1 = p_methods p.
Proof.
  intros Ha Hr. unfold settle_refused. destruct v as [|r|r|r [|]].
  1,2,5: exists A; split; [done|]; split; [by apply settled_similar|done].
  - by apply settle_missing_settled.
  - pose proof (similar_count p m) as Hs2. destruct (count_anchor_fault p m) as [p2 c]. cbn in *.
    assert (similar p (drop_anchor p2 m)) as Hs3
      by (eapply similar_trans; [done|apply similar_drop]).
    destruct (save_or_log_settled (put_down t m) A next (drop_anchor p2 m) Ha
                (ready_similar _ _ _ _ Hs3 Hr)) as (A' & ? & Hset).
    exists A'. split; [done|]. split; [|apply Hs3].
    eapply settled_trans; [by apply settled_similar|done].
Qed.

Lemma anchor_root_sto ctx m root t :
  t_sto (anchor_root ctx m root t).1 = t_sto t.
Proof.
  unfold anchor_root. destruct (provider ctx m); [|done]. by destruct (create_timestamp _ _ _).
Qed.

Lemma settle_anchor_settled ctx m now t A next p :
  absr (t_sto t) A -> ready A next p ->
  exists A', absr (t_sto (settle_anchor ctx m now p t).1.2) A' /\
    settled A next p A' (settle_anchor ctx m now p t).1.1 /\
    similar p (settle_anchor ctx m now p t).1.1.
Proof.
  intros Ha Hr. assert (settled A next p A p) as Hid by (by apply settled_similar).
  unfold settle_anchor. destruct (anchor p m); [by exists A|].
  case_decide; [by exists A|]. case_decide; [by exists A|].
  pose proof (anchor_root_sto ctx m (p_anchor_root p) t) as Hst.
  destruct (anchor_root ctx m (p_anchor_root p) t) as [t1 [value|]]; cbn in *.
  2: { exists A. by rewrite Hst. }
  set (p1 := set_anchor p m value now).
  assert (similar p p1) as Hs by apply similar_set.
  destruct (store_anchor_settled (t_sto t1) A next p1) as (A' & Ha' & Hset);
    [by rewrite Hst|by eapply ready_similar|].
  assert (settled A next p A' p1) by (eapply settled_trans; [by apply settled_similar|done]).
  destruct (store_anchor p1 (t_sto t1)) as [s' [|]]; cbn in *; by exists A'.
Qed.

(** ** Serving *)

Lemma restore_leaves p snap batch :
  restore p = Ok (snap, batch) -> leaf <$> snap_leaves snap = hashes_of p.
Proof.
  unfold restore, hashes_of. intros Hr. apply result_bind_ok in Hr as (ls & Hls & Hr).
  rewrite Hls. injection Hr as <- _. cbn. apply collect_length in Hls.
  clear -Hls. revert Hls. generalize (p_leaves p). induction ls as [|l ls IH]; intros [|x k]; cbn; try done.
  intros [= Hl]. f_equal. by apply IH.
Qed.

Lemma mint_pending_covers ctx p m value ws :
  mint_pending ctx p m value = Ok ws ->
  (forall l, l ∈ hashes_of p -> exists w, w ∈ ws /\ w_leaf w = l /\ w_method w = m) /\
  (forall w, w ∈ ws -> w_method w = m /\ w_epoch_id w = p_epoch_id p).
Proof.
  unfold mint_pending. intros Hm. apply result_bind_ok in Hm as ([snap batch] & Hr & Hm).
  pose proof (mint_covers snap batch m (from_value m value) (c_signer ctx) ws Hm) as [Hc He].
  apply restore_leaves in Hr as Hl. split.
  - intros l Hin. rewrite <- Hl in Hin. apply list_elem_of_fmap in Hin as (e & -> & He'). by apply Hc.
  - intros w Hw. destruct (He w Hw) as [-> ->]. split; [done|].
    unfold restore in Hr. apply result_bind_ok in Hr as (ls & _ & Hr). by injection Hr as <- _.
Qed.

(** The object is the revision the SDK's finish added to the leaf's carrier. *)
Definition minted_object (w : MintedWitness) : Prop :=
  exists p ls f trees tree (i : nat) link,
    finish_batch_timestamp p (link_only_carrier <$> ls) f = Ok trees /\
    trees !! i = Some tree /\ ls !! i = Some (w_leaf w) /\
    filter (fun kv => kv.1 <> link_from_bytes (w_leaf w)) (tree_revisions tree)
      = [(link, w_object_revision w)].

Lemma restore_carriers p snap batch :
  restore p = Ok (snap, batch) -> carriers batch = link_only_carrier <$> b_leaves batch.
Proof. unfold restore. intros (ls & _ & [= _ <-])%result_bind_ok. done. Qed.

Lemma mint_pending_objects ctx p m value ws :
  mint_pending ctx p m value = Ok ws -> Forall minted_object ws.
Proof.
  unfold mint_pending. intros Hm. apply result_bind_ok in Hm as ([snap batch] & Hr & Hm).
  apply restore_carriers in Hr as Hc.
  apply mint_witnesses_ok in Hm as (Hbl & rows & -> & Hlen & Hrows).
  apply Forall_concat, Forall_forall. intros row [i Hi]%list_elem_of_lookup.
  destruct (lookup_lt_is_Some_2 (snap_leaves snap) i) as [e He].
  { rewrite <- Hlen. by eapply lookup_lt_Some. }
  destruct (Hrows i e row He Hi) as [Hl Hw]. destruct row as [|w [|? ?]]; try done.
  apply Forall_singleton. destruct (Hw 0%nat _ _ w eq_refl eq_refl) as (trees & Hf & Hwf).
  destruct (wf_object _ _ _ _ _ _ _ Hwf) as (tree & link & obj & Ht & Hfil & _).
  rewrite Hc in Hf. eexists _, (b_leaves batch), _, trees, tree, i, link.
  rewrite (wf_leaf _ _ _ _ _ _ _ Hwf). split_and!; [exact Hf|done| |exact Hfil].
  by rewrite Hbl, list_lookup_fmap, He.
Qed.

Lemma elem_of_without (m m' : AnchorMethod) (ms : list AnchorMethod) :
  m' ∈ filter (fun x => x <> m) ms <-> m' ∈ ms /\ m' <> m.
Proof. rewrite list_elem_of_filter. tauto. Qed.

Lemma serve_settled m ws t A next p :
  absr (t_sto t) A -> ready A next p -> Forall V ws ->
  (forall l, l ∈ hashes_of p -> exists w, w ∈ ws /\ w_leaf w = l /\ w_method w = m) ->
  exists A', absr (t_sto (serve m ws p t).1.2) A' /\ settled A next p A' (serve m ws p t).1.1 /\
    (serve m ws p t = (p, (serve m ws p t).1.2, None) \/
     (serve m ws p t).2 = Some ws /\
     forall m', m' ∈ p_methods (serve m ws p t).1.1 <-> m' ∈ p_methods p /\ m' <> m).
Proof.
  intros Ha Hr HV Hcov. unfold serve.
  set (remaining := drop_anchor (set_methods p (filter (fun x => x <> m) (p_methods p))) m).
  pose proof (st_persist_minted_ok (t_sto t) A remaining m ws Ha (rd_u64 _ _ _ Hr)) as Hs.
  set (A' := apply_aops A (minted_aops A remaining m ws)) in *.
  destruct (minted_inv A next p remaining m ws (rd_inv _ _ _ Hr) (rd_tracks _ _ _ Hr)
              (rd_u64 _ _ _ Hr) (rd_epoch _ _ _ Hr) eq_refl eq_refl
              (fun m' => elem_of_without m m' _) Hcov) as (Hi & Hn & Ht & _).
  fold A' in Hi, Hn, Ht.
  assert (is_Some (look A' epochs (p_epoch_id p))) as He.
  { destruct (rd_epoch _ _ _ Hr) as [r Hre]. exists r. by apply Hn. }
  assert (forall id, id <> p_epoch_id p -> look A' pending_anchors id = look A pending_anchors id) as Hfr.
  { intros id Hid. unfold A'. rewrite minted_look_pending. by rewrite decide_False. }
  assert (ready A' next p) as Hrp.
  { split; [done| |apply (rd_u64 _ _ _ Hr)|done]. split.
    - intros q Hq. destruct (tr_stored _ _ Ht q Hq) as [Hh Hm].
      split; [done|]. intros m' Hm'. by apply Hm, elem_of_without in Hm' as [? _].
    - intros l m' Hl Hm'. by apply Hn, (tr_found _ _ (rd_tracks _ _ _ Hr)). }
  assert (settled A next p A' remaining) as Hset
    by (split; [split; [done|done|apply (rd_u64 _ _ _ Hr)|done]|done|by apply minted_tips|done..]).
  assert (settled A next p A' p) as Hsetp by (split; first [done|by apply minted_tips]).
  unfold atomic in Hs.
  destruct (st_persist_pending_minted remaining m ws (t_sto t)) as [s' [[]|e]]; cbn in Hs |- *.
  - exists A'. split; [done|]. split; [done|]. right. split; [done|]. intros m'. apply elem_of_without.
  - destruct Hs as [Hs|Hs]; [exists A|exists A']; (split; [done|]; split; [|by left]); [|done].
    by apply settled_similar.
Qed.

(** The SDK's per-witness check passed in some state of the world. *)
Definition verified_by (ctx : WitnessContext) (w : MintedWitness) : Prop :=
  exists wd, check_task_failure wd = None /\
    verify_minted_witness w (c_service_did ctx) (c_self_check ctx wd) = Verified.

(** Minted by the SDK's finish, and checked. *)
Definition checked (ctx : WitnessContext) (w : MintedWitness) : Prop :=
  verified_by ctx w /\ minted_object w.

Lemma first_refusal_None vs : first_refusal vs = None <-> Forall (fun v => v = Verified) vs.
Proof.
  induction vs as [|v vs IH]; cbn; [split; [constructor|done]|]. destruct v.
  2-4: split; [done|intros Hf; by inversion Hf].
  rewrite IH. split; [by constructor|intros Hf; by inversion Hf].
Qed.

(** Nothing is refused only when every witness passed. *)
Lemma self_check_passed `{!ClaimLaws} ctx wd ws :
  first_refusal (take (length ws) (self_check ctx wd ws)) = None -> Forall (verified_by ctx) ws.
Proof.
  rewrite first_refusal_None. unfold self_check. destruct (check_task_failure wd) as [e|] eqn:Hf.
  - rewrite take_ge by (rewrite length_replicate; lia).
    destruct ws as [|w ws]; [constructor|]. intros Hv. by inversion Hv.
  - destruct (verify_minted_batch_all ws (c_service_did ctx) (c_self_check ctx wd)) as [Hl Hiff].
    rewrite take_ge by (rewrite Hl; lia). intros [Hv _]%Hiff.
    eapply Forall_impl; [done|]. intros w Hw. by exists wd.
Qed.

Context `{!ClaimLaws}.

Lemma settle_method_settled ctx now m t A next p :
  (forall w, checked ctx w -> V w) ->
  absr (t_sto t) A -> ready A next p ->
  exists A', absr (t_sto (settle_method ctx now m p t).1.2) A' /\
    settled A next p A' (settle_method ctx now m p t).1.1.
Proof.
  intros HV Ha Hr. assert (settled A next p A p) as Hid by (by apply settled_similar).
  unfold settle_method. case_decide; [|by exists A].
  destruct (settle_anchor_settled ctx m now t A next p Ha Hr) as (A1 & Ha1 & Hs1 & Hsim).
  destruct (settle_anchor ctx m now p t) as [[p1 t1] [value|]]; cbn in *; [|by exists A1].
  destruct (mint_pending ctx p1 m value) as [ws|e] eqn:Hm; [|by exists A1].
  pose proof (sd_ready _ _ _ _ _ Hs1) as Hr1.
  destruct (first_refusal _) as [v|] eqn:Hv.
  - destruct (settle_refused_settled ctx m now v t1 A1 next p1 Ha1 Hr1) as (A2 & Ha2 & Hs2 & _).
    destruct (settle_refused ctx m now v p1 t1) as [p2 t2]. cbn in *.
    exists A2. split; [done|]. by eapply settled_trans.
  - pose proof (mint_pending_objects ctx p1 m value ws Hm) as Hob.
    apply mint_pending_covers in Hm as [Hcov _]. apply self_check_passed in Hv.
    assert (Forall V ws) as HVs.
    { rewrite Forall_forall in Hv, Hob |- *. intros w Hw. apply HV. split; auto. }
    destruct (serve_settled m ws t1 A1 next p1 Ha1 Hr1 HVs Hcov) as (A2 & Ha2 & Hs2 & _).
    exists A2. split; [done|]. by eapply settled_trans.
Qed.

Lemma settle_methods_settled ctx now ms t A next p :
  (forall w, checked ctx w -> V w) ->
  absr (t_sto t) A -> ready A next p ->
  exists A', absr (t_sto (settle_methods ctx now ms p t).1.2) A' /\
    settled A next p A' (settle_methods ctx now ms p t).1.1.
Proof.
  intros HV. revert p t A; induction ms as [|m ms IH]; intros p t A Ha Hr; cbn [settle_methods].
  - exists A. split; [done|by apply settled_similar].
  - destruct (settle_method_settled ctx now m t A next p HV Ha Hr) as (A1 & Ha1 & Hs1).
    destruct (settle_method ctx now m p t) as [[p1 t1] o]. cbn in *.
    destruct (IH p1 t1 A1 Ha1 (sd_ready _ _ _ _ _ Hs1)) as (A2 & Ha2 & Hs2).
    destruct (settle_methods ctx now ms p1 t1) as [[p2 t2] ws]. cbn in *.
    exists A2. split; [done|]. by eapply settled_trans.
Qed.

Lemma settle_epochs_settled ctx now ps t A next :
  (forall w, checked ctx w -> V w) ->
  absr (t_sto t) A -> store_inv A next -> Forall (ready A next) ps ->
  NoDup (p_epoch_id <$> ps) ->
  exists A', absr (t_sto (settle_epochs ctx now ps t).1) A' /\ store_inv A' next /\
    nothing_lost A A' /\ tips_from V A A'.
Proof.
  intros HV. revert t A; induction ps as [|p ps IH]; intros t A Ha Hi Hr Hnd; cbn [settle_epochs].
  - exists A. split; [done|]. by split.
  - inversion Hr as [|? ? Hrp Hrps]; subst. cbn in Hnd. apply NoDup_cons in Hnd as [Hni Hnd].
    destruct (settle_methods_settled ctx now (p_methods p) t A next p HV Ha Hrp) as (A1 & Ha1 & Hs1).
    destruct (settle_methods ctx now (p_methods p) p t) as [[p1 t1] ws]. cbn in *.
    pose proof (sd_lost _ _ _ _ _ Hs1) as Hl1.
    destruct (IH t1 A1 Ha1 (rd_inv _ _ _ (sd_ready _ _ _ _ _ Hs1))) as (A2 & Ha2 & Hi2 & Hl2 & Ht2); [|done|].
    + rewrite Forall_forall in Hrps |- *. intros q Hq. destruct (Hrps q Hq) as [_ Htq Huq [r Heq]].
      assert (p_epoch_id q <> p_epoch_id p) as Hne.
      { intros He. apply Hni. rewrite <- He. by apply list_elem_of_fmap_2. }
      split; [apply (sd_ready _ _ _ _ _ Hs1)| |done|exists r; by apply Hl1].
      split.
      * intros q'. rewrite (sd_frame _ _ _ _ _ Hs1) by done. apply Htq.
      * intros l m Hl Hm. by apply Hl1, (tr_found _ _ Htq).
    + destruct (settle_epochs ctx now ps t1) as [t2 ws2]. cbn in *. exists A2.
      split; [done|]. split; [done|]. split; [by etrans|].
      etrans; [apply (sd_tips _ _ _ _ _ Hs1)|done].
Qed.

Lemma retry_pending_settled ctx now t A next :
  (forall w, checked ctx w -> V w) ->
  absr (t_sto t) A -> store_inv A next ->
  exists A', absr (t_sto (retry_pending ctx now t).1) A' /\ store_inv A' next /\
    nothing_lost A A' /\ tips_from V A A'.
Proof.
  intros HV Ha Hi. unfold retry_pending.
  destruct (st_list_pending_epochs (t_sto t)) as [ps|e] eqn:Hps;
    [|exists A; split; [done|by split]].
  destruct (st_list_pending_ok _ _ _ Ha Hps) as (l & -> & Hperm & Hsort).
  assert (forall id p, (id, p) ∈ l -> look A pending_anchors id = Some p) as Hin.
  { intros id p Hl. rewrite Hperm in Hl. by apply elem_of_map_to_list in Hl. }
  assert (p_epoch_id <$> l.*2 = l.*1) as Hids.
  { clear -Hin Hi. induction l as [|[id p] l IH]; [done|]. cbn. f_equal.
    - by apply (si_pending _ _ Hi id p), Hin, list_elem_of_here.
    - apply IH. intros; by apply Hin, list_elem_of_further. }
  apply (settle_epochs_settled ctx now l.*2 t A next HV Ha Hi).
  - apply Forall_forall. intros p Hp. apply list_elem_of_fmap in Hp as ([id p'] & -> & Hp).
    apply Hin in Hp. cbn. destruct (si_pending _ _ Hi _ _ Hp) as (Hid & Hu & He).
    split; [done| |by rewrite Hid|by rewrite Hid].
    split; [|intros l' m' Hl Hm; by eapply (si_found _ _ Hi)].
    intros q. rewrite Hid, Hp. by intros [= <-].
  - rewrite Hids, Hperm. apply NoDup_fst_map_to_list.
Qed.
End kept.

(** ** One seal *)

Section seal.
Context `{HexLaws, SdkLaws, !AnchorWorld, SerdeCrates, !StoreCodecs, !SealStore, !SealStoreLaws,
          Sha3Crate, !ClaimLaws}.

Lemma store_inv_next A n n' : n <= n' -> store_inv A n -> store_inv A n'.
Proof.
  intros Hn Hi. split; try apply Hi. intros id r Hr. apply Hi in Hr as [? ?]. split; [done|lia].
Qed.

(** The open epoch the seal starts from. *)
Record seal_ready (A : AStore) (s : SealState) : Prop := {
  sr_absr : absr (s_sto s) A;
  sr_inv : store_inv A (acc_epoch_id (s_acc s));
  sr_acc : acc_inv (s_acc s);
  sr_id : 0 <= acc_epoch_id (s_acc s) < U64_MAX;
  sr_dids : Forall entry_ok (acc_leaves (s_acc s));
}.

(** A leaf of epoch [id] waits for its witness of method [m]: the epoch is
    recorded pending with it. *)
Definition outstanding (A : AStore) (id : Z) (l : Hash32) (m : AnchorMethod) : Prop :=
  exists p, look A pending_anchors id = Some p /\ m ∈ p_methods p /\ l ∈ hashes_of p.

Lemma nothing_lost_outstanding A A' id l m :
  nothing_lost A A' -> outstanding A id l m -> outstanding A' id l m \/ served A' l m.
Proof. intros Hn (p & Hp & Hm & Hl). by apply (nl_pending _ _ Hn id p m l). Qed.

Lemma hashes_of_new snap b ms :
  hashes_of (PendingEpoch_new snap b ms) = leaf <$> snap_leaves snap.
Proof. unfold hashes_of. by rewrite leaf_hashes_new. Qed.

Lemma build_record_fields snap b r :
  build_record snap b = Ok r ->
  er_id r = snap_epoch_id snap /\ er_leaf_count r = Z.of_nat (length (snap_leaves snap)).
Proof. unfold build_record. intros Hb. apply result_bind_ok in Hb as (root & _ & Hb). by injection Hb as <-. Qed.

(** Minted, and verified by the context's self-check. *)
Definition verified_under (ctx : option WitnessContext) (w : MintedWitness) : Prop :=
  exists c, ctx = Some c /\ checked c w.

(** What one seal leaves of the store, on every outcome. *)
Definition seal_outcome (ctx : option WitnessContext) (A : AStore) (s s' : SealState)
    (r : result SealError (EpochRecord * list MintedWitness)) (A' : AStore) : Prop :=
  let id := acc_epoch_id (s_acc s) in
  absr (s_sto s') A' /\ nothing_lost A A' /\ tips_from (verified_under ctx) A A' /\
  store_inv A' (acc_epoch_id (s_acc s')) /\
  match r with
  | Ok (record, _) =>
      acc_epoch_id (s_acc s') = id + 1 /\ acc_leaves (s_acc s') = [] /\
      look A' epochs id = Some record /\
      er_leaf_count record = Z.of_nat (length (acc_leaves (s_acc s))) /\
      forall e, e ∈ acc_leaves (s_acc s) ->
        look A' epoch_leaves (id, leaf e) = Some (submitter_did e) /\
        forall c m, ctx = Some c -> m ∈ c_methods c ->
          outstanding A' id (leaf e) m \/ served A' (leaf e) m
  | Err _ => True
  end.

Lemma seal_once_outcome closed dur ctx A s :
  seal_ready A s ->
  exists A', seal_outcome ctx A s (seal_once closed dur ctx s).1 (seal_once closed dur ctx s).2 A'.
Proof.
  intros [Ha Hi Hacc Hid Hdid]. unfold seal_once. cbv zeta.
  destruct (match ctx with Some c => validate c (s_world s) | None => Ok tt end) as [[]|e].
  2: { exists A. split; [done|]. split; [done|]. by split. }
  assert (exists A1, absr (t_sto (match ctx with
      | Some c => retry_pending c closed (tick_of s) | None => (tick_of s, []) end).1) A1 /\
      store_inv A1 (acc_epoch_id (s_acc s)) /\ nothing_lost A A1 /\
      tips_from (verified_under ctx) A A1) as (A1 & Ha1 & Hi1 & Hn1 & Ht1).
  { destruct ctx as [c|]; [|exists A; split; [done|split; [done|by split]]].
    apply (retry_pending_settled (verified_under (Some c)) c closed (tick_of s) A);
      [intros w Hw; by exists c|exact Ha|exact Hi]. }
  destruct (match ctx with
      | Some c => retry_pending c closed (tick_of s) | None => (tick_of s, []) end) as [t wits].
  cbn [fst] in Ha1. cbn [swap_and_open_next].
  set (snap := {| snap_epoch_id := _ |}). set (acc := {| acc_epoch_id := _ |}).
  assert (acc_epoch_id acc = acc_epoch_id (s_acc s) + 1) as Hnext
    by (cbn; rewrite sat_add_exact; lia).
  destruct (let? b := EpochBatch_prepare (leaf <$> snap_leaves snap) in
            let? r := build_record snap b in Ok (b, r)) as [[b record]|e] eqn:Hprep.
  2: { exists A1. split; [done|]. split; [done|]. split; [done|]. split; [|done]. cbn [s_acc state_of fst].
       rewrite Hnext. by eapply store_inv_next; [|done]; lia. }
  apply result_bind_ok in Hprep as (b' & Hb & Hprep).
  apply result_bind_ok in Hprep as (r' & Hrec & Hprep). injection Hprep as -> ->.
  apply build_record_fields in Hrec as [Hrid Hrcount].
  set (pend := pending_of ctx snap b).
  assert (forall p, pend = Some p -> p_epoch_id p = acc_epoch_id (s_acc s) /\
    hashes_of p = leaf <$> acc_leaves (s_acc s) /\
    exists c, ctx = Some c /\ p_methods p = c_methods c) as Hpend.
  { intros p. unfold pend, pending_of. destruct ctx as [c|], b as [b|]; try done.
    case_decide; [|done]. intros [= <-]. split; [done|]. split; [apply hashes_of_new|eauto]. }
  assert (NoDup (leaf <$> snap_leaves snap)) as Hnd by apply (inv_nodup _ Hacc).
  assert (sealed_ok record (snap_leaves snap) pend) as Hok.
  { split; [unfold u64_ok; rewrite Hrid; cbn; lia|]. split; [done|].
    intros p Hp. destruct (Hpend p Hp) as [Hpid _]. unfold pending_ok, u64_ok. rewrite Hpid. lia. }
  pose proof (st_persist_sealed_ok (t_sto t) A1 record (snap_leaves snap) [] pend Ha1 Hok) as Hs.
  destruct (sealed_inv A1 (acc_epoch_id (s_acc s)) record (snap_leaves snap) pend Hi1 Hrid)
    as (Hi2 & Hn2 & Hep & Hlv & Hpe & Hnew); [unfold u64_ok; lia|done|by intros p [? _]%Hpend|].
  set (A2 := apply_aops A1 (sealed_aops record (snap_leaves snap) [] pend)) in *.
  unfold atomic in Hs.
  destruct (st_persist_sealed_epoch_with_pending record (snap_leaves snap) [] pend (t_sto t))
    as [sto [[]|e]]; cbn [fst snd] in Hs.
  2: { destruct Hs as [Hs|Hs]; [exists A1|exists A2]; cbn [fst snd];
         (split; [done|]); (split; [done || by etrans|]);
         (split; [done || (etrans; [done|apply sealed_tips])|]); (split; [|done]); cbn [s_acc state_of];
         rewrite Hnext; [by eapply store_inv_next; [|done]; lia|done]. }
  assert (exists A3 t3 minted,
    match ctx, pend with
    | Some c, Some p =>
        let '(_, t, ws) := settle_methods c closed (p_methods p) p (on_sto t sto) in (t, ws)
    | _, _ => (on_sto t sto, [])
    end = (t3, minted) /\ absr (t_sto t3) A3 /\ store_inv A3 (acc_epoch_id (s_acc s) + 1) /\
    nothing_lost A2 A3 /\ tips_from (verified_under ctx) A2 A3)
    as (A3 & t3 & minted & -> & Ha3 & Hi3 & Hn3 & Ht3).
  { destruct ctx as [c|]; [|exists A2; eexists _, _; by split].
    destruct pend as [p|] eqn:Hp; [|exists A2; eexists _, _; by split].
    destruct (Hpend p eq_refl) as (Hpid & _).
    destruct (settle_methods_settled (verified_under (Some c)) c closed (p_methods p) (on_sto t sto) A2
                (acc_epoch_id (s_acc s) + 1) p) as (A3 & Ha3 & Hs3);
      [intros w Hw; by exists c|done| |].
    - split; [done| |unfold u64_ok; lia|rewrite Hpid; by exists record].
      split; [|intros l m Hl Hm; left; eexists; by apply (Hnew p)].
      intros q. rewrite Hpid, Hpe. by intros [= <-].
    - destruct (settle_methods c closed (p_methods p) p (on_sto t sto)) as [[p3 t3] ws].
      exists A3, t3, ws. split; [done|]. split; [done|]. split; [|split].
      + apply (rd_inv _ _ _ (sd_ready _ _ _ _ _ _ Hs3)).
      + apply (sd_lost _ _ _ _ _ _ Hs3).
      + apply (sd_tips _ _ _ _ _ _ Hs3). }
  exists A3. cbn [fst snd s_acc s_sto state_of]. split; [done|].
  change (s_acc (state_of acc t3)) with acc. rewrite Hnext.
  split; [by do 2 (etrans; [done|])|].
  split; [etrans; [exact Ht1|etrans; [apply sealed_tips|exact Ht3]]|]. split; [done|].
  split; [done|]. split; [done|]. split; [by apply Hn3|]. split; [by rewrite Hrcount|].
  intros e He. split; [by apply Hn3, Hlv|]. intros c m -> Hm.
  apply (nothing_lost_outstanding A2); [done|].
  assert (exists bb, b = Some bb) as [bb ->].
  { destruct b as [bb|]; [by exists bb|]. exfalso. unfold EpochBatch_prepare in Hb.
    cbn [snap_leaves snap] in Hb. apply list_elem_of_lookup in He as [i Hi'].
    destruct (acc_leaves (s_acc s)); [done|]. cbn in Hb.
    destruct (prepare_batch_timestamp _); done. }
  assert (pend = Some (PendingEpoch_new snap bb (c_methods c))) as Hp.
  { unfold pend, pending_of. rewrite decide_True; [done|]. intros Hnil. rewrite Hnil in Hm.
    by apply elem_of_nil in Hm. }
  eexists. split; [by rewrite Hpe, Hp|]. split; [done|]. rewrite hashes_of_new.
  by apply list_elem_of_fmap_2.
Qed.
End seal.
