(* ===== verification/SealerCalls.v ===== *)
(** * Provider calls of a tick

    What the sealer asks of the anchor providers: one call for a method at a
    time and only where the pending record needs an anchor, and no call after a
    failing one for the rest of the tick. *)

From S2P Require Import Prelude External Merkle Accumulator Witness Selfcheck Epoch Utf8 Kv Storage StoreSpec SealStore Anchors Sealer.

(** [calls_from down cs down']: the calls [cs] made with the methods [down]
    skipped from the start and [down'] at the end. *)
Inductive calls_from : gset AnchorMethod -> list call -> gset AnchorMethod -> Prop :=
| cf_done down down' : down ⊆ down' -> calls_from down [] down'
| cf_call down down1 c cs down' :
    down ⊆ down1 -> c_method c ∉ down1 ->
    calls_from (if c_ok c then down1 else {[c_method c]} ∪ down1) cs down' ->
    calls_from down (c :: cs) down'.

Lemma calls_from_mono d0 d cs d' : d0 ⊆ d -> calls_from d cs d' -> calls_from d0 cs d'.
Proof.
  intros Hd Hc. destruct Hc as [d d' Hs|d d1 c cs d' Hs Hn Hc].
  - apply cf_done. by etrans.
  - eapply cf_call; [by etrans|done..].
Qed.

Lemma calls_from_app d cs d1 cs' d2 :
  calls_from d cs d1 -> calls_from d1 cs' d2 -> calls_from d (cs ++ cs') d2.
Proof.
  intros Hc Hc'. induction Hc as [d d1 Hs|d d0 c cs d1 Hs Hn Hc IH]; cbn.
  - by eapply calls_from_mono.
  - eapply cf_call; [done|done|]. by apply IH.
Qed.

Lemma calls_from_not_down d cs d' c : calls_from d cs d' -> c ∈ cs -> c_method c ∉ d.
Proof.
  induction 1 as [|d d1 c' cs d' Hs Hn Hc IH]; [by intros ?%elem_of_nil|].
  intros [->|Hin]%elem_of_cons; [set_solver|]. apply IH in Hin. destruct (c_ok c'); set_solver.
Qed.

(** After a failing call, its method is not called again. *)
Lemma calls_from_failed d cs d' pre c post c' :
  calls_from d cs d' -> cs = pre ++ c :: post -> c_ok c = false -> c' ∈ post ->
  c_method c' <> c_method c.
Proof.
  intros Hc. revert pre. induction Hc as [|d d1 c0 cs d' Hs Hn Hc IH]; intros [|x pre] Heq Hf Hin;
    simplify_eq/=; [|by eapply IH].
  rewrite Hf in Hc. apply (calls_from_not_down _ _ _ c') in Hc; [|done]. set_solver.
Qed.

Section calls.
Context `{HexCrate, Sdk, !AnchorWorld, SerdeCrates, !StoreCodecs, !SealStore}.

(** [t'] is [t] some calls later. *)
Definition called (t t' : Tick) : Prop :=
  exists cs, t_calls t' = t_calls t ++ cs /\ calls_from (t_down t) cs (t_down t').

Lemma called_refl t : called t t.
Proof. exists []. rewrite app_nil_r. split; [done|by apply cf_done]. Qed.

Lemma called_trans t t1 t2 : called t t1 -> called t1 t2 -> called t t2.
Proof.
  intros (cs & Hc & Hf) (cs' & Hc' & Hf'). exists (cs ++ cs').
  rewrite Hc', Hc, app_assoc. split; [done|]. by eapply calls_from_app.
Qed.

Lemma called_quiet t t' : t_calls t' = t_calls t -> t_down t ⊆ t_down t' -> called t t'.
Proof. intros Hc Hd. exists []. rewrite app_nil_r. split; [done|by apply cf_done]. Qed.

(** One turn calls the provider at most once, and only when the method is
    enabled and up, the record holds no anchor of it and its faults are below
    the cap; the call carries the record's own root. *)
Definition may_call (ctx : WitnessContext) (m : AnchorMethod) (p : PendingEpoch) (t : Tick)
    (c : call) : Prop :=
  c_method c = m /\ c_root c = p_anchor_root p /\ m ∈ c_methods ctx /\ anchor p m = None /\
  m ∉ t_down t /\ anchor_fault_count p m < c_max_anchor_faults ctx.

Lemma settle_anchor_calls ctx m now p t :
  let '(p', t', o) := settle_anchor ctx m now p t in
  called t t' /\
  (m ∈ c_methods ctx -> t_calls t' = t_calls t \/
     exists c, t_calls t' = t_calls t ++ [c] /\ may_call ctx m p t c).
Proof.
  unfold settle_anchor. destruct (anchor p m) eqn:Ha; [split; [apply called_refl|intros _; by left]|].
  case_decide as Hd; [split; [apply called_refl|intros _; by left]|].
  case_decide as Hf; [split; [apply called_refl|intros _; by left]|].
  unfold anchor_root. destruct (provider ctx m) as [a|].
  2: { split; [apply called_quiet; [done|cbn; set_solver]|intros _; by left]. }
  destruct (create_timestamp a (p_anchor_root p) (t_world t)) as [w' [v|e]]; cbn [ok is_ok].
  - destruct (store_anchor _ _) as [s' [|]]; cbn.
    all: split; [|intros Hm; right; eexists; split; [done|repeat split; try done; lia]].
    + eexists. split; [done|]. eapply cf_call; [done|done|]. by apply cf_done.
    + eexists. split; [done|]. eapply cf_call; [done|done|]. apply cf_done. cbn. set_solver.
  - split; [|intros Hm; right; eexists; split; [done|repeat split; try done; lia]].
    eexists. split; [done|]. eapply cf_call; [done|done|]. by apply cf_done.
Qed.

Lemma settle_refused_calls ctx m now v p t :
  t_calls (settle_refused ctx m now v p t).2 = t_calls t /\
  t_down t ⊆ t_down (settle_refused ctx m now v p t).2.
Proof.
  unfold settle_refused, settle_missing. destruct v as [| | |r [|]]; try done.
  - destruct (anchor_first_seen p m now) as [p1 [[fs [|]]|]]; try done; case_decide; try done;
      by destruct (count_anchor_fault p1 m).
  - destruct (count_anchor_fault p m). cbn. set_solver.
Qed.

Lemma serve_calls m ws p t :
  t_calls (serve m ws p t).1.2 = t_calls t /\ t_down t ⊆ t_down (serve m ws p t).1.2.
Proof. unfold serve. by destruct (st_persist_pending_minted _ _ _ _) as [s' [[]|e]]. Qed.

Lemma settle_method_calls ctx m now p t :
  let '(p', t', o) := settle_method ctx now m p t in
  called t t' /\
  (t_calls t' = t_calls t \/ exists c, t_calls t' = t_calls t ++ [c] /\ may_call ctx m p t c).
Proof.
  unfold settle_method. case_decide as Hm; [|split; [apply called_refl|by left]].
  pose proof (settle_anchor_calls ctx m now p t) as Ha.
  destruct (settle_anchor ctx m now p t) as [[p1 t1] [value|]];
    destruct Ha as [Hc Hs]; specialize (Hs Hm); [|done].
  destruct (mint_pending ctx p1 m value) as [ws|e]; [|done].
  destruct (first_refusal _) as [v|].
  - pose proof (settle_refused_calls ctx m now v p1 t1) as [Hc2 Hd2].
    destruct (settle_refused ctx m now v p1 t1) as [p2 t2]. cbn in *.
    split; [eapply called_trans, called_quiet; done|]. by rewrite Hc2.
  - pose proof (serve_calls m ws p1 t1) as [Hc2 Hd2].
    destruct (serve m ws p1 t1) as [[p2 t2] o]. cbn in *.
    split; [eapply called_trans, called_quiet; done|]. by rewrite Hc2.
Qed.

Lemma settle_methods_called ctx now ms p t : called t (settle_methods ctx now ms p t).1.2.
Proof.
  revert p t; induction ms as [|m ms IH]; intros p t; cbn [settle_methods]; [apply called_refl|].
  pose proof (settle_method_calls ctx m now p t) as Hm.
  destruct (settle_method ctx now m p t) as [[p1 t1] o]. destruct Hm as [Hc _].
  specialize (IH p1 t1). destruct (settle_methods ctx now ms p1 t1) as [[p2 t2] ws]. cbn in *.
  by eapply called_trans.
Qed.

Lemma settle_epochs_called ctx now ps t : called t (settle_epochs ctx now ps t).1.
Proof.
  revert t; induction ps as [|p ps IH]; intros t; cbn [settle_epochs]; [apply called_refl|].
  pose proof (settle_methods_called ctx now (p_methods p) p t) as Hm.
  destruct (settle_methods ctx now (p_methods p) p t) as [[p1 t1] ws]. cbn in Hm.
  specialize (IH t1). destruct (settle_epochs ctx now ps t1) as [t2 ws2]. cbn in *.
  by eapply called_trans.
Qed.

Lemma retry_pending_called ctx now t : called t (retry_pending ctx now t).1.
Proof.
  unfold retry_pending. destruct (st_list_pending_epochs (t_sto t)); [apply settle_epochs_called|].
  apply called_refl.
Qed.

Lemma seal_once_called `{Sha3Crate} closed dur ctx s :
  exists cs d, s_calls (seal_once closed dur ctx s).1 = s_calls s ++ cs /\ calls_from ∅ cs d.
Proof.
  assert (forall t, called (tick_of s) t -> exists cs d,
    t_calls t = s_calls s ++ cs /\ calls_from ∅ cs d) as Hout.
  { intros t (cs & Hc & Hf). by exists cs, (t_down t). }
  unfold seal_once. cbv zeta.
  destruct (match ctx with Some c => validate c (s_world s) | None => Ok tt end) as [[]|e];
    [|exact (Hout _ (called_refl _))].
  assert (called (tick_of s) (match ctx with
    | Some c => retry_pending c closed (tick_of s) | None => (tick_of s, []) end).1) as Hretry.
  { destruct ctx; [apply retry_pending_called|apply called_refl]. }
  destruct (match ctx with
    | Some c => retry_pending c closed (tick_of s) | None => (tick_of s, []) end) as [t wits].
  cbn [fst swap_and_open_next] in *.
  destruct (let? b := EpochBatch_prepare _ in _) as [[b record]|e]; [|by apply Hout].
  set (pend := pending_of _ _ _).
  destruct (st_persist_sealed_epoch_with_pending _ _ _ _ _) as [sto [[]|e]]; [|by apply Hout].
  assert (called t (match ctx, pend with
    | Some c, Some p =>
        let '(_, t, ws) := settle_methods c closed (p_methods p) p (on_sto t sto) in (t, ws)
    | _, _ => (on_sto t sto, [])
    end).1) as Hsettle.
  { assert (called t (on_sto t sto)) as Hq by (apply called_quiet; [done|reflexivity]).
    destruct ctx as [c|]; [|done]. destruct pend as [p|]; [|done].
    pose proof (settle_methods_called c closed (p_methods p) p (on_sto t sto)) as Hm.
    destruct (settle_methods _ _ _ _ _) as [[p' t'] ws]. exact (called_trans _ _ _ Hq Hm). }
  destruct (match ctx, pend with
    | Some c, Some p =>
        let '(_, t, ws) := settle_methods c closed (p_methods p) p (on_sto t sto) in (t, ws)
    | _, _ => (on_sto t sto, [])
    end) as [t3 minted].
  apply Hout. by eapply called_trans.
Qed.
End calls.
