(* ===== verification/SealerTheorems.v ===== *)
(** * The sealer's properties *)

From S2P Require Import Prelude External Merkle Accumulator Witness Selfcheck Epoch Utf8 Kv Storage StoreSpec SealStore SealInv Anchors Sealer SealerProofs SealerCalls.

Section theorems.
Context `{HexLaws, SdkLaws, !AnchorWorld, SerdeCrates, !StoreCodecs, !SealStore, !SealStoreLaws,
          Sha3Crate, !ClaimLaws}.

(** ** Refusal before anything is closed *)

Lemma find_None_Forall {X} (f : X -> bool) l : List.find f l = None <-> Forall (fun x => f x = false) l.
Proof.
  induction l as [|x l IH]; cbn; [split; [constructor|done]|]. destruct (f x) eqn:Hf.
  - split; [done|]. intros Hl. inversion Hl. congruence.
  - rewrite IH. split; [by constructor|intros Hl; by inversion Hl].
Qed.

Lemma validate_ok c wd :
  validate c wd = Ok tt <->
  (forall m, m ∈ c_methods c -> is_Some (provider c m) /\ host_missing (c_self_check c wd) m = false) /\
  c_service_did c <> ""%string.
Proof.
  unfold validate. destruct (List.find (fun m => bool_decide (provider c m = None)) (c_methods c))
    as [m|] eqn:Hp.
  - split; [done|]. intros [Hm _]. apply find_some in Hp as [Hin Hn%bool_decide_eq_true].
    apply list_elem_of_In, Hm in Hin as [[? ?] _]. congruence.
  - apply find_None_Forall in Hp. rewrite Forall_forall in Hp.
    destruct (List.find (host_missing (c_self_check c wd)) (c_methods c)) as [m|] eqn:Hh.
    + split; [done|]. intros [Hm _]. apply find_some in Hh as [Hin Hn].
      apply list_elem_of_In, Hm in Hin as [_ ?]. congruence.
    + apply find_None_Forall in Hh. rewrite Forall_forall in Hh. case_decide as Hd.
      * split; [done|]. by intros [_ ?].
      * split; [|done]. intros _. split; [|done]. intros m Hm. split; [|by apply Hh].
        apply not_eq_None_Some. intros He. apply Hp in Hm. rewrite bool_decide_eq_false in Hm. done.
Qed.

(** A context that could not serve is refused before the epoch is closed:
    validation passes exactly when every enabled method has its provider and
    its self-check host and the service DID is known, and a seal under a
    context that fails it changes nothing at all (accumulator, store, world,
    no provider call). *)
Theorem seal_refused_unchanged c closed dur s :
  (validate c (s_world s) = Ok tt <->
   (forall m, m ∈ c_methods c ->
      is_Some (provider c m) /\ host_missing (c_self_check c (s_world s)) m = false) /\
   c_service_did c <> ""%string) /\
  (forall e, validate c (s_world s) = Err e -> seal_once closed dur (Some c) s = (s, Err e)).
Proof.
  split; [apply validate_ok|]. intros e He. unfold seal_once. cbv zeta. by rewrite He.
Qed.

(** C2. One seal loses nothing, on every outcome. It starts from a consistent
    store whose epochs are all older than the open one. Afterwards every
    epoch record, every persisted leaf, every served witness and every
    outstanding (epoch, method, leaf) is still there, the outstanding ones
    possibly replaced by a served, self-checked witness; every newly served
    tip is a witness the SDK's self-check verified; the invariant holds for
    the next open epoch. When the seal answers [Ok], the closed epoch's record
    (with its leaf count) and every leaf with its submitter are stored, the
    accumulator is empty under the next id, and every leaf is outstanding or
    served for every enabled method. *)
Theorem seal_once_keeps closed dur ctx A s :
  seal_ready A s ->
  exists A', seal_outcome ctx A s (seal_once closed dur ctx s).1 (seal_once closed dur ctx s).2 A'.
Proof. apply seal_once_outcome. Qed.

(** ** Provider calls *)

(** C7. A method's turn calls its provider at most once, and only when the
    method is enabled, has not failed earlier this tick, has no stored anchor
    in the record and its faults are below the cap; the call anchors the
    record's own root. So a stored anchor is never paid for twice, and past
    the fault cap nothing is spent on the epoch any more. *)
Theorem settle_method_anchors_once ctx now m p t :
  let '(p', t', o) := settle_method ctx now m p t in
  t_calls t' = t_calls t \/ exists c, t_calls t' = t_calls t ++ [c] /\ may_call ctx m p t c.
Proof.
  pose proof (settle_method_calls ctx m now p t) as Hm.
  destruct (settle_method ctx now m p t) as [[p' t'] o]. apply Hm.
Qed.

(** C8. A tick makes at most one failing call per method: in the calls of one
    seal (every outstanding epoch and the new one), no call of a method
    follows its failing one. *)
Theorem one_failing_call_per_tick closed dur ctx s :
  exists cs, s_calls (seal_once closed dur ctx s).1 = s_calls s ++ cs /\
    forall pre c post c', cs = pre ++ c :: post -> c_ok c = false -> c' ∈ post ->
      c_method c' <> c_method c.
Proof.
  destruct (seal_once_called closed dur ctx s) as (cs & d & Hc & Hf). exists cs.
  split; [done|]. intros pre c post c' Heq Hno Hin. by eapply calls_from_failed.
Qed.

(** ** Serving *)

Lemma serve_answers m ws p t :
  (serve m ws p t).2 = Some ws \/ (serve m ws p t).2 = None.
Proof. unfold serve. destruct (st_persist_pending_minted _ _ _ _) as [s' [[]|e]]; auto. Qed.

Lemma settle_method_answers ctx now m p t ws :
  (settle_method ctx now m p t).2 = Some ws -> Forall (checked ctx) ws.
Proof.
  unfold settle_method. case_decide; [|done].
  destruct (settle_anchor ctx m now p t) as [[p1 t1] [value|]]; [|done].
  destruct (mint_pending ctx p1 m value) as [ws'|e] eqn:Hm; [|done].
  destruct (first_refusal _) as [v|] eqn:Hv; [by destruct (settle_refused _ _ _ _ _ _)|].
  intros Hs. destruct (serve_answers m ws' p1 t1) as [He|He]; rewrite He in Hs; [|done].
  injection Hs as <-. apply self_check_passed in Hv. apply mint_pending_objects in Hm.
  rewrite Forall_forall in Hv, Hm |- *. intros w Hw. split; auto.
Qed.

Lemma settle_methods_answers ctx now ms p t :
  Forall (checked ctx) (settle_methods ctx now ms p t).2.
Proof.
  revert p t; induction ms as [|m ms IH]; intros p t; cbn [settle_methods]; [constructor|].
  pose proof (settle_method_answers ctx now m p t) as Hm.
  destruct (settle_method ctx now m p t) as [[p1 t1] o].
  specialize (IH p1 t1). destruct (settle_methods ctx now ms p1 t1) as [[p2 t2] ws]. cbn in *.
  apply Forall_app. split; [|done]. destruct o as [ws'|]; [by apply Hm|constructor].
Qed.

Lemma settle_epochs_answers ctx now ps t : Forall (checked ctx) (settle_epochs ctx now ps t).2.
Proof.
  revert t; induction ps as [|p ps IH]; intros t; cbn [settle_epochs]; [constructor|].
  pose proof (settle_methods_answers ctx now (p_methods p) p t) as Hm.
  destruct (settle_methods ctx now (p_methods p) p t) as [[p1 t1] ws].
  specialize (IH t1). destruct (settle_epochs ctx now ps t1) as [t2 ws2]. cbn in *.
  by apply Forall_app.
Qed.

Lemma retry_pending_answers ctx now t : Forall (checked ctx) (retry_pending ctx now t).2.
Proof.
  unfold retry_pending. destruct (st_list_pending_epochs (t_sto t)); [|constructor].
  apply settle_epochs_answers.
Qed.

(** Every witness a seal returns passed the SDK's per-witness check
    (content hash, batch inclusion, anchor, service signature) before it was
    served. *)
Theorem returned_witnesses_verified closed dur ctx s s' record ws :
  seal_once closed dur ctx s = (s', Ok (record, ws)) -> Forall (verified_under ctx) ws.
Proof.
  unfold seal_once. cbv zeta.
  destruct (match ctx with Some c => validate c (s_world s) | None => Ok tt end) as [[]|e]; [|done].
  assert (Forall (verified_under ctx) (match ctx with
    | Some c => retry_pending c closed (tick_of s) | None => (tick_of s, []) end).2) as Hr.
  { destruct ctx as [c|]; [|constructor]. eapply Forall_impl; [apply retry_pending_answers|].
    intros w Hw. by exists c. }
  destruct (match ctx with
    | Some c => retry_pending c closed (tick_of s) | None => (tick_of s, []) end) as [t wits].
  cbn [snd swap_and_open_next] in *.
  destruct (let? b := EpochBatch_prepare _ in _) as [[b rec]|e]; [|done].
  set (pend := pending_of _ _ _).
  destruct (st_persist_sealed_epoch_with_pending _ _ _ _ _) as [sto [[]|e]]; [|done].
  destruct ctx as [c|]; [destruct pend as [p|]|].
  - pose proof (settle_methods_answers c closed (p_methods p) p (on_sto t sto)) as Hm.
    destruct (settle_methods _ _ _ _ _) as [[p' t'] ws']. intros [= <- <- <-].
    apply Forall_app. split; [done|]. eapply Forall_impl; [exact Hm|]. intros w Hw. by exists c.
  - intros [= <- <- <-]. by rewrite app_nil_r.
  - intros [= <- <- <-]. by rewrite app_nil_r.
Qed.

(** ** Anchors the node does not know *)

(** An anchor whose transaction the node does not know keeps its place
    until it is older than the timeout, counted from when it was first seen
    (from now for a record without that time): until then the record's
    anchors and faults stay and nothing is written but a missing first-seen
    time; past it the anchor is dropped and the method's fault count goes up
    by one, so the next tick may anchor again. *)
Theorem settle_missing_spec ctx m now p t value :
  anchor p m = Some value ->
  exists first_seen,
    (forall a, List.find (fun a => bool_decide (sa_method a = m)) (p_anchors p) = Some a ->
       first_seen = default now (sa_first_seen a)) /\
    let '(p', t') := settle_missing ctx m now p t in
    if decide (sat_sub now first_seen < c_evm_not_found_timeout_secs ctx)
    then (forall m', anchor p' m' = anchor p m') /\ p_anchor_faults p' = p_anchor_faults p /\
         t_calls t' = t_calls t /\ t_down t' = t_down t /\
         (t' = t \/ t_sto t' = (st_save_pending p' (t_sto t)).1)
    else anchor p' m = None /\ anchor_fault_count p' m = wrapping_add 32 (anchor_fault_count p m) 1 /\
         (forall m', m' <> m -> anchor p' m' = anchor p m' /\
                     anchor_fault_count p' m' = anchor_fault_count p m') /\
         t_sto t' = (st_save_pending p' (t_sto t)).1.
Proof.
  unfold anchor at 1. intros Ha.
  pose proof (first_seen_in_spec m now (p_anchors p)) as Hs.
  unfold settle_missing, anchor_first_seen.
  destruct (first_seen_in m now (p_anchors p)) as [l r]. destruct Hs as [Hl ->].
  destruct (List.find _ (p_anchors p)) as [a|] eqn:Hf; [|done]. clear Ha value.
  exists (default now (sa_first_seen a)). split; [by intros a' [= ->]|].
  set (p1 := set_anchors p l).
  assert (forall m', anchor p1 m' = anchor p m') as Hp1 by exact Hl.
  assert (match sa_first_seen a with Some t0 => (t0, false) | None => (now, true) end
          = (default now (sa_first_seen a), bool_decide (sa_first_seen a = None))) as ->
    by (by destruct (sa_first_seen a)).
  case_decide as Hage.
  - split; [done|]. split; [done|]. case_bool_decide; [|by split_and!; try left].
    split_and!; [done..|by right].
  - pose proof (count_anchor_fault_spec p1 m) as Hc.
    assert (p_anchors (count_anchor_fault p1 m).1 = p_anchors p1) as Hanch.
    { unfold count_anchor_fault. by destruct (count_fault_in _ _) as [? [?|]]. }
    destruct (count_anchor_fault p1 m) as [p2 c]. destruct Hc as [-> Hc]. cbn in Hanch.
    assert (forall m', anchor p2 m' = anchor p m') as Hp2.
    { intros m'. rewrite <- Hp1. unfold anchor. by rewrite Hanch. }
    split_and!.
    + rewrite anchor_drop. by rewrite decide_True.
    + change (anchor_fault_count p2 m = wrapping_add 32 (anchor_fault_count p1 m) 1).
      rewrite Hc. by rewrite decide_True.
    + intros m' Hm'. split.
      * rewrite anchor_drop, decide_False by done. apply Hp2.
      * change (anchor_fault_count p2 m' = anchor_fault_count p1 m'). rewrite Hc.
        by rewrite decide_False.
    + done.
Qed.

(** ** The empty epoch *)

(** An epoch without leaves is never anchored and mints nothing: the seal
    prepares no batch, records the root of the empty string and no pending
    record, and makes no provider call and serves no witness beyond those of
    the earlier epochs it retries. *)
Theorem empty_epoch_not_anchored closed dur ctx s s' record ws :
  acc_leaves (s_acc s) = [] ->
  seal_once closed dur ctx s = (s', Ok (record, ws)) ->
  er_merkle_root record = empty_merkle_root /\ er_leaf_count record = 0 /\
  let retried := match ctx with
                 | Some c => retry_pending c closed (tick_of s)
                 | None => (tick_of s, []) end in
  ws = retried.2 /\ s_calls s' = t_calls retried.1 /\
  s_sto s' = (st_persist_sealed_epoch_with_pending record [] [] None (t_sto retried.1)).1.
Proof.
  intros Hempty. unfold seal_once. cbv zeta.
  destruct (match ctx with Some c => validate c (s_world s) | None => Ok tt end) as [[]|e]; [|done].
  destruct (match ctx with
    | Some c => retry_pending c closed (tick_of s) | None => (tick_of s, []) end) as [t wits].
  cbn [swap_and_open_next snap_leaves]. rewrite Hempty. cbn [fmap list_fmap EpochBatch_prepare].
  cbn [result_bind build_record snap_leaves snap_epoch_id snap_opened_at snap_closed_at length].
  assert (forall sn, pending_of ctx sn None = None) as Hp by (by destruct ctx).
  rewrite Hp. set (rec := {| er_id := _ |}).
  destruct (st_persist_sealed_epoch_with_pending rec [] [] None (t_sto t)) as [sto [[]|e]] eqn:Hs;
    [|done].
  destruct ctx as [c|]; intros [= <- <- <-]; cbn [fst snd s_calls s_sto state_of on_sto t_sto t_calls];
    rewrite Hs, app_nil_r; done.
Qed.

(** ** What a failing batch loses *)

(** C38. The one way an accepted leaf is dropped: the epoch is closed before its
    batch is prepared, and when the SDK refuses the batch the seal answers an
    error with the accumulator already emptied and nothing of the epoch in the
    store, so no later tick can find its leaves. *)
Theorem prepare_failure_drops_epoch closed dur ctx A s e :
  seal_ready A s ->
  match ctx with Some c => validate c (s_world s) | None => Ok tt end = Ok tt ->
  EpochBatch_prepare (leaf <$> acc_leaves (s_acc s)) = Err e ->
  exists s' A', seal_once closed dur ctx s = (s', Err (SealWitness e)) /\
    acc_leaves (s_acc s') = [] /\ acc_epoch_id (s_acc s') = acc_epoch_id (s_acc s) + 1 /\
    absr (s_sto s') A' /\
    look A' epochs (acc_epoch_id (s_acc s)) = None /\
    look A' pending_anchors (acc_epoch_id (s_acc s)) = None /\
    forall l, look A' epoch_leaves (acc_epoch_id (s_acc s), l) = None.
Proof.
  intros [Ha Hi Hacc Hid Hdid] Hval Hprep. unfold seal_once. cbv zeta. rewrite Hval.
  assert (exists A1, absr (t_sto (match ctx with
      | Some c => retry_pending c closed (tick_of s) | None => (tick_of s, []) end).1) A1 /\
      store_inv A1 (acc_epoch_id (s_acc s))) as (A1 & Ha1 & Hi1).
  { destruct ctx as [c|]; [|by exists A].
    destruct (retry_pending_settled (fun _ => True) c closed (tick_of s) A (acc_epoch_id (s_acc s))
      (fun _ _ => I) Ha Hi) as (A1 & ? & ? & _). by exists A1. }
  destruct (match ctx with
      | Some c => retry_pending c closed (tick_of s) | None => (tick_of s, []) end) as [t wits].
  cbn [fst] in Ha1. cbn [swap_and_open_next snap_leaves]. rewrite Hprep. cbn [result_bind].
  assert (look A1 epochs (acc_epoch_id (s_acc s)) = None) as Hno.
  { destruct (look A1 epochs (acc_epoch_id (s_acc s))) as [r|] eqn:Hr; [|done].
    apply Hi1 in Hr. lia. }
  eexists _, A1. split; [done|]. split; [done|].
  split; [cbn; rewrite sat_add_exact; lia|]. split; [done|]. split; [done|]. split.
  - destruct (look A1 pending_anchors (acc_epoch_id (s_acc s))) as [p|] eqn:Hp; [|done].
    destruct (si_pending _ _ Hi1 _ _ Hp) as (_ & _ & [? ?]). congruence.
  - intros l. destruct (look A1 epoch_leaves _) as [did|] eqn:Hl; [|done].
    apply (si_leaves _ _ Hi1) in Hl as [? ?]. congruence.
Qed.

(** ** The service: submissions and seals in any order *)

(** A submission, a seal (its clock reading and its context), or the world
    moving on by itself. *)
Inductive svc_op :=
| SvcSubmit (batch : list Hash32) (did : string)
| SvcSeal (closed dur : u64) (ctx : option WitnessContext)
| SvcWorld (w : World).

Definition svc_step (s : SealState) (op : svc_op) : SealState :=
  match op with
  | SvcSubmit batch did =>
      {| s_acc := (append_batch batch did (s_acc s)).1; s_sto := s_sto s;
         s_world := s_world s; s_calls := s_calls s |}
  | SvcSeal closed dur ctx => (seal_once closed dur ctx s).1
  | SvcWorld w =>
      {| s_acc := s_acc s; s_sto := s_sto s; s_world := w; s_calls := s_calls s |}
  end.

Definition svc_op_ok (op : svc_op) : Prop :=
  match op with
  | SvcSubmit batch did => batch_ok batch /\ valid_utf8 did = true
  | _ => True
  end.

Lemma swap_acc s closed dur ctx :
  s_acc (seal_once closed dur ctx s).1 = s_acc s \/
  s_acc (seal_once closed dur ctx s).1 = (swap_and_open_next closed closed dur (s_acc s)).1.
Proof.
  unfold seal_once. cbv zeta.
  destruct (match ctx with Some c => validate c (s_world s) | None => Ok tt end) as [[]|e]; [|by left].
  destruct (match ctx with
    | Some c => retry_pending c closed (tick_of s) | None => (tick_of s, []) end) as [t wits].
  right. cbn [swap_and_open_next].
  destruct (let? b := EpochBatch_prepare _ in _) as [[b rec]|e]; [|done].
  destruct (st_persist_sealed_epoch_with_pending _ _ _ _ _) as [sto [[]|e]]; [|done].
  by destruct (match ctx, pending_of ctx _ b with Some c, Some p => _ | _, _ => _ end) as [t3 ws3].
Qed.

(** What a seal serves has the property [V]. *)
Definition op_serves (V : MintedWitness -> Prop) (op : svc_op) : Prop :=
  match op with
  | SvcSeal _ _ ctx => forall w, verified_under ctx w -> V w
  | _ => True
  end.

Lemma svc_step_ready V A s op :
  seal_ready A s -> svc_op_ok op -> op_serves V op -> acc_epoch_id (s_acc s) + 1 < U64_MAX ->
  exists A', seal_ready A' (svc_step s op) /\ nothing_lost A A' /\ tips_from V A A' /\
    acc_epoch_id (s_acc (svc_step s op)) <= acc_epoch_id (s_acc s) + 1.
Proof.
  intros Hr Hop HV Hid. destruct op as [batch did|closed dur ctx|w]; cbn [svc_step].
  - destruct Hop as [Hb Hd]. exists A. destruct Hr as [Ha Hi Hacc Hu Hdids].
    destruct (append_batch_cases batch did (s_acc s) Hacc Hb)
      as [[_ ->]|(_ & inner' & -> & Hi' & Hl & He & _)]; cbn [fst s_acc].
    + split; [by split|]. split; [reflexivity|]. split; [reflexivity|lia].
    + split; [split; cbn; rewrite ?He; try done|split; [reflexivity|split; [reflexivity|cbn; lia]]].
      rewrite Hl. apply Forall_app. split; [done|]. apply Forall_forall.
      intros e Hein. by apply list_elem_of_fmap in Hein as (l & -> & _).
  - destruct (seal_once_outcome closed dur ctx A s Hr) as (A' & Ha' & Hn & Ht & Hi' & _).
    apply (tips_from_weaken _ V _ _ HV) in Ht.
    exists A'. destruct Hr as [Ha Hi Hacc Hu Hdids].
    assert (acc_epoch_id (swap_and_open_next closed closed dur (s_acc s)).1
            = acc_epoch_id (s_acc s) + 1) as Hsw by (cbn; rewrite sat_add_exact; lia).
    destruct (swap_acc s closed dur ctx) as [He|He]; rewrite He in *.
    + split; [split; rewrite ?He; done|]. split; [done|]. split; [done|lia].
    + assert (acc_inv (swap_and_open_next closed closed dur (s_acc s)).1) by (by apply acc_inv_swap).
      split; [|split; [done|split; [done|lia]]]. split; rewrite ?He; [done..|rewrite Hsw; lia|constructor].
  - exists A. split; [split; apply Hr|]. split; [reflexivity|]. split; [reflexivity|cbn; lia].
Qed.

Lemma svc_run_serves V ops A s :
  seal_ready A s -> Forall svc_op_ok ops -> Forall (op_serves V) ops ->
  acc_epoch_id (s_acc s) + Z.of_nat (length ops) < U64_MAX ->
  exists A', seal_ready A' (fold_left svc_step ops s) /\ nothing_lost A A' /\ tips_from V A A'.
Proof.
  revert A s; induction ops as [|op ops IH]; intros A s Hr Ho HV Hid; cbn [fold_left].
  - exists A. split; [done|by split].
  - inversion Ho; inversion HV; subst. cbn [length] in Hid.
    destruct (svc_step_ready V A s op Hr) as (A1 & Hr1 & Hn1 & Ht1 & Hle); [done|done|lia|].
    destruct (IH A1 (svc_step s op) Hr1) as (A2 & Hr2 & Hn2 & Ht2); [done|done|lia|].
    exists A2. split; [done|]. split; by etrans.
Qed.

Lemma svc_run_ready ops A s :
  seal_ready A s -> Forall svc_op_ok ops ->
  acc_epoch_id (s_acc s) + Z.of_nat (length ops) < U64_MAX ->
  exists A', seal_ready A' (fold_left svc_step ops s) /\ nothing_lost A A'.
Proof.
  intros Hr Ho Hid. destruct (svc_run_serves (fun _ => True) ops A s Hr Ho) as (A' & ? & ? & _);
    [|done|by exists A'].
  apply Forall_forall. by intros [] _.
Qed.

(** C1. The service as a whole, from any consistent state: after any sequence
    of submissions, seals (failing in any way) and changes of the world, the
    state is consistent again (so a pending lookup always points to an epoch
    that is pending for that leaf and method, and no stored epoch has the
    open epoch's id), and nothing that was stored, served or outstanding is
    lost. *)
Theorem service_keeps ops A s :
  seal_ready A s -> Forall svc_op_ok ops ->
  acc_epoch_id (s_acc s) + Z.of_nat (length ops) < U64_MAX ->
  exists A', seal_ready A' (fold_left svc_step ops s) /\ nothing_lost A A' /\
    (forall l m id, look A' pending_leaves (l, m) = Some id -> outstanding A' id l m) /\
    look A' epochs (acc_epoch_id (s_acc (fold_left svc_step ops s))) = None.
Proof.
  intros Hr Ho Hid. destruct (svc_run_ready ops A s Hr Ho Hid) as (A' & Hr' & Hn).
  exists A'. split; [done|]. split; [done|]. pose proof (sr_inv _ _ Hr') as Hi. split.
  - intros l m id Hl. destruct (si_lookup _ _ Hi _ _ _ Hl) as (p & ? & ? & ?). by exists p.
  - destruct (look A' epochs _) as [r|] eqn:He; [|done]. apply Hi in He. lia.
Qed.
End theorems.
