(* ===== verification/Auth.v ===== *)
(** * Authentication
    ([crates/aqua-timestamp/src/auth.rs])

    Challenges and sessions live in the [aqua-auth] crate, an interface here;
    the handlers are modelled whole.  The last part is the service's history
    of auth requests and what the handlers make of the crate's promises. *)

From S2P Require Import Prelude External.
Open Scope string_scope.
Open Scope list_scope.
Open Scope Z_scope.

Record AuthApiError := { ae_status : Z; ae_msg : string }.

Definition unauthorized (msg : string) : AuthApiError := {| ae_status := 401; ae_msg := msg |}.
Definition forbidden (msg : string) : AuthApiError := {| ae_status := 403; ae_msg := msg |}.
Definition bad_request (msg : string) : AuthApiError := {| ae_status := 400; ae_msg := msg |}.
Definition unavailable (msg : string) : AuthApiError := {| ae_status := 503; ae_msg := msg |}.
Definition internal (msg : string) : AuthApiError := {| ae_status := 500; ae_msg := msg |}.

(** ** [aqua-auth] *)

Record Challenge := {
  ch_did : string;
  ch_nonce : string;
  ch_message : string;
  ch_expires_at : u64;
}.

Record Session := {
  ss_token : string;
  ss_did : string;
  ss_valid_until : u64;
  ss_created_at : u64;
}.

(** [auth_now] is the crate's reading of the clock. *)
Class AuthCrate := {
  AuthError : Type;
  auth_error_text : AuthError -> string;
  (** The variant [SessionStoreFull]. *)
  is_session_store_full : AuthError -> bool;
  ChallengeStore : Type;
  challenges_create : string -> u64 -> ChallengeStore -> ChallengeStore * result AuthError Challenge;
  challenges_validate :
    string -> u64 -> ChallengeStore -> ChallengeStore * result AuthError Challenge;
  verify_caip122 : string -> string -> bytes -> result AuthError bool;
  SessionStore : Type;
  sessions_create : string -> u64 -> SessionStore -> SessionStore * result AuthError Session;
  sessions_validate : string -> u64 -> SessionStore -> SessionStore * result AuthError string;
}.

(** ** The handlers *)

(** The white space of a header value, whose text is ASCII. *)
Definition is_ascii_space (c : Ascii.ascii) : bool :=
  let n := Ascii.N_of_ascii c in ((9 <=? n)%N && (n <=? 13)%N) || (n =? 32)%N.
Fixpoint trim_start_ascii (l : list Ascii.ascii) : list Ascii.ascii :=
  match l with
  | c :: l' => if is_ascii_space c then trim_start_ascii l' else l
  | [] => []
  end.
(** [s.trim()] of such a text. *)
Definition trim_ascii (s : string) : string :=
  String.string_of_list_ascii
    (reverse (trim_start_ascii (reverse (trim_start_ascii (String.list_ascii_of_string s))))).

Record ChallengeResponse := {
  cr_nonce : string;
  cr_message : string;
  cr_expires_at : u64;
}.

Record SessionRequestBody := {
  sr_did : string;
  sr_nonce : string;
  sr_signature : string;
}.

Record SessionResponse := {
  sp_token : string;
  sp_did : string;
  sp_valid_until : u64;
  sp_created_at : u64;
}.

Section auth.
Context `{HexCrate, AuthCrate}.

Record AuthStores := {
  challenges : ChallengeStore;
  sessions : SessionStore;
}.

(** [GET /auth/challenge?did=...]. *)
Definition challenge (did : string) (now : u64) (st : AuthStores)
    : AuthStores * result AuthApiError ChallengeResponse :=
  let '(cs, r) := challenges_create did now (challenges st) in
  ({| challenges := cs; sessions := sessions st |},
   match r with
   | Err e => Err (bad_request ("challenge: " +:+ auth_error_text e))
   | Ok ch => Ok {| cr_nonce := ch_nonce ch; cr_message := ch_message ch;
                    cr_expires_at := ch_expires_at ch |}
   end).

(** What [session] checks before it creates a session. *)
Definition check_signature (req : SessionRequestBody) (ch : Challenge)
    : result AuthApiError unit :=
  if decide (ch_did ch <> sr_did req) then Err (unauthorized "did does not match challenge")
  else
    let? sig_bytes :=
      map_err (fun e => bad_request ("signature hex: " +:+ hex_error_text e))
        (hex_decode (trim_start_matches "0x" (sr_signature req))) in
    let? ok :=
      map_err (fun e => bad_request ("signature: " +:+ auth_error_text e))
        (verify_caip122 (sr_did req) (ch_message ch) sig_bytes) in
    if ok : bool then Ok tt else Err (unauthorized "signature verification failed").

Definition session_error (e : AuthError) : AuthApiError :=
  if is_session_store_full e then unavailable "session store at capacity, retry later"
  else internal "could not create session".

(** [POST /auth/session]. *)
Definition session (req : SessionRequestBody) (now : u64) (st : AuthStores)
    : AuthStores * result AuthApiError SessionResponse :=
  let '(cs, r) := challenges_validate (sr_nonce req) now (challenges st) in
  let st := {| challenges := cs; sessions := sessions st |} in
  match r with
  | Err e => (st, Err (unauthorized ("challenge: " +:+ auth_error_text e)))
  | Ok ch =>
      match check_signature req ch with
      | Err e => (st, Err e)
      | Ok _ =>
          let '(ss, r) := sessions_create (sr_did req) now (sessions st) in
          ({| challenges := cs; sessions := ss |},
           match r with
           | Err e => Err (session_error e)
           | Ok s => Ok {| sp_token := ss_token s; sp_did := ss_did s;
                           sp_valid_until := ss_valid_until s; sp_created_at := ss_created_at s |}
           end)
      end
  end.

(** The bearer extractor; [header] is the [Authorization] header's text. *)
Definition bearer_did (header : option string) (now : u64) (st : AuthStores)
    : AuthStores * result AuthApiError string :=
  match header with
  | None => (st, Err (unauthorized "missing authorization header"))
  | Some value =>
      match strip_prefix "Bearer " value with
      | None => (st, Err (unauthorized "authorization scheme must be Bearer"))
      | Some rest =>
          let token := trim_ascii rest in
          if decide (token = "") then (st, Err (unauthorized "empty bearer token"))
          else
            let '(ss, r) := sessions_validate token now (sessions st) in
            ({| challenges := challenges st; sessions := ss |},
             map_err (fun e => unauthorized ("bearer: " +:+ auth_error_text e)) r)
      end
  end.
End auth.

(** ** What the crate promises

    A validated challenge was created for its DID with its nonce and message
    and is used up (a nonce is single-use); a token validates only to the DID
    its session was created for. *)

Class AuthLaws `{AuthCrate} := {
  (** The challenges that can still be answered, by nonce. *)
  open_challenges : ChallengeStore -> gmap string (string * string);
  live_sessions : SessionStore -> gmap string string;
  challenges_create_ok did now cs :
    open_challenges (challenges_create did now cs).1 ⊆
    match (challenges_create did now cs).2 with
    | Ok ch => <[ch_nonce ch := (did, ch_message ch)]> (open_challenges cs)
    | Err _ => open_challenges cs
    end;
  challenges_validate_ok nonce now cs :
    open_challenges (challenges_validate nonce now cs).1 ⊆ delete nonce (open_challenges cs) /\
    forall ch, (challenges_validate nonce now cs).2 = Ok ch ->
      open_challenges cs !! nonce = Some (ch_did ch, ch_message ch);
  sessions_create_ok did now ss :
    match (sessions_create did now ss).2 with
    | Ok s => ss_did s = did /\
        live_sessions (sessions_create did now ss).1 ⊆ <[ss_token s := did]> (live_sessions ss)
    | Err _ => live_sessions (sessions_create did now ss).1 ⊆ live_sessions ss
    end;
  sessions_validate_ok token now ss :
    live_sessions (sessions_validate token now ss).1 ⊆ live_sessions ss /\
    forall did, (sessions_validate token now ss).2 = Ok did ->
      live_sessions ss !! token = Some did;
}.

(** ** Histories *)

Inductive auth_op :=
| AChallenge (did : string) (now : u64)
| ASession (req : SessionRequestBody) (now : u64)
| ABearer (header : option string) (now : u64).

Section histories.
Context `{HexCrate, AuthLaws}.

Definition auth_step (op : auth_op) (st : AuthStores) : AuthStores :=
  match op with
  | AChallenge did now => (challenge did now st).1
  | ASession req now => (session req now st).1
  | ABearer header now => (bearer_did header now st).1
  end.

Definition auth_run (ops : list auth_op) (st : AuthStores) : AuthStores :=
  fold_left (fun st op => auth_step op st) ops st.

(** [did] signed the challenge the service issued to it: a challenge request
    for [did], later a session request whose signature verifies for that
    challenge's message and which was granted. *)
Definition signed_in (ops : list auth_op) (st0 : AuthStores) (did token : string) : Prop :=
  exists pre now1 mid req now2 post ch sig resp,
    ops = pre ++ AChallenge did now1 :: mid ++ ASession req now2 :: post /\
    (challenge did now1 (auth_run pre st0)).2
      = Ok {| cr_nonce := sr_nonce req; cr_message := ch_message ch;
              cr_expires_at := ch_expires_at ch |} /\
    sr_did req = did /\
    hex_decode (trim_start_matches "0x" (sr_signature req)) = Ok sig /\
    verify_caip122 did (ch_message ch) sig = Ok true /\
    (session req now2 (auth_run (pre ++ AChallenge did now1 :: mid) st0)).2 = Ok resp /\
    sp_token resp = token.

(** The challenge with [nonce] and [message] was issued to [did]. *)
Definition issued (ops : list auth_op) (st0 : AuthStores) (nonce did message : string) : Prop :=
  exists pre now post expires,
    ops = pre ++ AChallenge did now :: post /\
    (challenge did now (auth_run pre st0)).2
      = Ok {| cr_nonce := nonce; cr_message := message; cr_expires_at := expires |}.

Record auth_inv (ops : list auth_op) (st0 st : AuthStores) : Prop := {
  ai_challenges nonce did message :
    open_challenges (challenges st) !! nonce = Some (did, message) ->
    issued ops st0 nonce did message;
  ai_sessions token did :
    live_sessions (sessions st) !! token = Some did -> signed_in ops st0 did token;
}.

Lemma auth_run_snoc ops op st : auth_run (ops ++ [op]) st = auth_step op (auth_run ops st).
Proof. unfold auth_run. by rewrite fold_left_app. Qed.

Lemma issued_snoc ops op st0 nonce did message :
  issued ops st0 nonce did message -> issued (ops ++ [op]) st0 nonce did message.
Proof.
  intros (pre & now & post & ex & -> & Hc). exists pre, now, (post ++ [op]), ex.
  split; [|done]. by rewrite <- (assoc_L (++)).
Qed.

Lemma signed_in_snoc ops op st0 did token :
  signed_in ops st0 did token -> signed_in (ops ++ [op]) st0 did token.
Proof.
  intros (pre & n1 & mid & req & n2 & post & ch & sg & resp & -> & Hr).
  exists pre, n1, mid, req, n2, (post ++ [op]), ch, sg, resp. split; [|done].
  rewrite <- !(assoc_L (++)), <- !app_comm_cons, <- !(assoc_L (++)). done.
Qed.

Lemma auth_inv_weaken ops op st0 st st' :
  auth_inv ops st0 st ->
  open_challenges (challenges st') ⊆ open_challenges (challenges st) ->
  live_sessions (sessions st') ⊆ live_sessions (sessions st) ->
  auth_inv (ops ++ [op]) st0 st'.
Proof.
  intros [Hc Hs] Hcs Hss. split.
  - intros nonce did message Hl. apply issued_snoc, Hc. by eapply lookup_weaken.
  - intros token did Hl. apply signed_in_snoc, Hs. by eapply lookup_weaken.
Qed.

Lemma auth_inv_challenge ops st0 did now :
  auth_inv ops st0 (auth_run ops st0) ->
  auth_inv (ops ++ [AChallenge did now]) st0 (challenge did now (auth_run ops st0)).1.
Proof.
  intros [Hc Hs]. set (st := auth_run ops st0) in *.
  pose proof (challenges_create_ok did now (challenges st)) as Hk.
  unfold challenge.
  destruct (challenges_create did now (challenges st)) as [cs [ch|e]] eqn:Hcr; cbn in *.
  2: { split; cbn; intros; [eapply issued_snoc, Hc, lookup_weaken|apply signed_in_snoc, Hs]; done. }
  split; cbn.
  - intros nonce did' message Hl. eapply lookup_weaken in Hl; [|exact Hk].
    apply lookup_insert_Some in Hl as [[<- [= <- <-]]|[_ Hl]]; [|by apply issued_snoc, Hc].
    exists ops, now, [], (ch_expires_at ch). split; [done|].
    unfold challenge. fold st. by rewrite Hcr.
  - intros token did' Hl. by apply signed_in_snoc, Hs.
Qed.

Lemma check_signature_ok req ch :
  check_signature req ch = Ok tt ->
  ch_did ch = sr_did req /\
  exists sig, hex_decode (trim_start_matches "0x" (sr_signature req)) = Ok sig /\
    verify_caip122 (sr_did req) (ch_message ch) sig = Ok true.
Proof.
  unfold check_signature. case_decide as Hd; [done|].
  intros (sig & Hsig%map_err_ok & Hr)%result_bind_ok.
  apply result_bind_ok in Hr as ([] & Hv%map_err_ok & Hr); [|done].
  split; [by destruct (decide (ch_did ch = sr_did req))|]. by exists sig.
Qed.

Lemma auth_inv_session ops st0 req now :
  auth_inv ops st0 (auth_run ops st0) ->
  auth_inv (ops ++ [ASession req now]) st0 (session req now (auth_run ops st0)).1.
Proof.
  intros Hi. pose proof Hi as [Hc Hs]. set (st := auth_run ops st0) in *.
  destruct (challenges_validate_ok (sr_nonce req) now (challenges st)) as [Hcs Hch].
  assert (open_challenges (challenges_validate (sr_nonce req) now (challenges st)).1
          ⊆ open_challenges (challenges st)) as Hcs'.
  { etrans; [exact Hcs|]. apply delete_subseteq. }
  destruct (session req now st) as [st' r] eqn:Hse. cbn [fst]. pose proof Hse as Hun.
  unfold session in Hun.
  destruct (challenges_validate (sr_nonce req) now (challenges st)) as [cs [ch|e]] eqn:Hv; cbn in *.
  2: { injection Hun as <- <-. by eapply auth_inv_weaken. }
  destruct (check_signature req ch) as [[]|e] eqn:Hsig.
  2: { injection Hun as <- <-. by eapply auth_inv_weaken. }
  pose proof (sessions_create_ok (sr_did req) now (sessions st)) as Hk.
  destruct (sessions_create (sr_did req) now (sessions st)) as [ss [s|e]] eqn:Hcr; cbn in *;
    injection Hun as <- <-; [|by eapply auth_inv_weaken].
  destruct Hk as [Hd Hss]. split; cbn.
  - intros nonce did message Hl. apply issued_snoc, Hc. by eapply lookup_weaken.
  - intros token did Hl. eapply lookup_weaken in Hl; [|exact Hss].
    apply lookup_insert_Some in Hl as [[<- <-]|[_ Hl]]; [|by apply signed_in_snoc, Hs].
    apply check_signature_ok in Hsig as [Hdid (sig & Hx & Hver)].
    assert (issued ops st0 (sr_nonce req) (sr_did req) (ch_message ch))
      as (pre & n1 & post & ex & Hops & Hiss) by (rewrite <- Hdid; by apply Hc, Hch).
    exists pre, n1, post, req, now, [],
      {| ch_did := ch_did ch; ch_nonce := ch_nonce ch; ch_message := ch_message ch;
         ch_expires_at := ex |}, sig.
    eexists. split; [by rewrite Hops, <- (assoc_L (++))|]. split; [exact Hiss|].
    split; [done|]. split; [exact Hx|]. split; [exact Hver|].
    rewrite <- Hops. fold st. rewrite Hse. by split.
Qed.

Lemma auth_inv_bearer ops st0 header now :
  auth_inv ops st0 (auth_run ops st0) ->
  auth_inv (ops ++ [ABearer header now]) st0 (bearer_did header now (auth_run ops st0)).1.
Proof.
  intros Hi. unfold bearer_did.
  destruct header as [value|]; [|by eapply auth_inv_weaken].
  destruct (strip_prefix "Bearer " value) as [rest|]; [|by eapply auth_inv_weaken].
  case_decide; [by eapply auth_inv_weaken|].
  destruct (sessions_validate_ok (trim_ascii rest) now (sessions (auth_run ops st0))) as [Hs _].
  destruct (sessions_validate _ _ _) as [ss r]. by eapply auth_inv_weaken.
Qed.

Lemma auth_run_inv ops st0 :
  open_challenges (challenges st0) = ∅ -> live_sessions (sessions st0) = ∅ ->
  auth_inv ops st0 (auth_run ops st0).
Proof.
  intros Hc Hs. induction ops as [|op ops IH] using rev_ind.
  - split; cbn; [rewrite Hc|rewrite Hs]; intros *; by rewrite lookup_empty.
  - rewrite auth_run_snoc. destruct op; cbn;
      [by apply auth_inv_challenge|by apply auth_inv_session|by apply auth_inv_bearer].
Qed.

(** The token of an accepted bearer. *)
Lemma bearer_token ops st0 header now did :
  open_challenges (challenges st0) = ∅ -> live_sessions (sessions st0) = ∅ ->
  (bearer_did header now (auth_run ops st0)).2 = Ok did ->
  exists value rest, header = Some value /\ strip_prefix "Bearer " value = Some rest /\
    signed_in ops st0 did (trim_ascii rest).
Proof.
  intros Hc Hs Hb. pose proof (auth_run_inv ops st0 Hc Hs) as Hi. unfold bearer_did in Hb.
  destruct header as [value|]; [|done].
  destruct (strip_prefix "Bearer " value) as [rest|] eqn:Hp; [|done].
  exists value, rest. split; [done|]. split; [done|]. case_decide; [done|].
  destruct (sessions_validate_ok (trim_ascii rest) now (sessions (auth_run ops st0))) as [_ Hok].
  destruct (sessions_validate _ _ _) as [ss r]. cbn in Hb. apply map_err_ok in Hb.
  by apply (ai_sessions _ _ _ Hi), Hok.
Qed.

(** A request is served as [did] only for who signed in as [did]: in any
    history of challenge, session and bearer requests from empty stores, a
    bearer accepted as [did] carries the token of a session that was granted
    earlier to a request whose signature verifies, for [did], over the message
    of a challenge the service had issued to [did]. *)
Theorem bearer_signed_in ops st0 header now did :
  open_challenges (challenges st0) = ∅ -> live_sessions (sessions st0) = ∅ ->
  (bearer_did header now (auth_run ops st0)).2 = Ok did ->
  exists value rest, header = Some value /\ strip_prefix "Bearer " value = Some rest /\
    signed_in ops st0 did (trim_ascii rest).
Proof. apply bearer_token. Qed.
End histories.
