(* ===== verification/Text.v ===== *)
(** * Text of the Standard Library: [trim] and integer parsing *)

From S2P Require Import Prelude.
Open Scope string_scope.
Open Scope list_scope.
Open Scope Z_scope.

(** ** [str::trim] *)

(** The UTF-8 encodings of the characters with the property White_Space. *)
Definition is_white_space (ch : bytes) : bool :=
  match Z_of_byte <$> ch with
  | [b] => ((9 <=? b) && (b <=? 13)) || (b =? 32)
  | [a; b] => (a =? 0xC2) && ((b =? 0x85) || (b =? 0xA0))
  | [a; b; c] =>
      ((a =? 0xE1) && (b =? 0x9A) && (c =? 0x80)) ||
      ((a =? 0xE2) && (b =? 0x80) &&
       (((0x80 <=? c) && (c <=? 0x8A)) || (c =? 0xA8) || (c =? 0xA9) || (c =? 0xAF))) ||
      ((a =? 0xE2) && (b =? 0x81) && (c =? 0x9F)) ||
      ((a =? 0xE3) && (b =? 0x80) && (c =? 0x80))
  | _ => false
  end.

(** Strips white space at the front; every round takes at least a byte. *)
Fixpoint trim_start_fuel (fuel : nat) (l : bytes) : bytes :=
  match fuel with
  | O => l
  | S fuel' =>
      if is_white_space (take 1 l) then trim_start_fuel fuel' (drop 1 l)
      else if is_white_space (take 2 l) then trim_start_fuel fuel' (drop 2 l)
      else if is_white_space (take 3 l) then trim_start_fuel fuel' (drop 3 l)
      else l
  end.
Definition last_n (n : nat) (l : bytes) : bytes := drop (length l - n) l.
Definition but_last_n (n : nat) (l : bytes) : bytes := take (length l - n) l.
Fixpoint trim_end_fuel (fuel : nat) (l : bytes) : bytes :=
  match fuel with
  | O => l
  | S fuel' =>
      if is_white_space (last_n 1 l) then trim_end_fuel fuel' (but_last_n 1 l)
      else if is_white_space (last_n 2 l) then trim_end_fuel fuel' (but_last_n 2 l)
      else if is_white_space (last_n 3 l) then trim_end_fuel fuel' (but_last_n 3 l)
      else l
  end.
Definition trim (s : string) : string :=
  let l := as_bytes s in
  of_bytes (trim_end_fuel (length l) (trim_start_fuel (length l) l)).

Example trim_ex : trim "  a b	" = "a b" /\ trim "  " = "".
Proof. vm_compute. split; reflexivity. Qed.

(** ** [str::parse::<u64>] *)

Fixpoint parse_digits (s : string) (acc : Z) : option Z :=
  match s with
  | EmptyString => Some acc
  | String c s' =>
      let d := Z.of_N (Ascii.N_of_ascii c) - 48 in
      if (0 <=? d) && (d <=? 9) && (acc * 10 + d <=? U64_MAX)
      then parse_digits s' (acc * 10 + d) else None
  end.
(** A leading [+] is accepted; no digits, another character or an overflow is
    an error. *)
Definition parse_u64 (s : string) : option u64 :=
  let digits := strip_prefix_or "+" s in
  if decide (digits = "") then None else parse_digits digits 0.

Example parse_u64_ex :
  parse_u64 "17000" = Some 17000 /\ parse_u64 "+1" = Some 1 /\ parse_u64 "" = None /\
  parse_u64 "+" = None /\ parse_u64 "-1" = None /\ parse_u64 "18446744073709551616" = None.
Proof. vm_compute. repeat split. Qed.

Lemma parse_digits_ok s acc z : u64_ok acc -> parse_digits s acc = Some z -> u64_ok z.
Proof.
  revert acc; induction s as [|c s IH]; intros acc Ha; cbn; [by intros [= <-]|].
  destruct (_ && _)%bool eqn:E; [|done]. apply andb_true_iff in E as [[H1 H2]%andb_true_iff H3].
  apply IH. unfold u64_ok in *. lia.
Qed.

Lemma parse_u64_ok s z : parse_u64 s = Some z -> u64_ok z.
Proof.
  unfold parse_u64. case_decide; [done|]. apply parse_digits_ok. by unfold u64_ok, U64_MAX.
Qed.

(** *** Trimming a line of plain bytes *)

(** An ASCII byte that is no white space. *)
Definition plain (b : byte) : bool := (Z_of_byte b <? 128) && negb (is_white_space [b]).

Lemma white_space_plain b r : plain b = true -> is_white_space (b :: r) = false.
Proof.
  unfold plain. intros [Hb Hw]%andb_true_iff. apply Z.ltb_lt in Hb. apply negb_true_iff in Hw.
  destruct r as [|c [|d [|e r]]]; cbn [is_white_space fmap list_fmap]; [done|..|done].
  - replace (_ =? 0xC2) with false by (symmetry; apply Z.eqb_neq; lia). done.
  - replace (_ =? 0xE1) with false by (symmetry; apply Z.eqb_neq; lia).
    replace (_ =? 0xE2) with false by (symmetry; apply Z.eqb_neq; lia).
    replace (_ =? 0xE3) with false by (symmetry; apply Z.eqb_neq; lia). done.
Qed.

Lemma trim_start_plain fuel b r : plain b = true -> trim_start_fuel fuel (b :: r) = b :: r.
Proof.
  intros Hb. destruct fuel as [|fuel]; [done|]. cbn [trim_start_fuel take].
  by rewrite !(white_space_plain b) by done.
Qed.

Lemma trim_end_plain fuel l : l <> [] -> forallb plain l = true -> trim_end_fuel fuel l = l.
Proof.
  intros Hne Hl. destruct fuel as [|fuel]; [done|]. cbn [trim_end_fuel].
  assert (forall n, (0 < n)%nat -> is_white_space (last_n n l) = false) as Hw.
  { intros n Hn. unfold last_n. destruct (drop (length l - n) l) as [|b r] eqn:Hd; [done|].
    apply white_space_plain. rewrite forallb_forall in Hl. apply Hl, list_elem_of_In.
    apply (list_elem_of_lookup_2 _ (length l - n)). rewrite <- (Nat.add_0_r (length l - n)), <- lookup_drop. by rewrite Hd. }
  by rewrite !Hw by lia.
Qed.

Lemma as_bytes_app a b : as_bytes (a ++ b)%string = as_bytes a ++ as_bytes b.
Proof. induction a as [|c a IH]; [done|]. exact (f_equal (cons _) IH). Qed.

(** A line feed at the end goes. *)
Lemma trim_line s :
  s <> EmptyString -> forallb plain (as_bytes s) = true ->
  trim (s ++ String (Ascii.ascii_of_nat 10) EmptyString)%string = s.
Proof.
  intros Hne Hs. unfold trim. rewrite as_bytes_app. change (as_bytes (String _ EmptyString)) with [Byte.x0a].
  destruct (as_bytes s) as [|b l] eqn:Hl; [by destruct s|]. rewrite length_app. cbn [length app].
  rewrite trim_start_plain by (by apply andb_true_iff in Hs as [? _]).
  replace (S (length l) + 1)%nat with (S (S (length l))) by lia.
  generalize (S (length l)) as fuel. intros fuel. cbn [trim_end_fuel].
  assert (last_n 1 (b :: l ++ [Byte.x0a]) = [Byte.x0a]) as ->.
  { unfold last_n. cbn [length]. rewrite length_app. cbn [length]. replace (S (length l + 1) - 1)%nat with (length (b :: l)) by (cbn; lia).
    by change (b :: l ++ [Byte.x0a]) with ((b :: l) ++ [Byte.x0a]); rewrite drop_app_length. }
  assert (is_white_space [Byte.x0a] = true) as -> by done.
  assert (but_last_n 1 (b :: l ++ [Byte.x0a]) = b :: l) as ->.
  { unfold but_last_n. cbn [length]. rewrite length_app. cbn [length]. replace (S (length l + 1) - 1)%nat with (length (b :: l)) by (cbn; lia).
    by change (b :: l ++ [Byte.x0a]) with ((b :: l) ++ [Byte.x0a]); rewrite take_app_length. }
  rewrite trim_end_plain by done. rewrite <- Hl. apply of_bytes_as_bytes.
Qed.
