(* ===== verification/Config.v ===== *)
(** * Configuration
    ([crates/aqua-timestamp/src/config.rs])

    The config records with their defaults and the start-up checks.  An error
    is a constructor per message, with the settings the message names.  The
    self-check finality setting has an SDK type; [App] takes it beside the
    config. *)

From S2P Require Import Prelude External Sealer Text.
Open Scope string_scope.
Open Scope list_scope.
Open Scope Z_scope.

(** ** The SDK's chains *)

Inductive EvmChain :=
| Mainnet | Sepolia | Holesky
| Custom (chain_id : u64).

Class EvmChains := {
  evm_chain_id : EvmChain -> u64;
  network_claim : EvmChain -> string;
  (** [core::evm_anchor::evm_chain_id_for_network]. *)
  evm_chain_id_for_network : string -> option u64;
}.

(** The chain ids of the networks. *)
Class EvmChainsLaws `{EvmChains} := {
  mainnet_id : evm_chain_id Mainnet = 1;
  sepolia_id : evm_chain_id Sepolia = 11155111;
  holesky_id : evm_chain_id Holesky = 17000;
  custom_id n : evm_chain_id (Custom n) = n;
}.

Record ServerConfig := { listen : string }.

Record IdentityConfig := {
  ic_chain_id : u64;
  ic_trust_domain : string;
  ic_dns : string;
  ic_ip : string;
}.

Record AuthConfig := {
  challenge_ttl_secs : u64;
  session_ttl_secs : u64;
  allowed_dids : list string;
}.

Record StorageConfig := { sc_path : string }.

(** The legacy [[anchor]] block. *)
Record AnchorConfig := { evm_network : option string }.

Record EvmAnchorConfig := {
  evm_enabled : bool;
  evm_rpc_url : string;
  evm_chain_name : string;
  evm_network_label : option string;
  evm_not_found_timeout_secs : u64;
}.

Record QtsaAnchorConfig := {
  qtsa_enabled : bool;
  qtsa_url : string;
  qtsa_min_request_interval_secs : u64;
}.

Record AnchorsConfig := { anchors_evm : EvmAnchorConfig; anchors_qtsa : QtsaAnchorConfig }.

Record BondingCurveConfig := {
  bc_enabled : bool;
  bc_n_half : u64;
  bc_poll_interval_secs : u64;
  bc_min_balance_multiplier : u64;
}.

Record LeaderboardConfig := {
  lb_enabled : bool;
  lb_poll_interval_secs : u64;
  lb_rpc_url : string;
  lb_max_pool_size : usize;
  lb_wallet_address : option string;
}.

Record EpochConfig := { duration_secs : u64; max_leaves_per_request : usize }.

Record Config := {
  cfg_server : ServerConfig;
  cfg_identity : IdentityConfig;
  cfg_auth : AuthConfig;
  cfg_storage : StorageConfig;
  cfg_epoch : EpochConfig;
  cfg_anchor_legacy : AnchorConfig;
  cfg_anchors : AnchorsConfig;
  cfg_bonding_curve : BondingCurveConfig;
  cfg_leaderboard : LeaderboardConfig;
}.

(** ** Defaults *)

Definition default_evm_not_found_timeout_secs : u64 := DEFAULT_EVM_NOT_FOUND_TIMEOUT_SECS.
Definition default_evm_enabled : bool := true.
Definition default_evm_rpc_url : string := "https://ethereum-sepolia-rpc.publicnode.com".
Definition default_evm_chain : string := "sepolia".

Definition EvmAnchorConfig_default : EvmAnchorConfig :=
  {| evm_enabled := default_evm_enabled; evm_rpc_url := default_evm_rpc_url;
     evm_chain_name := default_evm_chain; evm_network_label := None;
     evm_not_found_timeout_secs := default_evm_not_found_timeout_secs |}.

Definition default_qtsa_enabled : bool := true.
Definition default_qtsa_url : string := "http://timestamp.sectigo.com/qualified".
Definition default_qtsa_min_request_interval_secs : u64 := 16.

Definition QtsaAnchorConfig_default : QtsaAnchorConfig :=
  {| qtsa_enabled := default_qtsa_enabled; qtsa_url := default_qtsa_url;
     qtsa_min_request_interval_secs := default_qtsa_min_request_interval_secs |}.

Definition default_bonding_n_half : u64 := 7200.
Definition default_bonding_poll_interval : u64 := 12.
Definition default_bonding_min_balance_multiplier : u64 := 2.

Definition BondingCurveConfig_default : BondingCurveConfig :=
  {| bc_enabled := false; bc_n_half := default_bonding_n_half;
     bc_poll_interval_secs := default_bonding_poll_interval;
     bc_min_balance_multiplier := default_bonding_min_balance_multiplier |}.

Definition default_leaderboard_enabled : bool := true.
Definition default_leaderboard_poll_interval_secs : u64 := 15.
Definition default_leaderboard_rpc_url : string := default_evm_rpc_url.
Definition default_leaderboard_max_pool_size : usize := 500.

Definition LeaderboardConfig_default : LeaderboardConfig :=
  {| lb_enabled := default_leaderboard_enabled;
     lb_poll_interval_secs := default_leaderboard_poll_interval_secs;
     lb_rpc_url := default_leaderboard_rpc_url;
     lb_max_pool_size := default_leaderboard_max_pool_size; lb_wallet_address := None |}.

Definition default_chain_id : u64 := 1.
Definition default_trust_domain : string := "timestamp".
Definition default_dns : string := "openwitness.org".
Definition default_ip : string := "142.93.168.4".
Definition default_challenge_ttl : u64 := 300.
Definition default_session_ttl : u64 := 3600.
Definition default_storage_path : string := "/var/lib/aqua-timestamp/state".
Definition default_epoch_duration : u64 := 600.
Definition default_max_leaves_per_request : usize := 10000.

Definition IdentityConfig_default : IdentityConfig :=
  {| ic_chain_id := default_chain_id; ic_trust_domain := default_trust_domain;
     ic_dns := default_dns; ic_ip := default_ip |}.

Definition AuthConfig_default : AuthConfig :=
  {| challenge_ttl_secs := default_challenge_ttl; session_ttl_secs := default_session_ttl;
     allowed_dids := [] |}.

Definition StorageConfig_default : StorageConfig := {| sc_path := default_storage_path |}.

Definition EpochConfig_default : EpochConfig :=
  {| duration_secs := default_epoch_duration;
     max_leaves_per_request := default_max_leaves_per_request |}.

(** A file with only the required [[server]] table. *)
Definition Config_default (server : ServerConfig) : Config :=
  {| cfg_server := server; cfg_identity := IdentityConfig_default; cfg_auth := AuthConfig_default;
     cfg_storage := StorageConfig_default; cfg_epoch := EpochConfig_default;
     cfg_anchor_legacy := {| evm_network := None |};
     cfg_anchors := {| anchors_evm := EvmAnchorConfig_default;
                       anchors_qtsa := QtsaAnchorConfig_default |};
     cfg_bonding_curve := BondingCurveConfig_default;
     cfg_leaderboard := LeaderboardConfig_default |}.

Definition throttle (q : QtsaAnchorConfig) : option u64 :=
  if qtsa_min_request_interval_secs q =? 0 then None
  else Some (qtsa_min_request_interval_secs q).

Definition watched_address (lb : LeaderboardConfig) (service_address : string) : string :=
  default service_address (lb_wallet_address lb).

(** ** The checks *)

Inductive ConfigError :=
| UnknownChain (chain : string)
| InvalidChainId (chain : string)
| NotFoundTimeoutZero
| ClaimNotReadBack (chain claim : string) (id : u64)
| LabelMismatch (setting label : string) (id : u64)
| EmptyMnemonic
| EmptyRpcUrl
| EmptyTsaUrl.

Definition CUSTOM : string := "custom:".

Definition evm_chain (chain : string) : result ConfigError EvmChain :=
  if decide (chain = "mainnet") then Ok Mainnet
  else if decide (chain = "sepolia") then Ok Sepolia
  else if decide (chain = "holesky") then Ok Holesky
  else if starts_with CUSTOM chain then
    match parse_u64 (get_from (String.length CUSTOM) chain) with
    | Some id => Ok (Custom id)
    | None => Err (InvalidChainId chain)
    end
  else Err (UnknownChain chain).

Definition leaderboard_chain_id (cfg : Config) : u64 :=
  let chain := evm_chain_name (anchors_evm (cfg_anchors cfg)) in
  if decide (chain = "mainnet") then 1
  else if decide (chain = "sepolia") then 11155111
  else if decide (chain = "holesky") then 17000
  else if starts_with CUSTOM chain then
    default 11155111 (parse_u64 (get_from (String.length CUSTOM) chain))
  else 11155111.

Definition check_enabled_anchors (cfg : Config) (mnemonic : string) : result ConfigError unit :=
  let evm := anchors_evm (cfg_anchors cfg) in
  let qtsa := anchors_qtsa (cfg_anchors cfg) in
  let? _ :=
    if evm_enabled evm then
      if decide (trim mnemonic = "") then Err EmptyMnemonic
      else if decide (trim (evm_rpc_url evm) = "") then Err EmptyRpcUrl
      else let? _ := evm_chain (evm_chain_name evm) in Ok tt
    else Ok tt in
  if qtsa_enabled qtsa && bool_decide (trim (qtsa_url qtsa) = "") then Err EmptyTsaUrl else Ok tt.

Section chains.
Context `{EvmChains}.

Fixpoint check_labels (chain : EvmChain) (labels : list (string * option string))
    : result ConfigError unit :=
  match labels with
  | [] => Ok tt
  | (_, None) :: labels' => check_labels chain labels'
  | (setting, Some label) :: labels' =>
      if decide (evm_chain_id_for_network label <> Some (evm_chain_id chain))
      then Err (LabelMismatch setting label (evm_chain_id chain))
      else check_labels chain labels'
  end.

Definition check_evm_chain_source (cfg : Config) : result ConfigError unit :=
  let evm := anchors_evm (cfg_anchors cfg) in
  if negb (evm_enabled evm) then Ok tt
  else
    let? chain := evm_chain (evm_chain_name evm) in
    if evm_not_found_timeout_secs evm =? 0 then Err NotFoundTimeoutZero
    else
      let claim := network_claim chain in
      if decide (evm_chain_id_for_network claim <> Some (evm_chain_id chain))
      then Err (ClaimNotReadBack (evm_chain_name evm) claim (evm_chain_id chain))
      else
        check_labels chain
          [("anchors.evm.network_label", evm_network_label evm);
           ("anchor.evm_network", evm_network (cfg_anchor_legacy cfg))].

(** ** What an accepted configuration means *)

Lemma check_labels_ok chain labels :
  check_labels chain labels = Ok tt <->
  forall setting label, (setting, Some label) ∈ labels ->
    evm_chain_id_for_network label = Some (evm_chain_id chain).
Proof.
  induction labels as [|[setting [label|]] labels IH]; cbn.
  - split; [intros _ ? ? ?%elem_of_nil|]; done.
  - case_decide as Hd.
    + split; [done|]. intros Hl. destruct Hd. apply (Hl setting). by left.
    + rewrite IH. split.
      * intros Hl s l [[= -> ->]|Hin]%elem_of_cons; [|by eapply Hl].
        by destruct (decide (evm_chain_id_for_network label = Some (evm_chain_id chain))).
      * intros Hl s l Hin. apply (Hl s). by right.
  - rewrite IH. split; intros Hl s l Hin.
    + apply elem_of_cons in Hin as [?|Hin]; [done|by eapply Hl].
    + apply (Hl s). by right.
Qed.

Lemma leaderboard_chain_id_chain `{!EvmChainsLaws} cfg chain :
  evm_chain (evm_chain_name (anchors_evm (cfg_anchors cfg))) = Ok chain ->
  leaderboard_chain_id cfg = evm_chain_id chain.
Proof.
  unfold evm_chain, leaderboard_chain_id. cbv zeta.
  repeat (case_decide; [intros [= <-]; by rewrite ?mainnet_id, ?sepolia_id, ?holesky_id|]).
  destruct (starts_with _ _); [|done]. destruct (parse_u64 _); [|done].
  intros [= <-]. by rewrite custom_id.
Qed.

(** The EVM chain has one source. A configuration with EVM anchoring that
    passes [check_evm_chain_source] names a valid chain; the SDK reads the
    network claim of that chain, and each deprecated label that is set, back
    as that chain's id; the not-found timeout is not zero; and the leaderboard
    follows the same chain. Conversely such a configuration passes. *)
Theorem accepted_chain_is_one `{!EvmChainsLaws} cfg :
  evm_enabled (anchors_evm (cfg_anchors cfg)) = true ->
  check_evm_chain_source cfg = Ok tt <->
  exists chain,
    evm_chain (evm_chain_name (anchors_evm (cfg_anchors cfg))) = Ok chain /\
    evm_not_found_timeout_secs (anchors_evm (cfg_anchors cfg)) <> 0 /\
    evm_chain_id_for_network (network_claim chain) = Some (evm_chain_id chain) /\
    (forall label, evm_network_label (anchors_evm (cfg_anchors cfg)) = Some label \/
       evm_network (cfg_anchor_legacy cfg) = Some label ->
       evm_chain_id_for_network label = Some (evm_chain_id chain)) /\
    leaderboard_chain_id cfg = evm_chain_id chain.
Proof.
  intros He. unfold check_evm_chain_source. cbv zeta. rewrite He. cbn [negb].
  rewrite result_bind_ok. split.
  - intros (chain & Hch & Hr). exists chain. split; [done|].
    destruct (_ =? 0) eqn:Ht; [done|]. apply Z.eqb_neq in Ht. split; [done|].
    case_decide as Hc; [done|]. rewrite check_labels_ok in Hr.
    split; [by destruct (decide (evm_chain_id_for_network (network_claim chain)
                                 = Some (evm_chain_id chain)))|].
    split; [|by apply leaderboard_chain_id_chain].
    intros label [Hl|Hl]; eapply Hr; rewrite Hl; [by left|right; by left].
  - intros (chain & Hch & Ht & Hc & Hl & _). exists chain. split; [done|].
    rewrite (proj2 (Z.eqb_neq _ _) Ht), decide_False by (by intros []).
    apply check_labels_ok. intros s label Hin. apply Hl.
    apply elem_of_cons in Hin as [Hin|[Hin|[]%elem_of_nil]%elem_of_cons];
      injection Hin as _ Hin; auto.
Qed.
End chains.
