(* ===== verification/BondingCurve.v ===== *)
(** * The bonding curve
    ([crates/aqua-timestamp-core/src/bonding_curve.rs])

    [f64] is IEEE binary64, computed by the Standard Library's [SpecFloat]
    (round to nearest even); [exp] and [ln] are the platform's and parameters.
    The oracle is a reading per call. *)

From Stdlib Require Import Floats.SpecFloat.
From S2P Require Import Prelude.
Open Scope string_scope.
Open Scope list_scope.
Open Scope Z_scope.

(** ** [f64] *)

Abbreviation f64 := spec_float.
Definition prec : Z := 53.
Definition emax : Z := 1024.

Definition f64_div : f64 -> f64 -> f64 := SFdiv prec emax.
Definition f64_mul : f64 -> f64 -> f64 := SFmul prec emax.
Definition f64_sub : f64 -> f64 -> f64 := SFsub prec emax.
(** [n as f64] of an unsigned integer. *)
Definition as_f64 (n : Z) : f64 := binary_normalize prec emax n 0 false.
Definition f64_zero : f64 := S754_zero false.
Definition f64_one : f64 := as_f64 1.
Definition f64_infinity : f64 := S754_infinity false.

(** The value [m * 2 ^ e], rounded up to an integer. *)
Definition ceil_shift (m e : Z) : Z :=
  if 0 <=? e then m * 2 ^ e else - ((- m) / 2 ^ (- e)).
(** [x.ceil()]: exact, an integer of the float's magnitude is a float. *)
Definition f64_ceil (x : f64) : f64 :=
  match x with
  | S754_finite s m e =>
      binary_normalize prec emax (ceil_shift (if s then Zneg m else Zpos m) e) 0 s
  | _ => x
  end.
(** The value [m * 2 ^ e], rounded towards zero, for [m >= 0]. *)
Definition trunc_shift (m e : Z) : Z := if 0 <=? e then m * 2 ^ e else m / 2 ^ (- e).
(** [x as u64] (and [x as u128], with its own maximum): saturating, 0 for NaN. *)
Definition as_uint (max : Z) (x : f64) : Z :=
  match x with
  | S754_finite false m e => Z.min max (trunc_shift (Zpos m) e)
  | S754_infinity false => max
  | _ => 0
  end.

Class Libm := { f64_exp : f64 -> f64; f64_ln : f64 -> f64 }.

Inductive OracleError := Rpc (text : string) | ZeroBalance.

(** What [balance_and_gas_cost] answers. *)
Definition oracle_answer : Type := result OracleError (u128 * u128).

Definition MockOracle (balance_wei gas_cost_wei : u128) : oracle_answer :=
  Ok (balance_wei, gas_cost_wei).
Definition FailingOracle (message : string) : oracle_answer := Err (Rpc message).

(** [AlloyOracle]: the node's balance (a [U256]) and gas price, or the text of
    the call that failed. *)
Definition TIMESTAMP_GAS_UNITS : u128 := 50000.
Definition AlloyOracle (url : result string unit) (balance : result string Z)
    (gas_price : result string u128) : oracle_answer :=
  let? _ := map_err Rpc url in
  let? b := map_err (fun e => Rpc ("get_balance failed: " +:+ e)) balance in
  let? g := map_err (fun e => Rpc ("get_gas_price failed: " +:+ e)) gas_price in
  let balance_u128 := if b <=? U128_MAX then b else U128_MAX in
  let gas_cost := TIMESTAMP_GAS_UNITS * g mod 2 ^ 128 in
  if balance_u128 =? 0 then Err ZeroBalance else Ok (balance_u128, gas_cost).

Section curve.
Context `{Libm}.

Definition publication_rate (balance_wei gas_cost_wei : u128) (n_half : u64) : f64 :=
  if (gas_cost_wei =? 0) || (n_half =? 0) || (balance_wei =? 0) then f64_zero
  else
    let n := f64_div (as_f64 balance_wei) (as_f64 gas_cost_wei) in
    f64_sub f64_one (f64_exp (f64_div (SFopp n) (as_f64 n_half))).

Definition block_interval (rate : f64) : u64 :=
  if SFleb rate f64_zero then U64_MAX
  else if SFleb f64_one rate then 1
  else Z.max (as_uint U64_MAX (f64_ceil (f64_div f64_one rate))) 1.

Definition runway_blocks (balance_wei gas_cost_wei : u128) (n_half : u64) : f64 :=
  let rate := publication_rate balance_wei gas_cost_wei n_half in
  if SFleb rate f64_zero || (gas_cost_wei =? 0) then f64_infinity
  else f64_div (as_f64 balance_wei) (f64_mul rate (as_f64 gas_cost_wei)).

(** [None]: the assertion on [target_rate] panics. *)
Definition required_balance (target_rate : f64) (gas_cost_wei : u128) (n_half : u64)
    : option u128 :=
  if SFltb f64_zero target_rate && SFltb target_rate f64_one then
    let b := f64_mul (f64_mul (SFopp (as_f64 gas_cost_wei)) (as_f64 n_half))
               (f64_ln (f64_sub f64_one target_rate)) in
    Some (as_uint U128_MAX b)
  else None.

Lemma as_uint_bounds max x : 0 <= max -> 0 <= as_uint max x <= max.
Proof.
  intros Hm. destruct x as [s|[]| |[] m e]; cbn [as_uint]; try lia.
  assert (0 <= trunc_shift (Zpos m) e); [|lia]. unfold trunc_shift. destruct (0 <=? e) eqn:He.
  - pose proof (Z.pow_nonneg 2 e ltac:(lia)). nia.
  - apply Z.leb_gt in He. apply Z.div_pos; [lia|]. apply Z.pow_pos_nonneg; lia.
Qed.

Lemma block_interval_bounds rate : 1 <= block_interval rate <= U64_MAX.
Proof.
  unfold block_interval. destruct (SFleb rate f64_zero); [done|].
  destruct (SFleb f64_one rate); [done|].
  pose proof (as_uint_bounds U64_MAX (f64_ceil (f64_div f64_one rate)) ltac:(done)).
  unfold U64_MAX in *. lia.
Qed.

(** Without balance, gas price or [n_half] nothing is ever published. *)
Lemma no_funds_never_publish balance gas n_half :
  gas = 0 \/ n_half = 0 \/ balance = 0 ->
  block_interval (publication_rate balance gas n_half) = U64_MAX.
Proof. intros [-> | [-> | ->]]; unfold publication_rate; rewrite ?orb_true_r; reflexivity. Qed.
End curve.

(** The unit tests' rates: one publication in 10 blocks at a rate of 0.1, in 2
    at 0.5. *)
Example block_interval_ex :
  block_interval (f64_div f64_one (as_f64 10)) = 10 /\
  block_interval (f64_div f64_one (as_f64 2)) = 2 /\
  block_interval f64_one = 1 /\ block_interval f64_zero = U64_MAX /\
  block_interval (f64_div f64_one (as_f64 100)) = 100.
Proof. vm_compute. repeat split; reflexivity. Qed.
