(* ===== verification/Vouched.v ===== *)
(** * What the store holds is what the self-check passed

    An invariant of the store over the service's life: every pair of a tip,
    every tip of a leaf and every revision is one of a witness that the SDK's
    finish made and the self-check passed under the service's DID.  Where no two
    such revisions share a link, the pair stored under a served tip is exactly
    that witness. *)

From S2P Require Import Prelude External Merkle Accumulator Witness Selfcheck Epoch Utf8 Kv Storage StoreSpec SealStore SealInv Anchors Sealer SealerProofs SealerTheorems.

Section vouched.
Context `{HexLaws, SdkLaws, SerdeCrates, !StoreCodecs}.

(** Minted, and passed by the self-check of the service [did] with some hosts. *)
Definition of_service (did : string) (w : MintedWitness) : Prop :=
  minted_object w /\ exists hosts, verify_minted_witness w did hosts = Verified.

Record vouched (did : string) (A : AStore) : Prop := {
  vo_pair t idx : look A tip_to_pair t = Some idx ->
    exists w, of_service did w /\ t = w_signature_hash w /\ idx = tip_pair_of w;
  vo_leaf l m t : look A leaf_to_tips (l, m) = Some t ->
    exists w, of_service did w /\ l = w_leaf w /\ m = w_method w /\ t = w_signature_hash w;
  vo_revision h r : look A witness_revisions h = Some r -> revision_of (of_service did) h r;
}.

Lemma vouched_tips did A A' : tips_from (of_service did) A A' -> vouched did A -> vouched did A'.
Proof.
  intros Ht Hv. split.
  - intros t idx Hl. destruct (tf_pair _ _ _ Ht _ _ Hl); [by apply Hv|done].
  - intros l m t Hl. destruct (tf_leaf _ _ _ Ht _ _ _ Hl); [by apply Hv|done].
  - intros h r Hl. destruct (tf_revision _ _ _ Ht _ _ Hl); [by apply Hv|done].
Qed.

(** No two revisions of the service's witnesses share a link. *)
Definition no_collision (did : string) : Prop :=
  forall h r r', revision_of (of_service did) h r -> revision_of (of_service did) h r' -> r = r'.

(** The store holds the witness: its two revisions, and its hashes under its
    tip. *)
Definition in_store (A : AStore) (w : MintedWitness) : Prop :=
  look A witness_revisions (w_object_hash w) = Some (w_object_revision w) /\
  look A witness_revisions (w_signature_hash w) = Some (w_signature_revision w) /\
  exists idx, look A tip_to_pair (w_signature_hash w) = Some idx /\
    ti_object_hash idx = w_object_hash w /\ ti_signature_hash idx = w_signature_hash w.

(** The signature a passed witness carries names the object's hash. *)
Lemma verified_signature w did hosts :
  verify_minted_witness w did hosts = Verified ->
  exists sig, as_signature (w_signature_revision w) = Some sig /\
    signature_previous_revision sig = link_from_bytes (w_object_hash w).
Proof.
  intros (p & _ & _ & Hs)%verify_minted_witness_verified. unfold service_signature in Hs.
  destruct (as_signature (w_signature_revision w)) as [sig|]; [|done]. exists sig. split; [done|].
  destruct (classify_signature_leaf _ _) as [v|]; [|done]. case_decide; [|done].
  by case_decide as Hp.
Qed.

(** The tip of a leaf is held as a witness of that leaf and method. *)
Lemma vouched_held did A next l m t :
  store_inv A next -> vouched did A -> no_collision did -> look A leaf_to_tips (l, m) = Some t ->
  exists w, of_service did w /\ w_leaf w = l /\ w_method w = m /\ w_signature_hash w = t /\ in_store A w.
Proof.
  intros Hi Hv Hnc Hl. destruct (vo_leaf _ _ Hv l m t Hl) as (w & Hw & -> & -> & ->).
  exists w. do 4 (split; [done|]).
  assert (forall h r, look A witness_revisions h = Some r ->
    forall r', revision_of (of_service did) h r' -> r = r') as Hrev.
  { intros h r Hr r' Hr'. eapply Hnc; [by eapply (vo_revision _ _ Hv)|done]. }
  destruct (si_tips _ _ Hi _ _ Hl) as [idx Hidx].
  destruct (si_pairs _ _ Hi _ _ Hidx) as (Hsig & [o Ho] & [s Hs]).
  assert (s = w_signature_revision w) as -> by (apply (Hrev _ _ Hs); exists w; auto).
  destruct (vo_pair _ _ Hv _ _ Hidx) as (w' & Hw' & Ht' & ->). cbn [tip_pair_of ti_object_hash] in Ho.
  assert (w_object_hash w' = w_object_hash w) as Hoh.
  { destruct Hw as [Hmw [hosts Hvw]], Hw' as [Hmw' [hosts' Hvw']].
    assert (w_signature_revision w' = w_signature_revision w) as Hse.
    { apply (Hnc (w_signature_hash w)); [exists w'|exists w]; unfold of_service; eauto 6. }
    destruct (verified_signature _ _ _ Hvw) as (sig & Hsg & Hp).
    destruct (verified_signature _ _ _ Hvw') as (sig' & Hsg' & Hp').
    apply (inj link_from_bytes). rewrite Hse in Hsg'. congruence. }
  rewrite Hoh in Ho. split_and!; [|done|by eexists].
  rewrite Ho. f_equal. apply (Hrev _ _ Ho). exists w. auto.
Qed.
End vouched.

(** ** The service *)

Section service.
Context `{HexLaws, SdkLaws, !AnchorWorld, SerdeCrates, !StoreCodecs, !SealStore, !SealStoreLaws,
          Sha3Crate, !ClaimLaws}.

(** Every seal runs under the service's DID. *)
Definition seals_as (did : string) (op : svc_op) : Prop :=
  match op with
  | SvcSeal _ _ (Some c) => c_service_did c = did
  | _ => True
  end.

Lemma seals_serve did op : seals_as did op -> op_serves (of_service did) op.
Proof.
  destruct op as [|closed dur [c|]|]; cbn; try done.
  - intros <- w (c' & [= <-] & (wd & _ & Hv) & Hm). split; [done|]. by eexists.
  - intros _ w (c' & ? & _). done.
Qed.

Lemma service_vouched_run did ops A s :
  seal_ready A s -> vouched did A -> Forall svc_op_ok ops -> Forall (seals_as did) ops ->
  acc_epoch_id (s_acc s) + Z.of_nat (length ops) < U64_MAX ->
  exists A', seal_ready A' (fold_left svc_step ops s) /\ nothing_lost A A' /\ vouched did A'.
Proof.
  intros Hr Hv Ho Hd Hid.
  destruct (svc_run_serves (of_service did) ops A s Hr Ho) as (A' & Hr' & Hn & Ht); [|done|].
  - eapply Forall_impl; [exact Hd|]. apply seals_serve.
  - exists A'. split; [done|]. split; [done|]. by eapply vouched_tips.
Qed.

(** C3. What the service stores, it stands for. From a store in which every
    pair, tip and revision is one of a witness that the SDK's finish made and
    the self-check passed under the service's DID (an empty store is one), any
    run of submissions, seals (failing in any way) and changes of the world
    ends in such a store; and unless two such revisions share a link, every
    tip a leaf has is held there as a witness of that leaf and method: the
    revisions the routes read are the ones the self-check passed. *)
Theorem service_vouched did ops A s :
  seal_ready A s -> vouched did A -> Forall svc_op_ok ops -> Forall (seals_as did) ops ->
  acc_epoch_id (s_acc s) + Z.of_nat (length ops) < U64_MAX ->
  exists A', seal_ready A' (fold_left svc_step ops s) /\ vouched did A' /\
    (no_collision did -> forall l m t, look A' leaf_to_tips (l, m) = Some t ->
       exists w, of_service did w /\ w_leaf w = l /\ w_method w = m /\ w_signature_hash w = t /\
         in_store A' w).
Proof.
  intros Hr Hv Ho Hd Hid.
  destruct (service_vouched_run did ops A s Hr Hv Ho Hd Hid) as (A' & Hr' & _ & Hv').
  exists A'. split; [done|]. split; [done|]. intros Hnc l m t. eapply vouched_held; [|done..].
  apply (sr_inv _ _ Hr').
Qed.
End service.
