(* ===== verification/SealLoops.v ===== *)
(** * The seal loops
    ([run_sealer_with_interval], [run_sealer_with_bonding_curve] and
    [run_sealer_with_channel] of [crates/aqua-timestamp-core/src/sealer.rs])

    One iteration of each loop is a function of what it reads (the clock, the
    oracle, the received tick); a run is a list of such readings.  The waiting
    is the runtime's. *)

From S2P Require Import Prelude External Merkle Accumulator Witness Selfcheck Epoch Utf8 Kv Storage StoreSpec SealStore SealInv Anchors Sealer SealerProofs SealerTheorems BondingCurve.
Open Scope string_scope.
Open Scope list_scope.
Open Scope Z_scope.

Record BondingCurveParams := {
  n_half : u64;
  poll_interval_secs : u64;
  min_balance_multiplier : u64;
}.

Section loops.
Context `{HexCrate, Sdk, !AnchorWorld, SerdeCrates, !StoreCodecs, !SealStore, Sha3Crate}.

(** What the loops do with a due seal: [bus] tells whether there is an event
    bus. *)
Definition seal_cycle (now duration_secs : u64) (ctx : option WitnessContext) (bus : bool)
    (s : SealState) : SealState * list SseEvent :=
  let '(s', r) := seal_once now duration_secs ctx s in
  (s',
   match r with
   | Ok (record, _) =>
       if bus then [EpochSealed (er_id record) (er_leaf_count record) (merkle_root_hex record) now]
       else []
   | Err _ => []
   end).

(** A timer tick at [now]; the tick at start-up is skipped. *)
Definition interval_tick (duration_secs : u64) (ctx : option WitnessContext) (bus : bool)
    (now : u64) (s : SealState) : SealState * list SseEvent :=
  seal_cycle now duration_secs ctx bus s.

(** A received [SealTick]. *)
Definition channel_tick (duration_secs : u64) (ctx : option WitnessContext) (bus : bool)
    (tick_now : u64) (s : SealState) : SealState * list SseEvent :=
  seal_cycle tick_now duration_secs ctx bus s.

Record BondingState := {
  last_seal_block : u64;
  virtual_block : u64;
  b_seal : SealState;
}.

Definition bonding_start (s : SealState) : BondingState :=
  {| last_seal_block := 0; virtual_block := 0; b_seal := s |}.

(** A seal the loop performed: its block and the interval it waited for. *)
Record bonding_seal := { bs_block : u64; bs_interval : u64; bs_answer : u128 * u128 }.

Context `{Libm}.

(** Whether the answer lets the loop go on to the curve. *)
Definition funded (params : BondingCurveParams) (answer : oracle_answer) : option (u128 * u128) :=
  match answer with
  | Err _ => None
  | Ok (balance, gas_cost) =>
      if gas_cost =? 0 then None
      else if balance <? gas_cost * min_balance_multiplier params mod 2 ^ 128 then None
      else Some (balance, gas_cost)
  end.

(** One iteration: the oracle's answer and the clock's reading.  The log entry
    is read by theorems only. *)
Definition bonding_tick (params : BondingCurveParams) (ctx : option WitnessContext) (bus : bool)
    (answer : oracle_answer) (now : u64) (st : BondingState)
    : BondingState * list SseEvent * option bonding_seal :=
  let block := wrapping_add 64 (virtual_block st) 1 in
  let st := {| last_seal_block := last_seal_block st; virtual_block := block;
               b_seal := b_seal st |} in
  match funded params answer with
  | None => (st, [], None)
  | Some (balance, gas_cost) =>
      let rate := publication_rate balance gas_cost (n_half params) in
      let interval := block_interval rate in
      if decide ((block - last_seal_block st) mod 2 ^ 64 >= interval) then
        let '(s', evs) := seal_cycle now (poll_interval_secs params) ctx bus (b_seal st) in
        ({| last_seal_block := block; virtual_block := block; b_seal := s' |}, evs,
         Some {| bs_block := block; bs_interval := interval; bs_answer := (balance, gas_cost) |})
      else (st, [], None)
  end.

Fixpoint bonding_run (params : BondingCurveParams) (ctx : option WitnessContext) (bus : bool)
    (readings : list (oracle_answer * u64)) (st : BondingState)
    : BondingState * list SseEvent * list bonding_seal :=
  match readings with
  | [] => (st, [], [])
  | (answer, now) :: readings' =>
      let '(st, evs, o) := bonding_tick params ctx bus answer now st in
      let '(st, evs', log) := bonding_run params ctx bus readings' st in
      (st, evs ++ evs', match o with Some b => b :: log | None => log end)
  end.

(** ** Spacing *)

(** Each seal comes at least its interval after the previous one (or the
    start, block [last]), paid for by a funded answer. *)
Fixpoint spaced (params : BondingCurveParams) (last : Z) (log : list bonding_seal) : Prop :=
  match log with
  | [] => True
  | b :: log' =>
      last + bs_interval b <= bs_block b /\
      bs_interval b = block_interval
        (publication_rate (bs_answer b).1 (bs_answer b).2 (n_half params)) /\
      0 < (bs_answer b).2 /\
      (bs_answer b).2 * min_balance_multiplier params mod 2 ^ 128 <= (bs_answer b).1 /\
      spaced params (bs_block b) log'
  end.

Lemma funded_ok params balance gas_cost answer :
  (forall b g, answer = Ok (b, g) -> 0 <= g) ->
  funded params answer = Some (balance, gas_cost) ->
  answer = Ok (balance, gas_cost) /\ 0 < gas_cost /\
  gas_cost * min_balance_multiplier params mod 2 ^ 128 <= balance.
Proof.
  intros Hg. unfold funded. destruct answer as [[b g]|e]; [|done]. specialize (Hg _ _ eq_refl).
  destruct (g =? 0) eqn:Hz; [done|]. destruct (b <? _) eqn:Hb; [done|]. intros [= <- <-].
  apply Z.eqb_neq in Hz. apply Z.ltb_ge in Hb. split; [done|]. lia.
Qed.

Definition answer_ok (r : oracle_answer * u64) : Prop := forall b g, r.1 = Ok (b, g) -> 0 <= g.

Lemma bonding_run_spaced params ctx bus readings st :
  Forall answer_ok readings ->
  0 <= last_seal_block st <= virtual_block st ->
  virtual_block st + Z.of_nat (length readings) < 2 ^ 64 ->
  spaced params (last_seal_block st) (bonding_run params ctx bus readings st).2.
Proof.
  revert st; induction readings as [|[answer now] readings IH]; intros st Hok Hl Hv;
    cbn [bonding_run]; [done|]. inversion Hok as [|? ? Ha Hok']; subst. cbn [length] in Hv.
  assert (wrapping_add 64 (virtual_block st) 1 = virtual_block st + 1) as Hb
    by (unfold wrapping_add; apply Z.mod_small; lia).
  unfold bonding_tick. rewrite Hb. cbn [last_seal_block].
  destruct (funded params answer) as [[balance gas]|] eqn:Hf.
  - apply funded_ok in Hf as (-> & Hg & Hm); [|by intros b g; apply (Ha b g)].
    rewrite (Z.mod_small (_ - _)) by lia. case_decide as Hd.
    + destruct (seal_cycle _ _ _ _ _) as [s' evs]. 
      set (st' := {| last_seal_block := _ |}).
      specialize (IH st' Hok'). cbn [last_seal_block virtual_block st'] in IH.
      destruct (bonding_run params ctx bus readings st') as [[st2 evs2] log]. cbn [snd spaced].
      cbn [bs_block bs_interval bs_answer fst snd]. split_and!; try done; [lia|]. apply IH; lia.
    + set (st' := {| last_seal_block := _ |}).
      specialize (IH st' Hok'). cbn [last_seal_block virtual_block st'] in IH.
      destruct (bonding_run params ctx bus readings st') as [[st2 evs2] log]. apply IH; lia.
  - set (st' := {| last_seal_block := _ |}).
    specialize (IH st' Hok'). cbn [last_seal_block virtual_block st'] in IH.
    destruct (bonding_run params ctx bus readings st') as [[st2 evs2] log]. apply IH; lia.
Qed.

(** C37. The bonding-curve loop never publishes early. In a run of fewer than
    [2^64] ticks from the start, each seal comes at least the block interval of
    its own oracle answer after the seal before (or the start), and only on an
    answer with a gas cost above zero and a balance of at least the safety
    margin (as the release build multiplies it, modulo [2^128]). *)
Theorem bonding_seals_spaced params ctx bus readings s :
  Forall answer_ok readings -> Z.of_nat (length readings) < 2 ^ 64 ->
  spaced params 0 (bonding_run params ctx bus readings (bonding_start s)).2.
Proof.
  intros Hok Hn. by apply (bonding_run_spaced params ctx bus readings (bonding_start s)).
Qed.
End loops.

Section announced.
Context `{HexLaws, SdkLaws, !AnchorWorld, SerdeCrates, !StoreCodecs, !SealStore, !SealStoreLaws, Sha3Crate, !ClaimLaws}.

(** The service with its loop: submissions, due seals (of any of the loops)
    and changes of the world. *)
Inductive live_op :=
| LiveSubmit (batch : list Hash32) (did : string)
| LiveSeal (now duration_secs : u64) (ctx : option WitnessContext)
| LiveWorld (w : World).

Definition live_step (op : live_op) (s : SealState) : SealState * list SseEvent :=
  match op with
  | LiveSubmit batch did => (svc_step s (SvcSubmit batch did), [])
  | LiveSeal now dur ctx => seal_cycle now dur ctx true s
  | LiveWorld w => (svc_step s (SvcWorld w), [])
  end.

Fixpoint live_run (ops : list live_op) (s : SealState) : SealState * list SseEvent :=
  match ops with
  | [] => (s, [])
  | op :: ops' =>
      let '(s, evs) := live_step op s in
      let '(s, evs') := live_run ops' s in (s, evs ++ evs')
  end.

Definition svc_of (op : live_op) : svc_op :=
  match op with
  | LiveSubmit batch did => SvcSubmit batch did
  | LiveSeal now dur ctx => SvcSeal now dur ctx
  | LiveWorld w => SvcWorld w
  end.

Lemma live_step_state op s : (live_step op s).1 = svc_step s (svc_of op).
Proof. destruct op; cbn; try done. unfold seal_cycle. by destruct (seal_once _ _ _ _). Qed.

(** The announcement is of an epoch the store holds. *)
Definition announces (A : AStore) (ev : SseEvent) : Prop :=
  exists id count root now record,
    ev = EpochSealed id count root now /\ look A epochs id = Some record /\
    er_leaf_count record = count /\ merkle_root_hex record = root.

Lemma announces_kept A A' ev : nothing_lost A A' -> announces A ev -> announces A' ev.
Proof.
  intros Hn (id & count & root & now & record & -> & Hl & ? & ?).
  exists id, count, root, now, record. split; [done|]. split; [by apply Hn|done].
Qed.

Definition event_epoch (ev : SseEvent) : option Z :=
  match ev with EpochSealed id _ _ _ => Some id | _ => None end.

Lemma live_step_announces V A s op :
  seal_ready A s -> svc_op_ok (svc_of op) -> op_serves V (svc_of op) -> acc_epoch_id (s_acc s) + 1 < U64_MAX ->
  exists A', seal_ready A' (live_step op s).1 /\ nothing_lost A A' /\ tips_from V A A' /\
    Forall (announces A') (live_step op s).2 /\
    acc_epoch_id (s_acc (live_step op s).1) <= acc_epoch_id (s_acc s) + 1 /\
    ((live_step op s).2 = [] /\ acc_epoch_id (s_acc s) <= acc_epoch_id (s_acc (live_step op s).1) \/
     event_epoch <$> (live_step op s).2 = [Some (acc_epoch_id (s_acc s))] /\
     acc_epoch_id (s_acc (live_step op s).1) = acc_epoch_id (s_acc s) + 1).
Proof.
  intros Hr Hop HV Hid. destruct op as [batch did|now dur ctx|w].
  - destruct (svc_step_ready V A s (SvcSubmit batch did) Hr Hop HV Hid)
      as (A' & Hr' & Hn & Ht & Hi).
    exists A'. do 3 (split; [done|]). split; [constructor|]. split; [done|]. left.
    split; [done|]. cbn.
    destruct (append_batch_cases batch did (s_acc s)) as [[_ ->]|(_ & inner' & -> & _ & _ & He & _)];
      [apply Hr|apply Hop|cbn; lia|cbn; rewrite He; lia].
  - destruct (seal_once_outcome now dur ctx A s Hr) as (A1 & Ha & Hn & Ht & Hi & Ho).
    apply (tips_from_weaken _ V _ _ HV) in Ht.
    destruct (svc_step_ready V A s (SvcSeal now dur ctx) Hr I HV Hid) as (A2 & Hr2 & Hn2 & Ht2 & Hle).
    cbn [live_step svc_step] in *. unfold seal_cycle.
    pose proof (swap_acc s now dur ctx) as Hsw.
    destruct (seal_once now dur ctx s) as [s' [[record ws]|e]] eqn:Hs; cbn [fst snd] in *.
    + destruct Ho as (Hid' & Hl & He & Hc & _). exists A1.
      pose proof (si_epochs _ _ Hi _ _ He) as [Hrid _].
      split; [split; [done|done|apply Hr2|apply Hr2|apply Hr2]|]. split; [done|]. split; [done|]. split.
      { constructor; [|constructor]. do 5 eexists. split; [done|]. rewrite Hrid. by split. }
      split; [done|]. right. split; [by cbn; rewrite Hrid|done].
    + exists A2. do 3 (split; [done|]). split; [constructor|]. split; [done|]. left.
      split; [done|]. destruct Hsw as [->| ->]; [done|]. cbn. rewrite sat_add_exact; lia.
  - exists A. cbn. split; [split; apply Hr|]. split; [reflexivity|]. split; [reflexivity|].
    split; [constructor|]. split; [lia|]. left. split; [done|lia].
Qed.

Lemma live_run_announces ops A s :
  seal_ready A s -> Forall (fun op => svc_op_ok (svc_of op)) ops ->
  acc_epoch_id (s_acc s) + Z.of_nat (length ops) < U64_MAX ->
  exists A', seal_ready A' (live_run ops s).1 /\ nothing_lost A A' /\
    Forall (announces A') (live_run ops s).2 /\
    StronglySorted Z.lt (omap event_epoch (live_run ops s).2) /\
    Forall (fun id => acc_epoch_id (s_acc s) <= id) (omap event_epoch (live_run ops s).2).
Proof.
  revert A s; induction ops as [|op ops IH]; intros A s Hr Hok Hid; cbn [live_run].
  - exists A. split; [done|]. split; [reflexivity|]. repeat constructor.
  - inversion Hok; subst. cbn [length] in Hid.
    destruct (live_step_announces (fun _ => True) A s op Hr)
      as (A1 & Hr1 & Hn1 & _ & Ha1 & Hle & Hev); [done|by destruct op|lia|].
    destruct (live_step op s) as [s1 evs1]. cbn [fst snd] in *.
    destruct (IH A1 s1 Hr1) as (A2 & Hr2 & Hn2 & Ha2 & Hs2 & Hge2); [done|lia|].
    destruct (live_run ops s1) as [s2 evs2]. cbn [fst snd] in *.
    exists A2. split; [done|]. split; [by etrans|]. split.
    { apply Forall_app. split; [|done]. eapply Forall_impl; [exact Ha1|]. intros ev.
      by apply announces_kept. }
    destruct Hev as [[-> Hacc]|[Hev Hacc]].
    + cbn. split; [done|]. eapply Forall_impl; [exact Hge2|]. intros id ?. cbn in *. lia.
    + destruct evs1 as [|ev [|? ?]]; try discriminate Hev. cbn [fmap list_fmap] in Hev.
      injection Hev as Hev. cbn [app omap list_omap]. rewrite Hev. split.
      * constructor; [done|]. eapply Forall_impl; [exact Hge2|]. intros id ?. cbn in *. lia.
      * constructor; [done|]. eapply Forall_impl; [exact Hge2|]. intros id ?. cbn in *. lia.
Qed.

(** Every announced epoch is durable. Along any run of submissions, seals
    (failing in any way) and changes of the world from a consistent state, each
    [epoch:sealed] event the loops send names an epoch the final store holds,
    with the event's root and leaf count; and the announced ids strictly
    increase. *)
Theorem announced_epochs_stored ops A s :
  seal_ready A s -> Forall (fun op => svc_op_ok (svc_of op)) ops ->
  acc_epoch_id (s_acc s) + Z.of_nat (length ops) < U64_MAX ->
  exists A', absr (s_sto (live_run ops s).1) A' /\
    Forall (announces A') (live_run ops s).2 /\
    StronglySorted Z.lt (omap event_epoch (live_run ops s).2).
Proof.
  intros Hr Hok Hid. destruct (live_run_announces ops A s Hr Hok Hid) as (A' & Hr' & _ & Ha & Hs & _).
  exists A'. split; [apply Hr'|by split].
Qed.
End announced.
