(* ===== verification/Watcher.v ===== *)
(** * The fuel watcher
    ([crates/aqua-timestamp/src/watcher.rs])

    The background task that scans the chain for transfers to the service's
    wallet and credits their senders.  The node is a reading per tick; a
    [value().to::<u128>()] that does not fit panics, which ends the task. *)

From S2P Require Import Prelude External Merkle Accumulator Witness Selfcheck Epoch Utf8 Kv Storage StoreSpec StoreRefine SealStore.
Open Scope string_scope.
Open Scope list_scope.
Open Scope Z_scope.

(** ** What the source reads of alloy's types *)

Abbreviation Address := Address20.

(** [tx_value] is a [U256]. *)
Record Transaction := { tx_to : option Address; tx_value : Z; tx_signer : Address }.

Inductive BlockTransactions := Full (txs : list Transaction) | Hashes | Uncle.

Record Block := { bl_timestamp : u64; bl_transactions : BlockTransactions }.

(** What one tick gets from the node: the parsed URL and its calls' answers. *)
Record NodeReading := {
  nr_url : result string unit;
  nr_block_number : result string u64;
  nr_block : u64 -> result string (option Block);
}.

Inductive WatcherError :=
| WRpc (text : string)
| BlockNotFound (n : u64)
| WParse (text : string).

(** A scan's failure: an error, or the panic of the conversion. *)
Inductive ScanFault := ScanError (e : WatcherError) | ScanPanic.

Record BlockWatcher := { wallet_address : Address; chain_id : u64 }.

(** ** Scanning *)

Definition latest_block (node : NodeReading) : result WatcherError u64 :=
  let? _ := map_err WRpc (nr_url node) in
  map_err WRpc (nr_block_number node).

Definition is_fuel (wallet : Address) (tx : Transaction) : bool :=
  bool_decide (tx_to tx = Some wallet) && (0 <? tx_value tx).

(** [None]: the value does not fit 128 bits. *)
Definition fuel_transfer (block_number block_timestamp : u64) (tx : Transaction)
    : result ScanFault FuelTransfer :=
  if tx_value tx <=? U128_MAX
  then Ok {| ft_sender := tx_signer tx; ft_value_wei := tx_value tx;
             ft_block_number := block_number; ft_block_timestamp := block_timestamp |}
  else Err ScanPanic.

Definition filter_transfers (txs : list Transaction) (wallet : Address)
    (block_number block_timestamp : u64) : result ScanFault (list FuelTransfer) :=
  collect (fuel_transfer block_number block_timestamp) (List.filter (is_fuel wallet) txs).

(** A round of the loop of [scan_blocks]. *)
Definition scan_block (w : BlockWatcher) (node : NodeReading) (n : u64)
    : result ScanFault (list FuelTransfer) :=
  let? o := map_err (fun e => ScanError (WRpc ("block " +:+ show_Z n +:+ ": " +:+ e)))
              (nr_block node n) in
  let? block := ok_or o (ScanError (BlockNotFound n)) in
  match bl_transactions block with
  | Full txs => filter_transfers txs (wallet_address w) n (bl_timestamp block)
  | _ => Ok []
  end.

Definition scan_blocks (w : BlockWatcher) (node : NodeReading) (from to : u64)
    : result ScanFault (list FuelTransfer) :=
  let? _ := map_err (fun e => ScanError (WRpc e)) (nr_url node) in
  let cap := Z.min to (sat_add from 99) in
  let? found := collect (scan_block w node) (seqZ from (cap - from + 1)) in
  Ok (concat found).

Definition did_for_sender `{HexCrate} (chain_id : u64) (sender : Address) : string :=
  "did:pkh:eip155:" +:+ show_Z chain_id +:+ ":0x" +:+ hex_encode (arr sender).

(** ** The task *)

Section watcher.
Context `{HexCrate, Sdk, Fjall, SerdeCrates, !StoreCodecs}.

Definition chain_label : string := "eth".

(** The watermark the task starts from. *)
Definition initial_watermark (ks : Keyspace) (node : NodeReading) : u64 :=
  match get_watermark chain_label ks with
  | Ok (Some w) => w
  | Ok None => match latest_block node with Ok b => b | Err _ => 0 end
  | Err _ => 0
  end.

(** [store.get_contributor(..).ok().flatten()]. *)
Definition existing_contributor (ks : Keyspace) (sender : Address) : option ContributorEntry :=
  default None (ok (get_contributor sender ks)).

Definition fuel_entry (chain_id : u64) (existing : option ContributorEntry) (ft : FuelTransfer)
    : ContributorEntry :=
  match existing with
  | Some e =>
      {| ce_did := ce_did e;
         ce_fuel_contributed_wei := sat_add128 (ce_fuel_contributed_wei e) (ft_value_wei ft);
         ce_fuel_contributed_sat := ce_fuel_contributed_sat e;
         ce_hashes_submitted := ce_hashes_submitted e;
         ce_last_active :=
           if ce_last_active e <? ft_block_timestamp ft then ft_block_timestamp ft
           else ce_last_active e |}
  | None =>
      {| ce_did := did_for_sender chain_id (ft_sender ft);
         ce_fuel_contributed_wei := ft_value_wei ft; ce_fuel_contributed_sat := 0;
         ce_hashes_submitted := 0; ce_last_active := ft_block_timestamp ft |}
  end.

(** Every transfer's entry, each read from the store of before the batch. *)
Definition fuel_updates (chain_id : u64) (ks : Keyspace) (transfers : list FuelTransfer)
    : list (Address * ContributorEntry) :=
  (fun ft => (ft_sender ft,
              fuel_entry chain_id (existing_contributor ks (ft_sender ft)) ft)) <$> transfers.

Record WatcherState := { wt_watermark : u64; wt_store : Keyspace }.

(** A window of blocks the task is done with, and the transfers in it. *)
Record Window := { win_from : u64; win_to : u64; win_transfers : list FuelTransfer }.

(** One iteration; [None]: the task panicked. The window is for theorems
    only. *)
Definition watcher_tick (w : BlockWatcher) (node : NodeReading) (st : WatcherState)
    : option (WatcherState * option Window) :=
  match latest_block node with
  | Err _ => Some (st, None)
  | Ok latest =>
      if latest <=? wt_watermark st then Some (st, None)
      else
        let scan_end := Z.min latest (sat_add (wt_watermark st) 100) in
        let scan_start := sat_add (wt_watermark st) 1 in
        match scan_blocks w node scan_start scan_end with
        | Err (ScanError _) => Some (st, None)
        | Err ScanPanic => None
        | Ok fuel_transfers =>
            let win := {| win_from := scan_start; win_to := scan_end;
                          win_transfers := fuel_transfers |} in
            if decide (fuel_transfers <> []) then
              let updates := fuel_updates (chain_id w) (wt_store st) fuel_transfers in
              let '(ks, r) :=
                upsert_contributors_and_watermark updates chain_label scan_end (wt_store st) in
              match r with
              | Err _ => Some ({| wt_watermark := wt_watermark st; wt_store := ks |}, None)
              | Ok _ => Some ({| wt_watermark := scan_end; wt_store := ks |}, Some win)
              end
            else
              let '(ks, _) := set_watermark chain_label scan_end (wt_store st) in
              Some ({| wt_watermark := scan_end; wt_store := ks |}, Some win)
        end
  end.

(** The task over its ticks' readings, with the windows it finished. *)
Fixpoint watcher_run (w : BlockWatcher) (nodes : list NodeReading) (st : WatcherState)
    : WatcherState * list Window :=
  match nodes with
  | [] => (st, [])
  | node :: nodes' =>
      match watcher_tick w node st with
      | None => (st, [])
      | Some (st, o) =>
          let '(st, wins) := watcher_run w nodes' st in
          (st, match o with Some win => win :: wins | None => wins end)
      end
  end.
End watcher.
