(* ===== verification/WatcherTheorems.v ===== *)
(** * What the fuel watcher credits

    The windows it scans, and what a window does to the contributors. *)

From S2P Require Import Prelude External Merkle Accumulator Witness Selfcheck Epoch Utf8 Kv Storage StoreSpec StoreRefine SealStore Watcher.
Open Scope string_scope.
Open Scope list_scope.
Open Scope Z_scope.

(** ** Windows *)

Section windows.
Context `{HexCrate, Sdk, Fjall, SerdeCrates, !StoreCodecs}.

Definition node_ok (node : NodeReading) : Prop := forall b, nr_block_number node = Ok b -> u64_ok b.

(** The blocks of a window. *)
Definition win_blocks (win : Window) : list Z := seqZ (win_from win) (win_to win - win_from win + 1).

(** The window's transfers are all those of its blocks, in order, as some
    reading of the run answered them. *)
Definition win_complete (w : BlockWatcher) (nodes : list NodeReading) (win : Window) : Prop :=
  exists node found, node ∈ nodes /\
    Forall2 (fun n ts => scan_block w node n = Ok ts) (win_blocks win) found /\
    win_transfers win = concat found.

Lemma latest_block_ok node b : node_ok node -> latest_block node = Ok b -> u64_ok b.
Proof.
  unfold latest_block. intros Hn Hb. destruct (nr_url node); [|done].
  cbn in Hb. apply map_err_ok in Hb. by apply Hn.
Qed.

Lemma scan_blocks_ok w node from to ts :
  0 <= from -> to <= from + 99 -> to <= U64_MAX ->
  scan_blocks w node from to = Ok ts ->
  exists found, Forall2 (fun n ts => scan_block w node n = Ok ts) (seqZ from (to - from + 1)) found /\
    ts = concat found.
Proof.
  intros Hf Ht Hm. unfold scan_blocks. destruct (nr_url node); [|done]. cbn [map_err result_bind].
  replace (Z.min to (sat_add from 99)) with to by (unfold sat_add; lia).
  intros (found & Hc%collect_ok & [= <-])%result_bind_ok. by exists found.
Qed.

(** What one tick is: nothing happened, the writes of a window failed, or a
    window right after the watermark is done with. *)
Lemma watcher_tick_cases w node st st' o :
  node_ok node -> u64_ok (wt_watermark st) -> watcher_tick w node st = Some (st', o) ->
  match o with
  | None => wt_watermark st' = wt_watermark st
  | Some win =>
      win_from win = wt_watermark st + 1 /\ win_to win = wt_watermark st' /\
      wt_watermark st < wt_watermark st' <= wt_watermark st + 100 /\ u64_ok (wt_watermark st') /\
      win_complete w [node] win
  end.
Proof.
  intros Hn Hw. unfold watcher_tick.
  destruct (latest_block node) as [b|e] eqn:Hb; [|by intros [= <- <-]].
  apply latest_block_ok in Hb; [|done].
  destruct (b <=? wt_watermark st) eqn:Hle; [by intros [= <- <-]|]. apply Z.leb_gt in Hle.
  unfold u64_ok in *. rewrite (sat_add_exact _ 1) by lia. cbv zeta.
  set (e := Z.min b (sat_add (wt_watermark st) 100)).
  assert (wt_watermark st < e <= wt_watermark st + 100 /\ e <= U64_MAX) as [He Hm]
    by (unfold e, sat_add; lia).
  destruct (scan_blocks _ _ _ _) as [ts|[er|]] eqn:Hs; [|by intros [= <- <-]|done].
  apply scan_blocks_ok in Hs as (found & Hf & ->); [|lia..].
  assert (win_complete w [node]
            {| win_from := wt_watermark st + 1; win_to := e; win_transfers := concat found |}) as Hc.
  { exists node, found. split; [by left|]. by split. }
  case_decide.
  - destruct (upsert_contributors_and_watermark _ _ _ _) as [ks [u|er]]; intros [= <- <-]; [|done].
    cbn. split_and!; try done; lia.
  - destruct (set_watermark _ _ _) as [ks r]. intros [= <- <-]. cbn. split_and!; try done; lia.
Qed.

Lemma win_complete_mono w nodes nodes' win :
  nodes ⊆ nodes' -> win_complete w nodes win -> win_complete w nodes' win.
Proof.
  intros Hs (node & found & Hin & Hf). exists node, found. split; [by apply Hs|done].
Qed.

(** C15. The watcher scans every block exactly once. Over any run of ticks whose
    node answers, fails or refuses in any way, the blocks of the windows it
    finished, in the order it finished them, are exactly the blocks from its
    starting watermark (excluded) to its final one; a window has at most 100
    blocks, and carries every inbound transfer of its blocks. *)
Theorem watcher_scans_each_block_once w nodes st :
  Forall node_ok nodes -> u64_ok (wt_watermark st) ->
  let '(st', wins) := watcher_run w nodes st in
  concat (win_blocks <$> wins)
  = seqZ (wt_watermark st + 1) (wt_watermark st' - wt_watermark st) /\
  wt_watermark st <= wt_watermark st' /\
  Forall (fun win => win_to win - win_from win < 100 /\ win_complete w nodes win) wins.
Proof.
  intros Hn. revert st; induction nodes as [|node nodes IH]; intros st Hw; cbn [watcher_run].
  { rewrite Z.sub_diag. split; [done|]. split; [lia|constructor]. }
  inversion Hn as [|? ? Hno Hn']; subst.
  destruct (watcher_tick w node st) as [[st1 o]|] eqn:Ht.
  2: { rewrite Z.sub_diag. split; [done|]. split; [lia|constructor]. }
  apply watcher_tick_cases in Ht; [|done..].
  assert (u64_ok (wt_watermark st1)) as Hw1
    by (destruct o as [win|]; [apply Ht|by rewrite Ht]).
  specialize (IH Hn' st1 Hw1). destruct (watcher_run w nodes st1) as [st2 wins].
  destruct IH as (Hc & Hle & Hf).
  assert (Forall (fun win => win_to win - win_from win < 100 /\ win_complete w (node :: nodes) win)
            wins) as Hf'.
  { eapply Forall_impl; [exact Hf|]. intros win [Hlt Hwc]. split; [done|].
    eapply win_complete_mono; [|exact Hwc]. by apply list_subseteq_cons. }
  destruct o as [win|].
  - destruct Ht as (Hfr & Hto & Hb & _ & Hcw). split.
    + cbn [fmap list_fmap concat]. rewrite Hc. unfold win_blocks. rewrite Hfr, Hto.
      replace (wt_watermark st2 - wt_watermark st)
        with ((wt_watermark st1 - wt_watermark st) + (wt_watermark st2 - wt_watermark st1)) by lia.
      rewrite (seqZ_app _ (wt_watermark st1 - wt_watermark st)) by lia.
      replace (wt_watermark st + 1 + (wt_watermark st1 - wt_watermark st))
        with (wt_watermark st1 + 1) by lia.
      replace (wt_watermark st1 - (wt_watermark st + 1) + 1)
        with (wt_watermark st1 - wt_watermark st) by lia. done.
    + split; [lia|]. constructor; [|done]. split; [lia|].
      eapply win_complete_mono; [|exact Hcw]. intros x ->%list_elem_of_singleton. by left.
  - rewrite Ht in Hc, Hle. by split.
Qed.
End windows.

(** ** Credits *)

Section credits.
Context `{HexLaws, Sdk, FjallLaws, SerdeCrates, !StoreCodecs, !StoreCodecLaws}.

(** The transfers of a sender. *)
Definition sent_by (s : Address) (ts : list FuelTransfer) : list FuelTransfer :=
  filter (fun ft => ft_sender ft = s) ts.

Definition sum_wei (ts : list FuelTransfer) : Z := foldr (fun ft z => ft_value_wei ft + z) 0 ts.

Lemma sum_wei_app a b : sum_wei (a ++ b) = sum_wei a + sum_wei b.
Proof. induction a as [|x a IH]; [done|]. cbn. unfold sum_wei in IH. rewrite IH. unfold sum_wei. lia. Qed.

(** Only transfers of some value are taken. *)
Lemma scan_block_values w node n ts :
  scan_block w node n = Ok ts -> Forall (fun ft => 0 < ft_value_wei ft) ts.
Proof.
  unfold scan_block. intros (o & _ & Hb)%result_bind_ok.
  apply result_bind_ok in Hb as (block & _ & Hb).
  destruct (bl_transactions block) as [txs| |]; [|by injection Hb as <-..].
  apply collect_ok in Hb. apply Forall_forall. intros ft Hin.
  apply list_elem_of_lookup in Hin as [i Hi].
  destruct (Forall2_lookup_r _ _ _ _ _ Hb Hi) as (tx & Htx & Hf).
  apply list_elem_of_lookup_2, list_elem_of_In, filter_In in Htx as [_ Hfuel].
  apply andb_true_iff in Hfuel as [_ Hv%Z.ltb_lt]. unfold fuel_transfer in Hf.
  destruct (_ <=? _); [|done]. by injection Hf as <-.
Qed.

Lemma win_values w node st st' win :
  node_ok node -> u64_ok (wt_watermark st) -> watcher_tick w node st = Some (st', Some win) ->
  Forall (fun ft => 0 < ft_value_wei ft) (win_transfers win).
Proof.
  intros Hn Hw Ht. apply watcher_tick_cases in Ht as (_ & _ & _ & _ & node' & found & _ & Hf & ->);
    [|done..].
  apply Forall_forall. intros ft Hin. apply list_elem_of_In, in_concat in Hin as (ts & Hts & Hin).
  apply list_elem_of_In, list_elem_of_lookup in Hts as [i Hi].
  destruct (Forall2_lookup_r _ _ _ _ _ Hf Hi) as (n & _ & Hn').
  apply scan_block_values in Hn'. rewrite Forall_forall in Hn'. by apply Hn', list_elem_of_In.
Qed.

(** The transfers of a repeating sender: its last, and more that are worth
    something. *)
Lemma sent_by_split s ts :
  Forall (fun ft => 0 < ft_value_wei ft) ts -> (2 <= length (sent_by s ts))%nat ->
  exists pre ft, sent_by s ts = pre ++ [ft] /\ 0 < sum_wei pre.
Proof.
  intros Hv Hl. assert (Forall (fun ft => 0 < ft_value_wei ft) (sent_by s ts)) as Hv'.
  { apply Forall_forall. intros ft [_ Hin]%list_elem_of_filter. rewrite Forall_forall in Hv. by apply Hv. }
  destruct (sent_by s ts) as [|ft l _] using rev_ind; [cbn in Hl; lia|].
  exists l, ft. split; [done|]. rewrite length_app in Hl. cbn in Hl.
  apply Forall_app in Hv' as [Hp _]. clear -Hl Hp. destruct l as [|x l]; [cbn in Hl; lia|].
  inversion Hp as [|? ? Hx Hl']; subst. cbn. enough (0 <= sum_wei l) by (unfold sum_wei in *; lia).
  clear -Hl'. induction Hl' as [|y l Hy _ IH]; cbn; [lia|]. unfold sum_wei in IH. lia.
Qed.

Lemma sent_by_once ts ft :
  NoDup (ft_sender <$> ts) -> ft ∈ ts -> last (sent_by (ft_sender ft) ts) = Some ft.
Proof.
  intros Hd Hin. destruct (last (sent_by (ft_sender ft) ts)) as [ft'|] eqn:Hl.
  - apply last_Some_elem_of, list_elem_of_filter in Hl as [Hs Hin'].
    apply list_elem_of_lookup in Hin as [i Hi], Hin' as [j Hj].
    assert (i = j) as ->; [|congruence].
    eapply (NoDup_lookup _ i j); [exact Hd|by rewrite list_lookup_fmap, Hi|].
    by rewrite list_lookup_fmap, Hj, <- Hs.
  - apply last_None in Hl. assert (ft ∈ sent_by (ft_sender ft) ts) as Hx
      by (by apply list_elem_of_filter). rewrite Hl in Hx. by apply elem_of_nil in Hx.
Qed.

(** The store answers the reads of the window's senders. *)
Definition reads_answer (ks : Keyspace) (ts : list FuelTransfer) : Prop :=
  forall ft, ft ∈ ts -> is_ok (get_contributor (ft_sender ft) ks) = true.

Lemma existing_read ks (A : AStore) ts ft :
  represents (view ks) A -> reads_answer ks ts -> ft ∈ ts ->
  existing_contributor ks (ft_sender ft) = look A contributor_stats (ft_sender ft).
Proof.
  intros Hr Hk Hin%Hk. pose proof (get_contributor_read ks A Hr (ft_sender ft)) as Hg.
  unfold existing_contributor. destruct (get_contributor (ft_sender ft) ks) as [o|e]; [|done].
  cbn in *. by subst.
Qed.

Lemma look_puts (A : AStore) (f : FuelTransfer -> ContributorEntry) ts s :
  look (apply_aops A ((fun ft => APut contributor_stats (ft_sender ft) (f ft)) <$> ts))
    contributor_stats s
  = match last (sent_by s ts) with Some ft => Some (f ft) | None => look A contributor_stats s end.
Proof.
  induction ts as [|ft ts IH] using rev_ind; [done|].
  rewrite fmap_app, apply_aops_app. unfold sent_by in *. rewrite filter_app. cbn [fmap list_fmap].
  change (apply_aops ?B [?a]) with (apply_aop B a).
  destruct (decide (ft_sender ft = s)) as [<-|Hne].
  - rewrite filter_cons_True by done. by rewrite filter_nil, look_put, last_snoc.
  - rewrite filter_cons_False by done. rewrite filter_nil, app_nil_r.
    rewrite apply_aop_lookup_ne; [done|].
    intros [[v [Hk _]%APut_inj]|[=]]. congruence.
Qed.

(** What the batch of a window leaves of each contributor. *)
Lemma look_credits ks (A : AStore) chain ts label b s :
  represents (view ks) A -> reads_answer ks ts ->
  look (apply_aops A (contributor_aops (fuel_updates chain ks ts) label b)) contributor_stats s
  = match last (sent_by s ts) with
    | Some ft => Some (fuel_entry chain (look A contributor_stats s) ft)
    | None => look A contributor_stats s
    end.
Proof.
  intros Hr Hk. unfold contributor_aops. rewrite apply_aops_app.
  rewrite apply_aops_look_other by (by intros a ->%list_elem_of_singleton).
  unfold fuel_updates. rewrite <- list_fmap_compose. unfold compose. cbn [fst snd].
  rewrite (look_puts A (fun ft => fuel_entry chain (existing_contributor ks (ft_sender ft)) ft)).
  destruct (last (sent_by s ts)) as [ft|] eqn:Hl; [|done].
  apply last_Some_elem_of in Hl. unfold sent_by in Hl. apply list_elem_of_filter in Hl as [Hs Hin].
  rewrite (existing_read ks A ts) by done. by rewrite Hs.
Qed.

(** The outcome of a window of transfers: its writes failed, the watermark is
    kept; or all of it is stored. *)
Lemma watcher_tick_writes w node st st' o (A : AStore) :
  represents (view (wt_store st)) A -> node_ok node -> u64_ok (wt_watermark st) ->
  watcher_tick w node st = Some (st', o) ->
  match o with
  | Some win =>
      win_transfers win <> [] ->
      represents (view (wt_store st'))
        (apply_aops A (contributor_aops
           (fuel_updates (chain_id w) (wt_store st) (win_transfers win)) chain_label (win_to win)))
  | None => True
  end.
Proof.
  intros Hr Hn Hw Ht. pose proof (watcher_tick_cases w node st st' o Hn Hw Ht) as Hc.
  destruct o as [win|]; [|done]. intros Hts. destruct Hc as (_ & Hto & _ & Hu & _).
  revert Ht. unfold watcher_tick. destruct (latest_block node) as [b|er]; [|done].
  destruct (_ <=? _); [done|]. cbv zeta. destruct (scan_blocks _ _ _ _) as [ts|[er|]]; [|done|done].
  case_decide as Hd.
  - destruct (upsert_contributors_and_watermark _ _ _ _) as [ks r] eqn:Hup.
    destruct r as [u|er]; [|done]. intros [= <- <-]. cbn [win_transfers win_to wt_store] in *.
    cbn [wt_watermark] in *.
    pose proof (upsert_refined (fuel_updates (chain_id w) (wt_store st) ts) chain_label
                  (Z.min b (sat_add (wt_watermark st) 100)) (wt_store st) A Hr Hu) as Href.
    unfold refined in Href. by rewrite Hup in Href.
  - destruct (set_watermark _ _ _) as [ks r]. intros [= <- <-]. cbn in Hts.
    by destruct Hd.
Qed.

(** C35. What a window credits. When the store answers its reads, a finished
    window with transfers leaves each sender the entry of its last transfer in
    the window, added to the sender's total of before the window; every other
    contributor is as before, and the window's end is the stored watermark. So
    when no sender repeats in the window, every transfer is credited. *)
Theorem watcher_credits w node st st' win (A : AStore) :
  represents (view (wt_store st)) A -> node_ok node -> u64_ok (wt_watermark st) ->
  watcher_tick w node st = Some (st', Some win) -> win_transfers win <> [] ->
  reads_answer (wt_store st) (win_transfers win) ->
  exists A', represents (view (wt_store st')) A' /\
    look A' watcher_watermark chain_label = Some (win_to win) /\
    (forall s, look A' contributor_stats s
       = match last (sent_by s (win_transfers win)) with
         | Some ft => Some (fuel_entry (chain_id w) (look A contributor_stats s) ft)
         | None => look A contributor_stats s
         end) /\
    (NoDup (ft_sender <$> win_transfers win) ->
     forall ft, ft ∈ win_transfers win ->
       look A' contributor_stats (ft_sender ft)
       = Some (fuel_entry (chain_id w) (look A contributor_stats (ft_sender ft)) ft)).
Proof.
  intros Hr Hn Hw Ht Hts Hk. eexists. split; [by eapply (watcher_tick_writes w node st st' (Some win))|].
  split. { unfold contributor_aops. rewrite apply_aops_app. apply look_put. }
  assert (forall s, look (apply_aops A (contributor_aops (fuel_updates (chain_id w) (wt_store st)
            (win_transfers win)) chain_label (win_to win))) contributor_stats s
       = match last (sent_by s (win_transfers win)) with
         | Some ft => Some (fuel_entry (chain_id w) (look A contributor_stats s) ft)
         | None => look A contributor_stats s
         end) as Hl by (intros s; by apply look_credits).
  split; [exact Hl|]. intros Hd ft Hin. rewrite Hl. by rewrite (sent_by_once _ ft).
Qed.

End credits.
