(* ===== verification/Identity.v ===== *)
(** * The service's identity
    ([crates/aqua-timestamp/src/identity.rs])

    Loading the key, the signed claim, the well-known document, and the
    revision order its snapshot is normalised with.  The wallet derivation and
    the SDK's tree calls are an interface; a mnemonic is a plain string. *)

From S2P Require Import Prelude External Text Config.
Open Scope string_scope.
Open Scope list_scope.
Open Scope Z_scope.

Definition MNEMONIC_ENV : string := "AQUA_TIMESTAMP_ANCHOR_MNEMONIC".

(** [core::version]. *)
Definition PROTOCOL : string := "aqua".
Definition PROTOCOL_VERSION : string := "4.0".

Record ServiceIdentity := {
  address_eip55 : string;
  server_did : string;
  si_chain_id : u64;
  si_trust_domain : string;
  si_dns : string;
  si_ip : string;
  private_key : bytes;
  mnemonic : string;
}.

(** ** The well-known document *)

Record Endpoints := {
  ep_auth : string;
  ep_trees : string;
  ep_submit : string;
  ep_verify : string;
  ep_docs : string;
  ep_well_known_skill : string;
  ep_well_known_skill_auth : string;
}.

Record IdentityResponse `{JsonCrate} := {
  ir_protocol : string;
  ir_version : string;
  ir_server_did : string;
  ir_ethereum_address : string;
  ir_trust_level : Z;
  ir_trust_domain : string;
  ir_supported_claims : list string;
  ir_auth_method : string;
  ir_endpoints : Endpoints;
  ir_identity_claim : Value;
}.

Definition IdentityResponse_new `{JsonCrate} (identity : ServiceIdentity) (identity_claim : Value)
    : IdentityResponse :=
  {| ir_protocol := PROTOCOL; ir_version := PROTOCOL_VERSION;
     ir_server_did := server_did identity;
     ir_ethereum_address := "0x" +:+ trim_start_matches "0x" (address_eip55 identity);
     ir_trust_level := 2; ir_trust_domain := si_trust_domain identity;
     ir_supported_claims := ["timestamp_anchor"]; ir_auth_method := "siwe";
     ir_endpoints :=
       {| ep_auth := "/auth"; ep_trees := "/trees"; ep_submit := "/v1/leaves";
          ep_verify := "/api/explorer/trees/{tip}/verify"; ep_docs := "/docs";
          ep_well_known_skill := "/.well-known/aqua-skill.md";
          ep_well_known_skill_auth := "/.well-known/aqua-skill-auth.md" |};
     ir_identity_claim := identity_claim |}.

(** ** Loading and signing *)

(** The claim's payload. *)
Record ServiceClaimServer := {
  signer_did : string;
  service_kind : string;
  valid_from : u64;
  valid_until : option u64;
  claim_dns : string;
  claim_ip : string;
  deploy_version : option string;
}.

Section service.
Context `{HexCrate, Sdk}.

(** [get_wallet]: the address, its EIP-55 spelling and the key in hex; the
    claim's own check and JSON; the SDK's object, default hash type and
    signature; the tree's and the document's JSON. *)
Class IdentityCrates := {
  get_wallet : string -> result string (string * string * string);
  claim_validate : ServiceClaimServer -> result string unit;
  claim_to_value : ServiceClaimServer -> result string Value;
  TEMPLATE_LINK : RevisionLink;
  create_object_util : RevisionLink -> Value -> result SdkError Tree;
  secp256k1_signer : bytes -> Secp256k1Signer;
  sign_aqua_tree : AquaTreeWrapper -> Secp256k1Signer -> result SdkError Tree;
  tree_to_value : Tree -> result string Value;
  response_to_value : IdentityResponse -> result string Value;
  CARGO_PKG_VERSION : option string;
}.
Context `{!IdentityCrates}.

Definition from_mnemonic (words : string) (cfg : IdentityConfig) : result string ServiceIdentity :=
  let? w := map_err (fun e => "failed to derive secp256k1 wallet: " +:+ e) (get_wallet words) in
  let '(_, eip55, private_key_hex) := w in
  let? pk := map_err (fun _ => "alloy returned a non-hex private key string")
               (hex_decode (trim_start_matches "0x" private_key_hex)) in
  Ok {| address_eip55 := eip55;
        server_did := "did:pkh:eip155:" +:+ pretty.pretty (ic_chain_id cfg) +:+ ":" +:+ eip55;
        si_chain_id := ic_chain_id cfg; si_trust_domain := ic_trust_domain cfg;
        si_dns := ic_dns cfg; si_ip := ic_ip cfg;
        private_key := pk; mnemonic := trim words |}.

(** [var]: the environment's variable. *)
Definition from_env (var : option string) (cfg : IdentityConfig) : result string ServiceIdentity :=
  let? words := ok_or var (MNEMONIC_ENV +:+ " is not set; refusing to start") in
  if decide (trim words = "") then Err (MNEMONIC_ENV +:+ " is empty; refusing to start")
  else from_mnemonic words cfg.

(** The overrides' [valid_from], else the clock. *)
Definition identity_claim_of (identity : ServiceIdentity) (override : option u64) (now : u64)
    : ServiceClaimServer :=
  {| signer_did := server_did identity; service_kind := "server";
     valid_from := default now override; valid_until := None; claim_dns := si_dns identity;
     claim_ip := si_ip identity; deploy_version := CARGO_PKG_VERSION |}.

Definition build_identity_tree (identity : ServiceIdentity) (override : option u64) (now : u64)
    : result string Tree :=
  let claim := identity_claim_of identity override now in
  let? _ := map_err (fun e => "invalid service_claim_server payload: " +:+ e) (claim_validate claim) in
  let? payload := map_err (fun e => "failed to serialise service_claim_server payload: " +:+ e)
                    (claim_to_value claim) in
  let? tree := map_err (fun e => "failed to build identity object: " +:+ sdk_error_text e)
                 (create_object_util TEMPLATE_LINK payload) in
  let signer := secp256k1_signer (private_key identity) in
  map_err (fun e => "failed to sign identity tree: " +:+ sdk_error_text e)
    (sign_aqua_tree (wrapper_new tree None) signer).

Definition build_response (identity : ServiceIdentity) (tree : Tree) : result string Value :=
  let? tree_json := map_err (fun e => "serialise identity tree: " +:+ e) (tree_to_value tree) in
  map_err (fun e => "serialise identity response: " +:+ e)
    (response_to_value (IdentityResponse_new identity tree_json)).
End service.

(** ** Revision order *)

Section order.
Context `{JsonCrate}.

(** A [serde_json::Map], in its iteration order. *)
Abbreviation JsonMap := (list (string * Value)).

Definition previous_text (rev : Value) : option string :=
  json_get rev "previous_revision" ≫= json_as_str.
Definition is_genesis (rev : Value) : bool :=
  match json_get rev "previous_revision" with
  | Some v => bool_decide (v = json_null)
  | None => true
  end.

Definition find_genesis (map : JsonMap) : option string :=
  fst <$> find (fun e => is_genesis e.2) map.
Definition next_revision (map : JsonMap) (h : string) : option string :=
  fst <$> find (fun e => bool_decide (previous_text e.2 = Some h)) map.

(** The [while let] loop; [None]: the fuel ran out. *)
Fixpoint walk (fuel : nat) (map : JsonMap) (current : option string) (order : list string)
    : option (list string) :=
  match current with
  | None => Some order
  | Some h =>
      match fuel with
      | O => None
      | S fuel' => walk fuel' map (next_revision map h) (order ++ [h])
      end
  end.

Fixpoint append_orphans (hashes : list string) (order : list string) : list string :=
  match hashes with
  | [] => order
  | hash :: hashes' =>
      append_orphans hashes'
        (if bool_decide (hash ∈ order) then order else order ++ [hash])
  end.

(** A map of [n] revisions is walked in [n] rounds and the last test. *)
Definition topological_revision_order (map : JsonMap) : option (list string) :=
  append_orphans map.*1 <$> walk (S (length map)) map (find_genesis map) [].
End order.

Section order_facts.
Context `{JsonCrate}.
Variable map : list (string * Value).
Hypothesis Hkeys : NoDup map.*1.
(** [Value::Null] is no string. *)
Hypothesis Hnull : json_as_str json_null = None.

(** The predecessor the map names for a hash. *)
Definition predecessor (k : string) : option string :=
  (list_to_map map : gmap string Value) !! k ≫= previous_text.

Lemma find_key (p : string * Value -> bool) k :
  fst <$> find p map = Some k ->
  exists rev, (list_to_map map : gmap string Value) !! k = Some rev /\ p (k, rev) = true.
Proof.
  intros ([k' rev] & [Hin Hp]%find_some & ->)%fmap_Some. exists rev. split; [|done].
  apply elem_of_list_to_map; [done|]. by apply list_elem_of_In.
Qed.

Lemma find_genesis_root k : find_genesis map = Some k -> predecessor k = None /\ k ∈ map.*1.
Proof.
  intros (rev & Hk & Hg)%find_key. unfold predecessor. rewrite Hk. cbn. split.
  - unfold is_genesis, previous_text in *. cbn in Hg.
    destruct (json_get rev "previous_revision") as [v|]; [|done].
    apply bool_decide_eq_true in Hg as ->. exact Hnull.
  - apply elem_of_list_to_map_2 in Hk. apply list_elem_of_fmap. by exists (k, rev).
Qed.

Lemma next_revision_links h k : next_revision map h = Some k -> predecessor k = Some h /\ k ∈ map.*1.
Proof.
  intros (rev & Hk & Hg%bool_decide_eq_true)%find_key. unfold predecessor. rewrite Hk. cbn in *.
  split; [done|]. apply elem_of_list_to_map_2 in Hk. apply list_elem_of_fmap. by exists (k, rev).
Qed.

(** A genesis first, then each the successor of the one before. *)
Definition chained (l : list string) : Prop :=
  (forall g, l !! 0%nat = Some g -> predecessor g = None) /\
  forall i y, l !! S i = Some y -> exists x, l !! i = Some x /\ predecessor y = Some x.

Lemma chained_fresh l h k :
  NoDup (l ++ [h]) -> chained (l ++ [h]) -> predecessor k = Some h -> k ∉ l ++ [h].
Proof.
  intros Hnd [Hg Hc] Hp [j Hj]%list_elem_of_lookup. destruct j as [|i].
  - apply Hg in Hj. congruence.
  - destruct (Hc i k Hj) as (x & Hx & Hpx). rewrite Hp in Hpx. injection Hpx as <-.
    assert (i = length l) as -> by (eapply NoDup_lookup; [exact Hnd|exact Hx|by apply list_lookup_middle]).
    apply lookup_lt_Some in Hj. rewrite length_app in Hj. cbn in Hj. lia.
Qed.

Lemma chained_snoc l h k :
  chained (l ++ [h]) -> predecessor k = Some h -> chained ((l ++ [h]) ++ [k]).
Proof.
  intros [Hg Hc] Hp. split.
  - intros g Hl. apply Hg. rewrite lookup_app_l in Hl; [done|]. rewrite length_app. cbn. lia.
  - intros i y Hy. apply lookup_snoc_Some in Hy as [[Hlt Hy]|[Hi ->]].
    + destruct (Hc i y Hy) as (x & Hx & Hpx). exists x. split; [|done]. by apply lookup_app_l_Some.
    + rewrite length_app in Hi. cbn in Hi. exists h. split; [|done].
      rewrite lookup_app_l by (rewrite length_app; cbn; lia). by apply list_lookup_middle; lia.
Qed.

Lemma next_revision_None h k : next_revision map h = None -> predecessor k <> Some h.
Proof.
  unfold next_revision, predecessor. intros Hn%fmap_None Hp.
  destruct (_ !! k) as [rev|] eqn:Hk; [|done]. cbn in Hp.
  apply elem_of_list_to_map_2, list_elem_of_In in Hk.
  apply (find_none _ _ Hn) in Hk. cbn in Hk. by apply bool_decide_eq_false in Hk.
Qed.

(** The walk ends: it visits keys of the map, each once, and cannot go on from
    the last. *)
Lemma walk_from fuel l h :
  NoDup (l ++ [h]) -> chained (l ++ [h]) -> l ++ [h] ⊆ map.*1 ->
  (length map < fuel + length l)%nat ->
  exists order, walk fuel map (Some h) l = Some order /\ NoDup order /\ chained order /\
    order ⊆ map.*1 /\ l ++ [h] `prefix_of` order /\
    forall x k, last order = Some x -> predecessor k <> Some x.
Proof.
  revert l h; induction fuel as [|fuel IH]; intros l h Hnd Hc Hsub Hf; cbn [walk].
  { apply NoDup_submseteq, submseteq_length in Hsub; [|done].
    rewrite length_app, length_fmap in Hsub. cbn in *. lia. }
  destruct (next_revision map h) as [k|] eqn:Hn.
  - destruct (next_revision_links h k Hn) as [Hp Hk].
    destruct (IH (l ++ [h]) k) as (order & Hw & Ho1 & Ho2 & Ho3 & Hpre & Hlast).
    + apply NoDup_app. split; [done|]. split; [|apply NoDup_singleton].
      intros x Hx ->%list_elem_of_singleton. by apply (chained_fresh l h k).
    + by apply chained_snoc.
    + set_solver.
    + rewrite length_app. cbn. lia.
    + exists order. split_and!; try done. etrans; [|exact Hpre]. by apply prefix_app_r.
  - exists (l ++ [h]). split_and!; try done; [by destruct fuel|].
    intros x k Hx. rewrite last_snoc in Hx. injection Hx as <-. by apply next_revision_None.
Qed.

Lemma filter_ext_in {A} (P Q : A -> Prop) `{!forall x, Decision (P x), !forall x, Decision (Q x)} (l : list A) :
  (forall x, x ∈ l -> P x <-> Q x) -> filter P l = filter Q l.
Proof.
  induction l as [|x l IH]; intros Hpq; [done|]. rewrite !filter_cons, IH by (intros; apply Hpq; by right).
  destruct (Hpq x) as [Hp Hq]; [by left|]. repeat case_decide; naive_solver.
Qed.

Lemma append_orphans_spec hs order :
  NoDup hs -> append_orphans hs order = order ++ filter (fun k => k ∉ order) hs.
Proof.
  revert order; induction hs as [|x hs IH]; intros order Hnd; cbn [append_orphans].
  { by rewrite filter_nil, app_nil_r. }
  inversion Hnd as [|? ? Hx Hnd']; subst. rewrite IH by done. case_bool_decide as Hin.
  - rewrite filter_cons_False; [done|]. by intros [].
  - rewrite filter_cons_True by done.
    rewrite (filter_ext_in (fun k => k ∉ order ++ [x]) (fun k => k ∉ order) hs).
    + by rewrite <- app_assoc.
    + intros k Hk. rewrite elem_of_app, list_elem_of_singleton. split; [tauto|].
      intros Hno [?| ->]; done.
Qed.

(** The revision order is total and topological. For every map, cycles
    and orphans included, the walk ends within one round per revision; the
    answer lists every hash of the map exactly once: first a chain in which
    each revision follows the one its [previous_revision] names, starting at
    the first genesis when there is one and ending where no revision follows,
    then the others in the map's order. *)
Theorem topological_revision_order_spec :
  exists chain, topological_revision_order map
      = Some (chain ++ filter (fun k => k ∉ chain) map.*1) /\
    chain ++ filter (fun k => k ∉ chain) map.*1 ≡ₚ map.*1 /\ chained chain /\
    head chain = find_genesis map /\
    forall x k, last chain = Some x -> predecessor k <> Some x.
Proof.
  assert (exists chain, walk (S (length map)) map (find_genesis map) [] = Some chain /\
            NoDup chain /\ chained chain /\ chain ⊆ map.*1 /\ head chain = find_genesis map /\
            forall x k, last chain = Some x -> predecessor k <> Some x)
    as (chain & Hw & Hnd & Hc & Hsub & Hhd & Hlast).
  { destruct (find_genesis map) as [g|] eqn:Hg.
    - destruct (find_genesis_root g Hg) as [Hp Hin].
      destruct (walk_from (S (length map)) [] g) as (order & Hw & H1 & H2 & H3 & [r ->] & H5).
      + apply NoDup_singleton.
      + split; [by intros ? [= <-]|]. by intros [] ? ?.
      + set_solver.
      + lia.
      + exists (g :: r). by split_and!.
    - exists []. split_and!; try done; [apply NoDup_nil_2|apply list_subseteq_nil]. }
  exists chain. unfold topological_revision_order. rewrite Hw. cbn [fmap option_fmap option_map].
  rewrite append_orphans_spec by done. split_and!; try done.
  apply NoDup_Permutation; [|done|].
  - apply NoDup_app. split_and!; [done| |by apply NoDup_filter].
    intros x Hx [Hno _]%list_elem_of_filter. done.
  - intros x. rewrite elem_of_app, list_elem_of_filter.
    destruct (decide (x ∈ chain)); set_solver.
Qed.
End order_facts.
