(* ===== verification/Snapshot.v ===== *)
(** * The identity document made comparable
    ([normalise_for_snapshot] of [crates/aqua-timestamp/src/identity.rs])

    JSON values as an inductive type, an object in the order of its members as
    the crate's map keeps it; the function over them, and what it forgets. *)

From stdpp Require Import pretty.
From S2P Require Import Prelude External Identity.
Open Scope string_scope.
Open Scope list_scope.
Open Scope Z_scope.

(** ** JSON *)

(** A number is its text. *)
Inductive Json :=
| JNull
| JBool (b : bool)
| JNumber (n : string)
| JString (s : string)
| JArray (items : list Json)
| JObject (members : list (string * Json)).

Abbreviation Members := (list (string * Json)).

#[export] Instance Json_eq_dec : EqDecision Json.
Proof.
  refine (fix go (v w : Json) : Decision (v = w) :=
    let _ : EqDecision Json := go in
    match v, w with
    | JNull, JNull => left eq_refl
    | JBool b, JBool c => cast_if (decide (b = c))
    | JNumber n, JNumber m => cast_if (decide (n = m))
    | JString s, JString t => cast_if (decide (s = t))
    | JArray l, JArray k => cast_if (decide (l = k))
    | JObject l, JObject k => cast_if (decide (l = k))
    | _, _ => right _
    end); congruence.
Defined.

(** [Map::get]. *)
Definition get_member (k : string) (m : Members) : option Json := snd <$> find (fun e => bool_decide (e.1 = k)) m.

(** [get_mut(k)] and an assignment to what it finds. *)
Definition alter_member (f : Json -> Json) (k : string) (m : Members) : Members :=
  (fun e => (e.1, if decide (e.1 = k) then f e.2 else e.2)) <$> m.
Definition set_member (k : string) (v : Json) (m : Members) : Members := alter_member (fun _ => v) k m.

(** [Map::insert]. *)
Definition insert_member (k : string) (v : Json) (m : Members) : Members :=
  if decide (k ∈ m.*1) then set_member k v m else m ++ [(k, v)].

Definition as_object (v : Json) : option Members := match v with JObject m => Some m | _ => None end.

#[local] Instance json_values : JsonCrate :=
  {| Value := Json; json_null := JNull;
     json_get := fun v k => match v with JObject m => get_member k m | _ => None end;
     json_as_str := fun v => match v with JString s => Some s | _ => None end;
     json_as_u64 := fun v => None |}.

(** Every case of an induction over a value, and over the lists in it. *)
Fixpoint Json_rect' (P : Json -> Prop) (Pnull : P JNull) (Pbool : forall b, P (JBool b)) (Pnum : forall n, P (JNumber n))
    (Pstr : forall s, P (JString s)) (Parr : forall l, Forall P l -> P (JArray l))
    (Pobj : forall m, Forall (fun e => P e.2) m -> P (JObject m)) (v : Json) : P v :=
  let rec := Json_rect' P Pnull Pbool Pnum Pstr Parr Pobj in
  match v with
  | JNull => Pnull
  | JBool b => Pbool b
  | JNumber n => Pnum n
  | JString s => Pstr s
  | JArray l =>
      Parr l ((fix all l : Forall P l :=
        match l with [] => Forall_nil_2 _ | x :: l' => Forall_cons_2 _ _ _ (rec x) (all l') end) l)
  | JObject m =>
      Pobj m ((fix all m : Forall (fun e => P e.2) m :=
        match m with [] => Forall_nil_2 _ | e :: m' => Forall_cons_2 _ _ _ (rec e.2) (all m') end) m)
  end.

(** ** The function *)

Definition SIG : Json := JString "0x<SIG>".

(** [walk]; [blank]: the object is that of a [signature] member, whose own
    [signature] is set before the walk goes into it. *)
Fixpoint blanked (blank : bool) (v : Json) : Json :=
  match v with
  | JObject m =>
      JObject ((fun e : string * Json =>
        let (k, child) := e in
        (k,
         if decide (k = "nonce") then JString "<NONCE>"
         else if decide (k = "local_timestamp") then JNumber "0"
         else if decide (k = "valid_from") then JNumber "0"
         else if decide (k = "deploy_version") then JString "<VERSION>"
         else if decide (k = "signature") then
           if blank then SIG
           else match child with
                | JString _ => SIG
                | JObject _ => blanked true child
                | _ => blanked false child
                end
         else blanked false child)) <$> m)
  | JArray l => JArray (blanked false <$> l)
  | _ => v
  end.

(** [k.to_uppercase()] of an ASCII key. *)
Definition upper (c : Ascii.ascii) : Ascii.ascii :=
  let n := Ascii.nat_of_ascii c in
  if (97 <=? n)%nat && (n <=? 122)%nat then Ascii.ascii_of_nat (n - 32) else c.
Fixpoint to_uppercase (s : string) : string :=
  match s with EmptyString => EmptyString | String c s' => String (upper c) (to_uppercase s') end.
Definition placeholder (k : string) : Json := JString ("<" +:+ to_uppercase k +:+ ">").

(** The members of a map under their positions. *)
Fixpoint by_position (idx : nat) (hash_order : list string) (m new_map : Members) : Members :=
  match hash_order with
  | [] => new_map
  | hash :: hashes =>
      by_position (S idx) hashes m
        (match get_member hash m with
         | Some v => insert_member ("REV_" +:+ pretty idx) v new_map
         | None => new_map
         end)
  end.

Definition remap (hash_order : list string) (v : Json) : Json :=
  match as_object v with Some m => JObject (by_position 0 hash_order m []) | None => v end.

(** A reference to another revision. *)
Definition blank_reference (k : string) (slot : Json) : Json :=
  match slot with
  | JString _ => placeholder k
  | JArray items => JArray ((fun _ => placeholder k) <$> items)
  | _ => slot
  end.

Definition blank_inside (k : string) (text : string) (v : Json) : Json :=
  match v with JObject m => JObject (set_member k (JString text) m) | _ => v end.

Definition REFERENCES : list string := ["previous_revision"; "revision_type"; "structural_links"; "signer"].

Definition blank_revision (rev : Json) : Json :=
  match rev with
  | JObject obj =>
      let obj := fold_left (fun obj k => alter_member (blank_reference k) k obj) REFERENCES obj in
      let obj := alter_member (blank_inside "signature_public_identifier" "<SIGNER_ADDR>") "signature" obj in
      JObject (alter_member (blank_inside "signer_did" "<SIGNER_DID>") "payloads" obj)
  | _ => rev
  end.

Definition over_members (f : Json -> Json) (v : Json) : Json :=
  match v with JObject m => JObject ((fun e => (e.1, f e.2)) <$> m) | _ => v end.

(** The order of the claim's revisions; empty without an object of them. *)
Definition claim_order (claim_obj : Members) : list string :=
  match get_member "revisions" claim_obj with
  | Some (JObject revisions) => default [] (topological_revision_order (H := json_values) revisions)
  | _ => []
  end.

Definition normalise_claim (claim_obj : Members) : Members :=
  let hash_order := claim_order claim_obj in
  let claim_obj := alter_member (remap hash_order) "revisions" claim_obj in
  let claim_obj := alter_member (remap hash_order) "file_index" claim_obj in
  let claim_obj := alter_member (over_members blank_revision) "revisions" claim_obj in
  alter_member (over_members (fun _ => JString "<NAME>")) "file_index" claim_obj.

Definition normalise_for_snapshot (value : Json) : Json :=
  match blanked false value with
  | JObject m =>
      let m := alter_member (fun claim => match claim with JObject c => JObject (normalise_claim c) | _ => claim end)
                 "identity_claim" m in
      JObject (fold_left (fun m k => set_member k (placeholder k) m) ["server_did"; "ethereum_address"] m)
  | v => v
  end.

(** ** The same document under other hashes *)

Definition BLANKED : list string := ["nonce"; "local_timestamp"; "valid_from"; "deploy_version"; "signature"].
Definition LINKS : list string := ["previous_revision"; "structural_links"].

Section renaming.
Variable rename : string -> string.

Definition rename_text (v : Json) : Json := match v with JString h => JString (rename h) | _ => v end.
Definition rename_link (slot : Json) : Json :=
  match slot with JArray items => JArray (rename_text <$> items) | _ => rename_text slot end.
Definition rename_revision (rev : Json) : Json :=
  match rev with
  | JObject obj => JObject (fold_left (fun obj k => alter_member rename_link k obj) LINKS obj)
  | _ => rev
  end.
Definition rename_keys (f : Json -> Json) (v : Json) : Json :=
  match v with JObject m => JObject (prod_map rename f <$> m) | _ => v end.
Definition rename_claim (claim : Json) : Json :=
  match claim with
  | JObject c => JObject (alter_member (rename_keys id) "file_index" (alter_member (rename_keys rename_revision) "revisions" c))
  | _ => claim
  end.
(** The document whose claim has every revision under another hash. *)
Definition rename_document (doc : Json) : Json :=
  match doc with JObject m => JObject (alter_member rename_claim "identity_claim" m) | _ => doc end.
End renaming.

(** ** Lemmas *)

(** What the walk leaves at a member. *)
Definition walked (blank : bool) (k : string) (child : Json) : Json :=
  match blanked blank (JObject [(k, child)]) with JObject [(_, v)] => v | v => v end.

#[local] Arguments walked : simpl never.

Lemma blanked_object b m : blanked b (JObject m) = JObject ((fun e => (e.1, walked b e.1 e.2)) <$> m).
Proof. cbn. f_equal. apply list_fmap_ext. intros i [k child] _. reflexivity. Qed.

(** Walking again changes nothing. *)
Lemma blanked_idempotent v : forall b, blanked b (blanked b v) = blanked b v.
Proof.
  induction v as [|b|n|s|l IH|m IH] using Json_rect'; intros blank; try done.
  - cbn. f_equal. rewrite <- list_fmap_compose. apply list_fmap_ext. intros i x Hx. cbn.
    rewrite Forall_forall in IH. apply IH. by eapply list_elem_of_lookup_2.
  - cbn. f_equal. rewrite <- list_fmap_compose. apply list_fmap_ext. intros i [k child] Hx. cbn.
    rewrite Forall_forall in IH. apply list_elem_of_lookup_2 in Hx. specialize (IH _ Hx). cbn in IH.
    repeat (case_decide; [done|]). case_decide; [|by rewrite IH].
    destruct blank; [done|]. f_equal. destruct child; try done; try apply IH.
Qed.

(** What commutes with the walk below a member commutes with the walk. *)
Lemma blanked_alter b k f m :
  (forall c, walked b k (f c) = f (walked b k c)) ->
  blanked b (JObject (alter_member f k m)) =
    match blanked b (JObject m) with JObject m' => JObject (alter_member f k m') | v => v end.
Proof.
  intros Hf. rewrite !blanked_object. f_equal. unfold alter_member. rewrite <- !list_fmap_compose.
  apply list_fmap_ext. intros i [k' c] _. cbn -[walked]. case_decide as E; [by rewrite E, Hf|done].
Qed.

Lemma walked_plain b k c : k ∉ BLANKED -> walked b k c = blanked false c.
Proof.
  intros Hk. unfold walked. cbn. repeat (case_decide; [subst; exfalso; apply Hk; set_solver|]). done.
Qed.

Lemma get_alter k k' f m :
  get_member k (alter_member f k' m) = (if decide (k = k') then f else id) <$> get_member k m.
Proof.
  induction m as [|[k0 v] m IH]; [by case_decide|]. cbn in *. unfold get_member in *. cbn.
  case_bool_decide; [|exact IH]. cbn. subst. by case_decide.
Qed.

Lemma find_fmap {A B} (f : A -> B) p q l :
  (forall x, q (f x) = p x) -> find q (f <$> l) = f <$> find p l.
Proof. intros Hq. induction l as [|x l IH]; [done|]. cbn. rewrite Hq. by destruct (p x). Qed.

Lemma fold_alter_fmap f ks m :
  fold_left (fun m k => alter_member f k m) ks m =
    (fun e => (e.1, fold_left (fun v k => if decide (e.1 = k) then f v else v) ks e.2)) <$> m.
Proof.
  revert m. induction ks as [|k ks IH]; intros m; cbn.
  - symmetry. rewrite <- (list_fmap_id m) at 2. apply list_fmap_ext. by intros i [] _.
  - rewrite IH. unfold alter_member. by rewrite <- list_fmap_compose.
Qed.

Section portable.
Variable rename : string -> string.
Context `{Hinj : !Inj (=) (=) rename}.
Hypothesis Hfixed : forall k, k ∈ BLANKED -> rename k = k.

Lemma rename_decide {A} k n (x y : A) :
  n ∈ BLANKED -> (if decide (rename k = n) then x else y) = if decide (k = n) then x else y.
Proof.
  intros Hn. apply decide_ext. split; [|by intros ->; apply Hfixed].
  rewrite <- (Hfixed n) at 1 by done. apply (inj rename).
Qed.

Lemma walked_rename b k c : walked b (rename k) c = walked b k c.
Proof. unfold walked. cbn. rewrite !rename_decide by set_solver. done. Qed.

(** *** Renaming commutes with the walk *)

Lemma blanked_rename_link c : blanked false (rename_link rename c) = rename_link rename (blanked false c).
Proof.
  destruct c as [| | | |l|]; try done. cbn. f_equal. rewrite <- !list_fmap_compose.
  apply list_fmap_ext. by intros i [] _.
Qed.

Lemma blanked_rename_revision b c :
  blanked b (rename_revision rename c) = rename_revision rename (blanked b c).
Proof.
  destruct c as [| | | | |m]; try done. cbn [rename_revision LINKS fold_left].
  rewrite !blanked_alter.
  - by rewrite blanked_object.
  - intros c. rewrite !walked_plain by set_solver. apply blanked_rename_link.
  - intros c. rewrite !walked_plain by set_solver. apply blanked_rename_link.
Qed.

Lemma walked_rename_revision b k c :
  walked b k (rename_revision rename c) = rename_revision rename (walked b k c).
Proof.
  unfold walked. cbn. repeat case_decide; try done; try apply blanked_rename_revision.
  destruct b; [done|]. destruct c as [| | | | |m]; try done. apply (blanked_rename_revision true (JObject m)).
Qed.

Lemma blanked_rename_keys (f : Json -> Json) c :
  (forall b k v, walked b k (f v) = f (walked b k v)) ->
  blanked false (rename_keys rename f c) = rename_keys rename f (blanked false c).
Proof.
  intros Hf. destruct c as [| | | | |m]; try done. cbn [rename_keys]. rewrite !blanked_object. cbn [rename_keys].
  f_equal. rewrite <- !list_fmap_compose. apply list_fmap_ext. intros i [k v] _. cbn.
  by rewrite walked_rename, Hf.
Qed.

Lemma blanked_rename doc : blanked false (rename_document rename doc) = rename_document rename (blanked false doc).
Proof.
  destruct doc as [| | | | |m]; try done. cbn [rename_document]. rewrite blanked_alter; [by rewrite blanked_object|].
  intros c. rewrite !walked_plain by set_solver. destruct c as [| | | | |c]; try done. cbn [rename_claim].
  rewrite !blanked_alter; [by rewrite blanked_object| |];
    intros v; rewrite !walked_plain by set_solver; apply blanked_rename_keys;
    first [apply walked_rename_revision|by intros].
Qed.

(** *** The order of the renamed revisions *)

Abbreviation renamed := (prod_map rename (rename_revision rename)).
Abbreviation link := (json_get (JsonCrate := json_values)).
Abbreviation previous := (previous_text (H := json_values)).

Lemma renamed_link rev :
  link (rename_revision rename rev) "previous_revision" =
    rename_link rename <$> link rev "previous_revision".
Proof.
  destruct rev as [| | | | |m]; try done. cbn [json_get json_values rename_revision LINKS fold_left].
  by rewrite !get_alter, <- option_fmap_compose.
Qed.

Lemma renamed_previous rev : previous (rename_revision rename rev) = rename <$> previous rev.
Proof.
  unfold previous_text. rewrite renamed_link. by destruct (link rev "previous_revision") as [[]|].
Qed.

Lemma renamed_genesis rev :
  is_genesis (H := json_values) (rename_revision rename rev) = is_genesis (H := json_values) rev.
Proof.
  unfold is_genesis. rewrite renamed_link. by destruct (link rev "previous_revision") as [[]|].
Qed.

Lemma renamed_walk fuel (m : Members) : forall (cur : option string) (order : list string),
  walk (H := json_values) fuel (renamed <$> m : Members) (rename <$> cur : option string) (rename <$> order : list string) =
    fmap (M := option) (fmap (M := list) rename) (walk (H := json_values) fuel m cur order).
Proof.
  induction fuel as [|fuel IH]; intros [h|] order; try done. cbn [walk fmap option_fmap option_map].
  rewrite <- IH. f_equal; [|by rewrite fmap_app].
  unfold next_revision. rewrite (find_fmap _ (fun e => bool_decide (previous e.2 = Some h))).
  - by destruct find.
  - intros [k rev]. cbn [prod_map fst snd]. rewrite renamed_previous. apply bool_decide_ext.
    destruct (previous rev); cbn; [|done]. split; [by intros [= ->%(inj rename)]|by intros [= ->]].
Qed.

Lemma renamed_orphans (hashes : list string) : forall order : list string,
  append_orphans (rename <$> hashes) (rename <$> order) = rename <$> append_orphans hashes order.
Proof.
  induction hashes as [|h hashes IH]; intros order; [done|]. cbn. rewrite <- IH. f_equal.
  rewrite (bool_decide_ext (rename h ∈ rename <$> order) (h ∈ order)) by apply (list_elem_of_fmap_inj rename).
  case_bool_decide; [done|by rewrite fmap_app].
Qed.

Lemma renamed_order (m : Members) :
  topological_revision_order (H := json_values) (renamed <$> m : Members) =
    fmap (M := option) (fmap (M := list) rename) (topological_revision_order (H := json_values) m).
Proof.
  unfold topological_revision_order, find_genesis. rewrite length_fmap.
  rewrite (find_fmap _ (fun e => is_genesis (H := json_values) e.2)) by (intros []; apply renamed_genesis).
  replace (fst <$> (renamed <$> find (fun e => is_genesis (H := json_values) e.2) m))
    with (rename <$> (fst <$> find (fun e => is_genesis (H := json_values) e.2) m)) by (by destruct find).
  rewrite (renamed_walk _ _ _ []), <- !option_fmap_compose. apply option_fmap_ext. intros l. cbn.
  rewrite <- renamed_orphans, <- !list_fmap_compose. done.
Qed.

Lemma renamed_claim_order c c' :
  rename_claim rename (JObject c) = JObject c' -> claim_order c' = rename <$> claim_order c.
Proof.
  cbn [rename_claim]. intros [= <-]. unfold claim_order. rewrite !get_alter. cbn [decide].
  destruct (get_member "revisions" c) as [[| | | | |m]|]; try done. cbn -[topological_revision_order].
  etransitivity; [exact (f_equal (default []) (renamed_order m))|]. by destruct topological_revision_order.
Qed.

(** *** What is left of the members *)

Abbreviation over g := (fun e : string * Json => (e.1, g e.2)).

Lemma get_renamed g h (m : Members) : get_member (rename h) (prod_map rename g <$> m) = g <$> get_member h m.
Proof.
  unfold get_member. rewrite (find_fmap _ (fun e => bool_decide (e.1 = h))); [by destruct find|].
  intros [k v]. cbn. apply bool_decide_ext. split; [apply (inj rename)|by intros ->].
Qed.

Lemma over_insert g k v m : insert_member k (g v) (over g <$> m) = over g <$> insert_member k v m.
Proof.
  unfold insert_member. rewrite <- list_fmap_compose.
  rewrite (decide_ext (k ∈ (fst ∘ over g) <$> m) (k ∈ m.*1)) by done. case_decide; [|by rewrite fmap_app].
  unfold set_member, alter_member. rewrite <- !list_fmap_compose. apply list_fmap_ext.
  intros i [k' w] _. cbn. by case_decide.
Qed.

Lemma by_position_renamed g (o : list string) (m : Members) : forall idx (acc : Members),
  by_position idx (rename <$> o) (prod_map rename g <$> m) (over g <$> acc) = over g <$> by_position idx o m acc.
Proof.
  induction o as [|h o IH]; intros idx acc; [done|]. cbn. rewrite get_renamed, <- IH. f_equal.
  destruct (get_member h m); [apply over_insert|done].
Qed.

Lemma remap_renamed g (o : list string) v :
  remap (rename <$> o) (rename_keys rename g v) = over_members g (remap o v).
Proof.
  destruct v as [| | | | |m]; try done. cbn. f_equal. apply (by_position_renamed g o m 0 []).
Qed.

Lemma blank_renamed rev : blank_revision (rename_revision rename rev) = blank_revision rev.
Proof.
  destruct rev as [| | | | |m]; try done. cbn [rename_revision blank_revision]. do 3 f_equal.
  unfold REFERENCES, LINKS, alter_member. cbn [fold_left]. rewrite <- !list_fmap_compose. apply list_fmap_ext.
  intros i [k v] _. cbn. f_equal. repeat (case_decide; [simplify_eq; try done|]); try done;
    destruct v as [| | | |l|]; try done; cbn; by rewrite <- list_fmap_compose.
Qed.

Lemma over_over f g v : over_members f (over_members g v) = over_members (f ∘ g) v.
Proof. destruct v; try done. cbn. by rewrite <- list_fmap_compose. Qed.

Lemma over_ext f g v : (forall c, f c = g c) -> over_members f v = over_members g v.
Proof. intros E. destruct v as [| | | | |m]; try done. cbn. f_equal. apply list_fmap_ext. intros i e _. by rewrite E. Qed.

Lemma normalise_renamed c c' :
  rename_claim rename (JObject c) = JObject c' -> normalise_claim c' = normalise_claim c.
Proof.
  intros Hc. pose proof (renamed_claim_order c c' Hc) as Ho. cbn in Hc. injection Hc as <-.
  unfold normalise_claim. rewrite Ho. generalize (claim_order c) as o. intros o.
  unfold alter_member. rewrite <- !list_fmap_compose. apply list_fmap_ext. intros i [k v] _.
  cbn -[remap rename_keys over_members rename_revision blank_revision]. f_equal.
  destruct (decide (k = "revisions")) as [->|]; [|destruct (decide (k = "file_index")) as [->|]; [|done]];
    cbn -[remap rename_keys over_members rename_revision blank_revision];
    repeat (case_decide; try done); rewrite remap_renamed, over_over.
  - apply over_ext, blank_renamed.
  - done.
Qed.

(** The snapshot depends on no hash.  Give every revision of a document's
    claim another hash — in the revision map, in the file index and in the
    links from one revision to another — by any injective renaming that leaves
    the names the walk blanks alone: the normalised document is the same,
    member for member and in the same order.  The test that compares it with a
    golden file therefore sees neither the random nonces nor what follows from
    them. *)
Theorem snapshot_portable doc : normalise_for_snapshot (rename_document rename doc) = normalise_for_snapshot doc.
Proof.
  unfold normalise_for_snapshot. rewrite blanked_rename.
  destruct (blanked false doc) as [| | | | |m]; try done. cbn [rename_document]. do 2 f_equal.
  unfold alter_member. rewrite <- list_fmap_compose. apply list_fmap_ext. intros i [k v] _. cbn. case_decide; [|done].
  f_equal. destruct v as [| | | | |c]; try done. f_equal. by apply normalise_renamed.
Qed.
End portable.
