(* ===== verification/Pages.v ===== *)
(** * Pages, static routes and the event stream
    ([crates/aqua-timestamp/src]: [landing.rs], [docs.rs], [routes.rs], the
    health tick of [lib.rs]; [crates/aqua-timestamp/build.rs])

    The texts of the templates and the icons are arguments.  Of the build
    script, the environment and the [git] program are given; the lines it prints
    are what cargo acts on. *)

From S2P Require Import Prelude External Epoch Utf8 Kv Storage StoreSpec StoreRefine StoreScans Text Config Identity.
Open Scope string_scope.
Open Scope list_scope.
Open Scope Z_scope.

(** ** Templates *)

(** [s.replace(p, r)] for a pattern that is not empty. *)
Fixpoint replace_fuel (fuel : nat) (p r s : string) : string :=
  match fuel with
  | O => s
  | S fuel' =>
      match strip_prefix p s, s with
      | Some rest, _ => r +:+ replace_fuel fuel' p r rest
      | None, EmptyString => EmptyString
      | None, String c s' => String c (replace_fuel fuel' p r s')
      end
  end.
Definition replace (p r s : string) : string := replace_fuel (S (String.length s)) p r s.

(** [landing::render]. *)
Definition render (TEMPLATE : string) (identity : ServiceIdentity) : string :=
  replace "{SERVICE_ADDRESS}" (address_eip55 identity) TEMPLATE.

Definition substitute (template : string) (identity : ServiceIdentity) : string :=
  replace "{IP}" (si_ip identity)
    (replace "{DNS}" (si_dns identity)
       (replace "{SERVER_DID}" (server_did identity)
          (replace "{BASE_URL}" ("https://" +:+ si_dns identity) template))).

Definition render_skill_md (SKILL_TEMPLATE : string) : ServiceIdentity -> string := substitute SKILL_TEMPLATE.
Definition render_skill_auth_md (SKILL_AUTH_TEMPLATE : string) : ServiceIdentity -> string := substitute SKILL_AUTH_TEMPLATE.
Definition render_html (HTML_TEMPLATE : string) : ServiceIdentity -> string := substitute HTML_TEMPLATE.

(** ** Static routes *)

Record Page := { pg_status : Z; pg_headers : list (string * string); pg_text : string }.

Definition content_type (t : string) : string * string := ("content-type", t).
Definition no_store : string * string := ("cache-control", "no-store").
Definition in_double_quotes (s : string) : string :=
  String (Ascii.ascii_of_nat 34) s +:+ String (Ascii.ascii_of_nat 34) EmptyString.

Definition HEALTH_PASS_BODY : string := "{" +:+ in_double_quotes "status" +:+ ":" +:+ in_double_quotes "pass" +:+ "}".
Definition health : Page :=
  {| pg_status := 200; pg_headers := [content_type "application/health+json"; no_store]; pg_text := HEALTH_PASS_BODY |}.

Record VersionResponse := {
  ver_service : string; ver_version : string; ver_protocol_version : string; ver_revision : string; ver_dirty : bool }.
(** The answer and its header. *)
Definition version (pkg_version protocol_version git_sha git_dirty : string) : (string * string) * VersionResponse :=
  (no_store, {| ver_service := "aqua-timestamp"; ver_version := pkg_version; ver_protocol_version := protocol_version;
                ver_revision := git_sha; ver_dirty := bool_decide (git_dirty = "1") |}).

(** The pages [AppState] keeps rendered. *)
Record Pages := { landing_html : string; docs_html : string; well_known_skill_md_text : string; well_known_skill_auth_md_text : string }.

Definition html (text : string) : Page :=
  {| pg_status := 200; pg_headers := [content_type "text/html; charset=utf-8"]; pg_text := text |}.
Definition markdown (text : string) : Page :=
  {| pg_status := 200; pg_headers := [content_type "text/markdown; charset=utf-8"]; pg_text := text |}.
Definition landing_page (state : Pages) : Page := html (landing_html state).
Definition blueprint_page (HTML : string) : Page := html HTML.
Definition docs_page (state : Pages) : Page := html (docs_html state).
Definition well_known_skill_md (state : Pages) : Page := markdown (well_known_skill_md_text state).
Definition well_known_skill_auth_md (state : Pages) : Page := markdown (well_known_skill_auth_md_text state).

(** What [build_app] renders once. *)
Definition rendered (landing docs skill skill_auth : string) (identity : ServiceIdentity) : Pages :=
  {| landing_html := render landing identity; docs_html := render_html docs identity;
     well_known_skill_md_text := render_skill_md skill identity;
     well_known_skill_auth_md_text := render_skill_auth_md skill_auth identity |}.

Definition icon (content bytes_text : string) : Page :=
  {| pg_status := 200; pg_headers := [content_type content; ("cache-control", "public, max-age=604800")]; pg_text := bytes_text |}.
Definition favicon_ico (BYTES : string) : Page := icon "image/x-icon" BYTES.
Definition apple_touch_icon (BYTES : string) : Page := icon "image/png" BYTES.

(** [aqua_orl]: the declared readiness level. *)
Record OrlDocument := {
  orl : Z; orl_label : string; orl_color : string; orl_since : string; orl_assessed_by : string;
  orl_next_level_blockers : list string; orl_checklist_url : string }.
Definition aqua_orl : OrlDocument :=
  {| orl := 2; orl_label := "Development"; orl_color := "#F97316"; orl_since := "2026-05-17";
     orl_assessed_by := "tim.bansemer@inblock.io";
     orl_next_level_blockers :=
       ["Security review not started"; "Backup restore not verified"; "Monitoring and alerting not active";
        "Dependency audit not completed"];
     orl_checklist_url := "https://github.com/inblockio/aqua-timestamps/blob/main/ORL.md" |}.

(** ** The event stream *)

(** What a subscriber receives: an event, or that it lags by some. *)
Inductive Received := Got (e : SseEvent) | Lagged (n : u64).
Record Frame := { fr_event : string; fr_data : string }.

(** [sse_events]: the stream of a subscriber's events, those that serialise. *)
Definition sse_frame (to_json : SseEvent -> result string string) (r : Received) : option Frame :=
  match r with
  | Got event => data ← ok (to_json event); Some {| fr_event := event_name event; fr_data := data |}
  | Lagged _ => None
  end.
Definition sse_events (to_json : SseEvent -> result string string) (received : list Received) : list Frame :=
  omap (sse_frame to_json) received.

Section ticks.
Context `{HexCrate, Sdk, Fjall, SerdeCrates, !StoreCodecs}.

(** One health tick: the uptime and the store it reads. *)
Definition health_tick (uptime_secs : u64) (ks : Keyspace) : list SseEvent :=
  match totals ks with Ok (epochs_total, leaves_total) => [HealthTick uptime_secs epochs_total leaves_total] | Err _ => [] end.
Definition health_ticks (readings : list (u64 * Keyspace)) : list SseEvent :=
  flat_map (fun r => health_tick r.1 r.2) readings.
End ticks.

(** ** What is replaced *)

(** A replacement that starts with a byte the pattern has not, and has not the
    pattern's first byte. *)
Definition foreign (p r : string) : Prop :=
  exists c r' d p', r = String c r' /\ p = String d p' /\
    c ∉ String.list_ascii_of_string p /\ d ∉ String.list_ascii_of_string r.

Lemma starts_with_cons d q c s :
  starts_with (String d q) (String c s) = true <-> d = c /\ starts_with q s = true.
Proof.
  unfold starts_with. cbn. destruct (decide (d = c)); [|split; [done|by intros []]].
  split; [by split|by intros []].
Qed.

(** What the result starts with, short of a byte of the replacement, the text
    starts with. *)
Lemma replace_starts n p c r' q s :
  c ∉ String.list_ascii_of_string q -> starts_with q (replace_fuel n p (String c r') s) = true -> starts_with q s = true.
Proof.
  revert s n; induction q as [|d q IH]; intros s n Hc; [done|]. cbn [String.list_ascii_of_string] in Hc.
  apply not_elem_of_cons in Hc as [Hd Hc]. destruct n as [|n]; [done|]. cbn [replace_fuel].
  destruct (strip_prefix p s) as [rest|].
  - intros [-> _]%starts_with_cons. done.
  - destruct s as [|e s]; [done|]. intros [-> Hq]%starts_with_cons. apply starts_with_cons. split; [done|]. by eapply IH.
Qed.

Lemma contains_skip d p r out :
  d ∉ String.list_ascii_of_string r -> contains (String d p) out = false -> contains (String d p) (r +:+ out) = false.
Proof.
  induction r as [|c r IH]; [done|]. cbn [String.list_ascii_of_string]. intros [Hd Hr]%not_elem_of_cons Ho.
  change (String c r +:+ out) with (String c (r +:+ out)). cbn [contains]. apply orb_false_iff. split; [|by apply IH].
  apply not_true_is_false. by intros [-> _]%starts_with_cons.
Qed.

Lemma replace_absent p r s : foreign p r -> contains p (replace p r s) = false.
Proof.
  intros (c & r' & d & p' & -> & -> & Hc & Hd). unfold replace. generalize (Nat.lt_succ_diag_r (String.length s)).
  generalize (S (String.length s)). intros n. revert s. induction n as [|n IH]; intros s Hn; [lia|]. cbn [replace_fuel].
  destruct (strip_prefix (String d p') s) as [rest|] eqn:Hs.
  - apply contains_skip; [done|]. apply IH. apply strip_prefix_Some in Hs as ->. rewrite string_length_app in Hn. cbn in Hn. lia.
  - destruct s as [|e s]; [done|]. cbn [contains]. apply orb_false_iff. split; [|apply IH; cbn in Hn; lia].
    apply not_true_is_false. intros Hst.
    assert (starts_with (String d p') (String e s) = true) as Hw.
    { apply starts_with_cons in Hst as [-> Hq]. apply starts_with_cons. split; [done|]. eapply replace_starts; [|exact Hq].
      cbn [String.list_ascii_of_string] in Hc. by apply not_elem_of_cons in Hc as [_ ?]. }
    unfold starts_with in Hw. rewrite Hs in Hw. by apply bool_decide_eq_true in Hw as [].
Qed.

(** A page that was rendered for an address as the service spells it has no
    placeholder left. *)
Theorem landing_rendered TEMPLATE identity digits :
  address_eip55 identity = "0x" +:+ digits -> Ascii.ascii_of_nat 123 ∉ String.list_ascii_of_string digits ->
  contains "{SERVICE_ADDRESS}" (render TEMPLATE identity) = false.
Proof.
  intros Ha Hd. unfold render. rewrite Ha. apply replace_absent.
  eexists _, _, _, _. split; [reflexivity|]. split; [reflexivity|]. split.
  - apply (bool_decide_unpack _). vm_compute. exact I.
  - cbn [String.list_ascii_of_string String.append]. by intros [?|[?|?]%elem_of_cons]%elem_of_cons.
Qed.

(** ** What the ticks say *)

Section facts.
Context `{HexLaws, Sdk, FjallLaws, SerdeCrates, !StoreCodecs, !StoreCodecLaws}.

(** Every tick that is sent says what the store it read holds; a store that
    fails sends none. *)
Theorem health_ticks_true readings e :
  Forall (fun r => exists A : AStore, represents (view r.2) A) readings -> e ∈ health_ticks readings ->
  exists uptime ks (A : AStore) recs, (uptime, ks) ∈ readings /\ represents (view ks) A /\ recs ≡ₚ (map_to_list (A epochs)).*2 /\
    e = HealthTick uptime (Z.of_nat (length recs) mod 2 ^ 64) (foldr Z.add 0 (er_leaf_count <$> recs) mod 2 ^ 64).
Proof.
  intros Hall (r & Hin & He)%list_elem_of_In%in_flat_map. apply list_elem_of_In in Hin.
  rewrite Forall_forall in Hall. destruct (Hall r Hin) as [A HA]. destruct r as [uptime ks]. cbn [fst snd] in *.
  unfold health_tick in He. pose proof (totals_read ks A HA) as Ht. destruct (totals ks) as [[ep lv]|]; [|done].
  destruct Ht as (recs & Hp & [= -> ->]). destruct He as [<-|[]]. by exists uptime, ks, A, recs.
Qed.
End facts.

(** ** What the build stamps into the binary *)

Definition is_ascii_hexdigit (c : Ascii.ascii) : bool :=
  let n := Ascii.nat_of_ascii c in
  (48 <=? n)%nat && (n <=? 57)%nat || (65 <=? n)%nat && (n <=? 70)%nat || (97 <=? n)%nat && (n <=? 102)%nat.

Definition is_full_sha (s : string) : bool :=
  (String.length s =? 40)%nat && forallb is_ascii_hexdigit (String.list_ascii_of_string s).

Section build.
(** A variable that is set to UTF-8; a run of [git], when it ran: whether it
    succeeded, and its output as (lossy) text. *)
Context (env : string -> option string) (output : list string -> option (bool * string)).

Definition git (args : list string) : option string :=
  match output args with Some (true, stdout) => Some (trim stdout) | _ => None end.

Definition full_sha (s : string) : option string := if is_full_sha s then Some s else None.

Definition sha : string :=
  match s ← env "GIT_SHA"; full_sha (to_ascii_lowercase (trim s)) with
  | Some s => s
  | None => default "unknown" (git ["rev-parse"; "HEAD"] ≫= full_sha)
  end.

Definition dirty : bool :=
  match env "GIT_DIRTY" with
  | Some v => bool_decide (trim v = "1")
  | None =>
      match git ["status"; "--porcelain"; "--untracked-files=no"] with
      | Some s => negb (bool_decide (s = ""))
      | None => false
      end
  end.

(** [Path::join]. *)
Definition join (base name : string) : string :=
  if starts_with "/" name then name
  else if bool_decide (base = "") || ends_with "/" base then base +:+ name
  else base +:+ "/" +:+ name.

Definition dirty_text : string := if dirty then "1" else "0".

Definition build_lines : list string :=
  ["cargo:rustc-env=GIT_SHA=" +:+ sha; "cargo:rustc-env=GIT_DIRTY=" +:+ dirty_text;
   "cargo:rerun-if-env-changed=GIT_SHA"; "cargo:rerun-if-env-changed=GIT_DIRTY"] ++
  match git ["rev-parse"; "--git-dir"] with
  | Some gd =>
      ("cargo:rerun-if-changed=" +:+ join gd "HEAD") ::
      match git ["symbolic-ref"; "-q"; "HEAD"] with
      | Some r => ["cargo:rerun-if-changed=" +:+ join gd r]
      | None => []
      end
  | None => []
  end.

(** What a running service says it is: [/version] names a full commit hash or
    says that the build did not know it, never anything else; the environment's
    hash wins over git's; and the service is dirty when the environment says 1,
    or says nothing and git lists a changed file. *)
Lemma version_tells_the_build pkg protocol :
  let v := (version pkg protocol sha dirty_text).2 in
  (is_full_sha (ver_revision v) = true \/ ver_revision v = "unknown") /\
  (forall s, env "GIT_SHA" = Some s -> is_full_sha (to_ascii_lowercase (trim s)) = true ->
     ver_revision v = to_ascii_lowercase (trim s)) /\
  (ver_dirty v = true <->
     (exists d, env "GIT_DIRTY" = Some d /\ trim d = "1") \/
     env "GIT_DIRTY" = None /\ exists out, output ["status"; "--porcelain"; "--untracked-files=no"] = Some (true, out) /\ trim out <> "").
Proof.
  cbn [version ver_revision ver_dirty snd]. split; [|split].
  - unfold sha, full_sha. destruct (env "GIT_SHA") as [s|]; cbn;
      [destruct (is_full_sha (to_ascii_lowercase (trim s))) eqn:Hs; [by left|]|];
      (destruct (git _) as [g|]; cbn; [destruct (is_full_sha g) eqn:Hg; [by left|]|]; by right).
  - intros s Hs Hf. unfold sha, full_sha. rewrite Hs. cbn. by rewrite Hf.
  - assert (bool_decide (dirty_text = "1") = dirty) as -> by (unfold dirty_text; by destruct dirty).
    unfold dirty, git.
    destruct (env "GIT_DIRTY") as [d|] eqn:Hd.
    + case_bool_decide as Ht; [split; [intros _; left; by exists d|done]|].
      split; [done|]. intros [(x & [= <-] & ?)|[[=] _]]. done.
    + destruct (output _) as [[[] out]|].
      * case_bool_decide as Ho; cbn; split; try done.
        -- intros [(x & [=] & _)|(_ & o & [= <-] & ?)]. done.
        -- intros _. right. split; [done|]. by exists out.
      * split; [done|]. intros [(x & [=] & _)|(_ & o & [=] & _)].
      * split; [done|]. intros [(x & [=] & _)|(_ & o & [=] & _)].
Qed.
End build.
