(* ===== verification/App.v ===== *)
(** * Assembling the service
    ([build_app_with_anchors] of [crates/aqua-timestamp/src/lib.rs])

    The part of the assembly that decides: the configuration checks, the
    identity document, the witness context with its providers and self-check hosts, the epoch the
    accumulator opens with, the seal loop and the watched wallet.  The rendered
    pages and the health tick are in [Pages], the router in [Router], what runs
    once assembled in [Service]. *)

From S2P Require Import Prelude External Merkle Accumulator Witness Selfcheck Epoch Utf8 Kv Storage StoreSpec StoreRefine StoreScans SealStore Anchors Sealer SealInv SealerProofs SealerTheorems Text Config SealLoops Watcher Identity.
Open Scope string_scope.
Open Scope list_scope.
Open Scope Z_scope.

(** ** The crates' constructors *)

Class LiveAnchors `{AnchorWorld} := {
  (** [CliEthTimestamper::new], [TsaTimestamper::new] with its throttle. *)
  cli_eth_timestamper : string -> string -> EvmChain -> SdkProvider;
  tsa_timestamper : string -> option u64 -> SdkProvider;
  (** [EthBlockchainHost] with its endpoint, [TsaWebHost::new]. *)
  eth_blockchain_host : u64 -> string -> World -> BlockchainHost;
  tsa_web_host : World -> WebHost;
  (** [str::parse::<Address>]. *)
  parse_address : string -> option Address;
}.

Section assembly.
Context `{HexLaws, SdkLaws, !AnchorWorld, !LiveAnchors, FjallLaws, SerdeCrates, !StoreCodecs, !StoreCodecLaws, Sha3Crate, !ClaimLaws, EvmChains, !IdentityCrates}.

Record AnchorOverrides := {
  ov_evm : option AnchorProvider;
  ov_qtsa : option AnchorProvider;
  ov_evm_check_host : option (World -> BlockchainHost);
  ov_tsa_check_host : option (World -> WebHost);
}.

Inductive AppError :=
| AppConfig (e : ConfigError)
| AppStore (e : StoreError)
| AppSeal (e : SealError)
| AppWallet (address : string)
| AppIdentity (text : string).

Definition is_none {A} (o : option A) : bool := bool_decide (o = None).

(** The configuration checked for providers: an injected one stands in. *)
Definition checked_config (cfg : Config) (anchors : AnchorOverrides) : Config :=
  let evm := anchors_evm (cfg_anchors cfg) in
  let qtsa := anchors_qtsa (cfg_anchors cfg) in
  {| cfg_server := cfg_server cfg; cfg_identity := cfg_identity cfg; cfg_auth := cfg_auth cfg;
     cfg_storage := cfg_storage cfg; cfg_epoch := cfg_epoch cfg;
     cfg_anchor_legacy := cfg_anchor_legacy cfg;
     cfg_anchors :=
       {| anchors_evm :=
            {| evm_enabled :=
                 evm_enabled evm && match ov_evm anchors with None => true | Some _ => false end;
               evm_rpc_url := evm_rpc_url evm; evm_chain_name := evm_chain_name evm;
               evm_network_label := evm_network_label evm;
               evm_not_found_timeout_secs := evm_not_found_timeout_secs evm |};
          anchors_qtsa :=
            {| qtsa_enabled :=
                 qtsa_enabled qtsa && match ov_qtsa anchors with None => true | Some _ => false end;
               qtsa_url := qtsa_url qtsa;
               qtsa_min_request_interval_secs := qtsa_min_request_interval_secs qtsa |} |};
     cfg_bonding_curve := cfg_bonding_curve cfg; cfg_leaderboard := cfg_leaderboard cfg |}.

Definition check_config (cfg : Config) (identity : ServiceIdentity) (anchors : AnchorOverrides)
    : result ConfigError unit :=
  let? _ :=
    match ov_evm anchors, ov_qtsa anchors with
    | Some _, Some _ => Ok tt
    | _, _ => check_enabled_anchors (checked_config cfg anchors) (mnemonic identity)
    end in
  check_evm_chain_source cfg.

(** Ids are monotonic across restarts. *)
Definition next_epoch_id (ks : Keyspace) : result StoreError u64 :=
  let? last := last_sealed_epoch_id ks in
  Ok (match last with Some id => sat_add id 1 | None => 1 end).

Definition evm_provider (cfg : Config) (identity : ServiceIdentity) (anchors : AnchorOverrides)
    : result ConfigError (option AnchorProvider) :=
  let evm := anchors_evm (cfg_anchors cfg) in
  if negb (evm_enabled evm) then Ok None
  else
    match ov_evm anchors with
    | Some injected => Ok (Some injected)
    | None =>
        let? chain := evm_chain (evm_chain_name evm) in
        Ok (Some (SdkOne (cli_eth_timestamper (mnemonic identity) (evm_rpc_url evm) chain)))
    end.

Definition qtsa_provider (cfg : Config) (anchors : AnchorOverrides) : option AnchorProvider :=
  let qtsa := anchors_qtsa (cfg_anchors cfg) in
  if negb (qtsa_enabled qtsa) then None
  else
    match ov_qtsa anchors with
    | Some injected => Some injected
    | None => Some (SdkOne (tsa_timestamper (qtsa_url qtsa) (throttle qtsa)))
    end.

Definition enabled_methods (cfg : Config) : list AnchorMethod :=
  (if evm_enabled (anchors_evm (cfg_anchors cfg)) then [Evm] else []) ++
  (if qtsa_enabled (anchors_qtsa (cfg_anchors cfg)) then [Qtsa] else []).

Definition evm_check_host (cfg : Config) (anchors : AnchorOverrides)
    : result ConfigError (option (World -> BlockchainHost)) :=
  let evm := anchors_evm (cfg_anchors cfg) in
  if negb (evm_enabled evm) then Ok None
  else
    match ov_evm_check_host anchors with
    | Some host => Ok (Some host)
    | None =>
        let? chain := evm_chain (evm_chain_name evm) in
        Ok (Some (eth_blockchain_host (evm_chain_id chain) (evm_rpc_url evm)))
    end.

Definition tsa_check_host (cfg : Config) (anchors : AnchorOverrides) : option (World -> WebHost) :=
  if negb (qtsa_enabled (anchors_qtsa (cfg_anchors cfg))) then None
  else Some (default tsa_web_host (ov_tsa_check_host anchors)).

(** [witness_ctx.evm_not_found_timeout_secs = ...]. *)
Definition set_timeout (c : WitnessContext) (secs : u64) : WitnessContext :=
  {| c_signer := c_signer c; c_service_eth_address := c_service_eth_address c;
     c_methods := c_methods c; c_evm_anchor := c_evm_anchor c; c_qtsa_anchor := c_qtsa_anchor c;
     c_self_check := c_self_check c; c_evm_not_found_timeout_secs := secs;
     c_max_anchor_faults := c_max_anchor_faults c; c_service_did := c_service_did c |}.

Definition with_opt_evm (c : WitnessContext) (o : option AnchorProvider) : WitnessContext :=
  match o with Some a => with_evm_anchor c a | None => c end.
Definition with_opt_qtsa (c : WitnessContext) (o : option AnchorProvider) : WitnessContext :=
  match o with Some a => with_qtsa_anchor c a | None => c end.

Definition build_witness_ctx (cfg : Config) (finality : EvmFinalityRequirement)
    (identity : ServiceIdentity) (anchors : AnchorOverrides) : result ConfigError WitnessContext :=
  let? evm_anchor := evm_provider cfg identity anchors in
  let qtsa_anchor := qtsa_provider cfg anchors in
  let ctx :=
    set_timeout
      (WitnessContext_new (secp256k1_signer (private_key identity))
         ("0x" +:+ trim_start_matches "0x" (address_eip55 identity)) (enabled_methods cfg))
      (evm_not_found_timeout_secs (anchors_evm (cfg_anchors cfg))) in
  let ctx := with_opt_qtsa (with_opt_evm ctx evm_anchor) qtsa_anchor in
  let? evm_host := evm_check_host cfg anchors in
  let tsa_host := tsa_check_host cfg anchors in
  Ok (with_self_check ctx
        (fun w => {| blockchain := (fun h => h w) <$> evm_host; tsa := (fun h => h w) <$> tsa_host;
                     evm_finality := finality |})).

(** The seal loop that is spawned; the channel and no loop are the tests'. *)
Inductive SealDriver := Interval | Channel | Off.
Inductive SpawnedLoop :=
| BondingLoop (params : BondingCurveParams)
| IntervalLoop (duration_secs : u64)
| ChannelLoop (duration_secs : u64)
| NoLoop.

Definition spawned_loop (cfg : Config) (identity : ServiceIdentity) (driver : SealDriver)
    : result AppError SpawnedLoop :=
  let bc := cfg_bonding_curve cfg in
  match driver with
  | Interval =>
      if bc_enabled bc then
        let? _ := ok_or (parse_address (address_eip55 identity))
                    (AppWallet (address_eip55 identity)) in
        Ok (BondingLoop {| n_half := bc_n_half bc; poll_interval_secs := bc_poll_interval_secs bc;
                           min_balance_multiplier := bc_min_balance_multiplier bc |})
      else Ok (IntervalLoop (duration_secs (cfg_epoch cfg)))
  | Channel => Ok (ChannelLoop (duration_secs (cfg_epoch cfg)))
  | Off => Ok NoLoop
  end.

(** The fuel watcher that is spawned. *)
Definition spawned_watcher (cfg : Config) (identity : ServiceIdentity) : option BlockWatcher :=
  let lb := cfg_leaderboard cfg in
  if lb_enabled lb then
    match parse_address (watched_address lb (address_eip55 identity)) with
    | Some addr => Some {| wallet_address := addr; chain_id := leaderboard_chain_id cfg |}
    | None => None
    end
  else None.

Record App := {
  app_accumulator : AccumulatorInner;
  app_witness_ctx : WitnessContext;
  app_loop : SpawnedLoop;
  app_watcher : option BlockWatcher;
  (** Served at [/.well-known/aqua-identity]. *)
  app_identity_response_json : Value;
}.

(** The assembly on an opened keyspace at time [now], in the world [w]. *)
Definition build_app (cfg : Config) (finality : EvmFinalityRequirement)
    (identity : ServiceIdentity) (valid_from : option u64) (driver : SealDriver)
    (anchors : AnchorOverrides) (ks : Keyspace) (now : u64) (w : World) : result AppError App :=
  let? _ := map_err AppConfig (check_config cfg identity anchors) in
  let? identity_tree := map_err AppIdentity (build_identity_tree identity valid_from now) in
  let? response := map_err AppIdentity (build_response identity identity_tree) in
  let? next := map_err AppStore (next_epoch_id ks) in
  let accumulator := acc_new next now (duration_secs (cfg_epoch cfg)) in
  let? ctx := map_err AppConfig (build_witness_ctx cfg finality identity anchors) in
  let? _ := map_err AppSeal (validate ctx w) in
  let? loop := spawned_loop cfg identity driver in
  Ok {| app_accumulator := accumulator; app_witness_ctx := ctx; app_loop := loop;
        app_watcher := spawned_watcher cfg identity; app_identity_response_json := response |}.

(** ** What an accepted configuration starts with *)

Lemma elem_of_enabled cfg m :
  m ∈ enabled_methods cfg <->
  match m with
  | Evm => evm_enabled (anchors_evm (cfg_anchors cfg)) = true
  | Qtsa => qtsa_enabled (anchors_qtsa (cfg_anchors cfg)) = true
  end.
Proof.
  unfold enabled_methods. rewrite elem_of_app.
  destruct m, (evm_enabled _), (qtsa_enabled _);
    rewrite ?list_elem_of_singleton, ?elem_of_nil; intuition congruence.
Qed.

Lemma build_witness_ctx_parts cfg finality identity anchors ctx :
  build_witness_ctx cfg finality identity anchors = Ok ctx ->
  exists evm_anchor evm_host,
    evm_provider cfg identity anchors = Ok evm_anchor /\ evm_check_host cfg anchors = Ok evm_host /\
    c_methods ctx = enabled_methods cfg /\
    c_evm_anchor ctx = evm_anchor /\ c_qtsa_anchor ctx = qtsa_provider cfg anchors /\
    c_service_did ctx = default "" (ok (derive_did_pkh (secp256k1_signer (private_key identity)))) /\
    forall w, c_self_check ctx w
      = {| blockchain := (fun h => h w) <$> evm_host;
           tsa := (fun h => h w) <$> tsa_check_host cfg anchors; evm_finality := finality |}.
Proof.
  unfold build_witness_ctx. intros (evm_anchor & He & Hr)%result_bind_ok.
  apply result_bind_ok in Hr as (evm_host & Hh & [= <-]). exists evm_anchor, evm_host.
  split; [done|]. split; [done|]. destruct evm_anchor, (qtsa_provider cfg anchors); done.
Qed.

Lemma build_witness_ctx_valid cfg finality identity anchors ctx w m :
  build_witness_ctx cfg finality identity anchors = Ok ctx -> m ∈ c_methods ctx ->
  is_Some (provider ctx m) /\ host_missing (c_self_check ctx w) m = false.
Proof.
  intros Hb%build_witness_ctx_parts Hm.
  destruct Hb as (evm_anchor & evm_host & He & Hh & Hms & Hea & Hqa & _ & Hsc).
  rewrite Hms in Hm. apply elem_of_enabled in Hm. unfold provider, host_missing.
  rewrite Hsc, Hea, Hqa. destruct m; cbn [blockchain tsa].
  - unfold evm_provider in He. unfold evm_check_host in Hh. rewrite Hm in He, Hh. cbn [negb] in *.
    split.
    + destruct (ov_evm anchors); [by injection He as <-|].
      apply result_bind_ok in He as (? & _ & [= <-]). done.
    + destruct (ov_evm_check_host anchors); [by injection Hh as <-|].
      apply result_bind_ok in Hh as (? & _ & [= <-]). done.
  - unfold qtsa_provider, tsa_check_host. rewrite Hm. cbn [negb].
    split; [by destruct (ov_qtsa anchors)|done].
Qed.

(** A configuration that passes the start-up checks starts: the witness
    context is built with exactly the enabled methods, each with its provider
    and its self-check host in every world, so the only thing the context's own
    validation (of the start, and of every later seal) can still miss is the
    service DID. *)
Theorem accepted_config_starts cfg finality identity anchors :
  check_config cfg identity anchors = Ok tt ->
  exists ctx, build_witness_ctx cfg finality identity anchors = Ok ctx /\
    c_methods ctx = enabled_methods cfg /\
    forall w, validate ctx w = Ok tt \/
      validate ctx w = Err NoServiceDid /\
      default "" (ok (derive_did_pkh (secp256k1_signer (private_key identity)))) = "".
Proof.
  unfold check_config. intros ([] & _ & Hsrc)%result_bind_ok.
  assert (evm_enabled (anchors_evm (cfg_anchors cfg)) = true ->
          exists chain, evm_chain (evm_chain_name (anchors_evm (cfg_anchors cfg))) = Ok chain) as Hch.
  { intros He. unfold check_evm_chain_source in Hsrc. rewrite He in Hsrc. cbn [negb] in Hsrc.
    apply result_bind_ok in Hsrc as (chain & ? & _). by exists chain. }
  assert (exists ctx, build_witness_ctx cfg finality identity anchors = Ok ctx) as [ctx Hb].
  { unfold build_witness_ctx, evm_provider, evm_check_host.
    destruct (evm_enabled (anchors_evm (cfg_anchors cfg))); cbn [negb].
    2: { cbn [result_bind]. eauto. }
    destruct (Hch eq_refl) as [chain ->].
    destruct (ov_evm anchors), (ov_evm_check_host anchors); cbn [result_bind]; eauto. }
  exists ctx. split; [done|].
  destruct (build_witness_ctx_parts _ _ _ _ _ Hb) as (_ & _ & _ & _ & Hms & _ & _ & Hdid & _).
  split; [done|]. intros w. destruct (decide (c_service_did ctx = "")) as [Hd|Hd].
  - right. split; [|by rewrite <- Hdid].
    assert (forall m, m ∈ c_methods ctx ->
              is_Some (provider ctx m) /\ host_missing (c_self_check ctx w) m = false) as Hv
      by (intros m; by apply (build_witness_ctx_valid cfg finality identity anchors)).
    unfold validate. destruct (List.find _ (c_methods ctx)) as [m|] eqn:Hf.
    { apply find_some in Hf as [Hin Hn%bool_decide_eq_true]. apply list_elem_of_In, Hv in Hin as [[? ?] _].
      congruence. }
    destruct (List.find (host_missing _) (c_methods ctx)) as [m|] eqn:Hf2.
    { apply find_some in Hf2 as [Hin Hn]. apply list_elem_of_In, Hv in Hin as [_ ?]. congruence. }
    by rewrite decide_True.
  - left. apply validate_ok. split; [|done].
    intros m. by apply (build_witness_ctx_valid cfg finality identity anchors).
Qed.

(** ** Restarts *)

(** The state after a start on the keyspace [ks]. *)
Definition started (app : App) (ks : Keyspace) (w : World) : SealState :=
  {| s_acc := app_accumulator app; s_sto := ks : Sto; s_world := w; s_calls := [] |}.

(** The state a start on a consistent store ends in. *)
Lemma started_ready cfg finality identity valid_from driver anchors ks now w app (A : AStore) n :
  represents (view ks) A -> store_inv A n -> 0 <= n < U64_MAX ->
  build_app cfg finality identity valid_from driver anchors ks now w = Ok app ->
  seal_ready A (started app ks w) /\ acc_leaves (app_accumulator app) = [] /\
  forall id, is_Some (look A epochs id) -> id < acc_epoch_id (app_accumulator app).
Proof.
  intros Hr Hi Hn. unfold build_app.
  intros ([] & _ & Hb)%result_bind_ok.
  apply result_bind_ok in Hb as (tree & _ & Hb). apply result_bind_ok in Hb as (response & _ & Hb).
  apply result_bind_ok in Hb as (next & Hnext%map_err_ok & Hb).
  apply result_bind_ok in Hb as (ctx & _ & Hb). apply result_bind_ok in Hb as (? & _ & Hb).
  apply result_bind_ok in Hb as (loop & _ & [= <-]).
  unfold next_epoch_id in Hnext. apply result_bind_ok in Hnext as (last & Hlast & [= Hnext]).
  pose proof (last_sealed_read ks A Hr) as Hl. rewrite Hlast in Hl. cbn [read_ok] in Hl.
  assert (0 <= next < U64_MAX /\ forall id, is_Some (look A epochs id) -> id < next) as [Hb Hlt].
  { destruct last as [id|]; subst next.
    - destruct Hl as [[r Hrec] Hmax].
      assert (u64_ok id) as Hid.
      { destruct (represents_in_order _ _ epochs Hr) as (l & Ho & _).
        pose proof (io_ok _ _ _ Ho) as Hok. rewrite Forall_forall in Hok.
        assert ((id, r) ∈ l) as Hin by (rewrite (io_perm _ _ _ Ho); by apply elem_of_map_to_list).
        apply (Hok _ Hin). }
      apply Hi in Hrec as [_ ?]. unfold u64_ok in Hid.
      rewrite sat_add_exact by lia. split; [lia|]. intros id' ?%Hmax. lia.
    - split; [unfold U64_MAX; lia|]. intros id [r Hrec]. by rewrite Hl in Hrec. }
  split; [|by split]. split; cbn [s_acc s_sto started app_accumulator].
  - exact Hr.
  - split; try apply Hi. intros id r Hrec. split; [by eapply si_epochs|]. by apply Hlt.
  - apply acc_inv_new.
  - cbn. lia.
  - constructor.
Qed.

(** A restart is safe at any time. Whatever consistent store the process
    left behind (of an open epoch [n], its accumulator lost with the process),
    the service that starts on it is in a state every seal may start from: its
    epoch id is above every stored one, so no epoch is ever overwritten; and it
    starts empty. *)
Theorem restart_ready cfg finality identity valid_from driver anchors ks now w app (A : AStore) n :
  represents (view ks) A -> store_inv A n -> 0 <= n < U64_MAX ->
  build_app cfg finality identity valid_from driver anchors ks now w = Ok app ->
  seal_ready A (started app ks w) /\ acc_leaves (app_accumulator app) = [] /\
  forall id, is_Some (look A epochs id) -> id < acc_epoch_id (app_accumulator app).
Proof. apply started_ready. Qed.
End assembly.
