(* ===== verification/Routes.v ===== *)
(** * The HTTP handlers
    ([crates/aqua-timestamp/src/routes.rs])

    Each handler on the authenticated DID, the request's values, the
    accumulator and the keyspace; the answer is a status with the body's
    fields, or the [AuthApiError] axum renders.  The static routes and
    the event stream are in [Pages]. *)

From S2P Require Import Prelude External Merkle Accumulator Witness Selfcheck Epoch Utf8 Kv Storage Auth Config.
Open Scope string_scope.
Open Scope list_scope.
Open Scope Z_scope.

Definition EPOCHS_MAX_LIMIT : usize := 200.
Definition EPOCHS_DEFAULT_LIMIT : usize := 50.
Definition ANCHOR_METHODS : list string := ["evm"; "qtsa"].

(** ** Bodies *)

Record LeavesResponse := {
  lr_accepted : u64;
  lr_duplicates : u64;
  lr_epoch_id : u64;
  lr_epoch_closes_at : u64;
  lr_submitter_did : string;
}.

Record ScheduleResponse := {
  sch_current_epoch_id : u64;
  sch_current_epoch_opened_at : u64;
  sch_current_epoch_closes_at : u64;
  sch_epoch_duration_secs : u64;
  sch_last_sealed_epoch_id : option u64;
  sch_last_sealed_at : option u64;
  sch_anchor_methods : list string;
  sch_epochs_total : u64;
  sch_leaves_total : u64;
  sch_uptime_secs : u64;
}.

Record EpochListItem := {
  li_id : u64;
  li_opened_at : u64;
  li_closed_at : u64;
  li_merkle_root : string;
  li_leaf_count : u64;
  li_hash_type : string;
}.

(** The [pending], [anchor_stalled] and [not_verifiable] bodies. *)
Record StatusBody := {
  sb_status : string;
  sb_reason : option string;
  sb_method : option string;
  sb_epoch : u64;
  sb_leaf : option string;
  sb_detail : string;
}.

(** A row of the leaderboard. *)
Record Wallet := {
  wl_did : string;
  wl_fuel_contributed_wei : string;
  wl_hashes_submitted : u64;
  wl_last_active : u64;
}.

Section routes.
Context `{HexCrate, Sdk, Fjall, SerdeCrates, !StoreCodecs}.

(** Texts of the crates' errors, and [serde_json::from_slice]. *)
Class RouteCrates := {
  fjall_error_text : FjallError -> string;
  postcard_error_text : PostcardError -> string;
  json_error_text : JsonError -> string;
  hex_byte_text : byte -> string;
  json_from_slice : bytes -> result JsonError Value;
}.
Context `{!RouteCrates}.

Inductive Body :=
| BError (error : string)
| BLeaves (r : LeavesResponse)
| BSchedule (r : ScheduleResponse)
| BEpochs (epochs : list EpochListItem) (next : option u64)
| BLeaderboard (wallets : list Wallet) (pool_count max_pool : usize)
| BPool (current max : usize)
| BTips (tips : list string)
| BTree (revisions : gmap string Value) (file_index : gmap string string)
| BStatus (s : StatusBody).

Record Response := { status : Z; body : Body }.

(** What the handlers read of [AppState]. *)
Record RouteState := {
  r_accumulator : AccumulatorInner;
  r_store : Keyspace;
  r_allowed_dids : list string;
  r_max_leaves_per_request : usize;
  r_duration_secs : u64;
  r_max_pool_size : usize;
  r_max_anchor_faults : u32;
}.

Definition is_allowed (state : RouteState) (did : string) : bool :=
  let list := r_allowed_dids state in
  bool_decide (list = []) || existsb (fun d => bool_decide (d = did)) list.

(** [Display] of the errors. *)
Definition store_error_text (e : StoreError) : string :=
  match e with
  | SFjall e => "fjall: " +:+ fjall_error_text e
  | SEncode e => "postcard encode: " +:+ postcard_error_text e
  | SDecode e => "postcard decode: " +:+ postcard_error_text e
  | SBadLeavesKey n =>
      "epoch_leaves key has wrong length " +:+ show_Z n +:+ ", expected " +:+
      show_Z EPOCH_LEAVES_KEY_LEN
  | SBadLeafTipsKey n =>
      "leaf_to_tips key has wrong length " +:+ show_Z n +:+ ", expected " +:+
      show_Z LEAF_TO_TIPS_KEY_LEN
  | SWitnessJson e => "witness revision JSON encode/decode: " +:+ json_error_text e
  | SUnknownMethodByte b => "witness lookup found an unknown method byte: " +:+ hex_byte_text b
  | SPending text => "pending epoch record: " +:+ text
  end.

Definition leaf_parse_error_text (e : LeafParseError) : string :=
  match e with
  | BadLength n =>
      "leaf must be 64 hex chars or a sha3-256 multihash (1620 + 64 hex), optionally prefixed with 0x, got "
      +:+ show_Z n
  | BadHex e => "leaf contains non-hex characters: " +:+ hex_error_text e
  | CopyPanic => ""
  end.

Definition store_400 {A} (r : result StoreError A) : result AuthApiError A :=
  map_err (fun e => bad_request ("store: " +:+ store_error_text e)) r.

(** ** [POST /v1/leaves] *)

(** The error of the [i]-th leaf. *)
Definition leaf_400 (i : nat) (e : LeafParseError) : AuthApiError :=
  match e with
  | BadLength len =>
      bad_request ("leaves[" +:+ show_Z (Z.of_nat i) +:+
        "]: expected 64 hex chars (optionally 0x-prefixed), got " +:+ show_Z len)
  | BadHex e =>
      bad_request ("leaves[" +:+ show_Z (Z.of_nat i) +:+ "]: non-hex character (" +:+
        hex_error_text e +:+ ")")
  | CopyPanic => internal ""
  end.

Definition decode_leaves (leaves : list string) : result AuthApiError (list Hash32) :=
  collect (fun il : nat * string => map_err (leaf_400 il.1) (parse_leaf_hex il.2))
    (enumerate leaves).

Definition set_accumulator (state : RouteState) (acc : AccumulatorInner) : RouteState :=
  {| r_accumulator := acc; r_store := r_store state; r_allowed_dids := r_allowed_dids state;
     r_max_leaves_per_request := r_max_leaves_per_request state;
     r_duration_secs := r_duration_secs state; r_max_pool_size := r_max_pool_size state;
     r_max_anchor_faults := r_max_anchor_faults state |}.

Definition full_503 (full : EpochFull) : AuthApiError :=
  unavailable ("epoch " +:+ show_Z (full_epoch_id full) +:+ " is full (" +:+
    show_Z (full_cap full) +:+
    " leaves, the timestamp template maximum); nothing of this batch was accepted, resubmit after epoch_closes_at "
    +:+ show_Z (full_epoch_closes_at full)).

Definition submit_leaves (state : RouteState) (bearer : string) (leaves : list string)
    : RouteState * result AuthApiError Response :=
  if negb (is_allowed state bearer) then (state, Err (forbidden "did not on allowlist"))
  else
    let max := r_max_leaves_per_request state in
    let n := Z.of_nat (length leaves) in
    if n =? 0 then (state, Err (bad_request "leaves must contain at least one hash"))
    else if max <? n then
      (state, Err (bad_request ("leaves: " +:+ show_Z n +:+ " exceeds max_leaves_per_request " +:+
                                show_Z max)))
    else
      match decode_leaves leaves with
      | Err e => (state, Err e)
      | Ok decoded =>
          let '(acc, r) := append_batch decoded bearer (r_accumulator state) in
          (set_accumulator state acc,
           match r with
           | Err full => Err (full_503 full)
           | Ok outcome =>
               Ok {| status := 202;
                     body := BLeaves
                       {| lr_accepted := out_accepted outcome;
                          lr_duplicates := out_duplicates outcome;
                          lr_epoch_id := out_epoch_id outcome;
                          lr_epoch_closes_at := out_epoch_closes_at outcome;
                          lr_submitter_did := bearer |} |}
           end)
      end.

(** ** [GET /v1/schedule]; [uptime] is the process clock's reading *)

Definition schedule_500 {A} (r : result StoreError A) : result Response A :=
  map_err (fun _ => {| status := 500; body := BError "schedule lookup failed" |}) r.

Definition schedule (state : RouteState) (uptime : u64) : result Response Response :=
  let view := current_view (r_accumulator state) in
  let? last_sealed_id := schedule_500 (last_sealed_epoch_id (r_store state)) in
  let? last_sealed_at :=
    match last_sealed_id with
    | Some id =>
        let? r := schedule_500 (get_epoch id (r_store state)) in Ok (er_closed_at <$> r)
    | None => Ok None
    end in
  let? tot := schedule_500 (totals (r_store state)) in
  Ok {| status := 200;
        body := BSchedule
          {| sch_current_epoch_id := view_epoch_id view;
             sch_current_epoch_opened_at := view_opened_at view;
             sch_current_epoch_closes_at := view_closes_at view;
             sch_epoch_duration_secs := r_duration_secs state;
             sch_last_sealed_epoch_id := last_sealed_id;
             sch_last_sealed_at := last_sealed_at;
             sch_anchor_methods := ANCHOR_METHODS;
             sch_epochs_total := tot.1;
             sch_leaves_total := tot.2;
             sch_uptime_secs := uptime |} |}.

(** ** [GET /v1/epochs] *)

Definition list_item (r : EpochRecord) : EpochListItem :=
  {| li_id := er_id r; li_opened_at := er_opened_at r; li_closed_at := er_closed_at r;
     li_merkle_root := hex_lower (er_merkle_root r); li_leaf_count := er_leaf_count r;
     li_hash_type := er_hash_type r |}.

Definition page_limit (limit : option usize) : usize :=
  Z.min EPOCHS_MAX_LIMIT (Z.max 1 (default EPOCHS_DEFAULT_LIMIT limit)).

Definition list_epochs (state : RouteState) (from : option u64) (limit : option usize)
    : result AuthApiError Response :=
  let? page := store_400 (list_epochs_desc from (Z.to_nat (page_limit limit)) (r_store state)) in
  Ok {| status := 200; body := BEpochs (list_item <$> page.1) page.2 |}.

(** ** [GET /v1/leaderboard], [GET /v1/pool/status] *)

Definition pool_count (state : RouteState) (or : usize) : usize :=
  default or (ok (contributor_count (r_store state))).

Definition wallet (e : ContributorEntry) : Wallet :=
  {| wl_did := ce_did e; wl_fuel_contributed_wei := show_Z (ce_fuel_contributed_wei e);
     wl_hashes_submitted := ce_hashes_submitted e; wl_last_active := ce_last_active e |}.

Definition leaderboard (state : RouteState) (chain : option string) : Response :=
  let chain := default "eth" chain in
  let max := r_max_pool_size state in
  if decide (chain = "eth") then
    match list_contributors_sorted (Z.to_nat max) (r_store state) with
    | Err _ => {| status := 500; body := BError "storage error" |}
    | Ok entries =>
        let wallets := wallet <$> entries in
        {| status := 200;
           body := BLeaderboard wallets (pool_count state (Z.of_nat (length wallets))) max |}
    end
  else if decide (chain = "btc") then
    {| status := 200; body := BLeaderboard [] (pool_count state 0) max |}
  else {| status := 400;
          body := BError ("unknown chain '" +:+ chain +:+ "', expected 'eth' or 'btc'") |}.

Definition pool_status (state : RouteState) : Response :=
  {| status := 200; body := BPool (pool_count state 0) (r_max_pool_size state) |}.

(** ** Responses of the tree routes *)

Definition leaf_field (l : Hash32) : string := "0x" +:+ hex_encode (arr l).

Definition not_found_response (msg : string) : Response :=
  {| status := 404; body := BError msg |}.

Definition anchor_stalled_response (method : AnchorMethod) (epoch_id : u64) (l : option Hash32)
    : Response :=
  {| status := 503;
     body := BStatus
       {| sb_status := "anchor_stalled"; sb_reason := None; sb_method := Some (as_str method);
          sb_epoch := epoch_id; sb_leaf := leaf_field <$> l;
          sb_detail := "epoch " +:+ show_Z epoch_id +:+ " is sealed; its " +:+ as_str method +:+
            " anchor failed too often and is not retried until the operator intervenes; polling will not change this answer, the leaf may be resubmitted for a new epoch" |} |}.

Definition anchor_stalled (state : RouteState) (method : AnchorMethod) (epoch_id : u64) : bool :=
  match list_pending_epochs (r_store state) with
  | Ok pending =>
      existsb (fun p =>
        bool_decide (p_epoch_id p = epoch_id) && bool_decide (anchor p method = None) &&
        (r_max_anchor_faults state <=? anchor_fault_count p method)) pending
  | Err _ => false
  end.

Definition pending_anchor_response (state : RouteState) (method : AnchorMethod) (epoch_id : u64)
    (l : option Hash32) : Response :=
  if anchor_stalled state method epoch_id then anchor_stalled_response method epoch_id l
  else
    {| status := 202;
       body := BStatus
         {| sb_status := "pending"; sb_reason := None; sb_method := Some (as_str method);
            sb_epoch := epoch_id; sb_leaf := leaf_field <$> l;
            sb_detail := "epoch " +:+ show_Z epoch_id +:+ " is sealed; its " +:+ as_str method +:+
              " anchor is outstanding and retried every epoch tick" |} |}.

Definition not_verifiable_response (method : option AnchorMethod) (epoch_id : u64)
    (l : option Hash32) : Response :=
  {| status := 410;
     body := BStatus
       {| sb_status := "not_verifiable";
          sb_reason := Some "minted before self-check; resubmit the leaf";
          sb_method := as_str <$> method; sb_epoch := epoch_id; sb_leaf := leaf_field <$> l;
          sb_detail := "the witness of epoch " +:+ show_Z epoch_id +:+
            " was minted before the pre-serve self-check and is not served; submit the leaf again for a new witness" |} |}.

Definition route_is_self_checked (state : RouteState) (tip : Hash32) : result AuthApiError bool :=
  store_400 (is_self_checked tip (r_store state)).

(** ** Witness pairs *)

Definition maps : Type := gmap string Value * gmap string string.

Definition load_revision (ks : Keyspace) (hash : Hash32) (missing : string) : result string bytes :=
  let? o := map_err (fun e => "store: " +:+ store_error_text e) (get_revision_json hash ks) in
  ok_or o missing.

Definition load_pair_into_maps (ks : Keyspace) (idx : TipPairIndex) (m : maps)
    : result string maps :=
  let? obj_bytes :=
    load_revision ks (ti_object_hash idx) "witness object revision missing in store" in
  let? sig_bytes :=
    load_revision ks (ti_signature_hash idx) "witness signature revision missing in store" in
  let? obj_json := map_err (fun e => "json: " +:+ json_error_text e) (json_from_slice obj_bytes) in
  let? sig_json := map_err (fun e => "json: " +:+ json_error_text e) (json_from_slice sig_bytes) in
  let obj_hex := revision_wire_hex (ti_object_hash idx) in
  let sig_hex := revision_wire_hex (ti_signature_hash idx) in
  Ok (<[sig_hex := sig_json]> (<[obj_hex := obj_json]> m.1),
      <[sig_hex := ti_signature_file_name idx]> (<[obj_hex := ti_object_file_name idx]> m.2)).

(** The loop of [union_for_epoch]. *)
Fixpoint load_pairs (ks : Keyspace) (entries : list TipPairIndex) (m : maps)
    : result string maps :=
  match entries with
  | [] => Ok m
  | idx :: entries' =>
      let? m := load_pair_into_maps ks idx m in load_pairs ks entries' m
  end.

Definition build_pair_body (ks : Keyspace) (idx : TipPairIndex) : result string Body :=
  let? m := load_pair_into_maps ks idx (∅, ∅) in Ok (BTree m.1 m.2).

Definition parse_hash32 (input : string) : result string Hash32 :=
  map_err leaf_parse_error_text (parse_leaf_hex input).

Definition parse_method_param (method_str : string) : result AuthApiError AnchorMethod :=
  ok_or (parse_method method_str)
    (bad_request ("method must be 'evm' or 'qtsa', got '" +:+ method_str +:+ "'")).

(** ** [GET /trees] *)

Definition list_tips_for_did (state : RouteState) (did : string) : result AuthApiError Response :=
  let? tips := store_400 (list_witness_tips_for_did did (r_store state)) in
  let? kept :=
    collect (fun et : u64 * Hash32 =>
               let? c := route_is_self_checked state et.2 in
               Ok (if c : bool then Some (revision_wire_hex et.2) else None)) tips in
  Ok {| status := 200; body := BTips (omap id kept) |}.

(** Whether every witness is marked self-checked; stops at the first that is
    not. *)
Fixpoint all_self_checked (state : RouteState) (entries : list TipPairIndex)
    : result AuthApiError bool :=
  match entries with
  | [] => Ok true
  | idx :: entries' =>
      let? c := route_is_self_checked state (ti_signature_hash idx) in
      if c : bool then all_self_checked state entries' else Ok false
  end.

Definition union_for_epoch (state : RouteState) (did : string) (epoch_id : u64)
    (method : AnchorMethod) : result AuthApiError Response :=
  let? epoch := store_400 (get_epoch epoch_id (r_store state)) in
  match epoch with
  | None => Ok (not_found_response "epoch not sealed yet")
  | Some _ =>
      let? pending := store_400 (is_epoch_pending epoch_id method (r_store state)) in
      if pending : bool then Ok (pending_anchor_response state method epoch_id None)
      else
        let? entries :=
          store_400 (list_witnesses_for_did_in_epoch did epoch_id method (r_store state)) in
        let? checked := all_self_checked state entries in
        if negb checked then Ok (not_verifiable_response (Some method) epoch_id None)
        else
          let? m := map_err bad_request (load_pairs (r_store state) entries (∅, ∅)) in
          Ok {| status := 200; body := BTree m.1 m.2 |}
  end.

Definition list_or_query_trees (state : RouteState) (bearer : string) (epoch : option u64)
    (method : option string) : result AuthApiError Response :=
  match epoch, method with
  | None, None => list_tips_for_did state bearer
  | Some epoch, Some method_str =>
      let? method := parse_method_param method_str in
      union_for_epoch state bearer epoch method
  | _, _ =>
      Err (bad_request "epoch and method must be supplied together (or omit both for the tip list)")
  end.

(** ** [GET /trees/{tip}] *)

Definition get_tree_by_tip (state : RouteState) (bearer tip_hex : string)
    : result AuthApiError Response :=
  let? tip := map_err bad_request (parse_hash32 tip_hex) in
  let? found := store_400 (get_tip_pair tip (r_store state)) in
  match found with
  | None => Ok (not_found_response "unknown tip")
  | Some idx =>
      if decide (ti_submitter_did idx <> bearer)
      then Err (forbidden "witness owned by a different DID")
      else
        let? checked := route_is_self_checked state tip in
        if negb checked then
          Ok (not_verifiable_response (from_method_byte (ti_method_byte idx)) (ti_epoch_id idx)
                (Some (ti_leaf idx)))
        else
          let? b := map_err (fun e => bad_request ("store: " +:+ e))
                      (build_pair_body (r_store state) idx) in
          Ok {| status := 200; body := b |}
  end.

(** ** [GET /trees/by-leaf/{leaf}] *)

Definition by_leaf_missing (state : RouteState) (l : Hash32) (method : AnchorMethod)
    : result AuthApiError Response :=
  let? pending := store_400 (get_pending_epoch_for_leaf l method (r_store state)) in
  Ok (match pending with
      | Some epoch_id => pending_anchor_response state method epoch_id (Some l)
      | None => not_found_response "no witness for that leaf/method yet"
      end).

(** A legacy tip: a newer pending epoch answers 202, else 410. *)
Definition by_leaf_legacy (state : RouteState) (l : Hash32) (method : AnchorMethod)
    (idx : TipPairIndex) : result AuthApiError Response :=
  let? pending := store_400 (get_pending_epoch_for_leaf l method (r_store state)) in
  Ok (match pending with
      | Some epoch_id =>
          if decide (ti_epoch_id idx < epoch_id)
          then pending_anchor_response state method epoch_id (Some l)
          else not_verifiable_response (Some method) (ti_epoch_id idx) (Some l)
      | None => not_verifiable_response (Some method) (ti_epoch_id idx) (Some l)
      end).

Definition by_leaf_owned (state : RouteState) (l : Hash32) (method : AnchorMethod)
    : result AuthApiError Response :=
  let? tip := store_400 (get_tip_for_leaf l method (r_store state)) in
  match tip with
  | None => by_leaf_missing state l method
  | Some tip =>
      let? found := store_400 (get_tip_pair tip (r_store state)) in
      let? idx :=
        ok_or found (bad_request "internal: tip_to_pair index missing for known tip") in
      let? checked := route_is_self_checked state tip in
      if negb checked then by_leaf_legacy state l method idx
      else
        let? b := map_err (fun e => bad_request ("store: " +:+ e))
                    (build_pair_body (r_store state) idx) in
        Ok {| status := 200; body := b |}
  end.

Definition get_tree_by_leaf (state : RouteState) (bearer leaf_hex : string)
    (method : option string) : result AuthApiError Response :=
  let? method_str := ok_or method (bad_request "missing required query parameter 'method'") in
  let? method := parse_method_param method_str in
  let? l := map_err bad_request (parse_hash32 leaf_hex) in
  let? owner := store_400 (get_leaf_owner l (r_store state)) in
  match owner with
  | None => Ok (not_found_response "unknown leaf")
  | Some d =>
      if decide (d <> bearer) then Err (forbidden "leaf submitted by a different DID")
      else by_leaf_owned state l method
  end.
End routes.
