(* ===== verification/RouteTheorems.v ===== *)
(** * What the handlers answer

    The submission route over the accumulator, the tree routes over the
    abstract store. *)

From S2P Require Import Prelude External Merkle Accumulator Witness Selfcheck Epoch Utf8 Kv Storage StoreSpec StoreRefine StoreScans SealStore SealInv Sealer SealerProofs Auth Config Routes.
Open Scope string_scope.
Open Scope list_scope.
Open Scope Z_scope.

(** [serde_json] reads back what it wrote. *)
Class RouteLaws `{HexCrate, Sdk, Fjall, SerdeCrates, !StoreCodecs, !RouteCrates} := {
  json_from_slice_encoded (rev : AnyRevision) b :
    encode rev = Ok b -> exists v, json_from_slice b = Ok v;
}.

Section submit.
Context `{HexLaws, Sdk, Fjall, SerdeCrates, !StoreCodecs, !RouteCrates}.

Lemma decode_leaves_ok leaves hs :
  decode_leaves leaves = Ok hs <-> Forall2 (fun raw h => parse_leaf_hex raw = Ok h) leaves hs.
Proof.
  unfold decode_leaves. rewrite collect_enumerate, Forall2_same_length_lookup.
  setoid_rewrite map_err_ok. cbn. by setoid_rewrite (symmetry_iff (=) (length hs)).
Qed.

Lemma decode_leaves_err leaves e :
  decode_leaves leaves = Err e ->
  exists i raw pe, leaves !! i = Some raw /\ parse_leaf_hex raw = Err pe /\ e = leaf_400 i pe.
Proof.
  unfold decode_leaves. intros Hc. apply collect_err in Hc as ([i raw] & Hin & He).
  apply list_elem_of_lookup in Hin as [k Hk]. apply enumerate_lookup in Hk as [Hik Hraw].
  cbn in Hik, Hraw, He. subst k. destruct (parse_leaf_hex raw) as [h|pe] eqn:Hp; [done|].
  injection He as <-. by exists i, raw, pe.
Qed.

(** C13. [POST /v1/leaves], on every branch. A refused submission (not allowed,
    no leaf, too many, a leaf that does not parse, named by its index, or a
    full epoch) changes nothing. An accepted one appends exactly the new leaves
    of the batch, once each and in order, under the caller's DID, and answers
    202 with their count, the duplicates' and the open epoch's id and closing
    time. *)
Theorem submit_leaves_spec state bearer leaves :
  acc_inv (r_accumulator state) -> Z.of_nat (length leaves) <= U64_MAX ->
  let acc := r_accumulator state in
  let '(state', r) := submit_leaves state bearer leaves in
  match r with
  | Err e =>
      r_accumulator state' = acc /\
      (is_allowed state bearer = false /\ ae_status e = 403 \/
       is_allowed state bearer = true /\
       ((leaves = [] \/ r_max_leaves_per_request state < Z.of_nat (length leaves)) /\
          ae_status e = 400 \/
        (exists i raw pe, leaves !! i = Some raw /\ parse_leaf_hex raw = Err pe /\
           e = leaf_400 i pe) \/
        (exists hs, Forall2 (fun raw h => parse_leaf_hex raw = Ok h) leaves hs /\
           acc_leaf_cap acc
             < Z.of_nat (length (acc_leaves acc) + length (novel (leaf_set (acc_leaves acc)) hs)) /\
           ae_status e = 503)))
  | Ok resp =>
      is_allowed state bearer = true /\ leaves <> [] /\
      Z.of_nat (length leaves) <= r_max_leaves_per_request state /\
      exists hs, Forall2 (fun raw h => parse_leaf_hex raw = Ok h) leaves hs /\
        let n := novel (leaf_set (acc_leaves acc)) hs in
        acc_leaves (r_accumulator state') = acc_leaves acc ++ (entry_of bearer <$> n) /\
        acc_inv (r_accumulator state') /\
        resp = {| status := 202;
                  body := BLeaves
                    {| lr_accepted := Z.of_nat (length n);
                       lr_duplicates := Z.of_nat (length leaves) - Z.of_nat (length n);
                       lr_epoch_id := acc_epoch_id acc; lr_epoch_closes_at := acc_closes_at acc;
                       lr_submitter_did := bearer |} |}
  end.
Proof.
  intros Hi Hlen acc. unfold submit_leaves.
  destruct (is_allowed state bearer) eqn:Ha; cbn [negb]; [|split; [done|by left]]. cbv zeta.
  destruct (Z.of_nat (length leaves) =? 0) eqn:Hz.
  { apply Z.eqb_eq in Hz. split; [done|]. right. split; [done|]. left. split; [|done]. left.
    destruct leaves; [done|cbn in Hz; lia]. }
  destruct (r_max_leaves_per_request state <? Z.of_nat (length leaves)) eqn:Hm.
  { apply Z.ltb_lt in Hm. split; [done|]. right. split; [done|]. left. split; [by right|done]. }
  apply Z.eqb_neq in Hz. apply Z.ltb_ge in Hm.
  destruct (decode_leaves leaves) as [hs|e] eqn:Hd.
  2: { apply decode_leaves_err in Hd. split; [done|]. right. split; [done|]. by right; left. }
  apply decode_leaves_ok in Hd. pose proof (Forall2_length _ _ _ Hd) as Hl.
  assert (batch_ok hs) as Hb by (unfold batch_ok; lia).
  destruct (append_batch_cases hs bearer acc Hi Hb)
    as [[Hfull Heq]|(_ & inner' & Heq & Hi' & Hleaves & _)]; fold acc; rewrite Heq.
  - split; [done|]. right. split; [done|]. right; right. by exists hs.
  - split; [done|]. split; [by intros ->|]. split; [done|]. exists hs. split; [done|].
    rewrite Hl. by split_and!.
Qed.
End submit.

Section trees.
Context `{HexLaws, Sdk, FjallLaws, SerdeCrates, !StoreCodecs, !StoreCodecLaws, !RouteCrates, !RouteLaws}.

(** The keyspace failed. *)
Definition store_failure (e : AuthApiError) : Prop :=
  exists fe, e = bad_request ("store: " +:+ store_error_text (SFjall fe)) \/
             e = bad_request ("store: store: " +:+ store_error_text (SFjall fe)).

(** The answer of a handler: [P], or the keyspace failed. *)
Definition route_ok {X} (r : result AuthApiError X) (P : result AuthApiError X -> Prop) : Prop :=
  P r \/ exists e, r = Err e /\ store_failure e.

Lemma store_400_read {X} (r : result StoreError X) P :
  read_ok r P ->
  (exists x, store_400 r = Ok x /\ P x) \/ exists e, store_400 r = Err e /\ store_failure e.
Proof.
  destruct r as [x|e]; cbn; [left; by exists x|]. intros [fe ->]. right. eexists. split; [done|].
  exists fe. by left.
Qed.

(** Runs the next store read of a handler: either it fails, which ends the
    handler, or it answers as the abstract store. *)
Ltac route_read H :=
  let x := fresh "x" in let Hx := fresh "Hx" in
  destruct (store_400_read _ _ H) as [(x & Hx & ?)|(x & Hx & ?)]; rewrite Hx; cbn [result_bind];
  [subst x|right; by exists x].

(** [v] is the JSON the store holds for the revision [rev]. *)
Definition json_of (rev : AnyRevision) (v : Value) : Prop :=
  exists b, encode rev = Ok b /\ json_from_slice b = Ok v.

(** The body with the pair of [idx] alone. *)
Definition pair_body (A : AStore) (idx : TipPairIndex) (b : Body) : Prop :=
  exists o s ov sv,
    look A witness_revisions (ti_object_hash idx) = Some o /\ json_of o ov /\
    look A witness_revisions (ti_signature_hash idx) = Some s /\ json_of s sv /\
    b = BTree (<[revision_wire_hex (ti_signature_hash idx) := sv]>
                 {[revision_wire_hex (ti_object_hash idx) := ov]})
              (<[revision_wire_hex (ti_signature_hash idx) := ti_signature_file_name idx]>
                 {[revision_wire_hex (ti_object_hash idx) := ti_object_file_name idx]}).

Lemma load_revision_read ks (A : AStore) h missing :
  represents (view ks) A -> is_Some (look A witness_revisions h) ->
  match load_revision ks h missing with
  | Ok b => exists rev, look A witness_revisions h = Some rev /\ encode rev = Ok b
  | Err t => exists fe, t = "store: " +:+ store_error_text (SFjall fe)
  end.
Proof.
  intros Hr Hs. unfold load_revision. pose proof (get_revision_read ks A Hr h) as Hg.
  destruct (get_revision_json h ks) as [[b|]|e]; cbn in *; [done| |].
  - rewrite Hg in Hs. by destruct Hs.
  - destruct Hg as [fe ->]. by exists fe.
Qed.

Lemma load_pair_read ks (A : AStore) idx m :
  represents (view ks) A ->
  is_Some (look A witness_revisions (ti_object_hash idx)) ->
  is_Some (look A witness_revisions (ti_signature_hash idx)) ->
  match load_pair_into_maps ks idx m with
  | Ok m' => exists o s ov sv,
      look A witness_revisions (ti_object_hash idx) = Some o /\ json_of o ov /\
      look A witness_revisions (ti_signature_hash idx) = Some s /\ json_of s sv /\
      m' = (<[revision_wire_hex (ti_signature_hash idx) := sv]>
              (<[revision_wire_hex (ti_object_hash idx) := ov]> m.1),
            <[revision_wire_hex (ti_signature_hash idx) := ti_signature_file_name idx]>
              (<[revision_wire_hex (ti_object_hash idx) := ti_object_file_name idx]> m.2))
  | Err t => exists fe, t = "store: " +:+ store_error_text (SFjall fe)
  end.
Proof.
  intros Hr Ho Hs. unfold load_pair_into_maps.
  pose proof (load_revision_read ks A _ "witness object revision missing in store" Hr Ho) as Hlo.
  destruct (load_revision ks (ti_object_hash idx) _) as [ob|t]; cbn [result_bind]; [|done].
  pose proof (load_revision_read ks A _ "witness signature revision missing in store" Hr Hs) as Hls.
  destruct (load_revision ks (ti_signature_hash idx) _) as [sb|t]; cbn [result_bind]; [|done].
  destruct Hlo as (o & Hlo & Heo), Hls as (s & Hls & Hes).
  destruct (json_from_slice_encoded o ob Heo) as [ov Hov], (json_from_slice_encoded s sb Hes) as [sv Hsv].
  rewrite Hov, Hsv. cbn. exists o, s, ov, sv. split_and!; try done; by eexists.
Qed.

Lemma build_pair_read ks (A : AStore) next t idx :
  represents (view ks) A -> store_inv A next -> look A tip_to_pair t = Some idx ->
  match build_pair_body ks idx with
  | Ok b => pair_body A idx b
  | Err t => exists fe, t = "store: " +:+ store_error_text (SFjall fe)
  end.
Proof.
  intros Hr Hi Ht. destruct (si_pairs _ _ Hi _ _ Ht) as (<- & Ho & Hs). unfold build_pair_body.
  pose proof (load_pair_read ks A idx (∅, ∅) Hr Ho Hs) as Hl.
  destruct (load_pair_into_maps ks idx (∅, ∅)) as [m|e]; cbn [result_bind]; [|done].
  destruct Hl as (o & s & ov & sv & ? & ? & ? & ? & ->). exists o, s, ov, sv. by split_and!.
Qed.

(** The end of both single-tree handlers. *)
Lemma serve_pair ks (A : AStore) next t idx :
  represents (view ks) A -> store_inv A next -> look A tip_to_pair t = Some idx ->
  route_ok (let? b := map_err (fun e => bad_request ("store: " +:+ e)) (build_pair_body ks idx) in
            Ok {| status := 200; body := b |})
    (fun r => exists b, r = Ok {| status := 200; body := b |} /\ pair_body A idx b).
Proof.
  intros Hr Hi Ht. pose proof (build_pair_read ks A next t idx Hr Hi Ht) as Hb.
  destruct (build_pair_body ks idx) as [b|e]; cbn.
  - left. by exists b.
  - right. destruct Hb as [fe ->]. eexists. split; [done|]. exists fe. by right.
Qed.

Lemma route_checked state (A : AStore) t {X} (k : bool -> result AuthApiError X) P :
  represents (view (r_store state)) A ->
  route_ok (k (bool_decide (is_Some (look A self_checked_tips t)))) P ->
  route_ok (result_bind (route_is_self_checked state t) k) P.
Proof.
  intros Hr Hk. unfold route_is_self_checked.
  destruct (store_400_read _ _ (is_self_checked_read (r_store state) A Hr t))
    as [(x & -> & ->)|(x & -> & ?)]; cbn [result_bind]; [done|]. right. by exists x.
Qed.

Lemma tree_by_tip_cases state bearer tip_hex (A : AStore) next :
  represents (view (r_store state)) A -> store_inv A next ->
  route_ok (get_tree_by_tip state bearer tip_hex) (fun r =>
    match parse_leaf_hex tip_hex with
    | Err e => r = Err (bad_request (leaf_parse_error_text e))
    | Ok tip =>
        match look A tip_to_pair tip with
        | None => r = Ok (not_found_response "unknown tip")
        | Some idx =>
            if decide (ti_submitter_did idx = bearer)
            then if decide (is_Some (look A self_checked_tips tip))
                 then exists b, r = Ok {| status := 200; body := b |} /\ pair_body A idx b
                 else r = Ok (not_verifiable_response (from_method_byte (ti_method_byte idx))
                                (ti_epoch_id idx) (Some (ti_leaf idx)))
            else r = Err (forbidden "witness owned by a different DID")
        end
    end).
Proof.
  intros Hr Hi. unfold get_tree_by_tip, parse_hash32.
  destruct (parse_leaf_hex tip_hex) as [tip|e]; cbn [map_err result_bind]; [|by left].
  route_read (get_tip_pair_read (r_store state) A Hr tip).
  destruct (look A tip_to_pair tip) as [idx|] eqn:Ht; [|by left].
  destruct (decide (ti_submitter_did idx <> bearer)) as [Hd|Hd];
    destruct (decide (ti_submitter_did idx = bearer)) as [He|He]; try done; [by left|].
  apply (route_checked state A tip _ _ Hr).
  case_bool_decide as Hc; destruct (decide (is_Some (look A self_checked_tips tip)));
    cbn [negb]; try done; [|by left]. by apply (serve_pair _ _ next tip).
Qed.

(** C34. [GET /trees/{tip}]: an unparsable tip is a 400, an unknown one a 404, a
    tip minted for another DID a 403, one without the self-check mark a 410;
    and a tip of the caller's own, self-checked, answers 200 with exactly its
    two revisions and their file names. The only other answer is the failing
    keyspace's. *)
Theorem tree_by_tip_spec state bearer tip_hex (A : AStore) next :
  represents (view (r_store state)) A -> store_inv A next ->
  route_ok (get_tree_by_tip state bearer tip_hex) (fun r =>
    match parse_leaf_hex tip_hex with
    | Err e => r = Err (bad_request (leaf_parse_error_text e))
    | Ok tip =>
        match look A tip_to_pair tip with
        | None => r = Ok (not_found_response "unknown tip")
        | Some idx =>
            if decide (ti_submitter_did idx = bearer)
            then if decide (is_Some (look A self_checked_tips tip))
                 then exists b, r = Ok {| status := 200; body := b |} /\ pair_body A idx b
                 else r = Ok (not_verifiable_response (from_method_byte (ti_method_byte idx))
                                (ti_epoch_id idx) (Some (ti_leaf idx)))
            else r = Err (forbidden "witness owned by a different DID")
        end
    end).
Proof. apply tree_by_tip_cases. Qed.

(** ** Waiting leaves *)

(** The sealer no longer anchors the (epoch, method). *)
Definition stalled (A : AStore) (m : AnchorMethod) (epoch_id : Z) (cap : u32) : Prop :=
  exists p, look A pending_anchors epoch_id = Some p /\ anchor p m = None /\
    cap <= anchor_fault_count p m.

Lemma pending_response_statuses state m epoch_id l :
  let r := pending_anchor_response state m epoch_id l in
  (status r = 202 \/ status r = 503 /\ anchor_stalled state m epoch_id = true) /\
  exists sb, body r = BStatus sb /\ sb_epoch sb = epoch_id /\ sb_method sb = Some (as_str m).
Proof.
  unfold pending_anchor_response. destruct (anchor_stalled state m epoch_id); cbn;
    (split; [auto|by eexists]).
Qed.

Lemma anchor_stalled_sound state (A : AStore) next m epoch_id :
  represents (view (r_store state)) A -> store_inv A next ->
  anchor_stalled state m epoch_id = true -> stalled A m epoch_id (r_max_anchor_faults state).
Proof.
  intros Hr Hi. unfold anchor_stalled.
  pose proof (list_pending_epochs_read (r_store state) A Hr) as Hl.
  destruct (list_pending_epochs (r_store state)) as [ps|e]; [|done].
  destruct Hl as (l & -> & Hp & _). rewrite existsb_exists. intros (p & Hin & Hb).
  apply list_elem_of_In, list_elem_of_fmap in Hin as ([id p'] & -> & Hin). cbn [snd] in *.
  rewrite Hp in Hin. apply elem_of_map_to_list in Hin.
  repeat (apply andb_true_iff in Hb as [Hb ?]). apply bool_decide_eq_true in Hb.
  destruct (si_pending _ _ Hi _ _ Hin) as (Hid & _). exists p'. split; [by rewrite <- Hb, Hid|].
  split; [by eapply bool_decide_eq_true_1|by apply Z.leb_le].
Qed.

(** The caller's leaf is being worked on: it waits in an outstanding epoch (202,
    or 503 when that epoch's anchoring has stalled), or its witness is served. *)
Inductive leaf_answer (state : RouteState) (A : AStore) (l : Hash32) (m : AnchorMethod)
    : result AuthApiError Response -> Prop :=
| la_served t idx b :
    look A leaf_to_tips (l, m) = Some t -> look A tip_to_pair t = Some idx ->
    is_Some (look A self_checked_tips t) -> pair_body A idx b ->
    leaf_answer state A l m (Ok {| status := 200; body := b |})
| la_pending resp epoch_id sb :
    outstanding A epoch_id l m ->
    status resp = 202 \/
      status resp = 503 /\ stalled A m epoch_id (r_max_anchor_faults state) ->
    body resp = BStatus sb -> sb_epoch sb = epoch_id -> sb_method sb = Some (as_str m) ->
    leaf_answer state A l m (Ok resp)
| la_legacy t idx resp :
    look A leaf_to_tips (l, m) = Some t -> look A tip_to_pair t = Some idx ->
    look A self_checked_tips t = None -> status resp = 410 ->
    leaf_answer state A l m (Ok resp).

Lemma la_waiting state (A : AStore) next l m epoch_id ol :
  represents (view (r_store state)) A -> store_inv A next ->
  look A pending_leaves (l, m) = Some epoch_id ->
  leaf_answer state A l m (Ok (pending_anchor_response state m epoch_id ol)).
Proof.
  intros Hr Hi Hl. destruct (si_lookup _ _ Hi _ _ _ Hl) as (p & Hp & Hlp & Hmp).
  destruct (pending_response_statuses state m epoch_id ol) as [Hst (sb & Hb & He & Hm)].
  eapply la_pending; [by exists p| |done..].
  destruct Hst as [?|[? Hs]]; [by left|right]. split; [done|]. by eapply anchor_stalled_sound.
Qed.

Lemma by_leaf_owned_answer state l m (A : AStore) next :
  represents (view (r_store state)) A -> store_inv A next -> found A l m ->
  route_ok (by_leaf_owned state l m) (leaf_answer state A l m).
Proof.
  intros Hr Hi Hf. unfold by_leaf_owned.
  route_read (get_tip_for_leaf_read (r_store state) A Hr l m).
  destruct (look A leaf_to_tips (l, m)) as [t|] eqn:Ht.
  - destruct (si_tips _ _ Hi _ _ Ht) as [idx Hidx].
    route_read (get_tip_pair_read (r_store state) A Hr t). rewrite Hidx. cbn [ok_or result_bind].
    apply (route_checked state A t _ _ Hr). case_bool_decide as Hc; cbn [negb].
    + destruct (serve_pair _ _ next t idx Hr Hi Hidx) as [(b & -> & Hb)|?]; [left|by right].
      by eapply la_served.
    + unfold by_leaf_legacy. route_read (get_pending_epoch_read (r_store state) A Hr l m).
      left. assert (look A self_checked_tips t = None) as Hno by (by apply eq_None_not_Some).
      destruct (look A pending_leaves (l, m)) as [e|] eqn:He; [|by eapply la_legacy].
      case_decide; [by eapply la_waiting|by eapply la_legacy].
  - unfold by_leaf_missing. route_read (get_pending_epoch_read (r_store state) A Hr l m).
    left. destruct Hf as [[e He]|(t & Hl & _)]; [|congruence]. rewrite He. by eapply la_waiting.
Qed.

(** The by-leaf route up to the owner's own leaf. *)
Lemma by_leaf_own state bearer leaf_hex m l (A : AStore) P :
  represents (view (r_store state)) A -> parse_leaf_hex leaf_hex = Ok l ->
  look A leaf_owner l = Some bearer -> route_ok (by_leaf_owned state l m) P ->
  route_ok (get_tree_by_leaf state bearer leaf_hex (Some (as_str m))) P.
Proof.
  intros Hr Hl Ho HP. unfold get_tree_by_leaf. cbn [ok_or result_bind]. unfold parse_method_param.
  assert (parse_method (as_str m) = Some m) as -> by (by destruct m). cbn [ok_or result_bind].
  unfold parse_hash32. rewrite Hl. cbn [map_err result_bind].
  route_read (get_leaf_owner_read (r_store state) A Hr l). rewrite Ho.
  by rewrite decide_False by (by intros []).
Qed.

(** C9. No accepted leaf is ever unknown to its owner. In a consistent store,
    when a leaf of the caller's is outstanding or served for an anchor method,
    [GET /trees/by-leaf] answers it: 200 with the served pair, 202 with the
    epoch it waits in, 503 when that epoch's anchoring has stalled at the fault
    cap, or 410 when all there is is a witness from before the self-check;
    never 404 or 403. *)
Theorem own_leaf_always_answered state bearer leaf_hex m l (A : AStore) next :
  represents (view (r_store state)) A -> store_inv A next ->
  parse_leaf_hex leaf_hex = Ok l -> look A leaf_owner l = Some bearer ->
  (exists id, outstanding A id l m) \/ served A l m ->
  route_ok (get_tree_by_leaf state bearer leaf_hex (Some (as_str m))) (leaf_answer state A l m).
Proof.
  intros Hr Hi Hl Ho Hf. apply (by_leaf_own _ _ _ _ l A); [done..|].
  apply (by_leaf_owned_answer state l m A next Hr Hi).
  destruct Hf as [(id & p & Hp & Hm & Hlp)|Hs]; [by eapply (si_found _ _ Hi)|by right].
Qed.

(** A self-checked tip is served. *)
Lemma by_leaf_served state bearer leaf_hex m l t idx (A : AStore) next :
  represents (view (r_store state)) A -> store_inv A next -> parse_leaf_hex leaf_hex = Ok l ->
  look A leaf_owner l = Some bearer -> look A leaf_to_tips (l, m) = Some t ->
  look A tip_to_pair t = Some idx -> is_Some (look A self_checked_tips t) ->
  route_ok (get_tree_by_leaf state bearer leaf_hex (Some (as_str m)))
    (fun r => exists b, r = Ok {| status := 200; body := b |} /\ pair_body A idx b).
Proof.
  intros Hr Hi Hl Ho Ht Hidx Hc. apply (by_leaf_own _ _ _ _ l A); [done..|]. unfold by_leaf_owned.
  route_read (get_tip_for_leaf_read (r_store state) A Hr l m). rewrite Ht.
  route_read (get_tip_pair_read (r_store state) A Hr t). rewrite Hidx. cbn [ok_or result_bind].
  apply (route_checked state A t _ _ Hr). rewrite bool_decide_eq_true_2 by done. cbn [negb].
  by apply (serve_pair _ _ next t).
Qed.

(** A leaf with no tip that waits in a sealed epoch is answered its epoch. *)
Lemma by_leaf_waits state bearer leaf_hex m l epoch_id (A : AStore) next :
  represents (view (r_store state)) A -> store_inv A next -> parse_leaf_hex leaf_hex = Ok l ->
  look A leaf_owner l = Some bearer -> look A leaf_to_tips (l, m) = None ->
  look A pending_leaves (l, m) = Some epoch_id ->
  route_ok (get_tree_by_leaf state bearer leaf_hex (Some (as_str m)))
    (fun r => r = Ok (pending_anchor_response state m epoch_id (Some l))).
Proof.
  intros Hr Hi Hl Ho Ht Hp. apply (by_leaf_own _ _ _ _ l A); [done..|]. unfold by_leaf_owned.
  route_read (get_tip_for_leaf_read (r_store state) A Hr l m). rewrite Ht. unfold by_leaf_missing.
  route_read (get_pending_epoch_read (r_store state) A Hr l m). rewrite Hp. by left.
Qed.

(** The by-leaf route judges by the leaf's owner, not by the witness's. When
    a leaf is owned by the caller but the served witness was minted for another
    DID (the same hash submitted earlier by that DID), the caller gets that
    DID's pair, and that DID gets 403. *)
Theorem by_leaf_serves_owner state bearer other leaf_hex m l t idx (A : AStore) next :
  represents (view (r_store state)) A -> store_inv A next ->
  parse_leaf_hex leaf_hex = Ok l ->
  look A leaf_owner l = Some bearer -> look A leaf_to_tips (l, m) = Some t ->
  look A tip_to_pair t = Some idx -> is_Some (look A self_checked_tips t) ->
  ti_submitter_did idx = other -> other <> bearer ->
  route_ok (get_tree_by_leaf state bearer leaf_hex (Some (as_str m)))
    (fun r => exists b, r = Ok {| status := 200; body := b |} /\ pair_body A idx b) /\
  route_ok (get_tree_by_leaf state other leaf_hex (Some (as_str m)))
    (fun r => r = Err (forbidden "leaf submitted by a different DID")).
Proof.
  intros Hr Hi Hl Ho Ht Hidx Hc <- Hne. split; [by apply (by_leaf_served _ _ _ _ l t _ A next)|].
  unfold get_tree_by_leaf. cbn [ok_or result_bind]. unfold parse_method_param.
  assert (parse_method (as_str m) = Some m) as -> by (by destruct m). cbn [ok_or result_bind].
  unfold parse_hash32. rewrite Hl. cbn [map_err result_bind].
  route_read (get_leaf_owner_read (r_store state) A Hr l). rewrite Ho.
  rewrite decide_True by (intros ->; done). by left.
Qed.

(** ** The union of an epoch *)

(** The caller's witness of the epoch and method. *)
Definition own_witness (A : AStore) (did : string) (epoch_id : u64) (m : AnchorMethod)
    (idx : TipPairIndex) : Prop :=
  exists t, look A tip_to_pair t = Some idx /\ ti_submitter_did idx = did /\
    ti_epoch_id idx = epoch_id /\ ti_method_byte idx = method_byte m.

Lemma load_pairs_read ks (A : AStore) entries m :
  represents (view ks) A ->
  (forall idx, idx ∈ entries -> is_Some (look A witness_revisions (ti_object_hash idx)) /\
     is_Some (look A witness_revisions (ti_signature_hash idx))) ->
  match load_pairs ks entries m with
  | Ok m' => forall k, is_Some (m'.1 !! k) <->
      is_Some (m.1 !! k) \/ exists idx, idx ∈ entries /\
        (k = revision_wire_hex (ti_object_hash idx) \/ k = revision_wire_hex (ti_signature_hash idx))
  | Err t => exists fe, t = "store: " +:+ store_error_text (SFjall fe)
  end.
Proof.
  intros Hr. revert m; induction entries as [|idx entries IH]; intros m He; cbn [load_pairs].
  - intros k. split; [by left|]. intros [?|(? & ?%elem_of_nil & _)]; done.
  - destruct (He idx) as [Ho Hs]; [by left|].
    pose proof (load_pair_read ks A idx m Hr Ho Hs) as Hl.
    destruct (load_pair_into_maps ks idx m) as [m1|t]; cbn [result_bind]; [|done].
    destruct Hl as (o & s & ov & sv & _ & _ & _ & _ & ->).
    specialize (IH (<[revision_wire_hex (ti_signature_hash idx) := sv]>
              (<[revision_wire_hex (ti_object_hash idx) := ov]> m.1),
            <[revision_wire_hex (ti_signature_hash idx) := ti_signature_file_name idx]>
              (<[revision_wire_hex (ti_object_hash idx) := ti_object_file_name idx]> m.2))).
    destruct (load_pairs ks entries _) as [m2|t]; [|apply IH; intros; apply He; by right].
    intros k. rewrite IH by (intros; apply He; by right). cbn [fst]. rewrite !lookup_insert_is_Some.
    setoid_rewrite elem_of_cons.
    destruct (decide (revision_wire_hex (ti_signature_hash idx) = k)),
      (decide (revision_wire_hex (ti_object_hash idx) = k)); naive_solver.
Qed.

Lemma all_self_checked_read state (A : AStore) entries :
  represents (view (r_store state)) A ->
  route_ok (all_self_checked state entries)
    (fun r => r = Ok (forallb (fun idx =>
       bool_decide (is_Some (look A self_checked_tips (ti_signature_hash idx)))) entries)).
Proof.
  intros Hr. induction entries as [|idx entries IH]; cbn [all_self_checked forallb]; [by left|].
  apply (route_checked state A _ _ _ Hr). by case_bool_decide; [|left].
Qed.

(** What a 200 of the union was made of. *)
Lemma union_entries state did epoch_id m (A : AStore) next resp :
  represents (view (r_store state)) A -> store_inv A next -> u64_ok epoch_id ->
  union_for_epoch state did epoch_id m = Ok resp -> status resp = 200 ->
  is_Some (look A epochs epoch_id) /\
  (forall p, look A pending_anchors epoch_id = Some p -> m ∉ p_methods p) /\
  exists entries maps,
    (forall idx, own_witness A did epoch_id m idx <-> idx ∈ entries) /\
    (forall idx, idx ∈ entries -> is_Some (look A self_checked_tips (ti_signature_hash idx))) /\
    (forall idx, idx ∈ entries -> is_Some (look A witness_revisions (ti_object_hash idx)) /\
       is_Some (look A witness_revisions (ti_signature_hash idx))) /\
    load_pairs (r_store state) entries (∅, ∅) = Ok maps /\ body resp = BTree maps.1 maps.2.
Proof.
  intros Hr Hi Hu Hok Hst. unfold union_for_epoch in Hok.
  apply result_bind_ok in Hok as (ep & Hep%map_err_ok & Hok).
  pose proof (get_epoch_read (r_store state) A Hr epoch_id Hu) as Hr1. rewrite Hep in Hr1. cbn in Hr1.
  destruct ep as [rec|]; [|by injection Hok as <-].
  apply result_bind_ok in Hok as (pend & Hp%map_err_ok & Hok).
  pose proof (is_epoch_pending_read (r_store state) A Hr epoch_id m Hu) as Hr2.
  rewrite Hp in Hr2. cbn in Hr2. destruct pend.
  { injection Hok as <-. unfold pending_anchor_response in Hst.
    by destruct (anchor_stalled state m epoch_id). }
  apply result_bind_ok in Hok as (entries & He%map_err_ok & Hok).
  pose proof (epoch_witnesses_read (r_store state) A did epoch_id m Hr) as Hr3.
  rewrite He in Hr3. cbn in Hr3.
  apply result_bind_ok in Hok as (checked & Hc & Hok).
  destruct (all_self_checked_read state A entries Hr) as [Hc'|(e & Hc' & _)]; rewrite Hc in Hc'; [|done].
  injection Hc' as ->. destruct (forallb _ entries) eqn:Hall; cbn [negb] in Hok; [|by injection Hok as <-].
  apply result_bind_ok in Hok as (maps & Hm%map_err_ok & [= <-]).
  assert (forall idx, own_witness A did epoch_id m idx <-> idx ∈ entries) as Hown
    by (intros idx; symmetry; apply Hr3).
  split; [by rewrite <- Hr1|]. split.
  { intros p Hpe. rewrite Hpe in Hr2. symmetry in Hr2. by apply bool_decide_eq_false in Hr2. }
  exists entries, maps. split; [exact Hown|]. split; [|split; [|done]].
  - intros idx Hidx. rewrite forallb_forall in Hall.
    apply list_elem_of_In, Hall in Hidx. by apply bool_decide_eq_true in Hidx.
  - intros idx (t & Ht & _)%Hown. by destruct (si_pairs _ _ Hi _ _ Ht) as (<- & ? & ?).
Qed.

(** C14. [GET /trees?epoch=&method=] is isolated and complete: a 200 comes only
    for a sealed epoch with nothing of the method pending, all of the caller's
    witnesses there are self-checked, and its revisions are exactly those of
    the pairs minted for the caller's own leaves of that epoch and method. *)
Theorem union_isolated state did epoch_id m (A : AStore) next resp :
  represents (view (r_store state)) A -> store_inv A next -> u64_ok epoch_id ->
  union_for_epoch state did epoch_id m = Ok resp -> status resp = 200 ->
  is_Some (look A epochs epoch_id) /\
  (forall p, look A pending_anchors epoch_id = Some p -> m ∉ p_methods p) /\
  (forall idx, own_witness A did epoch_id m idx ->
     is_Some (look A self_checked_tips (ti_signature_hash idx))) /\
  exists revisions file_index, body resp = BTree revisions file_index /\
    forall k, is_Some (revisions !! k) <->
      exists idx, own_witness A did epoch_id m idx /\
        (k = revision_wire_hex (ti_object_hash idx) \/ k = revision_wire_hex (ti_signature_hash idx)).
Proof.
  intros Hr Hi Hu Hok Hst.
  destruct (union_entries state did epoch_id m A next resp Hr Hi Hu Hok Hst)
    as (He & Hp & entries & maps & Hown & Hc & Hrev & Hm & Hb).
  split; [done|]. split; [done|]. split; [by intros idx ?%Hown; apply Hc|].
  exists maps.1, maps.2. split; [done|]. intros k.
  pose proof (load_pairs_read (r_store state) A entries (∅, ∅) Hr Hrev) as Hl. rewrite Hm in Hl. rewrite Hl.
  cbn [fst]. rewrite lookup_empty. setoid_rewrite Hown. split; [by intros [[]|?]|by right].
Qed.

(** ** What a tree holds *)

(** The caller's by the witness, or by the leaf. *)
Definition owned (A : AStore) (caller : string) (t : Hash32) (idx : TipPairIndex) : Prop :=
  ti_submitter_did idx = caller \/
  exists l m, look A leaf_owner l = Some caller /\ look A leaf_to_tips (l, m) = Some t.

(** The revision with the link [k] and the JSON [v] is of a self-checked witness
    of the caller's. *)
Definition own_revision (A : AStore) (caller k : string) (v : Value) : Prop :=
  exists t idx h rev,
    look A tip_to_pair t = Some idx /\ is_Some (look A self_checked_tips t) /\ owned A caller t idx /\
    (h = ti_object_hash idx \/ h = ti_signature_hash idx) /\
    k = revision_wire_hex h /\ look A witness_revisions h = Some rev /\ json_of rev v.

Lemma pair_body_own A idx t caller revs files k v :
  look A tip_to_pair t = Some idx -> is_Some (look A self_checked_tips t) -> owned A caller t idx ->
  pair_body A idx (BTree revs files) -> revs !! k = Some v -> own_revision A caller k v.
Proof.
  intros Ht Hc Ho (o & s & ov & sv & Hlo & Hov & Hls & Hsv & [= -> _]) Hk.
  apply lookup_insert_Some in Hk as [[<- <-]|[_ Hk]].
  - exists t, idx, (ti_signature_hash idx), s. split_and!; auto.
  - apply lookup_singleton_Some in Hk as [<- <-]. exists t, idx, (ti_object_hash idx), o. split_and!; auto.
Qed.

Lemma load_pairs_own ks (A : AStore) next caller entries m m' k v :
  represents (view ks) A -> store_inv A next ->
  (forall idx, idx ∈ entries -> exists t, look A tip_to_pair t = Some idx /\
     is_Some (look A self_checked_tips t) /\ owned A caller t idx) ->
  load_pairs ks entries m = Ok m' -> m'.1 !! k = Some v -> m.1 !! k = Some v \/ own_revision A caller k v.
Proof.
  intros Hr Hi. revert m; induction entries as [|idx entries IH]; intros m He Hl Hk; cbn [load_pairs] in Hl.
  { injection Hl as <-. by left. }
  apply result_bind_ok in Hl as (m1 & Hm1 & Hl).
  destruct (He idx) as (t & Ht & Hc & Ho); [by left|].
  destruct (si_pairs _ _ Hi _ _ Ht) as (<- & Hob & Hsi).
  destruct (IH m1) as [Hk1|?]; [by intros; apply He; right|done|done| |by right].
  pose proof (load_pair_read ks A idx m Hr Hob Hsi) as Hp. rewrite Hm1 in Hp.
  destruct Hp as (o & s & ov & sv & Hlo & Hov & Hls & Hsv & ->). cbn [fst] in Hk1.
  apply lookup_insert_Some in Hk1 as [[<- <-]|[_ Hk1]].
  - right. exists (ti_signature_hash idx), idx, (ti_signature_hash idx), s. split_and!; auto.
  - apply lookup_insert_Some in Hk1 as [[<- <-]|[_ Hk1]]; [|by left].
    right. exists (ti_signature_hash idx), idx, (ti_object_hash idx), o. split_and!; auto.
Qed.

(** A tree that one of the three routes answers. *)
Lemma by_tip_own state caller tip_hex (A : AStore) next resp revs files k v :
  represents (view (r_store state)) A -> store_inv A next ->
  get_tree_by_tip state caller tip_hex = Ok resp -> body resp = BTree revs files -> revs !! k = Some v ->
  own_revision A caller k v.
Proof.
  intros Hr Hi Hg Hb Hk.
  destruct (tree_by_tip_cases state caller tip_hex A next Hr Hi) as [Hc|(e & He & _)]; [|congruence].
  destruct (parse_leaf_hex tip_hex) as [tip|e]; [|congruence].
  destruct (look A tip_to_pair tip) as [idx|] eqn:Ht; [|rewrite Hc in Hg; by injection Hg as <-].
  case_decide as Hd; [|congruence]. case_decide as Hs; [|rewrite Hc in Hg; by injection Hg as <-].
  destruct Hc as (b & Hgb & Hp). rewrite Hgb in Hg. injection Hg as <-. cbn [body] in Hb. subst b.
  apply (pair_body_own A idx tip caller revs files k v); try done. by left.
Qed.

Lemma union_own state caller epoch_id m (A : AStore) next resp revs files k v :
  represents (view (r_store state)) A -> store_inv A next -> u64_ok epoch_id ->
  union_for_epoch state caller epoch_id m = Ok resp -> status resp = 200 ->
  body resp = BTree revs files -> revs !! k = Some v -> own_revision A caller k v.
Proof.
  intros Hr Hi Hu Hok Hst Hb Hk.
  destruct (union_entries state caller epoch_id m A next resp Hr Hi Hu Hok Hst)
    as (_ & _ & entries & maps & Hown & Hc & _ & Hm & Hb').
  rewrite Hb' in Hb. injection Hb as <- _.
  destruct (load_pairs_own (r_store state) A next caller entries (∅, ∅) maps k v Hr Hi) as [He|?];
    [|done|done|by cbn in He; rewrite lookup_empty in He|done].
  intros idx Hidx. pose proof (Hc idx Hidx) as Hs. apply Hown in Hidx as (t & Ht & Hd & _).
  destruct (si_pairs _ _ Hi _ _ Ht) as (<- & _). exists (ti_signature_hash idx). split_and!; auto. by left.
Qed.

Lemma by_leaf_revisions state caller leaf_hex method (A : AStore) next resp revs files k v :
  represents (view (r_store state)) A -> store_inv A next ->
  get_tree_by_leaf state caller leaf_hex method = Ok resp -> body resp = BTree revs files ->
  revs !! k = Some v -> own_revision A caller k v.
Proof.
  intros Hr Hi Hg Hb Hk. unfold get_tree_by_leaf in Hg.
  apply result_bind_ok in Hg as (ms & _ & Hg). apply result_bind_ok in Hg as (m & _ & Hg).
  apply result_bind_ok in Hg as (l & _ & Hg). apply result_bind_ok in Hg as (owner & How%map_err_ok & Hg).
  pose proof (get_leaf_owner_read (r_store state) A Hr l) as Ho. rewrite How in Ho. cbn in Ho.
  destruct owner as [d|]; [|by injection Hg as <-]. case_decide as Hd; [done|].
  assert (d = caller) as -> by (by destruct (decide (d = caller))).
  unfold by_leaf_owned in Hg. apply result_bind_ok in Hg as (tip & Ht%map_err_ok & Hg).
  pose proof (get_tip_for_leaf_read (r_store state) A Hr l m) as Hlt. rewrite Ht in Hlt. cbn in Hlt.
  assert (forall e o, body (pending_anchor_response state m e o) <> BTree revs files) as Hpend
    by (intros e o; unfold pending_anchor_response; by destruct (anchor_stalled _ _ _)).
  destruct tip as [t|].
  2: { unfold by_leaf_missing in Hg. apply result_bind_ok in Hg as (p & _ & Hg).
       destruct p; injection Hg as <-; [by apply Hpend in Hb|done]. }
  apply result_bind_ok in Hg as (found & Hf%map_err_ok & Hg).
  pose proof (get_tip_pair_read (r_store state) A Hr t) as Hlp. rewrite Hf in Hlp. cbn in Hlp.
  apply result_bind_ok in Hg as (idx & Hidx%ok_or_ok & Hg). subst found.
  apply result_bind_ok in Hg as (checked & Hc%map_err_ok & Hg).
  pose proof (is_self_checked_read (r_store state) A Hr t) as Hsc. rewrite Hc in Hsc. cbn in Hsc.
  destruct checked; cbn [negb] in Hg.
  - apply result_bind_ok in Hg as (b & Hbb%map_err_ok & [= <-]). cbn [body] in Hb. subst b.
    pose proof (build_pair_read (r_store state) A next t idx Hr Hi (eq_sym Hlp)) as Hp. rewrite Hbb in Hp.
    apply (pair_body_own A idx t caller revs files k v); [done| | |done|done].
    + symmetry in Hsc. by apply bool_decide_eq_true in Hsc.
    + right. by exists l, m.
  - unfold by_leaf_legacy in Hg. apply result_bind_ok in Hg as (p & _ & Hg).
    destruct p; [case_decide|]; injection Hg as <-; by try apply Hpend in Hb.
Qed.
End trees.
