(* ===== verification/ReadRaces.v ===== *)
(** * Reads between writes
    ([get_tree_by_leaf], [load_pair_into_maps] of
    [crates/aqua-timestamp/src/routes.rs])

    The handler reads the keyspace several times and takes no snapshot, while
    the sealer writes it.  Here every read of the by-leaf handler has the
    keyspace it finds; with one keyspace throughout it is the handler of
    [Routes]. *)

From S2P Require Import Prelude External Merkle Accumulator Witness Selfcheck Epoch Utf8 Kv Storage StoreSpec StoreRefine StoreScans SealStore SealInv Sealer SealerProofs Auth Config Routes RouteTheorems.
Open Scope string_scope.
Open Scope list_scope.
Open Scope Z_scope.

Section races.
Context `{HexCrate, Sdk, Fjall, SerdeCrates, !StoreCodecs, !RouteCrates}.

Definition on_store (state : RouteState) (ks : Keyspace) : RouteState :=
  {| r_accumulator := r_accumulator state; r_store := ks; r_allowed_dids := r_allowed_dids state;
     r_max_leaves_per_request := r_max_leaves_per_request state; r_duration_secs := r_duration_secs state;
     r_max_pool_size := r_max_pool_size state; r_max_anchor_faults := r_max_anchor_faults state |}.

(** The keyspace at the handler's [n]-th read. *)
Context (state : RouteState) (reads : nat -> Keyspace).

(** The two reads of a pair. *)
Definition pair_at (i : nat) (idx : TipPairIndex) : result string Body :=
  let? obj_bytes := load_revision (reads i) (ti_object_hash idx) "witness object revision missing in store" in
  let? sig_bytes := load_revision (reads (S i)) (ti_signature_hash idx) "witness signature revision missing in store" in
  let? obj_json := map_err (fun e => "json: " +:+ json_error_text e) (json_from_slice obj_bytes) in
  let? sig_json := map_err (fun e => "json: " +:+ json_error_text e) (json_from_slice sig_bytes) in
  let obj_hex := revision_wire_hex (ti_object_hash idx) in
  let sig_hex := revision_wire_hex (ti_signature_hash idx) in
  Ok (BTree (<[sig_hex := sig_json]> {[obj_hex := obj_json]})
        (<[sig_hex := ti_signature_file_name idx]> {[obj_hex := ti_object_file_name idx]})).

(** No tip: the pending lookup, then the faults of the epoch. *)
Definition missing_at (l : Hash32) (method : AnchorMethod) : result AuthApiError Response :=
  let? pending := store_400 (get_pending_epoch_for_leaf l method (reads 2)) in
  Ok (match pending with
      | Some epoch_id => pending_anchor_response (on_store state (reads 3)) method epoch_id (Some l)
      | None => not_found_response "no witness for that leaf/method yet"
      end).

Definition legacy_at (l : Hash32) (method : AnchorMethod) (idx : TipPairIndex) : result AuthApiError Response :=
  let? pending := store_400 (get_pending_epoch_for_leaf l method (reads 4)) in
  Ok (match pending with
      | Some epoch_id =>
          if decide (ti_epoch_id idx < epoch_id)
          then pending_anchor_response (on_store state (reads 5)) method epoch_id (Some l)
          else not_verifiable_response (Some method) (ti_epoch_id idx) (Some l)
      | None => not_verifiable_response (Some method) (ti_epoch_id idx) (Some l)
      end).

Definition get_tree_by_leaf_at (bearer leaf_hex : string) (method : option string)
    : result AuthApiError Response :=
  let? method_str := ok_or method (bad_request "missing required query parameter 'method'") in
  let? method := parse_method_param method_str in
  let? l := map_err bad_request (parse_hash32 leaf_hex) in
  let? owner := store_400 (get_leaf_owner l (reads 0)) in
  match owner with
  | None => Ok (not_found_response "unknown leaf")
  | Some d =>
      if decide (d <> bearer) then Err (forbidden "leaf submitted by a different DID")
      else
        let? tip := store_400 (get_tip_for_leaf l method (reads 1)) in
        match tip with
        | None => missing_at l method
        | Some tip =>
            let? found := store_400 (get_tip_pair tip (reads 2)) in
            let? idx := ok_or found (bad_request "internal: tip_to_pair index missing for known tip") in
            let? checked := route_is_self_checked (on_store state (reads 3)) tip in
            if negb checked then legacy_at l method idx
            else
              let? b := map_err (fun e => bad_request ("store: " +:+ e)) (pair_at 4 idx) in
              Ok {| status := 200; body := b |}
        end
  end.
End races.

Section no_race.
Context `{HexCrate, Sdk, Fjall, SerdeCrates, !StoreCodecs, !RouteCrates}.

(** On one keyspace this is the handler. *)
Lemma get_tree_by_leaf_one_store state bearer leaf_hex method :
  get_tree_by_leaf_at state (fun _ => r_store state) bearer leaf_hex method
  = get_tree_by_leaf state bearer leaf_hex method.
Proof.
  assert (on_store state (r_store state) = state) as Hon by (by destruct state).
  unfold get_tree_by_leaf_at, get_tree_by_leaf, by_leaf_owned, missing_at, by_leaf_missing, legacy_at, by_leaf_legacy,
    pair_at, build_pair_body, load_pair_into_maps. rewrite !Hon. unfold result_bind. cbn [fst snd].
  repeat case_match; simplify_eq/=; done.
Qed.
End no_race.

Section answers.
Context `{HexLaws, Sdk, FjallLaws, SerdeCrates, !StoreCodecs, !StoreCodecLaws, !RouteCrates, !RouteLaws}.

(** What the store's writes do from one read to a later one: nothing is lost,
    and tips, marks and revisions stay. *)
Record grows (A A' : AStore) : Prop := {
  gr_lost : nothing_lost A A';
  gr_pairs t : is_Some (look A tip_to_pair t) -> is_Some (look A' tip_to_pair t);
  gr_checked t : is_Some (look A self_checked_tips t) -> is_Some (look A' self_checked_tips t);
  gr_revisions h : is_Some (look A witness_revisions h) -> is_Some (look A' witness_revisions h);
}.

#[export] Instance grows_preorder : PreOrder grows.
Proof.
  split; [intros A; split; auto; reflexivity|]. intros A B C HAB HBC. split.
  - etrans; [apply HAB|apply HBC].
  - intros t ?. by apply HBC, HAB.
  - intros t ?. by apply HBC, HAB.
  - intros t ?. by apply HBC, HAB.
Qed.

(** Updates that delete only pending records and lookups keep the rest. *)
Lemma aops_keep (A : AStore) ops p k :
  Forall (fun a => match a with ADel q _ => q <> p | _ => True end) ops ->
  is_Some (look A p k) -> is_Some (look (apply_aops A ops) p k).
Proof.
  intros Ho. revert A. induction Ho as [|a ops Ha _ IH]; intros A Hk; [done|].
  change (apply_aops A (a :: ops)) with (apply_aops (apply_aop A a) ops). apply IH.
  unfold look in *. destruct a as [q k' v|q k']; cbn.
  - destruct (decide (q = p)) as [<-|Hne]; [rewrite upd_eq|by rewrite upd_ne].
    destruct (decide (k' = k)) as [->|Hkk]; [by rewrite lookup_insert_eq|by rewrite lookup_insert_ne].
  - by rewrite upd_ne.
Qed.

(** The chain of stores the reads see. *)
Lemma grows_le (A : nat -> AStore) i j : (forall n, grows (A n) (A (S n))) -> (i <= j)%nat -> grows (A i) (A j).
Proof. intros Hg. induction 1; [reflexivity|]. etrans; [done|apply Hg]. Qed.

(** Nothing but the keyspace failing ends a read early. *)
Lemma route_read_at {X Y} (r : result StoreError X) (k : X -> result AuthApiError Y) (P : X -> Prop) Q :
  read_ok r P -> (forall x, P x -> route_ok (k x) Q) -> route_ok (result_bind (store_400 r) k) Q.
Proof.
  intros Hr Hk. destruct (store_400_read _ _ Hr) as [(x & -> & Hx)|(e & -> & He)]; cbn [result_bind]; [by apply Hk|].
  right. by exists e.
Qed.

(** The answers for the caller's own leaf, read over changing stores. *)
Inductive raced (A : nat -> AStore) (l : Hash32) (m : AnchorMethod) : result AuthApiError Response -> Prop :=
| raced_tree t idx revs files :
    look (A 1%nat) leaf_to_tips (l, m) = Some t -> look (A 2%nat) tip_to_pair t = Some idx ->
    is_Some (look (A 5%nat) self_checked_tips t) ->
    raced A l m (Ok {| status := 200; body := BTree revs files |})
| raced_pending resp : status resp = 202 \/ status resp = 503 -> raced A l m (Ok resp)
| raced_legacy resp t : status resp = 410 -> look (A 1%nat) leaf_to_tips (l, m) = Some t ->
    look (A 3%nat) self_checked_tips t = None -> raced A l m (Ok resp)
(** The witness was served between the two reads. *)
| raced_late : look (A 1%nat) leaf_to_tips (l, m) = None -> served (A 2%nat) l m ->
    raced A l m (Ok (not_found_response "no witness for that leaf/method yet")).

Lemma pending_status state m e o : status (pending_anchor_response state m e o) = 202 \/
  status (pending_anchor_response state m e o) = 503.
Proof. unfold pending_anchor_response. destruct (anchor_stalled _ _ _); [by right|by left]. Qed.

Lemma pair_at_read reads (A : nat -> AStore) i idx :
  represents (view (reads i)) (A i) -> represents (view (reads (S i))) (A (S i)) ->
  is_Some (look (A i) witness_revisions (ti_object_hash idx)) ->
  is_Some (look (A (S i)) witness_revisions (ti_signature_hash idx)) ->
  match pair_at reads i idx with
  | Ok b => exists revs files, b = BTree revs files
  | Err t => exists fe, t = "store: " +:+ store_error_text (SFjall fe)
  end.
Proof.
  intros Hr Hr' Ho Hs. unfold pair_at.
  pose proof (load_revision_read (reads i) (A i) _ "witness object revision missing in store" Hr Ho) as Hlo.
  destruct (load_revision (reads i) _ _) as [ob|t]; cbn [result_bind]; [|done].
  pose proof (load_revision_read (reads (S i)) (A (S i)) _ "witness signature revision missing in store" Hr' Hs) as Hls.
  destruct (load_revision (reads (S i)) _ _) as [sb|t]; cbn [result_bind]; [|done].
  destruct Hlo as (o & _ & Heo), Hls as (s & _ & Hes).
  destruct (json_from_slice_encoded o ob Heo) as [ov ->], (json_from_slice_encoded s sb Hes) as [sv ->].
  cbn. by eexists _, _.
Qed.

Lemma found_answer_at state reads l m (A : nat -> AStore) (next : nat -> Z) :
  (forall i, represents (view (reads i)) (A i)) -> (forall i, store_inv (A i) (next i)) ->
  (forall i, grows (A i) (A (S i))) -> found (A 0%nat) l m ->
  route_ok (let? tip := store_400 (get_tip_for_leaf l m (reads 1%nat)) in
            match tip with
            | None => missing_at state reads l m
            | Some tip =>
                let? found := store_400 (get_tip_pair tip (reads 2%nat)) in
                let? idx := ok_or found (bad_request "internal: tip_to_pair index missing for known tip") in
                let? checked := route_is_self_checked (on_store state (reads 3%nat)) tip in
                if negb checked then legacy_at state reads l m idx
                else
                  let? b := map_err (fun e => bad_request ("store: " +:+ e)) (pair_at reads 4 idx) in
                  Ok {| status := 200; body := b |}
            end) (raced A l m).
Proof.
  intros Hr Hi Hg Hf.
  apply (route_read_at _ _ _ _ (get_tip_for_leaf_read _ _ (Hr 1%nat) l m)). intros tip Ht. destruct tip as [t|].
  - symmetry in Ht. destruct (si_tips _ _ (Hi 1%nat) _ _ Ht) as [idx1 Hidx1].
    apply (route_read_at _ _ _ _ (get_tip_pair_read _ _ (Hr 2%nat) t)). intros found ->.
    destruct (gr_pairs _ _ (Hg 1%nat) t) as [idx Hidx]; [by eexists|]. rewrite Hidx. cbn [ok_or result_bind].
    apply (route_checked (on_store state (reads 3%nat)) (A 3%nat)); [apply Hr|]. case_bool_decide as Hc; cbn [negb].
    + destruct (si_pairs _ _ (Hi 2%nat) _ _ Hidx) as (<- & Hob & Hsi).
      pose proof (pair_at_read reads A 4 idx (Hr 4%nat) (Hr 5%nat)
                    (gr_revisions _ _ (grows_le A 2 4 Hg ltac:(lia)) _ Hob)
                    (gr_revisions _ _ (grows_le A 2 5 Hg ltac:(lia)) _ Hsi)) as Hp.
      destruct (pair_at reads 4 idx) as [b|e]; cbn.
      * left. destruct Hp as (revs & files & ->). eapply raced_tree; [done|done|].
        apply (gr_checked _ _ (grows_le A 3 5 Hg ltac:(lia)) _ Hc).
      * right. destruct Hp as [fe ->]. eexists. split; [done|]. exists fe. by right.
    + apply (route_read_at _ _ _ _ (get_pending_epoch_read _ _ (Hr 4%nat) l m)). intros pend _. left.
      assert (look (A 3%nat) self_checked_tips t = None) as Hno by (by apply eq_None_not_Some).
      destruct pend as [e|]; [|by eapply raced_legacy].
      case_decide; [apply raced_pending, pending_status|by eapply raced_legacy].
  - apply (route_read_at _ _ _ _ (get_pending_epoch_read _ _ (Hr 2%nat) l m)). intros pend Hp. left.
    destruct pend as [e|]; [apply raced_pending, pending_status|].
    apply raced_late; [done|]. apply (gr_lost _ _ (grows_le A 0 2 Hg ltac:(lia))) in Hf as [[e He]|?]; [congruence|done].
Qed.

(** C10. The by-leaf route while the sealer writes. The handler takes no
    snapshot, so each of its reads may find a later store. When the caller's
    leaf waits or is served at the first read and the stores it meets only grow
    by the sealer's writes, the answer is still a tree of a self-checked
    witness, a 202, a 503, a 410 for a tip without the mark; or a 404 "no
    witness for that leaf/method yet", and that one only when the witness
    was stored between the read of the tip and the read of the pending
    lookup: the leaf is served then, and the next request finds it, over that
    store or any it grows to that still has the caller as the owner. *)
Theorem own_leaf_raced state reads bearer leaf_hex m l (A : nat -> AStore) (next : nat -> Z) :
  (forall i, represents (view (reads i)) (A i)) -> (forall i, store_inv (A i) (next i)) ->
  (forall i, grows (A i) (A (S i))) ->
  parse_leaf_hex leaf_hex = Ok l -> look (A 0%nat) leaf_owner l = Some bearer ->
  (exists id, outstanding (A 0%nat) id l m) \/ served (A 0%nat) l m ->
  route_ok (get_tree_by_leaf_at state reads bearer leaf_hex (Some (as_str m))) (fun r =>
    raced A l m r /\
    (r = Ok (not_found_response "no witness for that leaf/method yet") ->
     forall (later : RouteState) (A' : AStore) next',
       represents (view (r_store later)) A' -> store_inv A' next' -> grows (A 2%nat) A' ->
       look A' leaf_owner l = Some bearer ->
       route_ok (get_tree_by_leaf later bearer leaf_hex (Some (as_str m)))
         (fun r => exists idx b, r = Ok {| status := 200; body := b |} /\ pair_body A' idx b))).
Proof.
  intros Hr Hi Hg Hl Ho Hf.
  assert (found (A 0%nat) l m) as Hfound
    by (destruct Hf as [(id & p & Hp & Hm & Hlp)|Hs]; [by eapply (si_found _ _ (Hi 0%nat))|by right]).
  assert (route_ok (get_tree_by_leaf_at state reads bearer leaf_hex (Some (as_str m))) (raced A l m)) as Hraced.
  { unfold get_tree_by_leaf_at. cbn [ok_or result_bind]. unfold parse_method_param.
    assert (parse_method (as_str m) = Some m) as -> by (by destruct m). cbn [ok_or result_bind].
    unfold parse_hash32. rewrite Hl. cbn [map_err result_bind].
    apply (route_read_at _ _ _ _ (get_leaf_owner_read _ _ (Hr 0%nat) l)). intros owner ->. rewrite Ho.
    rewrite decide_False by (by intros []). by eapply found_answer_at. }
  destruct Hraced as [Hra|Hra]; [left|by right]. split; [exact Hra|]. intros He later A' next' HrA HiA HgA HoA.
  rewrite He in Hra. inversion Hra as [t idx revs files ? ? ? Heq|resp Hst Heq|resp t Hst ? ? Heq|Hno Hs Heq]; subst.
  - destruct Hst; done.
  - done.
  - apply (gr_lost _ _ HgA) in Hs as (t & Ht & Hc). destruct (si_tips _ _ HiA _ _ Ht) as [idx Hidx].
    destruct (by_leaf_served later bearer leaf_hex m l t idx A' next' HrA HiA Hl HoA Ht Hidx Hc)
      as [(b & Hb & Hp)|?]; [left|by right]. by exists idx, b.
Qed.

(** The store's writes grow it where they lose nothing. *)
Lemma write_grows (A : AStore) ops :
  Forall (fun a => match a with ADel q _ => q = pending_leaves \/ q = pending_anchors | _ => True end) ops ->
  nothing_lost A (apply_aops A ops) -> grows A (apply_aops A ops).
Proof.
  intros Ho Hn.
  assert (forall p k, p <> pending_leaves -> p <> pending_anchors ->
    is_Some (look A p k) -> is_Some (look (apply_aops A ops) p k)) as Hk.
  { intros p k H1' H2'. apply aops_keep. eapply Forall_impl; [exact Ho|]. intros [q k' v|q k']; [done|].
    intros [->| ->]; congruence. }
  split; [done|intros; by apply Hk..].
Qed.

Lemma sealer_writes_grow (A : AStore) record leaves ws pend remaining d (p : PendingEpoch) :
  (nothing_lost A (apply_aops A (sealed_aops record leaves ws pend)) ->
   grows A (apply_aops A (sealed_aops record leaves ws pend))) /\
  (nothing_lost A (apply_aops A (minted_aops A remaining d ws)) ->
   grows A (apply_aops A (minted_aops A remaining d ws))) /\
  (nothing_lost A (apply_aops A [APut pending_anchors (p_epoch_id p) p]) ->
   grows A (apply_aops A [APut pending_anchors (p_epoch_id p) p])).
Proof.
  assert (forall (w : MintedWitness), Forall (fun a => match a with
    ADel q _ => q = pending_leaves \/ q = pending_anchors | _ => True end) (witness_aops w)) as Hw
    by (intros w; repeat constructor).
  split_and!; intros Hn; (apply write_grows; [|exact Hn]).
  - unfold sealed_aops. rewrite !Forall_app. split_and!.
    + destruct pend as [q|]; [|constructor]. constructor; [done|].
      apply Forall_concat, Forall_fmap, Forall_true. intros x. by apply Forall_fmap, Forall_true.
    + by repeat constructor.
    + apply Forall_concat, Forall_fmap, Forall_true. intros e. repeat constructor.
    + apply Forall_concat, Forall_fmap, Forall_true. exact Hw.
  - unfold minted_aops. rewrite !Forall_app. split_and!.
    + apply Forall_concat, Forall_fmap, Forall_true. exact Hw.
    + apply Forall_fmap, Forall_true. done.
    + apply Forall_concat, Forall_fmap, Forall_true. intros x. cbn. case_decide; by repeat constructor.
    + case_decide; (constructor; [|constructor]); [by right|done].
  - by repeat constructor.
Qed.
End answers.
