(* ===== verification/ClientAuth.v ===== *)
(** * The client's token cache
    ([crates/aqua-timestamp-client/src/auth.rs])

    [ensure_token] is called by concurrent tasks.  A task's program counter is
    a [TaskState]; every step between two suspension points, every access of the
    shared cache, of the flag and of the [Notify], is an [auth_event], and
    [auth_step] the state it leaves, so a run is an interleaving of events.
    The handshake with the server ([aqua_auth]'s [authenticate]) is an event's
    answer. *)

From S2P Require Import Prelude External.
Open Scope string_scope.
Open Scope list_scope.
Open Scope Z_scope.

Definition REFRESH_LEAD_SECS : u64 := 60.

Record Cached := { token : string; valid_until : u64 }.

(** The clock is read by the call. *)
Definition needs_refresh (now valid_until : u64) : bool :=
  valid_until <=? wrapping_add 64 now REFRESH_LEAD_SECS.

(** The signer handed to [aqua_auth]: the closure's hex, decoded. *)
Definition refresh_signer `{HexCrate} (sign : string -> result string string) (msg : string)
    : result string bytes :=
  let? hex_sig := sign msg in
  map_err (fun e => "signer returned non-hex signature: " +:+ hex_error_text e)
    (hex_decode (trim_start_matches "0x" hex_sig)).

Inductive TaskState :=
(** At the top of the loop, before the cache is locked. *)
| Checking
(** The cache had no usable token; before [compare_exchange]. *)
| Claiming
(** [compare_exchange] failed; before [notified()] is called. *)
| Losing
(** The [Notified] future exists and is awaited. *)
| Waiting
(** Owns the refresh, which runs. *)
| Refreshing
(** The refresh answered; before [in_flight] is cleared. *)
| Releasing (r : result string string)
(** Before [notify_waiters]. *)
| Notifying (r : result string string)
| Returned (r : result string string).

#[export] Instance TaskState_eq_dec : EqDecision TaskState.
Proof. assert (EqDecision (result string string)) by solve_decision. solve_decision. Defined.

Record AuthState := {
  cached : option Cached;
  in_flight : bool;
  tasks : gmap nat TaskState;
}.

Definition auth_new : AuthState := {| cached := None; in_flight := false; tasks := ∅ |}.

Inductive auth_event :=
(** A task calls [ensure_token]. *)
| EStart (t : nat)
| ECheck (t : nat) (now : u64)
| EClaim (t : nat)
| ESubscribe (t : nat)
(** [authenticate] answers, and the token is cached. *)
| ERefresh (t : nat) (r : result string Cached)
| ERelease (t : nat)
| ENotify (t : nat)
(** The caller drops the future at a suspension point. *)
| ECancel (t : nat).

Definition set_task (t : nat) (s : TaskState) (st : AuthState) : AuthState :=
  {| cached := cached st; in_flight := in_flight st; tasks := <[t := s]> (tasks st) |}.
Definition set_flag (b : bool) (st : AuthState) : AuthState :=
  {| cached := cached st; in_flight := b; tasks := tasks st |}.

(** [notify_waiters]: wakes the futures that exist, and keeps no permit. *)
Definition wake (s : TaskState) : TaskState := match s with Waiting => Checking | _ => s end.
Definition notify_waiters (st : AuthState) : AuthState :=
  {| cached := cached st; in_flight := in_flight st; tasks := wake <$> tasks st |}.

(** What the check of the cache answers. *)
Definition cache_hit (now : u64) (o : option Cached) : option string :=
  match o with
  | Some c => if negb (needs_refresh now (valid_until c)) then Some (token c) else None
  | None => None
  end.

Definition auth_step (ev : auth_event) (st : AuthState) : option AuthState :=
  match ev with
  | EStart t =>
      match tasks st !! t with None => Some (set_task t Checking st) | Some _ => None end
  | ECheck t now =>
      match tasks st !! t with
      | Some Checking =>
          Some (set_task t (match cache_hit now (cached st) with
                            | Some tok => Returned (Ok tok)
                            | None => Claiming
                            end) st)
      | _ => None
      end
  | EClaim t =>
      match tasks st !! t with
      | Some Claiming =>
          Some (if in_flight st then set_task t Losing st
                else set_task t Refreshing (set_flag true st))
      | _ => None
      end
  | ESubscribe t =>
      match tasks st !! t with Some Losing => Some (set_task t Waiting st) | _ => None end
  | ERefresh t r =>
      match tasks st !! t with
      | Some Refreshing =>
          Some (match r with
                | Ok c =>
                    {| cached := Some c; in_flight := in_flight st;
                       tasks := <[t := Releasing (Ok (token c))]> (tasks st) |}
                | Err e => set_task t (Releasing (Err ("authentication failed: " +:+ e))) st
                end)
      | _ => None
      end
  | ERelease t =>
      match tasks st !! t with
      | Some (Releasing r) => Some (set_task t (Notifying r) (set_flag false st))
      | _ => None
      end
  | ENotify t =>
      match tasks st !! t with
      | Some (Notifying r) => Some (set_task t (Returned r) (notify_waiters st))
      | _ => None
      end
  | ECancel t =>
      match tasks st !! t with
      | Some Checking | Some Waiting | Some Refreshing =>
          Some {| cached := cached st; in_flight := in_flight st; tasks := delete t (tasks st) |}
      | _ => None
      end
  end.

Fixpoint auth_trace (evs : list auth_event) (st : AuthState) : option AuthState :=
  match evs with
  | [] => Some st
  | ev :: evs' => match auth_step ev st with Some st' => auth_trace evs' st' | None => None end
  end.

Lemma auth_trace_app evs evs' st :
  auth_trace (evs ++ evs') st
  = match auth_trace evs st with Some st' => auth_trace evs' st' | None => None end.
Proof.
  revert st; induction evs as [|ev evs IH]; intros st; cbn; [done|].
  destruct (auth_step ev st); [apply IH|done].
Qed.

(** Rule induction over runs: an invariant that every step keeps. *)
Lemma auth_trace_ind (P : AuthState -> Prop) (Q : auth_event -> Prop) :
  (forall ev st st', Q ev -> P st -> auth_step ev st = Some st' -> P st') ->
  forall evs st st', Forall Q evs -> P st -> auth_trace evs st = Some st' -> P st'.
Proof.
  intros Hs evs. induction evs as [|ev evs IH]; intros st st' HQ Hp; cbn; [by intros [= <-]|].
  inversion HQ; subst. destruct (auth_step ev st) as [st1|] eqn:He; [|done].
  apply IH; [done|]. by eapply Hs.
Qed.

(** Case analysis of a step: the event, and the state of its task. *)
Ltac auth_cases Hs :=
  match type of Hs with auth_step ?ev ?st = Some ?st' =>
    destruct ev as [t|t now|t|t|t r|t|t|t]; cbn [auth_step] in Hs;
    destruct (tasks st !! t) as [s|] eqn:Ht; try discriminate Hs;
    try (destruct s; try discriminate Hs); injection Hs as <-
  end.

(** ** Mutual exclusion *)

(** The task owns the refresh. *)
Definition holds (s : TaskState) : bool :=
  match s with Refreshing | Releasing _ => true | _ => false end.

Definition holder (m : gmap nat TaskState) (t : nat) : Prop :=
  exists s, m !! t = Some s /\ holds s = true.

(** At most one task owns the refresh, and only while the flag is set. *)
Definition single_flight (b : bool) (m : gmap nat TaskState) : Prop :=
  forall t, holder m t -> b = true /\ forall t', holder m t' -> t' = t.

Lemma holder_insert_free m t s u : holds s = false -> holder (<[t := s]> m) u -> holder m u.
Proof.
  intros Hs (s' & Hu & Hh). apply lookup_insert_Some in Hu as [[<- <-]|[_ Hu]]; [congruence|by exists s'].
Qed.
Lemma holder_insert_held m t s u : holder m t -> holder (<[t := s]> m) u -> holder m u.
Proof.
  intros Ht (s' & Hu & Hh). apply lookup_insert_Some in Hu as [[<- <-]|[_ Hu]]; [done|by exists s'].
Qed.
Lemma holder_wake m u : holder (wake <$> m) u <-> holder m u.
Proof.
  unfold holder. setoid_rewrite lookup_fmap. split.
  - intros (s & Hs & Hh). apply fmap_Some in Hs as (s' & Hs & ->). exists s'. split; [done|]. by destruct s'.
  - intros (s & Hs & Hh). exists (wake s). rewrite Hs. split; [done|]. by destruct s.
Qed.
Lemma holder_delete m t u : holder (delete t m) u -> holder m u.
Proof. intros (s & [_ Hs]%lookup_delete_Some & Hh). by exists s. Qed.

Lemma single_flight_sub b m m' :
  single_flight b m -> (forall u, holder m' u -> holder m u) -> single_flight b m'.
Proof.
  intros Hi Hs t Ht%Hs. destruct (Hi t Ht) as [? Hu]. split; [done|]. intros t' Ht'%Hs. by apply Hu.
Qed.

Lemma single_flight_claim m t : single_flight false m -> single_flight true (<[t := Refreshing]> m).
Proof.
  intros Hi u Hu. split; [done|].
  assert (forall v, holder (<[t := Refreshing]> m) v -> v = t) as Hv.
  { intros v (s & Hv & Hh). apply lookup_insert_Some in Hv as [[<- _]|[_ Hv]]; [done|].
    destruct (Hi v) as [? _]; [by exists s|done]. }
  intros u' Hu'. by rewrite (Hv u Hu), (Hv u' Hu').
Qed.

Lemma single_flight_release b m t r :
  single_flight b m -> holder m t -> single_flight false (<[t := Notifying r]> m).
Proof.
  intros Hi Ht u (s & Hu & Hh). apply lookup_insert_Some in Hu as [[_ <-]|[Hne Hu]]; [done|].
  destruct (Hi t Ht) as [_ Hun]. destruct Hne. symmetry. apply Hun. by exists s.
Qed.

Lemma single_flight_step ev st st' :
  single_flight (in_flight st) (tasks st) -> auth_step ev st = Some st' ->
  single_flight (in_flight st') (tasks st').
Proof.
  intros Hi Hs. auth_cases Hs;
    try (destruct (cache_hit now (cached st)));
    try (destruct (in_flight st) eqn:Hb);
    try (destruct r as [c|e]);
    cbn [in_flight tasks set_task set_flag notify_waiters]; try rewrite Hb; try rewrite Hb in Hi;
    first
      [ by apply single_flight_claim
      | (eapply single_flight_release; [exact Hi|by eexists])
      | (eapply single_flight_sub; [exact Hi|]; intros u;
         first [ by apply holder_insert_free
               | by apply holder_delete
               | (rewrite <- (holder_wake (tasks st) u); by apply holder_insert_free)
               | apply holder_insert_held; by eexists ]) ].
Qed.

(** ** Where tokens come from *)

(** The server answered a session with the token during the run. *)
Definition issued (evs : list auth_event) (tok : string) : Prop :=
  exists t c, ERefresh t (Ok c) ∈ evs /\ token c = tok.

Definition answer (s : TaskState) : option (result string string) :=
  match s with Releasing r | Notifying r | Returned r => Some r | _ => None end.

Definition tokens_issued (evs : list auth_event) (st : AuthState) : Prop :=
  (forall c, cached st = Some c -> issued evs (token c)) /\
  (forall t s tok, tasks st !! t = Some s -> answer s = Some (Ok tok) -> issued evs tok).

Lemma tokens_issued_put evs st t s :
  tokens_issued evs st -> (forall tok, answer s = Some (Ok tok) -> issued evs tok) ->
  tokens_issued evs (set_task t s st).
Proof.
  intros [Hc Ht] Hs. split; [exact Hc|]. intros u s' tok Hu. cbn in Hu.
  apply lookup_insert_Some in Hu as [[_ <-]|[_ Hu]]; [apply Hs|by eapply Ht].
Qed.

Lemma tokens_issued_flag evs st b : tokens_issued evs st -> tokens_issued evs (set_flag b st).
Proof. by intros []. Qed.

Lemma tokens_issued_step evs ev st st' :
  ev ∈ evs -> tokens_issued evs st -> auth_step ev st = Some st' -> tokens_issued evs st'.
Proof.
  intros Hin Hi Hs. pose proof Hi as [Hc Ha].
  assert (tokens_issued evs (notify_waiters st)) as Hw.
  { split; [exact Hc|]. intros u s tok Hu Hs'. cbn in Hu. rewrite lookup_fmap in Hu.
    apply fmap_Some in Hu as (s' & Hu & ->). apply (Ha u s' tok Hu). by destruct s'. }
  auth_cases Hs.
  - by apply tokens_issued_put.
  - apply tokens_issued_put; [done|]. unfold cache_hit.
    destruct (cached st) as [c|]; [|done]. destruct (negb _); [|done].
    intros tok [= <-]. by apply Hc.
  - by destruct (in_flight st); apply tokens_issued_put; try apply tokens_issued_flag.
  - by apply tokens_issued_put.
  - destruct r as [c|e]; [|by apply tokens_issued_put].
    change (tokens_issued evs (set_task t (Releasing (Ok (token c)))
              {| cached := Some c; in_flight := in_flight st; tasks := tasks st |})).
    assert (issued evs (token c)) as Hiss by (by exists t, c).
    apply tokens_issued_put; [|by intros tok [= <-]]. split; [|exact Ha]. by intros c' [= <-].
  - apply tokens_issued_put; [by apply tokens_issued_flag|]. intros tok [= ->]. by eapply Ha.
  - apply tokens_issued_put; [done|]. intros tok [= ->]. by eapply Ha.
  - split; [exact Hc|]. intros u s tok Hu. cbn in Hu. apply lookup_delete_Some in Hu as [_ Hu]. by eapply Ha.
  - split; [exact Hc|]. intros u s tok Hu. cbn in Hu. apply lookup_delete_Some in Hu as [_ Hu]. by eapply Ha.
  - split; [exact Hc|]. intros u s tok Hu. cbn in Hu. apply lookup_delete_Some in Hu as [_ Hu]. by eapply Ha.
Qed.

Lemma ensure_token_lemma evs st :
  auth_trace evs auth_new = Some st ->
  single_flight (in_flight st) (tasks st) /\
  forall t tok, tasks st !! t = Some (Returned (Ok tok)) -> issued evs tok.
Proof.
  intros Ht. split.
  - apply (auth_trace_ind (fun st => single_flight (in_flight st) (tasks st)) (fun _ => True)) in Ht;
      [done|intros ev s s' _; apply single_flight_step|by apply Forall_true|].
    intros t (s & Hs & _). cbn in Hs. by rewrite lookup_empty in Hs.
  - apply (auth_trace_ind (tokens_issued evs) (fun ev => ev ∈ evs)) in Ht.
    + intros t tok Hr. by eapply Ht.
    + intros ev s s'. apply tokens_issued_step.
    + by apply Forall_forall.
    + split; [done|]. intros t s tok Hs. cbn in Hs. by rewrite lookup_empty in Hs.
Qed.

(** C18. Concurrent callers share one refresh. In every interleaving of calls,
    checks, refreshes and dropped futures from a new client, at most one task
    owns the refresh at a time, and the flag is set while one does; and every
    token a call returns was issued by the server in a refresh of the run. *)
Theorem ensure_token_sound evs st :
  auth_trace evs auth_new = Some st ->
  single_flight (in_flight st) (tasks st) /\
  forall t tok, tasks st !! t = Some (Returned (Ok tok)) -> issued evs tok.
Proof. apply ensure_token_lemma. Qed.

(** ** Waiting *)

(** Nothing is left to happen to the running calls. *)
Definition quiet (st : AuthState) : Prop :=
  forall ev st', auth_step ev st = Some st' -> exists t, ev = EStart t \/ ev = ECancel t.

(** A state whose calls have all returned or wait for another's refresh. *)
Lemma quiet_if st :
  (forall t s, tasks st !! t = Some s -> s = Waiting \/ exists r, s = Returned r) -> quiet st.
Proof.
  intros Hr ev st' Hs. destruct ev as [t|t now|t|t|t r|t|t|t];
    try (exists t; by auto); cbn [auth_step] in Hs;
    destruct (tasks st !! t) as [s|] eqn:Ht; try discriminate Hs;
    destruct (Hr t s Ht) as [->|[r' ->]]; discriminate Hs.
Qed.

Definition no_cancel (ev : auth_event) : Prop := match ev with ECancel _ => False | _ => True end.

(** Without dropped futures the flag is set only while a task owns the
    refresh. *)
Definition flag_owned (st : AuthState) : Prop :=
  in_flight st = true -> exists t, holder (tasks st) t.

Lemma holder_insert_other m t s u :
  (forall s', m !! t = Some s' -> holds s' = true -> holds s = true) ->
  holder m u -> holder (<[t := s]> m) u.
Proof.
  intros Hs (s' & Hu & Hh). destruct (decide (t = u)) as [<-|Hne].
  - exists s. rewrite lookup_insert_eq. split; [done|]. by eapply Hs.
  - exists s'. by rewrite lookup_insert_ne.
Qed.

Lemma flag_owned_step ev st st' :
  no_cancel ev -> flag_owned st -> auth_step ev st = Some st' -> flag_owned st'.
Proof.
  intros Hn Hi Hs.
  assert (forall t s, (forall s', tasks st !! t = Some s' -> holds s' = true -> holds s = true) ->
            flag_owned (set_task t s st)) as Hput.
  { intros t s Ht Hf. destruct (Hi Hf) as [u Hu]. exists u. by apply holder_insert_other. }
  auth_cases Hs; try done; try (apply Hput; intros s'; rewrite Ht; by intros [= <-]).
  - destruct (in_flight st) eqn:Hb; [apply Hput; intros s'; rewrite Ht; by intros [= <-]|].
    intros _. exists t, Refreshing. cbn. by rewrite lookup_insert_eq.
  - intros _. exists t. destruct r; eexists; cbn; by rewrite lookup_insert_eq.
  - intros Hf. destruct (Hi Hf) as [u Hu]. exists u. cbn. apply holder_insert_other.
    + intros s'. rewrite lookup_fmap, Ht. by intros [= <-].
    + by apply holder_wake.
Qed.

(** C29. Without dropped futures a call can hang only in the wait for another's
    refresh. When nothing is left to happen, the flag is clear and every call
    has returned or waits to be notified; and a later call that finds the
    cached token unusable refreshes it and wakes every one that waits. *)
Theorem quiet_only_waits evs st :
  Forall no_cancel evs -> auth_trace evs auth_new = Some st -> quiet st ->
  in_flight st = false /\
  (forall t s, tasks st !! t = Some s -> s = Waiting \/ exists r, s = Returned r) /\
  forall t now r, tasks st !! t = None -> cache_hit now (cached st) = None ->
    exists st', auth_trace [EStart t; ECheck t now; EClaim t; ERefresh t r; ERelease t; ENotify t] st
                = Some st' /\
      forall u, tasks st' !! u <> Some Waiting.
Proof.
  intros Hn Ht Hq.
  assert (flag_owned st) as Hf.
  { apply (auth_trace_ind flag_owned no_cancel) with evs auth_new; [|done..].
    intros ev s s'. apply flag_owned_step. }
  assert (forall t s, tasks st !! t = Some s -> s = Waiting \/ exists r, s = Returned r) as Hr.
  { intros t s Hs.
    assert (forall ev, auth_step ev st <> None -> exists t, ev = EStart t \/ ev = ECancel t) as Hq'.
    { intros ev He. destruct (auth_step ev st) as [st'|] eqn:Hs'; [by eapply Hq|done]. }
    destruct s as [| | | | |r|r|r]; [..|right; by exists r]; [| | |by left| | |];
      [destruct (Hq' (ECheck t 0))|destruct (Hq' (EClaim t))|destruct (Hq' (ESubscribe t))
      |destruct (Hq' (ERefresh t (Err "")))|destruct (Hq' (ERelease t))|destruct (Hq' (ENotify t))];
      try (cbn; rewrite Hs; done); naive_solver. }
  assert (in_flight st = false) as Hb.
  { destruct (in_flight st) eqn:Hb; [|done]. destruct (Hf Hb) as (t & s & Hs & Hh).
    destruct (Hr t s Hs) as [->|[r ->]]; done. }
  split; [done|]. split; [done|]. intros t now r Hnew Hmiss.
  cbn -[cache_hit]. rewrite Hnew. cbn -[cache_hit]. rewrite lookup_insert_eq. cbn -[cache_hit].
  rewrite Hmiss. cbn. rewrite !lookup_insert_eq. cbn. rewrite Hb. cbn. rewrite !lookup_insert_eq.
  destruct r as [c|e]; cbn; rewrite !lookup_insert_eq; cbn; rewrite !lookup_insert_eq;
    (eexists; split; [done|]); intros u; cbn;
    (destruct (decide (t = u)) as [<-|Hne]; [by rewrite lookup_insert_eq|]);
    rewrite lookup_insert_ne, lookup_fmap by done;
    match goal with |- context [?m !! u] => destruct (m !! u) as [s|] end; by try destruct s.
Qed.

(** ** What can go wrong *)

(** No call finds the cached token unusable at its check. *)
Definition checks_fresh (c : Cached) (ev : auth_event) : Prop :=
  forall t now, ev = ECheck t now -> needs_refresh now (valid_until c) = false.

(** Nobody refreshes, and [t] waits. *)
Record left_waiting (t : nat) (c : Cached) (st : AuthState) : Prop := {
  lw_task : tasks st !! t = Some Waiting;
  lw_cached : cached st = Some c;
  lw_flag : in_flight st = false;
  lw_others u s : tasks st !! u = Some s ->
    s = Waiting \/ s = Checking \/ exists r, s = Returned r;
}.

Lemma left_waiting_step t c ev st st' :
  checks_fresh c ev /\ ev <> ECancel t ->
  left_waiting t c st -> auth_step ev st = Some st' -> left_waiting t c st'.
Proof.
  intros [Hfr Hne] [Ht Hc Hf Ho] Hs.
  assert (forall u s, u <> t -> s = Checking \/ (exists r, s = Returned r) ->
            left_waiting t c (set_task u s st)) as Hput.
  { intros u s Hu Hs'. split; cbn; try done; [by rewrite lookup_insert_ne|].
    intros v s' [[_ <-]|[_ Hv]]%lookup_insert_Some; [|by eapply Ho]. by right. }
  destruct ev as [u|u now|u|u|u r|u|u|u]; cbn [auth_step] in Hs;
    destruct (tasks st !! u) as [s|] eqn:Hu; try discriminate Hs;
    try (destruct s; try discriminate Hs); injection Hs as <-;
    try (by destruct (Ho _ _ Hu) as [?|[?|[? ?]]]).
  - apply Hput; [congruence|by left].
  - apply Hput; [congruence|]. rewrite Hc. cbn. rewrite (Hfr u now eq_refl). right. by eexists.
  - split; cbn; try done; [by rewrite lookup_delete_ne by congruence|].
    intros v s Hv. cbn in Hv. apply lookup_delete_Some in Hv as [_ Hv]. by eapply Ho.
  - split; cbn; try done; [by rewrite lookup_delete_ne by congruence|].
    intros v s Hv. cbn in Hv. apply lookup_delete_Some in Hv as [_ Hv]. by eapply Ho.
Qed.

Definition rests (s : TaskState) : bool :=
  match s with Waiting | Checking | Returned _ => true | _ => false end.

Lemma rests_all (m : gmap nat TaskState) :
  forallb (fun us => rests us.2) (map_to_list m) = true ->
  forall u s, m !! u = Some s -> s = Waiting \/ s = Checking \/ exists r, s = Returned r.
Proof.
  rewrite forallb_forall. intros Hall u s Hu%elem_of_map_to_list%list_elem_of_In%Hall.
  destruct s; try done; auto. right; right. by eexists.
Qed.

Definition race : list auth_event :=
  [EStart 1; EStart 2; ECheck 1 0; ECheck 2 0; EClaim 1; EClaim 2;
   ERefresh 1 (Ok {| token := "token"; valid_until := 3600 |}); ERelease 1; ENotify 1; ESubscribe 2].

(** C31. A wakeup can be lost. In a run without dropped futures a call that lost
    the race for the refresh starts to wait only after the refresh was
    announced: the token is cached and fresh, nobody refreshes, and as long as
    it stays fresh for every later call, that call never returns. *)
Theorem wakeup_can_be_lost :
  exists evs c st, Forall no_cancel evs /\ auth_trace evs auth_new = Some st /\
    cached st = Some c /\ tasks st !! 2%nat = Some Waiting /\
    forall evs' st', Forall (fun ev => checks_fresh c ev /\ ev <> ECancel 2) evs' ->
      auth_trace evs' st = Some st' -> tasks st' !! 2%nat = Some Waiting.
Proof.
  set (c := {| token := "token"; valid_until := 3600 |}).
  exists race, c. eexists. split; [by repeat constructor|]. split; [reflexivity|].
  split; [done|]. split; [done|]. intros evs' st' Hf Ht. apply (lw_task 2 c).
  eapply (auth_trace_ind (left_waiting 2 c) (fun ev => checks_fresh c ev /\ ev <> ECancel 2));
    [by intros ev s s'; apply left_waiting_step|exact Hf| |exact Ht].
  split; [done..|]. by apply rests_all.
Qed.

(** The flag is set and nobody owns the refresh; [u] has returned nothing but
    a cached token since. *)
Record stuck (st0 : AuthState) (evs : list auth_event) (st : AuthState) : Prop := {
  st_flag : in_flight st = true;
  st_free t : ~ holder (tasks st) t;
  st_cached : cached st = cached st0;
  st_answers u s r : tasks st !! u = Some s -> answer s = Some r ->
    (exists s0, tasks st0 !! u = Some s0 /\ answer s0 = Some r) \/
    exists now tok, ECheck u now ∈ evs /\ cache_hit now (cached st0) = Some tok /\ r = Ok tok;
}.

Lemma stuck_step st0 evs ev st st' :
  ev ∈ evs -> stuck st0 evs st -> auth_step ev st = Some st' -> stuck st0 evs st'.
Proof.
  intros Hin [Hf Hh Hc Ha] Hs.
  assert (forall t s, holds s = false ->
            (forall r, answer s = Some r ->
               (exists s0, tasks st0 !! t = Some s0 /\ answer s0 = Some r) \/
               exists now tok, ECheck t now ∈ evs /\ cache_hit now (cached st0) = Some tok /\ r = Ok tok) ->
            stuck st0 evs (set_task t s st)) as Hput.
  { intros t s Hs' Hr. split; cbn; try done.
    - intros u Hu%holder_insert_free; [by eapply Hh|done].
    - intros u s' r [[<- <-]|[_ Hu]]%lookup_insert_Some; [apply Hr|by eapply Ha]. }
  assert (forall t, stuck st0 evs {| cached := cached st; in_flight := in_flight st;
                                     tasks := delete t (tasks st) |}) as Hdel.
  { intros t. split; cbn; try done.
    - intros u Hu%holder_delete. by eapply Hh.
    - intros u s' r [_ Hu]%lookup_delete_Some. by eapply Ha. }
  auth_cases Hs; try apply Hdel; try (by apply Hput);
    try (destruct (Hh t); eexists; by rewrite Ht).
  - apply Hput; [by destruct (cache_hit _ _)|]. intros r Hr. right.
    destruct (cache_hit now (cached st)) as [tok|] eqn:Hhit; [|done]. injection Hr as <-.
    exists now, tok. by rewrite <- Hc.
  - rewrite Hf. by apply Hput.
  - pose proof (Hput t (Returned r) eq_refl) as Hp.
    assert (stuck st0 evs (set_task t (Returned r) st)) as Hst.
    { apply Hp. intros r' [= <-]. by eapply Ha. }
    destruct Hst as [_ _ _ Ha']. split; cbn in *; try done.
    + intros u Hu. apply holder_insert_free in Hu; [|done]. rewrite holder_wake in Hu. by apply (Hh u).
    + intros u s' r' Hu Hr'. apply lookup_insert_Some in Hu as [[<- <-]|[_ Hu]].
      * eapply (Ha' t (Returned r)); [by rewrite lookup_insert_eq|done].
      * rewrite lookup_fmap in Hu. apply fmap_Some in Hu as (s0 & Hu & ->).
        apply (Ha u s0 r' Hu). by destruct s0.
Qed.

(** C30. A dropped refresh blocks the client for good. Once the future that owns
    the refresh is dropped, in whatever follows the flag stays set, the cache is
    never refreshed, and a call started later returns nothing but the token
    cached before, while it is fresh. *)
Theorem dropped_refresh_blocks evs st t evs' st' :
  auth_trace evs auth_new = Some st -> tasks st !! t = Some Refreshing ->
  auth_trace (ECancel t :: evs') st = Some st' ->
  in_flight st' = true /\ cached st' = cached st /\
  forall u r, tasks st !! u = None -> tasks st' !! u = Some (Returned r) ->
    exists now tok, ECheck u now ∈ evs' /\ cache_hit now (cached st) = Some tok /\ r = Ok tok.
Proof.
  intros Ht Hr Hc. destruct (ensure_token_lemma evs st Ht) as [Hsf _].
  cbn [auth_trace auth_step] in Hc. rewrite Hr in Hc.
  destruct (Hsf t) as [Hf Hun]; [by exists Refreshing|].
  apply (auth_trace_ind (stuck st evs') (fun ev => ev ∈ evs')) in Hc.
  - destruct Hc as [Hf' _ Hc' Ha']. split; [done|]. split; [done|]. intros u r Hu Hu'.
    destruct (Ha' u (Returned r) r Hu' eq_refl) as [(s0 & Hs0 & _)|Hx]; [congruence|done].
  - intros ev s s'. apply stuck_step.
  - by apply Forall_forall.
  - split; cbn; try done.
    + intros u (s & Hu & Hh). apply lookup_delete_Some in Hu as [Hne Hu].
      destruct Hne. symmetry. apply Hun. by exists s.
    + intros u s r [_ Hu]%lookup_delete_Some Hs. left. by exists s.
Qed.
