(* ===== verification/Client.v ===== *)
(** * The client
    ([crates/aqua-timestamp-client/src]: [client.rs], [types.rs], [error.rs],
    [hex_utils.rs])

    A request is a function of what it gets: the token [ensure_token] answered
    ([ClientAuth]), the transport's reply, the clock.  JSON bodies are read
    through the derived deserialisers of the wire types, over the [Value] a
    body parses to. *)

From S2P Require Import Prelude External.
Open Scope string_scope.
Open Scope list_scope.
Open Scope Z_scope.

(** ** What the client reads of its crates *)

(** A JSON object's members, in the order of its map. *)
Class ClientCrates `{Sdk} := {
  json_from_str : string -> result string Value;
  json_object : Value -> option (list (string * Value));
  (** A [Vec<String>]'s deserialiser. *)
  strings_from_value : Value -> result string (list string);
  (** [AnyRevision]'s deserialiser, [is_timestamp_object], and
      [core::signature::verify_signature_sync] without its log. *)
  rev_from_value : Value -> result string AnyRevision;
  is_timestamp_object : AnyRevision -> bool;
  verify_signature_sync : AnyRevision -> string -> bool;
}.

(** An answer of [reqwest]: the status and the body, or the transport's error. *)
Record HttpReply := { hr_status : Z; hr_body : string }.

Definition is_success (status : Z) : bool := (200 <=? status) && (status <? 300).

(** ** [types.rs] and [error.rs] *)

Inductive AnchorMethod := Evm | Qtsa.

#[export] Instance AnchorMethod_eq_dec : EqDecision AnchorMethod.
Proof. solve_decision. Defined.

Definition as_str (m : AnchorMethod) : string := match m with Evm => "evm" | Qtsa => "qtsa" end.
Definition parse_method (s : string) : option AnchorMethod :=
  if decide (s = "evm") then Some Evm else if decide (s = "qtsa") then Some Qtsa else None.

(** Durations are in nanoseconds. *)
Abbreviation Duration := Z.

Inductive ClientError :=
| Http (text : string)
| Auth (text : string)
| Server (status : Z) (body : string)
| IdentityDiscovery (base_url source : string)
| ServerIdentityRotated (prior discovered : string)
| SignatureMismatch
| NotYetSealed (leaf : string) (method : AnchorMethod)
| WitnessMissing (leaf : string) (method : AnchorMethod)
| Timeout (elapsed : Duration)
| Invalid (text : string)
| Url (text : string)
| Serde (text : string).

Record SubmissionReceipt := {
  rc_leaf : Hash32;
  rc_epoch_id : u64;
  rc_epoch_closes_at : u64;
  rc_submitter_did : string;
}.

Record WitnessPair `{Sdk} := {
  object_revision : AnyRevision;
  signature_revision : AnyRevision;
  object_hash : string;
  signature_hash : string;
  anchor_method : AnchorMethod;
}.

Record EpochSchedule := {
  es_current_epoch_id : u64;
  es_current_epoch_opened_at : u64;
  es_current_epoch_closes_at : u64;
  es_epoch_duration_secs : u64;
  es_last_sealed_epoch_id : option u64;
  es_last_sealed_at : option u64;
  es_anchor_methods : list string;
}.

(** ** [hex_utils.rs] *)

Definition parse_hash32 `{HexCrate} (input : string) : result ClientError Hash32 :=
  let trimmed := strip_prefix_or "0x" input in
  if decide (String.length trimmed <> 64%nat)
  then Err (Invalid ("expected 64 hex chars (optionally 0x-prefixed), got " +:+
                     pretty.pretty (Z.of_nat (String.length trimmed))))
  else
    let? b := map_err (fun e => Invalid ("non-hex character: " +:+ hex_error_text e))
                (hex_decode trimmed) in
    ok_or (try_array 32 b) (Invalid "").

Definition format_hash32_bare `{HexCrate} (b : Hash32) : string := hex_encode (arr b).

(** ** Wire types *)

Record LeavesRequest := { lq_leaves : list string }.

(** The fields the client reads of the answer. *)
Record LeavesResponse := {
  lw_accepted : u64;
  lw_duplicates : u64;
  lw_epoch_id : u64;
  lw_epoch_closes_at : u64;
  lw_submitter_did : string;
}.

Section client.
Context `{HexCrate, Sdk, !ClientCrates}.

(** The revisions of a [TreeWire], in the order the map iterates them;
    [file_index] is not read. *)
Definition TreeWire : Type := list (string * AnyRevision).

(** A required member; [serde]'s message. *)
Definition member (v : Value) (k : string) : result string Value :=
  ok_or (json_get v k) ("missing field `" +:+ k +:+ "`").

Definition u64_member (v : Value) (k : string) : result string u64 :=
  let? x := member v k in ok_or (json_as_u64 x) ("invalid type for " +:+ k).
Definition str_member (v : Value) (k : string) : result string string :=
  let? x := member v k in ok_or (json_as_str x) ("invalid type for " +:+ k).
(** An [Option<u64>]: absent or null is [None]. *)
Definition opt_u64_member (v : Value) (k : string) : result string (option u64) :=
  match json_get v k with
  | None => Ok None
  | Some x =>
      if decide (x = json_null) then Ok None
      else let? n := ok_or (json_as_u64 x) ("invalid type for " +:+ k) in Ok (Some n)
  end.

Definition tree_from_value (v : Value) : result string TreeWire :=
  let? r := member v "revisions" in
  let? entries := ok_or (json_object r) "invalid type, expected a map" in
  collect (fun kv : string * Value => let? rev := rev_from_value kv.2 in Ok (kv.1, rev)) entries.

Definition leaves_response_from_value (v : Value) : result string LeavesResponse :=
  let? a := u64_member v "accepted" in
  let? d := u64_member v "duplicates" in
  let? e := u64_member v "epoch_id" in
  let? c := u64_member v "epoch_closes_at" in
  let? s := str_member v "submitter_did" in
  Ok {| lw_accepted := a; lw_duplicates := d; lw_epoch_id := e; lw_epoch_closes_at := c;
        lw_submitter_did := s |}.

Definition schedule_from_value (v : Value) : result string EpochSchedule :=
  let? i := u64_member v "current_epoch_id" in
  let? o := u64_member v "current_epoch_opened_at" in
  let? c := u64_member v "current_epoch_closes_at" in
  let? d := u64_member v "epoch_duration_secs" in
  let? l := opt_u64_member v "last_sealed_epoch_id" in
  let? a := opt_u64_member v "last_sealed_at" in
  let? ms := result_bind (member v "anchor_methods") strings_from_value in
  Ok {| es_current_epoch_id := i; es_current_epoch_opened_at := o;
        es_current_epoch_closes_at := c; es_epoch_duration_secs := d;
        es_last_sealed_epoch_id := l; es_last_sealed_at := a; es_anchor_methods := ms |}.

(** [resp.json::<T>()]. *)
Definition json {T} (from_value : Value -> result string T) (body : string) : result ClientError T :=
  map_err Http (result_bind (json_from_str body) from_value).

(** ** Witness extraction *)

(** The one loop of [extract_witness_pair]: the signature and the timestamp
    object found so far. *)
Fixpoint find_pair (entries : TreeWire) (signature object : option (string * AnyRevision))
    : result ClientError (option (string * AnyRevision) * option (string * AnyRevision)) :=
  match entries with
  | [] => Ok (signature, object)
  | (hash, rev) :: entries' =>
      match as_signature rev with
      | Some _ =>
          match signature with
          | Some _ => Err (Invalid "witness tree contains more than one Signature revision")
          | None => find_pair entries' (Some (hash, rev)) object
          end
      | None =>
          if bool_decide (is_Some (as_typed rev)) && is_timestamp_object rev then
            match object with
            | Some _ => Err (Invalid "witness tree contains more than one timestamp object")
            | None => find_pair entries' signature (Some (hash, rev))
            end
          else find_pair entries' signature object
      end
  end.

(** The checks of the found pair; [None] of [as_signature] would panic. *)
Definition check_pair (method : AnchorMethod) (pinned_server_did : string)
    (sig obj : string * AnyRevision) : result ClientError WitnessPair :=
  match as_signature sig.2 with
  | None => Err (Invalid "checked above")
  | Some s =>
      if decide (link_to_string (signature_previous_revision s) <> obj.1)
      then Err (Invalid "witness Signature.previous_revision does not point to the timestamp Object")
      else if decide (signature_signer s <> pinned_server_did) then Err SignatureMismatch
      else if negb (verify_signature_sync sig.2 sig.1) then Err SignatureMismatch
      else Ok {| object_revision := obj.2; signature_revision := sig.2; object_hash := obj.1;
                 signature_hash := sig.1; anchor_method := method |}
  end.

Definition extract_witness_pair (tree : TreeWire) (method : AnchorMethod)
    (pinned_server_did : string) : result ClientError WitnessPair :=
  let? found := find_pair tree None None in
  let? sig := ok_or found.1 (Invalid "witness tree has no Signature revision") in
  let? obj := ok_or found.2 (Invalid "witness tree has no timestamp Object revision") in
  check_pair method pinned_server_did sig obj.

(** ** Requests *)

(** The reply of a successful status, else the server's error. *)
Definition successful (reply : result string HttpReply) : result ClientError HttpReply :=
  let? r := map_err Http reply in
  if is_success (hr_status r) then Ok r else Err (Server (hr_status r) (hr_body r)).

Definition schedule (reply : result string HttpReply) : result ClientError EpochSchedule :=
  let? r := successful reply in json schedule_from_value (hr_body r).

(** The request a batch is submitted with. *)
Definition leaves_request (hashes : list Hash32) : LeavesRequest :=
  {| lq_leaves := (fun h => "0x" +:+ format_hash32_bare h) <$> hashes |}.

(** [send]: what the server answers to the request. *)
Definition submit_many (token : result ClientError string)
    (send : string -> LeavesRequest -> result string HttpReply) (hashes : list Hash32)
    : result ClientError (list SubmissionReceipt) :=
  if decide (hashes = []) then Err (Invalid "hashes must be non-empty")
  else
    let? token := token in
    let? r := successful (send token (leaves_request hashes)) in
    let? body := json leaves_response_from_value (hr_body r) in
    Ok ((fun h => {| rc_leaf := h; rc_epoch_id := lw_epoch_id body;
                     rc_epoch_closes_at := lw_epoch_closes_at body;
                     rc_submitter_did := lw_submitter_did body |}) <$> hashes).

Definition submit (token : result ClientError string)
    (send : string -> LeavesRequest -> result string HttpReply) (hash : Hash32)
    : result ClientError SubmissionReceipt :=
  let? receipts := submit_many token send [hash] in
  ok_or (last receipts) (Invalid "server returned empty receipt set").

Definition witness_path (leaf : Hash32) : string := "/trees/by-leaf/" +:+ format_hash32_bare leaf.

(** [send]: what the server answers to the path and the method. *)
Definition try_fetch_witness (server_did : string) (token : result ClientError string)
    (send : string -> string -> string -> result string HttpReply) (leaf : Hash32)
    (method : AnchorMethod) : result ClientError (option WitnessPair) :=
  let? token := token in
  let? r := map_err Http (send token (witness_path leaf) (as_str method)) in
  if decide (hr_status r = 404) then Ok None
  else if negb (is_success (hr_status r)) then Err (Server (hr_status r) (hr_body r))
  else
    let? tree := json tree_from_value (hr_body r) in
    let? wp := extract_witness_pair tree method server_did in
    Ok (Some wp).

(** ** Polling *)

(** What one round of [await_witness] gets: the time since the start at the
    round's top, before the nap and in the timeout error, and the two requests'
    answers. *)
Record Round := {
  ro_top : Duration;
  ro_schedule : result ClientError EpochSchedule;
  ro_fetch : result ClientError (option WitnessPair);
  ro_before_nap : Duration;
  ro_at_timeout : Duration;
}.

(** A round's end: the answer, or the nap before the next. *)
Inductive RoundEnd := Answer (r : result ClientError WitnessPair) | Nap (d : Duration).

Definition sealed_for (receipt : SubmissionReceipt) (sched : EpochSchedule) : bool :=
  match es_last_sealed_epoch_id sched with
  | Some id => rc_epoch_id receipt <=? id
  | None => false
  end.

Definition nap_or_timeout (poll_interval timeout : Duration) (ro : Round) : RoundEnd :=
  let remaining := Z.max 0 (timeout - ro_before_nap ro) in
  let nap := Z.min poll_interval remaining in
  if nap =? 0 then Answer (Err (Timeout (ro_at_timeout ro))) else Nap nap.

Definition await_round (poll_interval timeout : Duration) (receipt : SubmissionReceipt)
    (ro : Round) : RoundEnd :=
  if timeout <=? ro_top ro then Answer (Err (Timeout (ro_top ro)))
  else
    match ro_schedule ro with
    | Err e => Answer (Err e)
    | Ok sched =>
        if sealed_for receipt sched then
          match ro_fetch ro with
          | Err e => Answer (Err e)
          | Ok (Some wp) => Answer (Ok wp)
          | Ok None => nap_or_timeout poll_interval timeout ro
          end
        else nap_or_timeout poll_interval timeout ro
    end.

(** The rounds until the first answer; [None]: they ended before it. *)
Fixpoint await_witness (poll_interval timeout : Duration) (receipt : SubmissionReceipt)
    (rounds : list Round) : option (result ClientError WitnessPair) :=
  match rounds with
  | [] => None
  | ro :: rounds' =>
      match await_round poll_interval timeout receipt ro with
      | Answer r => Some r
      | Nap _ => await_witness poll_interval timeout receipt rounds'
      end
  end.
End client.
