(* ===== verification/EventStream.v ===== *)
(** * The event bus and its streams
    ([crates/aqua-timestamp-core/src/events.rs], [sse_events] of
    [crates/aqua-timestamp/src/routes.rs])

    The broadcast channel is a class: a subscriber has its own queue of what is
    sent after it subscribed, of which the channel keeps the newest; what is
    pushed out is counted and reported as a lag. *)

From S2P Require Import Prelude External Epoch Config Identity Pages.
Open Scope string_scope.
Open Scope list_scope.
Open Scope Z_scope.

(** ** [tokio::sync::broadcast] *)

Class Broadcast := {
  (** The sender and its receivers, which are named by a number. *)
  Channel : Type;
  channel : usize -> Channel;
  (** Whether there was no receiver, or their number. *)
  tx_send : SseEvent -> Channel -> Channel * result unit usize;
  tx_subscribe : Channel -> Channel * nat;
  (** [None]: nothing to receive yet. *)
  rx_recv : nat -> Channel -> Channel * option Received;
  rx_drop : nat -> Channel -> Channel;
}.

(** A receiver: the events it has still to receive, oldest first, and how many
    were pushed out since it last received. *)
Definition Queue : Type := list SseEvent * nat.

Definition push (slots : nat) (e : SseEvent) (q : Queue) : Queue :=
  if (length q.1 <? slots)%nat then (q.1 ++ [e], q.2) else (tail q.1 ++ [e], S q.2).

(** A receiver that lags is told so first. *)
Definition pop (q : Queue) : Queue * option Received :=
  match q.2, q.1 with
  | S n, es => ((es, O), Some (Lagged (Z.of_nat (S n))))
  | O, e :: es => ((es, O), Some (Got e))
  | O, [] => (([], O), None)
  end.

Class BroadcastLaws `{Broadcast} := {
  slots : Channel -> nat;
  queues : Channel -> gmap nat Queue;
  channel_queues capacity : queues (channel capacity) = ∅;
  (** The capacity asked for, or more. *)
  channel_slots capacity : 0 < capacity -> capacity <= Z.of_nat (slots (channel capacity));
  send_queues e c : queues (tx_send e c).1 = push (slots c) e <$> queues c;
  send_answer e c : (tx_send e c).2
    = if decide (queues c = ∅) then Err tt else Ok (Z.of_nat (size (queues c)));
  send_slots e c : slots (tx_send e c).1 = slots c;
  subscribe_fresh c : queues c !! (tx_subscribe c).2 = None;
  subscribe_queues c : queues (tx_subscribe c).1 = <[(tx_subscribe c).2 := ([], O)]> (queues c);
  subscribe_slots c : slots (tx_subscribe c).1 = slots c;
  recv_queues r c q : queues c !! r = Some q ->
    queues (rx_recv r c).1 = <[r := (pop q).1]> (queues c) /\ (rx_recv r c).2 = (pop q).2;
  recv_gone r c : queues c !! r = None -> rx_recv r c = (c, None);
  recv_slots r c : slots (rx_recv r c).1 = slots c;
  drop_queues r c : queues (rx_drop r c) = delete r (queues c);
  drop_slots r c : slots (rx_drop r c) = slots c;
}.

(** ** [EventBus] *)

(** What the service does with its bus: the loops and the tick send, a
    connection opens, its stream is polled, it closes. *)
Inductive bus_op :=
| BusSend (event : SseEvent)
| BusOpen
| BusPoll (r : nat)
| BusClose (r : nat).

#[export] Instance SseEvent_eq_dec : EqDecision SseEvent.
Proof. solve_decision. Defined.
#[export] Instance bus_op_eq_dec : EqDecision bus_op.
Proof. solve_decision. Defined.

Section bus.
Context `{Broadcast}.

Definition EventBus_new (capacity : usize) : Channel := channel capacity.

(** [EventBus::send]: how many received it; none is no error. *)
Definition bus_send (event : SseEvent) (bus : Channel) : Channel * usize :=
  let '(bus, r) := tx_send event bus in
  (bus, match r with Ok n => n | Err _ => 0 end).

Definition bus_subscribe (bus : Channel) : Channel * nat := tx_subscribe bus.

Definition bus_step (bus : Channel) (op : bus_op) : Channel :=
  match op with
  | BusSend event => (bus_send event bus).1
  | BusOpen => (bus_subscribe bus).1
  | BusPoll r => (rx_recv r bus).1
  | BusClose r => rx_drop r bus
  end.

(** What the receiver [r] gets over a run. *)
Fixpoint received (r : nat) (ops : list bus_op) (bus : Channel) : list Received :=
  match ops with
  | [] => []
  | op :: ops' =>
      (if decide (op = BusPoll r) then option_list (rx_recv r bus).2 else []) ++
      received r ops' (bus_step bus op)
  end.
End bus.

Definition sent (ops : list bus_op) : list SseEvent :=
  omap (fun op => match op with BusSend e => Some e | _ => None end) ops.
Definition got (rs : list Received) : list SseEvent :=
  omap (fun r => match r with Got e => Some e | Lagged _ => None end) rs.
(** How many events the stream was told it missed. *)
Definition missed (rs : list Received) : nat :=
  sum_list_with (fun r => match r with Got _ => O | Lagged n => Z.to_nat n end) rs.

(** ** One queue *)

Lemma sublist_same_length {A} (l k : list A) : l `sublist_of` k -> (length k <= length l)%nat -> l = k.
Proof.
  induction 1 as [|x l k Hs IH|x l k Hs IH]; intros Hl; cbn in Hl; [done| |].
  - f_equal. apply IH. lia.
  - apply sublist_length in Hs. lia.
Qed.

Lemma push_keeps n e es k : (0 < n)%nat ->
  let q := push n e (es, k) in
  q.1 `sublist_of` es ++ [e] /\ (length q.1 + q.2 = length es + k + 1)%nat.
Proof.
  intros Hn. unfold push. cbn [fst snd]. destruct (length es <? n)%nat eqn:Hl; cbn [fst snd].
  - rewrite length_app. cbn. split; [done|lia].
  - apply Nat.ltb_ge in Hl. destruct es as [|x es]; [cbn in Hl; lia|].
    cbn [tail app]. rewrite length_app. cbn [length]. split; [by apply sublist_cons|lia].
Qed.

Lemma push_below n e es k : (length es < n)%nat -> push n e (es, k) = (es ++ [e], k).
Proof. intros Hl. unfold push. cbn [fst snd]. by rewrite (proj2 (Nat.ltb_lt _ _) Hl). Qed.

Section streams.
Context `{BroadcastLaws}.

Lemma bus_step_slots bus op : slots (bus_step bus op) = slots bus.
Proof.
  destruct op; cbn.
  - unfold bus_send. rewrite <- (send_slots event bus). by destruct (tx_send event bus).
  - apply subscribe_slots.
  - apply recv_slots.
  - apply drop_slots.
Qed.

(** What a step does to the queue of a receiver that stays. *)
Lemma bus_step_queue bus op r q :
  queues bus !! r = Some q -> op <> BusClose r ->
  queues (bus_step bus op) !! r
  = Some match op with
         | BusSend e => push (slots bus) e q
         | BusPoll r' => if decide (r' = r) then (pop q).1 else q
         | _ => q
         end.
Proof.
  intros Hq Hc. destruct op as [e| |r'|r']; cbn.
  - unfold bus_send. pose proof (send_queues e bus) as Hs.
    destruct (tx_send e bus). cbn [fst] in *. by rewrite Hs, lookup_fmap, Hq.
  - unfold bus_subscribe. rewrite subscribe_queues, lookup_insert_ne; [done|].
    intros Hr. pose proof (subscribe_fresh bus). rewrite Hr in *. congruence.
  - case_decide as Hr; [subst r'|].
    + destruct (recv_queues r bus q Hq) as [-> _]. by rewrite lookup_insert_eq.
    + destruct (queues bus !! r') as [q'|] eqn:Hq'.
      * destruct (recv_queues r' bus q' Hq') as [-> _]. by rewrite lookup_insert_ne.
      * by rewrite recv_gone.
  - rewrite drop_queues, lookup_delete_ne; [done|congruence].
Qed.

(** What a receiver gets and still has, of what it had and what is sent. *)
Lemma received_queue ops bus r es k :
  queues bus !! r = Some (es, k) -> BusClose r ∉ ops -> (0 < slots bus)%nat ->
  exists es' k', queues (fold_left bus_step ops bus) !! r = Some (es', k') /\
    let rs := received r ops bus in
    got rs ++ es' `sublist_of` es ++ sent ops /\
    (length (got rs) + length es' + missed rs + k' = length es + k + length (sent ops))%nat.
Proof.
  revert bus es k; induction ops as [|op ops IH]; intros bus es k Hq Hc Hn; cbn [received fold_left].
  { cbn. exists es, k. rewrite app_nil_r. split; [done|]. split; [done|lia]. }
  apply not_elem_of_cons in Hc as [Hop Hc].
  pose proof (bus_step_queue bus op r (es, k) Hq (fun E => Hop (eq_sym E))) as Hq1.
  assert (0 < slots (bus_step bus op))%nat as Hn1 by (by rewrite bus_step_slots).
  destruct op as [e| |r'|r']; cbn [decide] in *.
  - destruct (push_keeps (slots bus) e es k Hn) as [Hsub Hlen].
    destruct (push (slots bus) e (es, k)) as [es1 k1]. cbn [fst snd] in *.
    destruct (IH _ es1 k1 Hq1 Hc Hn1) as (es' & k' & Hq' & Hs & Hl). exists es', k'. split; [done|].
    rewrite decide_False by done. cbn [app]. change (sent (BusSend e :: ops)) with ([e] ++ sent ops).
    rewrite (assoc_L (++)), length_app. cbn [length]. split; [|lia].
    etrans; [exact Hs|]. by apply sublist_app.
  - destruct (IH _ es k Hq1 Hc Hn1) as (es' & k' & Hq' & Hs & Hl). exists es', k'. split; [done|].
    rewrite decide_False by done. cbn [app]. by split.
  - destruct (decide (BusPoll r' = BusPoll r)) as [[= ->]|Hne].
    + rewrite decide_True in Hq1 by done. destruct (recv_queues r bus _ Hq) as [_ ->].
      destruct (pop (es, k)) as [[es1 k1] o] eqn:Hp. cbn [fst snd] in *.
      destruct (IH _ es1 k1 Hq1 Hc Hn1) as (es' & k' & Hq' & Hs & Hl). exists es', k'. split; [done|].
      destruct k as [|k]; [destruct es as [|e es]|]; cbn -[Z.of_nat] in Hp;
        simplify_eq; unfold got, missed, sent in *; cbn -[Z.of_nat] in *.
      * by split.
      * split; [by apply sublist_skip|lia].
      * split; [exact Hs|]. lia.
    + rewrite decide_False in Hq1 by congruence.
      destruct (IH _ es k Hq1 Hc Hn1) as (es' & k' & Hq' & Hs & Hl). exists es', k'. split; [done|].
      cbn [app]. by split.
  - destruct (IH _ es k Hq1 Hc Hn1) as (es' & k' & Hq' & Hs & Hl). exists es', k'. split; [done|].
    rewrite decide_False by done. cbn [app]. by split.
Qed.

(** Nothing is pushed out while everything fits. *)
Lemma received_fits ops bus r es :
  queues bus !! r = Some (es, O) -> BusClose r ∉ ops -> (length es + length (sent ops) <= slots bus)%nat ->
  missed (received r ops bus) = O /\ exists es', queues (fold_left bus_step ops bus) !! r = Some (es', O).
Proof.
  revert bus es; induction ops as [|op ops IH]; intros bus es Hq Hc Hn; cbn [received fold_left].
  { split; [done|by exists es]. }
  apply not_elem_of_cons in Hc as [Hop Hc].
  pose proof (bus_step_queue bus op r (es, O) Hq (fun E => Hop (eq_sym E))) as Hq1.
  pose proof (bus_step_slots bus op) as Hsl.
  destruct op as [e| |r'|r'].
  - change (sent (BusSend e :: ops)) with (e :: sent ops) in Hn. cbn [length] in Hn.
    rewrite push_below in Hq1 by lia. rewrite decide_False by done. cbn [app].
    apply (IH _ (es ++ [e])); [done..|]. rewrite length_app, Hsl. cbn [length]. lia.
  - rewrite decide_False by done. cbn [app]. apply (IH _ es); [done..|]. by rewrite Hsl.
  - destruct (decide (BusPoll r' = BusPoll r)) as [[= ->]|Hne].
    + rewrite decide_True in Hq1 by done. destruct (recv_queues r bus _ Hq) as [_ ->].
      change (sent (BusPoll r :: ops)) with (sent ops) in Hn.
      destruct es as [|e es]; cbn [pop fst snd option_list app] in *.
      * apply (IH _ []); [done..|]. by rewrite Hsl.
      * apply (IH _ es); [done..|]. cbn [length] in Hn. rewrite Hsl. lia.
    + rewrite decide_False in Hq1 by congruence. cbn [app]. apply (IH _ es); [done..|]. by rewrite Hsl.
  - rewrite decide_False by done. cbn [app]. apply (IH _ es); [done..|]. by rewrite Hsl.
Qed.

(** ** What a stream writes *)

(** The frames of events. *)
Definition frames (to_json : SseEvent -> result string string) (es : list SseEvent) : list Frame :=
  omap (fun e => sse_frame to_json (Got e)) es.

(** A lag leaves no trace in the stream. *)
Lemma sse_events_got to_json rs : sse_events to_json rs = frames to_json (got rs).
Proof.
  unfold sse_events, frames, got. induction rs as [|[e|n] rs IH]; [done| |done].
  cbn [omap list_omap]. rewrite IH. done.
Qed.

(** The event stream of a connection: over any run of the service's sends,
    of connections opening and closing and of streams being read, in any
    order, the stream writes the frames of events sent after it was opened, in
    the order they were sent and each at most once; all but those it still has
    to write and those it lost. It loses none while no more were sent than the
    bus has room for; and when it loses some, it goes on with the next event
    and writes no frame that says so. *)
Theorem stream_spec to_json capacity before ops :
  0 < capacity ->
  let '(bus, r) := bus_subscribe (fold_left bus_step before (EventBus_new capacity)) in
  BusClose r ∉ ops ->
  let rs := received r ops bus in
  exists waiting lost,
    queues (fold_left bus_step ops bus) !! r = Some (waiting, lost) /\
    sse_events to_json rs = frames to_json (got rs) /\
    got rs ++ waiting `sublist_of` sent ops /\
    (length (sent ops) = length (got rs) + length waiting + missed rs + lost)%nat /\
    (Z.of_nat (length (sent ops)) <= capacity -> got rs ++ waiting = sent ops).
Proof.
  intros Hcap. set (bus0 := fold_left bus_step before (EventBus_new capacity)).
  assert (capacity <= Z.of_nat (slots bus0)) as Hslots.
  { unfold bus0. generalize (channel_slots capacity Hcap). fold (EventBus_new capacity).
    generalize (EventBus_new capacity). clear. induction before as [|op before IH]; intros bus Hb; [done|].
    apply IH. by rewrite bus_step_slots. }
  pose proof (subscribe_queues bus0) as Hq. pose proof (subscribe_slots bus0) as Hs. unfold bus_subscribe.
  destruct (tx_subscribe bus0) as [bus r]. cbn [fst snd] in *. intros Hc. cbv zeta.
  assert (queues bus !! r = Some ([], O)) as Hr by (by rewrite Hq, lookup_insert_eq).
  destruct (received_queue ops bus r [] O Hr Hc) as (waiting & lost & Hw & Hsub & Hlen); [lia|].
  exists waiting, lost. split; [done|]. split; [apply sse_events_got|]. split; [done|].
  split; [cbn in Hlen; lia|]. intros Hfit.
  destruct (received_fits ops bus r [] Hr Hc) as [Hm [es' He]]; [cbn [length]; lia|].
  rewrite Hw in He. injection He as -> ->. apply sublist_same_length; [done|]. rewrite length_app.
  cbn [length] in Hlen. cbn [app]. lia.
Qed.
End streams.
