(* ===== verification/Router.v ===== *)
(** * The router
    (the route table of [build_app_with_anchors], [crates/aqua-timestamp/src/lib.rs])

    The table as the source writes it; axum's choice of a route is a class with
    its documented laws, and [router_spec] says what it comes to for this
    table. *)

From S2P Require Import Prelude.
Open Scope string_scope.
Open Scope list_scope.
Open Scope Z_scope.

(** The handlers of [routes.rs] and [auth.rs]. *)
Inductive Route :=
| RtHealth | RtVersion | RtFaviconIco | RtAppleTouchIcon | RtLandingPage | RtBlueprintPage | RtDocsPage
| RtWellKnownSkillMd | RtWellKnownSkillAuthMd | RtAquaIdentity | RtAquaOrl | RtSseEvents
| RtChallenge | RtSession | RtSubmitLeaves | RtSchedule | RtListEpochs | RtLeaderboard | RtPoolStatus
| RtListOrQueryTrees | RtGetTreeByTip | RtGetTreeByLeaf.

#[export] Instance Route_eq_dec : EqDecision Route.
Proof. solve_decision. Defined.

(** A method router: its method and handler. *)
Definition get (h : Route) : string * Route := ("GET", h).
Definition post (h : Route) : string * Route := ("POST", h).

Definition route_table : list (string * (string * Route)) :=
  [("/health", get RtHealth);
   ("/version", get RtVersion);
   ("/favicon.ico", get RtFaviconIco);
   ("/apple-touch-icon.png", get RtAppleTouchIcon);
   ("/", get RtLandingPage);
   ("/blueprint", get RtBlueprintPage);
   ("/docs", get RtDocsPage);
   ("/.well-known/aqua-skill.md", get RtWellKnownSkillMd);
   ("/.well-known/aqua-skill-auth.md", get RtWellKnownSkillAuthMd);
   ("/.well-known/aqua-identity", get RtAquaIdentity);
   ("/.well-known/aqua-orl", get RtAquaOrl);
   ("/events", get RtSseEvents);
   ("/auth/challenge", get RtChallenge);
   ("/auth/session", post RtSession);
   ("/v1/leaves", post RtSubmitLeaves);
   ("/v1/schedule", get RtSchedule);
   ("/v1/epochs", get RtListEpochs);
   ("/v1/leaderboard", get RtLeaderboard);
   ("/v1/pool/status", get RtPoolStatus);
   ("/trees", get RtListOrQueryTrees);
   ("/trees/{tip_hex}", get RtGetTreeByTip);
   ("/trees/by-leaf/{leaf_hex}", get RtGetTreeByLeaf)].

(** ** What axum promises *)

Inductive Routed :=
| Handle (h : Route) (param : option string)
| MethodNotAllowed
| Fallback.

(** A pattern's text before its parameter, which is a last segment here, and
    whether it has one. *)
Fixpoint literal (pattern : string) : string * bool :=
  match pattern with
  | EmptyString => (EmptyString, false)
  | String c p =>
      if decide (c = Ascii.ascii_of_nat 123) then (EmptyString, true)
      else let '(pre, par) := literal p in (String c pre, par)
  end.

(** A parameter stands for one segment that is not empty. *)
Definition path_matches (pattern path : string) : option (option string) :=
  let '(pre, par) := literal pattern in
  if par : bool then
    seg ← strip_prefix pre path;
    if bool_decide (seg = "") || contains "/" seg then None else Some (Some seg)
  else if decide (path = pre) then Some None else None.

(** A [get] route serves [HEAD] too. *)
Definition allows (route_method method : string) : bool :=
  bool_decide (method = route_method) || (bool_decide (route_method = "GET") && bool_decide (method = "HEAD")).

Class Axum := { axum_route : list (string * (string * Route)) -> string -> string -> Routed }.

(** A path without a parameter goes before one with, and a table's patterns
    differ. *)
Class AxumLaws `{Axum} := {
  route_matched table pattern m h method path arg :
    NoDup table.*1 -> (pattern, (m, h)) ∈ table -> path_matches pattern path = Some arg ->
    (forall other x, (other, x) ∈ table -> other <> pattern -> is_Some (path_matches other path) ->
       arg = None /\ (literal other).2 = true) ->
    axum_route table method path = if allows m method then Handle h arg else MethodNotAllowed;
  route_unmatched table method path :
    (forall pattern x, (pattern, x) ∈ table -> path_matches pattern path = None) ->
    axum_route table method path = Fallback;
}.

(** ** What the table comes to *)

(** The first pattern of a table that matches. *)
Fixpoint first_match (table : list (string * (string * Route))) (path : string)
    : option ((string * Route) * option string) :=
  match table with
  | [] => None
  | (pattern, mh) :: table' =>
      match path_matches pattern path with
      | Some arg => Some (mh, arg)
      | None => first_match table' path
      end
  end.

Definition dispatch (method path : string) : Routed :=
  match first_match route_table path with
  | Some ((m, h), arg) => if allows m method then Handle h arg else MethodNotAllowed
  | None => Fallback
  end.

Lemma first_match_Some table path mh arg :
  first_match table path = Some (mh, arg) ->
  exists pattern, (pattern, mh) ∈ table /\ path_matches pattern path = Some arg.
Proof.
  induction table as [|[p x] table IH]; [done|]. cbn.
  destruct (path_matches p path) as [a|] eqn:Hm.
  - intros [= <- <-]. exists p. split; [by left|done].
  - intros (q & ? & ?)%IH. exists q. split; [by right|done].
Qed.

Lemma first_match_None table path :
  first_match table path = None -> forall pattern x, (pattern, x) ∈ table -> path_matches pattern path = None.
Proof.
  induction table as [|[p x] table IH]; intros Hf q y Hq; [by apply elem_of_nil in Hq|]. cbn in Hf.
  destruct (path_matches p path) eqn:Hm; [done|].
  apply elem_of_cons in Hq as [[= -> ->]|Hq]; [done|by eapply IH].
Qed.

(** Whether no path matches both: a static one is no instance of the other, of
    two with a parameter the longer has a segment more. *)
Definition apart (p q : string) : bool :=
  let '(pre, par) := literal p in
  let '(pre', par') := literal q in
  match par, par' with
  | false, false => negb (bool_decide (pre = pre'))
  | true, false => negb (bool_decide (is_Some (path_matches p pre')))
  | false, true => negb (bool_decide (is_Some (path_matches q pre)))
  | true, true =>
      match strip_prefix pre pre', strip_prefix pre' pre with
      | Some d, _ | None, Some d => contains "/" d
      | None, None => true
      end
  end.

Lemma string_app_assoc (a b c : string) : (a +:+ b) +:+ c = a +:+ (b +:+ c).
Proof. induction a as [|x a IH]; [done|]. exact (f_equal (String x) IH). Qed.

Lemma string_app_inv_head (a b c : string) : a +:+ b = a +:+ c -> b = c.
Proof. induction a as [|x a IH]; [done|]. by intros [= ?%IH]. Qed.

Lemma literal_static p pre : literal p = (pre, false) -> p = pre.
Proof.
  revert pre; induction p as [|c p IH]; intros pre; cbn; [by intros [= <-]|].
  case_decide; [done|]. destruct (literal p) as [pre' par]. intros [= <- ->]. f_equal. by apply IH.
Qed.

Lemma contains_app_l p s t : contains p s = true -> contains p (s +:+ t) = true.
Proof.
  induction s as [|c s IH]; cbn.
  - destruct p; [|done]. by destruct t.
  - intros [Hs|Hs]%orb_true_iff; apply orb_true_iff; [left|right; by apply IH].
    unfold starts_with in *. apply bool_decide_eq_true in Hs as [r Hr]. apply bool_decide_eq_true.
    apply strip_prefix_Some in Hr. exists (r +:+ t). apply strip_prefix_Some.
    by rewrite <- string_app_assoc, <- Hr.
Qed.


Lemma prefixes_comparable a b c d :
  a +:+ b = c +:+ d -> (exists r, c = a +:+ r /\ b = r +:+ d) \/ (exists r, a = c +:+ r /\ d = r +:+ b).
Proof.
  revert c; induction a as [|x a IH]; intros c; [left; by exists c|].
  destruct c as [|y c]; [right; by exists (String x a)|].
  intros [= -> He]. destruct (IH c He) as [(r & -> & ->)|(r & -> & ->)]; [left|right]; by exists r.
Qed.

Lemma path_matches_param pattern pre path arg :
  literal pattern = (pre, true) -> path_matches pattern path = Some arg ->
  exists seg, path = pre +:+ seg /\ arg = Some seg /\ contains "/" seg = false.
Proof.
  unfold path_matches. intros ->. intros (seg & Hs%strip_prefix_Some & Ha)%bind_Some.
  destruct (bool_decide (seg = "") || contains "/" seg) eqn:Hc; [done|].
  injection Ha as <-. apply orb_false_iff in Hc as [_ Hc]. by exists seg.
Qed.

Lemma path_matches_static pattern pre path arg :
  literal pattern = (pre, false) -> path_matches pattern path = Some arg -> path = pre /\ arg = None.
Proof. unfold path_matches. intros ->. case_decide; [by intros [= <-]|done]. Qed.

Lemma params_apart pre d seg seg' :
  contains "/" d = true -> contains "/" seg = false -> pre +:+ seg <> (pre +:+ d) +:+ seg'.
Proof.
  intros Hd Hs He. rewrite string_app_assoc in He. apply string_app_inv_head in He as ->.
  by rewrite contains_app_l in Hs.
Qed.

Lemma apart_sound p q path arg arg' :
  apart p q = true -> path_matches p path = Some arg -> path_matches q path = Some arg' -> False.
Proof.
  unfold apart. destruct (literal p) as [pre par] eqn:Hp, (literal q) as [pre' par'] eqn:Hq.
  intros Ha Hm Hm'. destruct par, par'.
  - destruct (path_matches_param _ _ _ _ Hp Hm) as (seg & -> & _ & Hs).
    destruct (path_matches_param _ _ _ _ Hq Hm') as (seg' & He & _ & Hs').
    destruct (prefixes_comparable _ _ _ _ He) as [(r & -> & _)|(r & -> & _)].
    + rewrite strip_prefix_app in Ha. exact (params_apart _ _ _ _ Ha Hs He).
    + rewrite strip_prefix_app in Ha. destruct (strip_prefix (pre' +:+ r) pre') as [d|] eqn:Hd.
      * apply strip_prefix_Some in Hd. apply (f_equal String.length) in Hd.
        rewrite !string_length_app in Hd. destruct d; cbn in Hd; [|lia]. by cbn in Ha.
      * exact (params_apart _ _ _ _ Ha Hs' (eq_sym He)).
  - destruct (path_matches_static _ _ _ _ Hq Hm') as [-> _]. rewrite Hm in Ha. done.
  - destruct (path_matches_static _ _ _ _ Hp Hm) as [-> _]. rewrite Hm' in Ha. done.
  - destruct (path_matches_static _ _ _ _ Hp Hm) as [-> _], (path_matches_static _ _ _ _ Hq Hm') as [-> _].
    by apply negb_true_iff, bool_decide_eq_false in Ha.
Qed.

Lemma route_table_patterns : NoDup route_table.*1.
Proof. apply (bool_decide_unpack _). vm_compute. exact I. Qed.

Lemma route_table_apart p x q y :
  (p, x) ∈ route_table -> (q, y) ∈ route_table -> p <> q -> apart p q = true.
Proof.
  assert (forallb (fun p => forallb (fun q => bool_decide (p = q) || apart p q) route_table.*1)
            route_table.*1 = true) as Hall by (vm_compute; reflexivity).
  intros Hp Hq Hne. rewrite forallb_forall in Hall.
  assert (p ∈ route_table.*1 /\ q ∈ route_table.*1) as [Hip Hiq]
    by (split; apply list_elem_of_fmap; [by exists (p, x)|by exists (q, y)]).
  apply list_elem_of_In, Hall in Hip. rewrite forallb_forall in Hip.
  apply list_elem_of_In, Hip in Hiq. apply orb_true_iff in Hiq as [->%bool_decide_eq_true|?]; done.
Qed.

Section router.
Context `{AxumLaws}.

(** What the router does with a request's method and path. *)
Definition router (method path : string) : Routed := axum_route route_table method path.

(** No other row matches. *)
Lemma router_at p m h method path arg :
  (p, (m, h)) ∈ route_table -> path_matches p path = Some arg ->
  router method path = if allows m method then Handle h arg else MethodNotAllowed.
Proof.
  intros Hin Hm. apply (route_matched _ p); [exact route_table_patterns|done|done|].
  intros other x Ho Hne [arg' Hm']. exfalso.
  apply (apart_sound p other path arg arg'); [|done..]. by eapply route_table_apart.
Qed.

Lemma router_dispatch method path : router method path = dispatch method path.
Proof.
  unfold dispatch. destruct (first_match route_table path) as [[[m h] arg]|] eqn:Hf.
  - destruct (first_match_Some _ _ _ _ Hf) as (p & Hin & Hm). by apply (router_at p).
  - apply route_unmatched. intros p x Hin. by eapply first_match_None.
Qed.

(** The last segment is the handler's parameter. *)
Lemma router_param p m h pre seg :
  (p, (m, h)) ∈ route_table -> literal p = (pre, true) -> seg <> "" -> contains "/" seg = false ->
  router m (pre +:+ seg) = Handle h (Some seg).
Proof.
  intros Hin Hl Hne Hs. rewrite (router_at p m h _ _ (Some seg)); [|done|].
  - unfold allows. by rewrite bool_decide_eq_true_2.
  - unfold path_matches. rewrite Hl, strip_prefix_app. cbn. rewrite Hs. by rewrite bool_decide_eq_false_2.
Qed.

Lemma router_by_leaf seg :
  seg <> "" -> contains "/" seg = false -> router "GET" ("/trees/by-leaf/" +:+ seg) = Handle RtGetTreeByLeaf (Some seg).
Proof.
  apply (router_param "/trees/by-leaf/{leaf_hex}"); [|reflexivity]. apply (bool_decide_unpack _). vm_compute. exact I.
Qed.

End router.
