(* ===== verification/Service.v ===== *)
(** * The whole service
    ([crates/aqua-timestamp/src]: [lib.rs], [main.rs], the signatures of
    [routes.rs] and [auth.rs])

    One state for everything the process keeps, and one step for everything
    that happens to it: a request through the router, the extractors of the
    handler's signature and the handler; a turn of the seal loop; a health tick;
    a tick of the fuel watcher; a stream that is read or closed; the world of
    the anchors moving on.  What axum and serde extract is a class. *)

From S2P Require Import Prelude External Merkle Accumulator Witness Selfcheck Epoch Utf8 Kv Storage StoreSpec StoreRefine SealStore Anchors Sealer SealInv SealerProofs SealerTheorems Auth Text Config Vouched SealLoops Watcher Identity Pages App Routes EventStream Router.
Open Scope string_scope.
Open Scope list_scope.
Open Scope Z_scope.

(** ** Requests and what is extracted of them *)

Record HttpRequest := {
  hq_method : string;
  hq_path : string;
  hq_query : string;
  (** The [Authorization] header, when it is text. *)
  hq_authorization : option string;
  hq_content_type : option string;
  hq_body : bytes;
}.

(** An extractor's refusal. *)
Record Rejection := { rj_status : Z; rj_text : string }.

(** [Query<T>], [Path<String>] and [Json<T>] of the handlers' types. *)
Class Extractors := {
  query_challenge : string -> result Rejection string;
  query_epochs : string -> result Rejection (option u64 * option usize);
  query_leaderboard : string -> result Rejection (option string);
  query_trees : string -> result Rejection (option u64 * option string);
  query_by_leaf : string -> result Rejection (option string);
  path_string : string -> result Rejection string;
  json_session : option string -> bytes -> result Rejection SessionRequestBody;
  json_leaves : option string -> bytes -> result Rejection (list string);
}.

(** Strings are UTF-8, numbers and lengths fit their types, and a refusal is the
    client's fault. *)
Class ExtractorLaws `{Extractors} := {
  query_challenge_utf8 q did : query_challenge q = Ok did -> valid_utf8 did = true;
  query_trees_u64 q epoch m : query_trees q = Ok (Some epoch, m) -> u64_ok epoch;
  json_session_utf8 ct b req : json_session ct b = Ok req -> valid_utf8 (sr_did req) = true;
  json_leaves_len ct b leaves : json_leaves ct b = Ok leaves -> Z.of_nat (length leaves) <= U64_MAX;
}.

Section service.
Context `{HexLaws, SdkLaws, !AnchorWorld, !LiveAnchors, FjallLaws, SerdeCrates, !StoreCodecs, !StoreCodecLaws,
          Sha3Crate, !ClaimLaws, EvmChains, !IdentityCrates}.
Context `{!RouteCrates, AuthCrate, Broadcast, Axum, Extractors}.

Inductive HttpResponse :=
| RsPage (p : Page)
| RsVersion (header : string * string) (v : VersionResponse)
| RsDocument (v : Value)
| RsOrl (d : OrlDocument)
| RsJson (status : Z) (b : Body)
| RsChallenge (c : ChallengeResponse)
| RsSession (s : SessionResponse)
| RsError (e : AuthApiError)
| RsRejected (r : Rejection)
| RsStream (receiver : nat)
| RsMethodNotAllowed
| RsNotFound
(** The answer to a [HEAD]: its body is not sent. *)
| RsHead (r : HttpResponse).

(** ** The process *)

(** What [AppState] and the binary hold and nothing changes. *)
Record Deployment := {
  dp_allowed_dids : list string;
  dp_max_leaves_per_request : usize;
  dp_duration_secs : u64;
  dp_max_pool_size : usize;
  dp_max_anchor_faults : u32;
  dp_identity_response_json : Value;
  dp_pages : Pages;
  dp_favicon : string;
  dp_touch_icon : string;
  dp_blueprint : string;
  (** What the build recorded: the version, the protocol's, the commit, dirty. *)
  dp_build : string * string * string * string;
}.

Record Server := {
  sv_seal : SealState;
  sv_auth : AuthStores;
  sv_bus : Channel;
  (** The watermark in the watcher task's memory. *)
  sv_watermark : u64;
}.

Definition with_seal (s : Server) (x : SealState) : Server :=
  {| sv_seal := x; sv_auth := sv_auth s; sv_bus := sv_bus s; sv_watermark := sv_watermark s |}.
Definition with_auth (s : Server) (x : AuthStores) : Server :=
  {| sv_seal := sv_seal s; sv_auth := x; sv_bus := sv_bus s; sv_watermark := sv_watermark s |}.
Definition with_bus (s : Server) (x : Channel) : Server :=
  {| sv_seal := sv_seal s; sv_auth := sv_auth s; sv_bus := x; sv_watermark := sv_watermark s |}.

(** What the handlers read. *)
Definition app_state (dp : Deployment) (s : SealState) : RouteState :=
  {| r_accumulator := s_acc s; r_store := s_sto s : Keyspace; r_allowed_dids := dp_allowed_dids dp;
     r_max_leaves_per_request := dp_max_leaves_per_request dp; r_duration_secs := dp_duration_secs dp;
     r_max_pool_size := dp_max_pool_size dp; r_max_anchor_faults := dp_max_anchor_faults dp |}.

Definition with_accumulator (s : SealState) (acc : AccumulatorInner) : SealState :=
  {| s_acc := acc; s_sto := s_sto s; s_world := s_world s; s_calls := s_calls s |}.

(** ** The handlers behind their extractors *)

Definition answer (r : result AuthApiError Response) : HttpResponse :=
  match r with Ok resp => RsJson (status resp) (body resp) | Err e => RsError e end.

(** [bearer: BearerDid]. *)
Definition with_bearer (rq : HttpRequest) (now : u64) (s : Server)
    (k : string -> Server -> Server * HttpResponse) : Server * HttpResponse :=
  let '(auth, r) := bearer_did (hq_authorization rq) now (sv_auth s) in
  let s := with_auth s auth in
  match r with Err e => (s, RsError e) | Ok did => k did s end.

(** An extractor that only reads. *)
Definition extracted {A} (r : result Rejection A) (s : Server) (k : A -> Server * HttpResponse)
    : Server * HttpResponse :=
  match r with Err rejection => (s, RsRejected rejection) | Ok x => k x end.

Definition handle_leaves (dp : Deployment) (rq : HttpRequest) (now : u64) (s : Server) : Server * HttpResponse :=
  with_bearer rq now s (fun bearer s =>
    extracted (json_leaves (hq_content_type rq) (hq_body rq)) s (fun leaves =>
      let '(state, r) := submit_leaves (app_state dp (sv_seal s)) bearer leaves in
      (with_seal s (with_accumulator (sv_seal s) (r_accumulator state)), answer r))).

Definition handle_challenge (rq : HttpRequest) (now : u64) (s : Server) : Server * HttpResponse :=
  extracted (query_challenge (hq_query rq)) s (fun did =>
    let '(auth, r) := challenge did now (sv_auth s) in
    (with_auth s auth, match r with Ok c => RsChallenge c | Err e => RsError e end)).

Definition handle_session (rq : HttpRequest) (now : u64) (s : Server) : Server * HttpResponse :=
  extracted (json_session (hq_content_type rq) (hq_body rq)) s (fun req =>
    let '(auth, r) := session req now (sv_auth s) in
    (with_auth s auth, match r with Ok x => RsSession x | Err e => RsError e end)).

(** The handlers that ask the keyspace for the caller. *)
Definition handle_read (h : Route) (dp : Deployment) (rq : HttpRequest) (arg : option string) (s : Server)
    (bearer : string) : Server * HttpResponse :=
  let state := app_state dp (sv_seal s) in
  match h with
  | RtListEpochs =>
      extracted (query_epochs (hq_query rq)) s (fun q => (s, answer (list_epochs state q.1 q.2)))
  | RtListOrQueryTrees =>
      extracted (query_trees (hq_query rq)) s (fun q => (s, answer (list_or_query_trees state bearer q.1 q.2)))
  | RtGetTreeByTip =>
      extracted (path_string (default "" arg)) s (fun tip => (s, answer (get_tree_by_tip state bearer tip)))
  | _ =>
      extracted (path_string (default "" arg)) s (fun leaf =>
        extracted (query_by_leaf (hq_query rq)) s (fun method =>
          (s, answer (get_tree_by_leaf state bearer leaf method))))
  end.

Definition handle (dp : Deployment) (h : Route) (arg : option string) (rq : HttpRequest) (now uptime : u64)
    (s : Server) : Server * HttpResponse :=
  let state := app_state dp (sv_seal s) in
  match h with
  | RtHealth => (s, RsPage health)
  | RtVersion =>
      let '(pkg, protocol, sha, dirty) := dp_build dp in
      let '(header, v) := version pkg protocol sha dirty in (s, RsVersion header v)
  | RtFaviconIco => (s, RsPage (favicon_ico (dp_favicon dp)))
  | RtAppleTouchIcon => (s, RsPage (apple_touch_icon (dp_touch_icon dp)))
  | RtLandingPage => (s, RsPage (landing_page (dp_pages dp)))
  | RtBlueprintPage => (s, RsPage (blueprint_page (dp_blueprint dp)))
  | RtDocsPage => (s, RsPage (docs_page (dp_pages dp)))
  | RtWellKnownSkillMd => (s, RsPage (well_known_skill_md (dp_pages dp)))
  | RtWellKnownSkillAuthMd => (s, RsPage (well_known_skill_auth_md (dp_pages dp)))
  | RtAquaIdentity => (s, RsDocument (dp_identity_response_json dp))
  | RtAquaOrl => (s, RsOrl aqua_orl)
  | RtSseEvents => let '(bus, r) := bus_subscribe (sv_bus s) in (with_bus s bus, RsStream r)
  | RtChallenge => handle_challenge rq now s
  | RtSession => handle_session rq now s
  | RtSubmitLeaves => handle_leaves dp rq now s
  | RtSchedule =>
      (s, match schedule state uptime with Ok r | Err r => RsJson (status r) (body r) end)
  | RtLeaderboard =>
      extracted (query_leaderboard (hq_query rq)) s (fun chain =>
        let r := leaderboard state chain in (s, RsJson (status r) (body r)))
  | RtPoolStatus => let r := pool_status state in (s, RsJson (status r) (body r))
  | RtListEpochs | RtListOrQueryTrees | RtGetTreeByTip | RtGetTreeByLeaf =>
      with_bearer rq now s (fun bearer s => handle_read h dp rq arg s bearer)
  end.

(** A request, from the socket to the answer. *)
Definition serve (dp : Deployment) (rq : HttpRequest) (now uptime : u64) (s : Server) : Server * HttpResponse :=
  match router (hq_method rq) (hq_path rq) with
  | Fallback => (s, RsNotFound)
  | MethodNotAllowed => (s, RsMethodNotAllowed)
  | Handle h arg =>
      let '(s, r) := handle dp h arg rq now uptime s in
      (s, if decide (hq_method rq = "HEAD") then RsHead r else r)
  end.

(** ** Runs *)

Inductive service_op :=
| OpHttp (rq : HttpRequest) (now uptime : u64)
| OpSeal (now duration_secs : u64) (ctx : option WitnessContext)
| OpTick (uptime : u64)
| OpWatch (w : BlockWatcher) (node : NodeReading)
| OpPoll (receiver : nat)
| OpClose (receiver : nat)
| OpWorld (w : World).

Inductive Output :=
| Answered (r : HttpResponse)
| Sent (events : list SseEvent)
| Streamed (receiver : nat) (r : option Received)
| Quiet.

Definition send_all (events : list SseEvent) (bus : Channel) : Channel :=
  fold_left (fun bus e => (bus_send e bus).1) events bus.

(** The watcher's task, on the store it shares; a panic ends the task and
    leaves the store. *)
Definition watch (w : BlockWatcher) (node : NodeReading) (s : Server) : Server :=
  match watcher_tick w node {| wt_watermark := sv_watermark s; wt_store := s_sto (sv_seal s) : Keyspace |} with
  | None => s
  | Some (st, _) =>
      {| sv_seal := {| s_acc := s_acc (sv_seal s); s_sto := wt_store st : Sto;
                       s_world := s_world (sv_seal s); s_calls := s_calls (sv_seal s) |};
         sv_auth := sv_auth s; sv_bus := sv_bus s; sv_watermark := wt_watermark st |}
  end.

Definition service_step (dp : Deployment) (op : service_op) (s : Server) : Server * Output :=
  match op with
  | OpHttp rq now uptime => let '(s, r) := serve dp rq now uptime s in (s, Answered r)
  | OpSeal now dur ctx =>
      let '(seal, events) := seal_cycle now dur ctx true (sv_seal s) in
      (with_bus (with_seal s seal) (send_all events (sv_bus s)), Sent events)
  | OpTick uptime =>
      let events := health_tick uptime (s_sto (sv_seal s) : Keyspace) in
      (with_bus s (send_all events (sv_bus s)), Sent events)
  | OpWatch w node => (watch w node s, Quiet)
  | OpPoll r => let '(bus, x) := rx_recv r (sv_bus s) in (with_bus s bus, Streamed r x)
  | OpClose r => (with_bus s (rx_drop r (sv_bus s)), Quiet)
  | OpWorld w => (with_seal s (svc_step (sv_seal s) (SvcWorld w)), Quiet)
  end.

Definition service_state (dp : Deployment) (ops : list service_op) (s : Server) : Server :=
  fold_left (fun s op => (service_step dp op s).1) ops s.

(** ** The start *)

(** The texts the binary carries. *)
Record Assets := {
  as_landing : string; as_docs : string; as_skill : string; as_skill_auth : string;
  as_favicon : string; as_touch_icon : string; as_blueprint : string;
  as_build : string * string * string * string;
}.

(** [ChallengeStore::new], [SessionStore::new]. *)
Class AuthStart := {
  ChallengeStore_new : u64 -> string -> string -> ChallengeStore;
  SessionStore_new : u64 -> SessionStore;
}.
Context `{!AuthStart}.

Definition build_stores (challenge_ttl_secs session_ttl_secs : u64) (domain uri : string) : AuthStores :=
  {| challenges := ChallengeStore_new challenge_ttl_secs domain uri; sessions := SessionStore_new session_ttl_secs |}.

(** What the assembly hands to the router. *)
Definition deployment (cfg : Config) (identity : ServiceIdentity) (assets : Assets) (app : App) : Deployment :=
  {| dp_allowed_dids := allowed_dids (cfg_auth cfg);
     dp_max_leaves_per_request := max_leaves_per_request (cfg_epoch cfg);
     dp_duration_secs := duration_secs (cfg_epoch cfg);
     dp_max_pool_size := lb_max_pool_size (cfg_leaderboard cfg);
     dp_max_anchor_faults := c_max_anchor_faults (app_witness_ctx app);
     dp_identity_response_json := app_identity_response_json app;
     dp_pages := rendered (as_landing assets) (as_docs assets) (as_skill assets) (as_skill_auth assets) identity;
     dp_favicon := as_favicon assets; dp_touch_icon := as_touch_icon assets; dp_blueprint := as_blueprint assets;
     dp_build := as_build assets |}.

Definition EVENT_BUS_CAPACITY : usize := 256.

Definition first_state (cfg : Config) (app : App) (ks : Keyspace) (node : NodeReading) (w : World) : Server :=
  {| sv_seal := started app ks w;
     sv_auth := build_stores (challenge_ttl_secs (cfg_auth cfg)) (session_ttl_secs (cfg_auth cfg))
                  (ic_dns (cfg_identity cfg)) ("https://" +:+ ic_dns (cfg_identity cfg));
     sv_bus := EventBus_new EVENT_BUS_CAPACITY;
     sv_watermark := initial_watermark ks node |}.

(** [main]: what ends it before it serves. *)
Inductive StartError :=
| StartConfig (text : string)
| StartListen (text : string)
| StartIdentity (text : string)
| StartApp (e : AppError)
| StartBind (text : string).

(** The file, the address parser and the socket of the process. *)
Record Process := {
  read_to_string : string -> result string string;
  toml_from_str : string -> result string Config;
  parse_socket_addr : string -> option string;
  bind : string -> result string unit;
}.

(** [config::load]. *)
Definition load (p : Process) (path : string) : result string Config :=
  let? text := read_to_string p path in toml_from_str p text.

Definition service_main (p : Process) (config : string) (mnemonic_var : option string)
    (finality : EvmFinalityRequirement) (assets : Assets) (ks : Keyspace) (now : u64) (node : NodeReading)
    (w : World) : result StartError (Deployment * Server) :=
  let? cfg := map_err StartConfig (load p config) in
  let? addr := ok_or (parse_socket_addr p (listen (cfg_server cfg))) (StartListen (listen (cfg_server cfg))) in
  let? identity := map_err StartIdentity (from_env mnemonic_var (cfg_identity cfg)) in
  let? app := map_err StartApp (build_app cfg finality identity None Interval
                {| ov_evm := None; ov_qtsa := None; ov_evm_check_host := None; ov_tsa_check_host := None |} ks now w) in
  let? _ := map_err StartBind (bind p addr) in
  Ok (deployment cfg identity assets app, first_state cfg app ks node w).
End service.
