(* ===== verification/ServiceTheorems.v ===== *)
(** * What the whole service keeps

    Over any run of [Service]: the store's invariant, what it vouches for and
    the history of sign-ins; hence what a tree answers, to whom, and what the
    event streams say. *)

From S2P Require Import Prelude External Merkle Accumulator Witness Selfcheck Epoch Utf8 Kv Storage StoreSpec StoreRefine StoreScans SealStore Anchors Sealer SealInv SealerProofs SealerTheorems Auth Text Config Vouched SealLoops Watcher WatcherTheorems Identity Pages App Routes RouteTheorems EventStream Router Service.
Open Scope string_scope.
Open Scope list_scope.
Open Scope Z_scope.

(** ** Writes that serve nothing *)

Section quiet.
Context `{HexLaws, SdkLaws, FjallLaws, SerdeCrates, !StoreCodecs, !StoreCodecLaws}.

(** The stores agree but on the contributors and the watcher's watermark. *)
Definition same_service (A A' : AStore) : Prop :=
  forall p k, p <> contributor_stats -> p <> watcher_watermark -> look A' p k = look A p k.

Lemma same_service_aops (A : AStore) ops :
  Forall (fun a => part a = contributor_stats \/ part a = watcher_watermark) ops ->
  same_service A (apply_aops A ops).
Proof.
  intros Ho p k Hc Hw. revert A. induction Ho as [|a ops Ha _ IH]; intros A; [done|].
  change (apply_aops A (a :: ops)) with (apply_aops (apply_aop A a) ops). rewrite IH.
  unfold look. destruct a as [q k' v|q k']; cbn in *; rewrite upd_ne; try done; by destruct Ha as [->| ->].
Qed.

Lemma same_service_served A A' l m : same_service A A' -> served A l m -> served A' l m.
Proof. intros Hs (t & Ht & Hc). exists t. by rewrite !Hs. Qed.

Lemma same_service_found A A' l m : same_service A A' -> found A l m -> found A' l m.
Proof. intros Hs [Hp|Hp]; [left; by rewrite Hs|right; by eapply same_service_served]. Qed.

Lemma same_service_sym A A' : same_service A A' -> same_service A' A.
Proof. intros Hs p k ? ?. by rewrite Hs. Qed.

Lemma same_service_lost A A' : same_service A A' -> nothing_lost A A'.
Proof.
  intros Hs. split.
  - intros id r. by rewrite Hs.
  - intros id l did. by rewrite Hs.
  - intros l m. by apply same_service_served.
  - intros l m. by apply same_service_found.
  - intros id p m l. rewrite Hs by done. intros. left. by exists p.
Qed.

Lemma same_service_inv A A' n : same_service A A' -> store_inv A n -> store_inv A' n.
Proof.
  intros Hs Hi. split.
  - intros id r. rewrite Hs by done. apply Hi.
  - intros id p. rewrite !Hs by done. apply Hi.
  - intros id l did. rewrite !Hs by done. apply Hi.
  - intros l m id. rewrite Hs by done. intros (p & ? & ?)%(si_lookup _ _ Hi). exists p. by rewrite Hs.
  - intros id p l m. rewrite Hs by done. intros. by eapply same_service_found, (si_found _ _ Hi).
  - intros id l. rewrite !Hs by done. apply Hi.
  - intros k t. rewrite !Hs by done. apply Hi.
  - intros t idx. rewrite !Hs by done. apply Hi.
Qed.

Lemma same_service_vouched did A A' : same_service A A' -> vouched did A -> vouched did A'.
Proof.
  intros Hs Hv. split; intros *; rewrite Hs by done; apply Hv.
Qed.

(** A tick of the watcher writes no more. *)
Lemma watcher_tick_same w node st st' o (A : AStore) :
  represents (view (wt_store st)) A -> node_ok node -> u64_ok (wt_watermark st) ->
  watcher_tick w node st = Some (st', o) ->
  u64_ok (wt_watermark st') /\ exists A', represents (view (wt_store st')) A' /\ same_service A A'.
Proof.
  intros Hr Hn Hw Ht. pose proof (watcher_tick_cases w node st st' o Hn Hw Ht) as Hc.
  assert (u64_ok (wt_watermark st')) as Hw'.
  { destruct o as [win|]; [by destruct Hc as (_ & _ & _ & ? & _)|by rewrite Hc]. }
  split; [done|].
  assert (exists A', represents (view (wt_store st)) A' /\ same_service A A') as Hsame by by exists A.
  unfold watcher_tick in Ht. destruct (latest_block node) as [b|er] eqn:Hb; [|by injection Ht as <- _].
  destruct (b <=? wt_watermark st) eqn:Hle; [by injection Ht as <- _|]. cbv zeta in Ht.
  apply latest_block_ok in Hb; [|done]. apply Z.leb_gt in Hle.
  assert (u64_ok (Z.min b (sat_add (wt_watermark st) 100))) as He
    by (unfold u64_ok, sat_add in *; lia).
  destruct (scan_blocks _ _ _ _) as [ts|[er|]]; [|by injection Ht as <- _|done].
  case_decide.
  - pose proof (upsert_refined (fuel_updates (chain_id w) (wt_store st) ts) chain_label _ (wt_store st) A Hr He) as Hu.
    unfold refined in Hu. destruct (upsert_contributors_and_watermark _ _ _ _) as [ks r]. cbn [fst snd] in Hu.
    assert (same_service A (apply_aops A (contributor_aops (fuel_updates (chain_id w) (wt_store st) ts)
              chain_label (Z.min b (sat_add (wt_watermark st) 100))))) as Hq.
    { apply same_service_aops. unfold contributor_aops. apply Forall_app. split.
      - apply Forall_fmap, Forall_true. intros u. by left.
      - constructor; [by right|constructor]. }
    destruct r; injection Ht as <- _; cbn [wt_store]; [by eexists|].
    destruct Hu; [by exists A|by eexists].
  - pose proof (set_watermark_refined chain_label _ (wt_store st) A Hr He) as Hu. unfold refined in Hu.
    destruct (set_watermark _ _ _) as [ks r]. cbn [fst snd] in Hu. injection Ht as <- _. cbn [wt_store].
    assert (same_service A (apply_aops A [APut watcher_watermark chain_label
              (Z.min b (sat_add (wt_watermark st) 100))])) as Hq
      by (apply same_service_aops; constructor; [by right|constructor]).
    destruct r; [by eexists|]. destruct Hu; [by exists A|by eexists].
Qed.
End quiet.

Section service.
Context `{HexLaws, SdkLaws, !AnchorWorld, !LiveAnchors, FjallLaws, SerdeCrates, !StoreCodecs, !StoreCodecLaws,
          Sha3Crate, !ClaimLaws, EvmChains, !IdentityCrates}.
Context `{!RouteCrates, !RouteLaws, !AuthCrate, !AuthLaws, BroadcastLaws, AxumLaws, ExtractorLaws}.

(** ** One step *)

(** What a request does to the sign-ins. *)
Definition http_auth (rq : HttpRequest) (now : u64) : list auth_op :=
  match router (hq_method rq) (hq_path rq) with
  | Handle RtChallenge _ =>
      match query_challenge (hq_query rq) with Ok did => [AChallenge did now] | Err _ => [] end
  | Handle RtSession _ =>
      match json_session (hq_content_type rq) (hq_body rq) with Ok req => [ASession req now] | Err _ => [] end
  | Handle (RtSubmitLeaves | RtListEpochs | RtListOrQueryTrees | RtGetTreeByTip | RtGetTreeByLeaf) _ =>
      [ABearer (hq_authorization rq) now]
  | _ => []
  end.

Definition op_auth (op : service_op) : list auth_op :=
  match op with OpHttp rq now _ => http_auth rq now | _ => [] end.

Definition auth_history (ops : list service_op) : list auth_op := flat_map op_auth ops.

(** A DID in the history is UTF-8. *)
Definition auth_op_utf8 (op : auth_op) : Prop :=
  match op with
  | AChallenge did _ => valid_utf8 did = true
  | ASession req _ => valid_utf8 (sr_did req) = true
  | ABearer _ _ => True
  end.

Lemma op_auth_utf8 op : Forall auth_op_utf8 (op_auth op).
Proof.
  destruct op; try constructor. cbn. unfold http_auth.
  destruct (router _ _) as [h arg| |]; try constructor.
  destruct h; try constructor; try done.
  - destruct (query_challenge _) eqn:Hq; constructor; [|constructor]. by eapply query_challenge_utf8.
  - destruct (json_session _ _) eqn:Hq; constructor; [|constructor]. by eapply json_session_utf8.
Qed.

Lemma auth_history_utf8 ops : Forall auth_op_utf8 (auth_history ops).
Proof. induction ops; [constructor|]. apply Forall_app. split; [apply op_auth_utf8|done]. Qed.

(** A caller who signed in has a UTF-8 name. *)
Lemma signed_in_utf8 ops st0 did token :
  Forall auth_op_utf8 ops -> signed_in ops st0 did token -> valid_utf8 did = true.
Proof.
  intros Ho (pre & n1 & mid & req & n2 & post & _ & _ & _ & -> & _ & <- & _).
  apply Forall_app in Ho as [_ Ho]. apply Forall_cons in Ho as [_ Ho].
  apply Forall_app in Ho as [_ Ho]. by apply Forall_cons in Ho as [? _].
Qed.

Lemma handle_read_keeps h dp rq arg s bearer : (handle_read h dp rq arg s bearer).1 = s.
Proof.
  unfold handle_read, extracted.
  destruct h; try done;
    repeat match goal with |- context [match ?x with Ok _ => _ | Err _ => _ end] => destruct x end; done.
Qed.

(** A request moves the sign-ins by its own; the seal state by a submission of
    the caller it was accepted as, or not at all. *)
Definition submits (rq : HttpRequest) (now : u64) (s s' : Server) : Prop :=
  exists leaves bearer,
    (bearer_did (hq_authorization rq) now (sv_auth s)).2 = Ok bearer /\ batch_ok leaves /\
    sv_seal s' = svc_step (sv_seal s) (SvcSubmit leaves bearer).

Lemma submit_leaves_step dp s bearer leaves :
  let acc := r_accumulator (submit_leaves (app_state dp s) bearer leaves).1 in
  acc = s_acc s \/ exists decoded, length decoded = length leaves /\ acc = (append_batch decoded bearer (s_acc s)).1.
Proof.
  unfold submit_leaves. cbn [app_state r_accumulator].
  destruct (negb _); [by left|]. destruct (_ =? _); [by left|]. destruct (_ <? _); [by left|].
  destruct (decode_leaves leaves) as [decoded|e] eqn:Hd; [|by left]. right. exists decoded. split.
  - unfold decode_leaves in Hd. apply collect_enumerate in Hd as [Hl _]. done.
  - by destruct (append_batch decoded bearer (s_acc s)) as [acc r].
Qed.

Lemma handle_leaves_step dp rq now s :
  let s' := (handle_leaves dp rq now s).1 in
  sv_auth s' = (bearer_did (hq_authorization rq) now (sv_auth s)).1 /\
  sv_bus s' = sv_bus s /\ sv_watermark s' = sv_watermark s /\
  (sv_seal s' = sv_seal s \/ submits rq now s s').
Proof.
  unfold handle_leaves, with_bearer. cbv zeta.
  destruct (bearer_did _ now (sv_auth s)) as [auth [bearer|e]] eqn:Hb; [|cbn; auto].
  unfold extracted. destruct (json_leaves _ _) as [leaves|e] eqn:Hj; [|cbn; auto].
  apply json_leaves_len in Hj.
  pose proof (submit_leaves_step dp (sv_seal (with_auth s auth)) bearer leaves) as Hs. cbv zeta in Hs.
  destruct (submit_leaves _ bearer leaves) as [state r]. cbn in *. do 3 (split; [done|]).
  destruct Hs as [->|(decoded & Hl & ->)].
  - left. by destruct (sv_seal s).
  - right. exists decoded, bearer. rewrite Hb. split; [done|]. split; [unfold batch_ok; by rewrite Hl|done].
Qed.

Lemma serve_step dp rq now up s :
  let s' := (serve dp rq now up s).1 in
  sv_auth s' = auth_run (http_auth rq now) (sv_auth s) /\ sv_watermark s' = sv_watermark s /\
  (sv_seal s' = sv_seal s \/ submits rq now s s').
Proof.
  unfold serve, http_auth. cbv zeta. destruct (router _ _) as [h arg| |]; [|by auto..].
  assert (forall x : Server * HttpResponse,
    (let '(s, r) := x in (s, if decide (hq_method rq = "HEAD") then RsHead r else r)).1 = x.1) as Hfst
    by (by intros []).
  rewrite Hfst. clear Hfst.
  assert (forall h, (with_bearer rq now s (fun bearer s => handle_read h dp rq arg s bearer)).1
            = with_auth s (bearer_did (hq_authorization rq) now (sv_auth s)).1) as Hread.
  { intros h'. unfold with_bearer. destruct (bearer_did _ now (sv_auth s)) as [auth [bearer|e]]; [|done].
    apply handle_read_keeps. }
  destruct h; cbn [handle]; try (by auto).
  - destruct (dp_build dp) as [[[? ?] ?] ?]. destruct (version _ _ _ _). by auto.
  - destruct (bus_subscribe (sv_bus s)). by auto.
  - unfold handle_challenge, extracted. destruct (query_challenge _) as [did|e]; [|by auto].
    cbn. destruct (challenge did now (sv_auth s)). by auto.
  - unfold handle_session, extracted. destruct (json_session _ _) as [req|e]; [|by auto].
    cbn. destruct (session req now (sv_auth s)). by auto.
  - destruct (handle_leaves_step dp rq now s) as (Ha & _ & Hw & Hs). by rewrite Ha, Hw.
  - rewrite Hread. by auto.
  - unfold extracted. destruct (query_leaderboard _); by auto.
  - rewrite Hread. by auto.
  - rewrite Hread. by auto.
  - rewrite Hread. by auto.
Qed.

(** ** Runs *)

(** Seals run under the service's DID; the node's numbers fit. *)
Definition service_op_ok (did : string) (op : service_op) : Prop :=
  match op with
  | OpSeal _ _ (Some c) => c_service_did c = did
  | OpWatch _ node => node_ok node
  | _ => True
  end.

(** The state after the sign-ins [hist] from the stores [auth0]. *)
Record service_inv (did : string) (auth0 : AuthStores) (hist : list auth_op) (A : AStore) (s : Server) : Prop := {
  sv_ready : seal_ready A (sv_seal s);
  sv_vouched : vouched did A;
  sv_signed : sv_auth s = auth_run hist auth0;
  sv_utf8 : Forall auth_op_utf8 hist;
  sv_mark : u64_ok (sv_watermark s);
}.

(** No challenge is open and nobody is signed in. *)
Definition fresh_auth (st : AuthStores) : Prop :=
  open_challenges (challenges st) = ∅ /\ live_sessions (sessions st) = ∅.

Lemma seal_ready_same A A' s (ks : Keyspace) :
  same_service A A' -> represents (view ks) A' -> seal_ready A s ->
  seal_ready A' {| s_acc := s_acc s; s_sto := ks : Sto; s_world := s_world s; s_calls := s_calls s |}.
Proof.
  intros Hs Hr Hrd. split; cbn [s_acc s_sto]; [exact Hr| |apply Hrd|apply Hrd|apply Hrd].
  eapply same_service_inv; [exact Hs|apply Hrd].
Qed.

(** What an event says is in the store: an epoch, or the totals it held then. *)
Definition tells (A : AStore) (e : SseEvent) : Prop :=
  announces A e \/
  exists A1 uptime recs, nothing_lost A1 A /\ recs ≡ₚ (map_to_list (A1 epochs)).*2 /\
    e = HealthTick uptime (Z.of_nat (length recs) mod 2 ^ 64) (foldr Z.add 0 (er_leaf_count <$> recs) mod 2 ^ 64).

Lemma tells_kept A A' e : nothing_lost A A' -> tells A e -> tells A' e.
Proof.
  intros Hn [Ha|(A1 & up & recs & Hn1 & Hp & ->)]; [left; by eapply announces_kept|right].
  exists A1, up, recs. split; [by etrans|done].
Qed.

Definition events_of (o : Output) : list SseEvent := match o with Sent es => es | _ => [] end.

(** What the step did: it lost nothing, its events are told, and an epoch is
    announced when it is closed. *)
Definition step_did (A A' : AStore) (s s' : SealState) (events : list SseEvent) : Prop :=
  nothing_lost A A' /\ Forall (tells A') events /\
  (omap event_epoch events = [] /\ acc_epoch_id (s_acc s) <= acc_epoch_id (s_acc s') <= acc_epoch_id (s_acc s) + 1 \/
   omap event_epoch events = [acc_epoch_id (s_acc s)] /\ acc_epoch_id (s_acc s') = acc_epoch_id (s_acc s) + 1).

(** A step of the sealer's own. *)
Lemma sealer_step did A s op :
  seal_ready A s -> vouched did A -> svc_op_ok (svc_of op) -> seals_as did (svc_of op) ->
  acc_epoch_id (s_acc s) + 1 < U64_MAX ->
  exists A', seal_ready A' (live_step op s).1 /\ vouched did A' /\ step_did A A' s (live_step op s).1 (live_step op s).2.
Proof.
  intros Hr Hv Ho Hd Hid.
  destruct (live_step_announces (of_service did) A s op Hr Ho (seals_serve did _ Hd) Hid)
    as (A' & Hr' & Hn & Ht & Ha & Hle & Hev).
  exists A'. split; [done|]. split; [by eapply vouched_tips|]. split; [done|]. split.
  { eapply Forall_impl; [exact Ha|]. intros e. by left. }
  destruct Hev as [[-> Hge]|[He Hid']]; [left; split; [done|lia]|right]. split; [|done].
  destruct (live_step op s).2 as [|ev [|? ?]]; try discriminate He. injection He as He. cbn. by rewrite He.
Qed.

Lemma tick_tells A (ks : Keyspace) uptime :
  represents (view ks) A -> Forall (tells A) (health_tick uptime ks) /\ omap event_epoch (health_tick uptime ks) = [].
Proof.
  intros Hr. unfold health_tick. pose proof (totals_read ks A Hr) as Ht.
  destruct (totals ks) as [[ep lv]|e]; [|by split; [constructor|]]. cbn in Ht. destruct Ht as (recs & Hp & [= -> ->]).
  split; [|done]. constructor; [|constructor]. right. exists A, uptime, recs. by split; [reflexivity|].
Qed.

Lemma bearer_utf8 hist auth0 header now did :
  fresh_auth auth0 -> Forall auth_op_utf8 hist ->
  (bearer_did header now (auth_run hist auth0)).2 = Ok did -> valid_utf8 did = true.
Proof.
  intros [Hc Hs] Hu Hb. destruct (bearer_token hist auth0 header now did Hc Hs Hb) as (? & ? & _ & _ & Hin).
  by eapply signed_in_utf8.
Qed.

Lemma service_step_inv did auth0 hist dp A s op :
  fresh_auth auth0 -> service_inv did auth0 hist A s -> service_op_ok did op ->
  acc_epoch_id (s_acc (sv_seal s)) + 1 < U64_MAX ->
  let '(s', o) := service_step dp op s in
  exists A', service_inv did auth0 (hist ++ op_auth op) A' s' /\
    step_did A A' (sv_seal s) (sv_seal s') (events_of o).
Proof.
  intros Hf [Hr Hv Ha Hu Hw] Hok Hid.
  assert (forall A' s' es, seal_ready A' (sv_seal s') -> vouched did A' -> u64_ok (sv_watermark s') ->
            sv_auth s' = auth_run (op_auth op) (sv_auth s) -> step_did A A' (sv_seal s) (sv_seal s') es ->
            exists A', service_inv did auth0 (hist ++ op_auth op) A' s' /\
              step_did A A' (sv_seal s) (sv_seal s') es) as Hnext.
  { intros A' s' es Hr' Hv' Hw' Ha' Hd. exists A'. split; [|done]. split; try done.
    - rewrite Ha', Ha. unfold auth_run. by rewrite fold_left_app.
    - apply Forall_app. split; [done|apply op_auth_utf8]. }
  assert (forall s' es, sv_seal s' = sv_seal s -> sv_auth s' = auth_run (op_auth op) (sv_auth s) ->
            sv_watermark s' = sv_watermark s -> Forall (tells A) es -> omap event_epoch es = [] ->
            exists A', service_inv did auth0 (hist ++ op_auth op) A' s' /\
              step_did A A' (sv_seal s) (sv_seal s') es) as Hsame.
  { intros s' es Hs' Ha' Hw' Hes Hno. apply (Hnext A); rewrite ?Hs', ?Hw'; try done.
    split; [reflexivity|]. split; [done|]. left. split; [done|lia]. }
  assert (forall x s', svc_op_ok (svc_of x) -> seals_as did (svc_of x) -> sv_seal s' = (live_step x (sv_seal s)).1 ->
            sv_auth s' = auth_run (op_auth op) (sv_auth s) -> sv_watermark s' = sv_watermark s ->
            exists A', service_inv did auth0 (hist ++ op_auth op) A' s' /\
              step_did A A' (sv_seal s) (sv_seal s') (live_step x (sv_seal s)).2) as Hstep.
  { intros x s' Hx Hd Hs' Ha' Hw'. destruct (sealer_step did A (sv_seal s) x Hr Hv Hx Hd Hid) as (A' & Hr' & Hv' & Hn).
    apply (Hnext A'); rewrite ?Hs', ?Hw'; done. }
  destruct op as [rq now up|now dur ctx|up|w node|r|r|w]; cbn [service_step].
  - pose proof (serve_step dp rq now up s) as (Hau & Hwm & Hse). cbv zeta in Hau, Hwm, Hse.
    destruct (serve dp rq now up s) as [s' resp]. cbn [fst events_of] in *.
    destruct Hse as [Hse|(leaves & bearer & Hb & Hbo & Hse)]; [by apply Hsame|].
    apply (Hstep (LiveSubmit leaves bearer)); try done. split; [done|].
    rewrite Ha in Hb. by eapply bearer_utf8.
  - specialize (Hstep (LiveSeal now dur ctx)). cbn [live_step] in Hstep.
    destruct (seal_cycle now dur ctx true (sv_seal s)) as [seal evs]. cbn [fst snd] in *. by apply Hstep.
  - destruct (tick_tells A (s_sto (sv_seal s) : Keyspace) up (sr_absr _ _ Hr)) as [Ht Hno]. by apply Hsame.
  - cbn [events_of]. unfold watch.
    destruct (watcher_tick w node _) as [[st o]|] eqn:Ht; [|by apply Hsame].
    pose proof (sr_absr _ _ Hr : represents (view (s_sto (sv_seal s) : Keyspace)) A) as HrA0.
    destruct (watcher_tick_same w node (Build_WatcherState (sv_watermark s) (s_sto (sv_seal s) : Keyspace)) st o A HrA0 Hok Hw Ht)
      as (Hw' & A' & HrA & Hs).
    apply (Hnext A'); cbn; [by apply (seal_ready_same A)|by eapply same_service_vouched|done|done|].
    split; [by apply same_service_lost|]. split; [done|]. left. cbn. split; [done|lia].
  - destruct (rx_recv r (sv_bus s)). by apply Hsame.
  - by apply Hsame.
  - by apply (Hstep (LiveWorld w)).
Qed.

Definition service_events (dp : Deployment) (ops : list service_op) (s : Server) : list SseEvent :=
  concat (imap (fun i op => events_of (service_step dp op (service_state dp (take i ops) s)).2) ops).

Lemma service_events_cons dp op ops s :
  service_events dp (op :: ops) s
  = events_of (service_step dp op s).2 ++ service_events dp ops (service_step dp op s).1.
Proof. done. Qed.

Lemma service_run_inv did auth0 dp ops hist A s :
  fresh_auth auth0 -> service_inv did auth0 hist A s -> Forall (service_op_ok did) ops ->
  acc_epoch_id (s_acc (sv_seal s)) + Z.of_nat (length ops) < U64_MAX ->
  exists A', service_inv did auth0 (hist ++ auth_history ops) A' (service_state dp ops s) /\ nothing_lost A A' /\
    Forall (tells A') (service_events dp ops s) /\
    StronglySorted Z.lt (omap event_epoch (service_events dp ops s)) /\
    Forall (fun id => acc_epoch_id (s_acc (sv_seal s)) <= id) (omap event_epoch (service_events dp ops s)).
Proof.
  intros Hf. revert hist A s; induction ops as [|op ops IH]; intros hist A s Hi Hok Hid.
  { exists A. cbn. rewrite app_nil_r. split; [done|]. split; [reflexivity|]. repeat constructor. }
  apply Forall_cons in Hok as [Hop Hok]. cbn [length] in Hid. rewrite service_events_cons.
  pose proof (service_step_inv did auth0 hist dp A s op Hf Hi Hop) as Hst. unfold service_state. cbn [fold_left].
  destruct (service_step dp op s) as [s1 o] eqn:Hs1. cbn [fst snd].
  destruct Hst as (A1 & Hi1 & Hn1 & Ht1 & Hev); [lia|].
  destruct (IH _ A1 s1 Hi1 Hok) as (A' & Hi' & Hn & Ht & Hsort & Hge); [lia|]. exists A'. cbn [auth_history flat_map].
  rewrite (assoc_L (++)), omap_app. split; [exact Hi'|]. split; [by etrans|]. split.
  { apply Forall_app. split; [|done]. eapply Forall_impl; [exact Ht1|]. intros e. by apply tells_kept. }
  destruct Hev as [[-> Hle]|[-> Hle]]; cbn [app].
  - split; [done|]. eapply Forall_impl; [exact Hge|]. cbn. lia.
  - split; [constructor; [done|]|constructor; [lia|]]; (eapply Forall_impl; [exact Hge|]); cbn; lia.
Qed.
(** ** Trees *)

(** An answer with a tree comes from one of the three tree handlers, for a
    caller whose bearer was accepted. *)
Definition tree_handler (state : RouteState) (caller : string) (resp : Response) : Prop :=
  (exists tip, get_tree_by_tip state caller tip = Ok resp) \/
  (exists leaf method, get_tree_by_leaf state caller leaf method = Ok resp) \/
  (exists epoch m, u64_ok epoch /\ union_for_epoch state caller epoch m = Ok resp).

Lemma answer_tree r revs files :
  answer r = RsJson 200 (BTree revs files) -> exists resp, r = Ok resp /\ status resp = 200 /\ body resp = BTree revs files.
Proof. destruct r as [resp|e]; [|done]. cbn. intros [= Hs Hb]. by exists resp. Qed.

Lemma trees_query_tree state caller q revs files qs :
  query_trees qs = Ok q ->
  answer (list_or_query_trees state caller q.1 q.2) = RsJson 200 (BTree revs files) ->
  exists resp, tree_handler state caller resp /\ status resp = 200 /\ body resp = BTree revs files.
Proof.
  intros Hq (resp & Hl & Hst & Hb)%answer_tree. destruct q as [[epoch|] [ms|]]; cbn in Hl; [|done|done|].
  - apply result_bind_ok in Hl as (m & _ & Hu). exists resp. split; [|done]. right; right.
    exists epoch, m. split; [|done]. by eapply query_trees_u64.
  - unfold list_tips_for_did in Hl. apply result_bind_ok in Hl as (tips & _ & Hl).
    by apply result_bind_ok in Hl as (kept & _ & [= <-]).
Qed.

Lemma handle_read_tree h dp rq arg s caller revs files :
  (handle_read h dp rq arg s caller).2 = RsJson 200 (BTree revs files) ->
  exists resp, tree_handler (app_state dp (sv_seal s)) caller resp /\ status resp = 200 /\ body resp = BTree revs files.
Proof.
  assert ((extracted (path_string (default "" arg)) s (fun leaf =>
            extracted (query_by_leaf (hq_query rq)) s (fun method =>
              (s, answer (get_tree_by_leaf (app_state dp (sv_seal s)) caller leaf method))))).2
            = RsJson 200 (BTree revs files) ->
            exists resp, tree_handler (app_state dp (sv_seal s)) caller resp /\ status resp = 200 /\
              body resp = BTree revs files) as Hleaf.
  { unfold extracted. destruct (path_string _) as [leaf|e]; [|done].
    destruct (query_by_leaf _) as [method|e]; [|done]. cbn [snd]. intros (resp & Hg & ? & ?)%answer_tree.
    exists resp. split; [right; left|done]. by exists leaf, method. }
  unfold handle_read. cbv zeta. intros Ha. destruct h; try exact (Hleaf Ha); clear Hleaf; revert Ha; unfold extracted.
  - destruct (query_epochs _) as [q|e]; [|done]. cbn [snd].
    intros (resp & Hg & _ & Hb)%answer_tree. unfold list_epochs in Hg.
    by apply result_bind_ok in Hg as (page & _ & [= <-]).
  - destruct (query_trees _) as [q|e] eqn:Hq; [|done]. cbn [snd]. by eapply trees_query_tree.
  - destruct (path_string _) as [tip|e]; [|done]. cbn [snd].
    intros (resp & Hg & ? & ?)%answer_tree. exists resp. split; [left|done]. by exists tip.
Qed.

Lemma serve_tree dp rq now up s revs files :
  (serve dp rq now up s).2 = RsJson 200 (BTree revs files) ->
  exists caller resp, (bearer_did (hq_authorization rq) now (sv_auth s)).2 = Ok caller /\
    tree_handler (app_state dp (sv_seal s)) caller resp /\ status resp = 200 /\ body resp = BTree revs files.
Proof.
  unfold serve. destruct (router _ _) as [h arg| |]; [|done..].
  destruct (handle dp h arg rq now up s) as [s' r] eqn:Hh. cbn [snd]. case_decide; [done|]. intros ->.
  apply (f_equal snd) in Hh. cbn [snd] in Hh.
  assert (forall h', (with_bearer rq now s (fun bearer s => handle_read h' dp rq arg s bearer)).2
            = RsJson 200 (BTree revs files) ->
          exists caller resp, (bearer_did (hq_authorization rq) now (sv_auth s)).2 = Ok caller /\
            tree_handler (app_state dp (sv_seal s)) caller resp /\ status resp = 200 /\
            body resp = BTree revs files) as Hread.
  { intros h'. unfold with_bearer. destruct (bearer_did _ _ _) as [auth [caller|e]]; [|done].
    intros (resp & Ht & ? & ?)%handle_read_tree. exists caller, resp. by split_and!. }
  destruct h; cbn [handle] in Hh; try discriminate Hh; try (by eapply Hread).
  - destruct (dp_build dp) as [[[? ?] ?] ?]. by destruct (version _ _ _ _).
  - by destruct (bus_subscribe (sv_bus s)).
  - unfold handle_challenge, extracted in Hh. destruct (query_challenge _) as [did|e]; [|done].
    destruct (challenge did now (sv_auth s)) as [auth [c|e]]; done.
  - unfold handle_session, extracted in Hh. destruct (json_session _ _) as [req|e]; [|done].
    destruct (session req now (sv_auth s)) as [auth [c|e]]; done.
  - unfold handle_leaves, with_bearer, extracted in Hh. destruct (bearer_did _ _ _) as [auth [caller|e]]; [|done].
    destruct (json_leaves _ _) as [leaves|e]; [|done]. unfold submit_leaves in Hh.
    repeat case_match; simplify_eq/=.
  - unfold schedule, schedule_500, map_err, result_bind in Hh. cbn [snd] in Hh. repeat case_match; simplify_eq/=.
  - unfold extracted in Hh. destruct (query_leaderboard _) as [chain|e]; [|done]. cbn [snd] in Hh.
    unfold leaderboard in Hh. repeat case_match; simplify_eq/=.
Qed.
(** C4. What the service answers with a tree, it stands for, and only to who
    signed in. Take the service in a consistent state that vouches for its store,
    with nobody signed in, and any run of it: requests of any kind to any
    path, turns of the seal loop that fail in any way, ticks of the tasks,
    streams read and closed. If it then answers a request with a tree, the
    request carries the token of a session that was granted, in this run, to a
    signature over a challenge issued to the caller; and every revision of the
    tree is one of a witness that the SDK finished and the self-check passed
    under the service's DID, stored with its mark, and the caller's by the
    witness or by the leaf. *)
Theorem tree_answer_vouched did auth0 dp ops A s rq now up revs files :
  fresh_auth auth0 -> service_inv did auth0 [] A s -> Forall (service_op_ok did) ops ->
  acc_epoch_id (s_acc (sv_seal s)) + Z.of_nat (length ops) < U64_MAX ->
  (serve dp rq now up (service_state dp ops s)).2 = RsJson 200 (BTree revs files) ->
  exists value rest caller A',
    hq_authorization rq = Some value /\ strip_prefix "Bearer " value = Some rest /\
    signed_in (auth_history ops) auth0 caller (trim_ascii rest) /\
    seal_ready A' (sv_seal (service_state dp ops s)) /\ nothing_lost A A' /\
    forall k v, revs !! k = Some v ->
      own_revision A' caller k v /\
      exists h rev, k = revision_wire_hex h /\ revision_of (of_service did) h rev /\ json_of rev v.
Proof.
  intros Hf Hi Hok Hid Ht.
  destruct (service_run_inv did auth0 dp ops [] A s Hf Hi Hok Hid) as (A' & [Hr Hv Ha _ _] & Hn & _).
  destruct (serve_tree dp rq now up _ revs files Ht) as (caller & resp & Hb & Hth & Hst & Hbo).
  rewrite Ha in Hb. destruct Hf as [Hc Hs].
  destruct (bearer_token _ auth0 _ now caller Hc Hs Hb) as (value & rest & Hh & Hp & Hsi).
  exists value, rest, caller, A'. split_and!; try done. intros k v Hk.
  assert (own_revision A' caller k v) as Ho.
  { pose proof (sr_absr _ _ Hr : represents (view (s_sto (sv_seal (service_state dp ops s)) : Keyspace)) A') as HA.
    pose proof (sr_inv _ _ Hr) as HI. set (st := app_state dp (sv_seal (service_state dp ops s))) in *.
    destruct Hth as [(tip & Hg)|[(leaf & method & Hg)|(epoch & m & Hu & Hg)]].
    - exact (by_tip_own st caller tip A' _ resp revs files k v HA HI Hg Hbo Hk).
    - exact (by_leaf_revisions st caller leaf method A' _ resp revs files k v HA HI Hg Hbo Hk).
    - exact (union_own st caller epoch m A' _ resp revs files k v HA HI Hu Hg Hst Hbo Hk). }
  split; [done|]. destruct Ho as (t & idx & h & rev & _ & _ & _ & _ & -> & Hl & Hj). exists h, rev.
  split; [done|]. split; [|done]. by eapply vo_revision.
Qed.

(** ** Streams *)

(** What a step does to the bus. *)
Definition step_bus (op : service_op) (o : Output) : list bus_op :=
  match op, o with
  | OpHttp rq _ _, _ =>
      match router (hq_method rq) (hq_path rq) with Handle RtSseEvents _ => [BusOpen] | _ => [] end
  | OpPoll r, _ => [BusPoll r]
  | OpClose r, _ => [BusClose r]
  | _, Sent es => BusSend <$> es
  | _, _ => []
  end.

Fixpoint service_bus (dp : Deployment) (ops : list service_op) (s : Server) : list bus_op :=
  match ops with
  | [] => []
  | op :: ops' => let '(s', o) := service_step dp op s in step_bus op o ++ service_bus dp ops' s'
  end.

(** What the connection with receiver [r] gets over a run. *)
Fixpoint polled (dp : Deployment) (r : nat) (ops : list service_op) (s : Server) : list Received :=
  match ops with
  | [] => []
  | op :: ops' =>
      let '(s', o) := service_step dp op s in
      match o with Streamed r' (Some x) => if decide (r' = r) then [x] else [] | _ => [] end ++ polled dp r ops' s'
  end.

Lemma send_all_bus es bus : send_all es bus = fold_left bus_step (BusSend <$> es) bus.
Proof. unfold send_all. revert bus. induction es as [|e es IH]; intros bus; [done|]. apply IH. Qed.

Lemma received_app r a b bus : received r (a ++ b) bus = received r a bus ++ received r b (fold_left bus_step a bus).
Proof.
  revert bus; induction a as [|op a IH]; intros bus; [done|]. cbn. by rewrite IH, (assoc_L (++)).
Qed.

Lemma received_sends r es bus : received r (BusSend <$> es) bus = [].
Proof. revert bus; induction es as [|e es IH]; intros bus; [done|]. cbn. apply IH. Qed.

Lemma sent_app a b : sent (a ++ b) = sent a ++ sent b.
Proof. apply omap_app. Qed.

Lemma sent_sends es : sent (BusSend <$> es) = es.
Proof. induction es as [|e es IH]; [done|]. cbn. by f_equal. Qed.

Lemma serve_bus dp rq now up s :
  sv_bus (serve dp rq now up s).1 = fold_left bus_step (step_bus (OpHttp rq now up) Quiet) (sv_bus s).
Proof.
  unfold serve. cbn [step_bus]. destruct (router _ _) as [h arg| |]; [|done..].
  assert (forall x : Server * HttpResponse,
    (let '(s, r) := x in (s, if decide (hq_method rq = "HEAD") then RsHead r else r)).1 = x.1) as ->
    by (by intros []).
  assert (forall h, sv_bus (with_bearer rq now s (fun bearer s => handle_read h dp rq arg s bearer)).1 = sv_bus s) as Hread.
  { intros h'. unfold with_bearer. destruct (bearer_did _ now (sv_auth s)) as [auth [bearer|e]]; [|done].
    by rewrite handle_read_keeps. }
  destruct h; cbn [handle]; try done; try apply Hread.
  - destruct (dp_build dp) as [[[? ?] ?] ?]. by destruct (version _ _ _ _).
  - cbn. unfold bus_subscribe. by destruct (tx_subscribe (sv_bus s)).
  - unfold handle_challenge, extracted. destruct (query_challenge _) as [did|e]; [|done].
    by destruct (challenge did now (sv_auth s)).
  - unfold handle_session, extracted. destruct (json_session _ _) as [req|e]; [|done].
    by destruct (session req now (sv_auth s)).
  - apply handle_leaves_step.
  - unfold extracted. by destruct (query_leaderboard _).
Qed.

(** The run as the bus sees it. *)
Lemma service_bus_run dp r ops s :
  sv_bus (service_state dp ops s) = fold_left bus_step (service_bus dp ops s) (sv_bus s) /\
  polled dp r ops s = received r (service_bus dp ops s) (sv_bus s) /\
  service_events dp ops s = sent (service_bus dp ops s).
Proof.
  revert s; induction ops as [|op ops IH]; intros s; [done|].
  rewrite service_events_cons. unfold service_state. cbn [fold_left service_bus polled].
  assert (let '(s', o) := service_step dp op s in
    sv_bus s' = fold_left bus_step (step_bus op o) (sv_bus s) /\
    match o with Streamed r' (Some x) => if decide (r' = r) then [x] else [] | _ => [] end
      = received r (step_bus op o) (sv_bus s) /\
    events_of o = sent (step_bus op o)) as Hstep.
  { destruct op as [rq now up|now dur ctx|up|w node|r'|r'|w]; cbn [service_step].
    - pose proof (serve_bus dp rq now up s) as Hb. destruct (serve dp rq now up s) as [s' resp]. cbn [fst] in Hb.
      split; [exact Hb|]. cbn [step_bus]. destruct (router _ _) as [h arg| |]; [|done..]. by destruct h.
    - destruct (seal_cycle _ _ _ _ _) as [seal evs]. cbn [step_bus sv_bus with_bus].
      by rewrite send_all_bus, received_sends, sent_sends.
    - cbn [step_bus sv_bus with_bus]. by rewrite send_all_bus, received_sends, sent_sends.
    - unfold watch. by destruct (watcher_tick _ _ _) as [[st o]|].
    - cbn [step_bus received fold_left bus_step]. destruct (rx_recv r' (sv_bus s)) as [bus x] eqn:Hx. cbn [with_bus sv_bus].
      split; [done|]. split; [|done]. rewrite app_nil_r. destruct (decide (r' = r)) as [->|Hne].
      + rewrite decide_True by done. rewrite Hx. by destruct x.
      + rewrite decide_False by congruence. by destruct x.
    - done.
    - done. }
  destruct (service_step dp op s) as [s' o]. destruct Hstep as (Hb & Hp & He). cbn [fst snd].
  destruct (IH s') as (IHb & IHp & IHe). unfold service_state in IHb.
  rewrite received_app, sent_app, fold_left_app, <- Hb, <- He, <- Hp, IHp, IHe. by split_and!.
Qed.

(** A connection that was opened has a queue of its own. *)
Lemma serve_stream dp rq now up s s1 r :
  serve dp rq now up s = (s1, RsStream r) -> sv_bus s1 = (tx_subscribe (sv_bus s)).1 /\ r = (tx_subscribe (sv_bus s)).2.
Proof.
  unfold serve. destruct (router _ _) as [h arg| |]; [|done..].
  destruct (handle dp h arg rq now up s) as [s' resp] eqn:Hh. case_decide; [done|]. intros [= -> ->].
  assert (forall h bearer s', (handle_read h dp rq arg s' bearer).2 <> RsStream r) as Hread.
  { intros h' bearer s'. unfold handle_read, extracted. cbv zeta.
    assert (forall x, answer x <> RsStream r) as Ha by (by intros []).
    destruct h'; repeat match goal with |- context [match ?x with Ok _ => _ | Err _ => _ end] => destruct x end;
      try done; apply Ha. }
  assert (forall h, (with_bearer rq now s (fun bearer s => handle_read h dp rq arg s bearer)).2 <> RsStream r) as Hb.
  { intros h'. unfold with_bearer. destruct (bearer_did _ _ _) as [auth [caller|e]]; [|done]. apply Hread. }
  apply (f_equal snd) in Hh as Hr. cbn [snd] in Hr.
  destruct h; cbn [handle] in Hh, Hr; try discriminate Hr; try (by apply Hb in Hr).
  - destruct (dp_build dp) as [[[? ?] ?] ?]. by destruct (version _ _ _ _).
  - unfold bus_subscribe in Hh. destruct (tx_subscribe (sv_bus s)). by injection Hh as <- <-.
  - unfold handle_challenge, extracted in Hr. destruct (query_challenge _) as [did|e]; [|done].
    destruct (challenge did now (sv_auth s)) as [auth [c|e]]; done.
  - unfold handle_session, extracted in Hr. destruct (json_session _ _) as [req|e]; [|done].
    destruct (session req now (sv_auth s)) as [auth [c|e]]; done.
  - unfold handle_leaves, with_bearer, extracted in Hr. destruct (bearer_did _ _ _) as [auth [caller|e]]; [|done].
    destruct (json_leaves _ _) as [leaves|e]; [|done]. destruct (submit_leaves _ _ _) as [state [x|e]]; done.
  - by destruct (schedule _ _).
  - unfold extracted in Hr. by destruct (query_leaderboard _).
Qed.

Lemma sublist_epochs (l k : list SseEvent) :
  l `sublist_of` k -> omap event_epoch l `sublist_of` omap event_epoch k.
Proof.
  induction 1 as [|e l k _ IH|e l k _ IH]; [done| |]; cbn; destruct (event_epoch e); try done;
    [by apply sublist_skip|by apply sublist_cons].
Qed.

Lemma sorted_sublist (l k : list Z) : l `sublist_of` k -> StronglySorted Z.lt k -> StronglySorted Z.lt l.
Proof.
  induction 1 as [|x l k Hs IH|x l k Hs IH]; intros Hk; [done| |]; apply StronglySorted_inv in Hk as [Hk Hx].
  - constructor; [by apply IH|]. apply Forall_forall. intros y Hy. rewrite Forall_forall in Hx.
    apply Hx. by eapply elem_of_sublist.
  - by apply IH.
Qed.

End service.

(** ** The start *)

Section start.
Context `{HexLaws, SdkLaws, !AnchorWorld, !LiveAnchors, FjallLaws, SerdeCrates, !StoreCodecs, !StoreCodecLaws,
          Sha3Crate, !ClaimLaws, EvmChains, !IdentityCrates}.
Context `{!RouteCrates, !RouteLaws, !AuthCrate, !AuthLaws, BroadcastLaws, AxumLaws, ExtractorLaws, !AuthStart}.

(** New stores are empty. *)
Class AuthStartLaws := {
  challenges_new ttl domain uri : open_challenges (ChallengeStore_new ttl domain uri) = ∅;
  sessions_new ttl : live_sessions (SessionStore_new ttl) = ∅;
}.
Context `{!AuthStartLaws}.

(** C6. The binary serves only what it may. When [main] gets to serving, the
    configuration was read and passed every start-up check, the address parsed
    and was bound; and on any store that is consistent and vouched for, as an
    earlier run left it, the process starts in a state that every theorem on
    runs may start from: nobody signed in, no challenge open, the open epoch
    above every stored one, room for 256 events on the bus; and every seal of
    its loop runs under the DID of its own key. *)
Theorem main_starts did p config var finality assets ks now node w (A : AStore) n dp s :
  represents (view ks) A -> store_inv A n -> 0 <= n < U64_MAX -> vouched did A ->
  u64_ok (initial_watermark ks node) ->
  service_main p config var finality assets ks now node w = Ok (dp, s) ->
  fresh_auth (sv_auth s) /\ service_inv did (sv_auth s) [] A s /\
  (forall id, is_Some (look A epochs id) -> id < acc_epoch_id (s_acc (sv_seal s))) /\
  256 <= Z.of_nat (slots (sv_bus s)) /\
  exists text cfg identity ctx,
    read_to_string p config = Ok text /\ toml_from_str p text = Ok cfg /\
    is_Some (parse_socket_addr p (listen (cfg_server cfg))) /\ from_env var (cfg_identity cfg) = Ok identity /\
    check_enabled_anchors cfg (mnemonic identity) = Ok tt /\ check_evm_chain_source cfg = Ok tt /\
    build_witness_ctx cfg finality identity
      {| ov_evm := None; ov_qtsa := None; ov_evm_check_host := None; ov_tsa_check_host := None |} = Ok ctx /\
    c_methods ctx = enabled_methods cfg /\ validate ctx w = Ok tt /\
    c_service_did ctx = default "" (ok (derive_did_pkh (secp256k1_signer (private_key identity)))) /\
    dp_allowed_dids dp = allowed_dids (cfg_auth cfg) /\
    dp_max_leaves_per_request dp = max_leaves_per_request (cfg_epoch cfg).
Proof.
  intros Hr Hi Hn Hv Hw. unfold service_main. set (anchors := {| ov_evm := None |}).
  intros (cfg & Hcfg%map_err_ok & Hm)%result_bind_ok.
  apply result_bind_ok in Hm as (addr & Haddr%ok_or_ok & Hm).
  apply result_bind_ok in Hm as (identity & Hid%map_err_ok & Hm).
  apply result_bind_ok in Hm as (app & Happ%map_err_ok & Hm).
  apply result_bind_ok in Hm as ([] & _ & [= <- <-]).
  pose proof (started_ready cfg finality identity None Interval anchors ks now w app A n Hr Hi Hn Happ)
    as (Hready & _ & Hids).
  split; [split; [apply challenges_new|apply sessions_new]|].
  split; [by split|]. split; [exact Hids|]. split; [by apply (channel_slots EVENT_BUS_CAPACITY)|].
  unfold load in Hcfg. apply result_bind_ok in Hcfg as (text & Htext & Htoml).
  unfold build_app in Happ. apply result_bind_ok in Happ as ([] & Hchk%map_err_ok & Hb).
  apply result_bind_ok in Hb as (tree & _ & Hb). apply result_bind_ok in Hb as (response & _ & Hb).
  apply result_bind_ok in Hb as (next & _ & Hb). apply result_bind_ok in Hb as (ctx & Hctx%map_err_ok & Hb).
  apply result_bind_ok in Hb as ([] & Hval%map_err_ok & Hb).
  exists text, cfg, identity, ctx. unfold check_config in Hchk. apply result_bind_ok in Hchk as ([] & He & Hsrc).
  assert (checked_config cfg anchors = cfg) as Hsame.
  { unfold checked_config. cbn [ov_evm ov_qtsa anchors]. rewrite !andb_true_r. by destruct cfg as [? ? ? ? ? ? [[] []] ? ?]. }
  destruct (build_witness_ctx_parts _ _ _ _ _ Hctx) as (_ & _ & _ & _ & Hms & _ & _ & Hdid & _).
  rewrite Hsame in He. by split_and!.
Qed.
End start.
