(* ===== verification/ClientIdentity.v ===== *)
(** * Server discovery and pinning in the client
    ([crates/aqua-timestamp-client/src]: [identity.rs], [trust.rs], the
    builder of [client.rs])

    [discover] reads the well-known document of a server and checks its signed
    claim; [build] pins the DID it names and signs in.  The transport's reply,
    the rotation callback and the handshake's answer are arguments. *)

From S2P Require Import Prelude External Client.
Open Scope string_scope.
Open Scope list_scope.
Open Scope Z_scope.

(** ** [trust.rs] *)

Inductive RotationDecision := Accept | Reject.

Record ServerRotation `{JsonCrate} := {
  prior_did : string;
  discovered_did : string;
  discovered_identity_response : Value;
}.

Inductive OnRotation `{JsonCrate} :=
| Refuse
| Warn
| Custom (cb : ServerRotation -> RotationDecision).

(** [types.rs]. *)
Record ServerIdentity `{JsonCrate} := {
  did : string;
  address : string;
  identity_response_json : Value;
}.

(** [s.split_once(':')]. *)
Fixpoint split_once_colon (s : string) : option (string * string) :=
  match s with
  | EmptyString => None
  | String c s' =>
      if decide (String c EmptyString = ":") then Some (EmptyString, s')
      else match split_once_colon s' with
           | Some (a, b) => Some (String c a, b)
           | None => None
           end
  end.

(** The EIP-55 address of a [did:pkh:eip155] DID. *)
Definition address_from_did (did : string) : option string :=
  match strip_prefix "did:pkh:eip155:" did with
  | None => None
  | Some rest =>
      match split_once_colon rest with
      | None => None
      | Some (_, addr) =>
          if bool_decide (String.length addr = 42%nat) && starts_with "0x" addr
          then Some addr else None
      end
  end.

Example address_from_did_ex :
  address_from_did "did:pkh:eip155:1:0x55Fcf9F8C1287cB462aa3c1C97E2298d221c634f"
    = Some "0x55Fcf9F8C1287cB462aa3c1C97E2298d221c634f" /\
  address_from_did "did:key:zABC" = None /\ address_from_did "did:pkh:ed25519:0xabcd" = None.
Proof. repeat split. Qed.

Section identity.
Context `{HexCrate, Sdk, !ClientCrates}.

Record IdentityWire := {
  server_did : string;
  ethereum_address : option string;
  identity_claim : Value;
}.

(** A [#[serde(default)] Option<String>]. *)
Definition opt_str_member (v : Value) (k : string) : result string (option string) :=
  match json_get v k with
  | None => Ok None
  | Some x =>
      if decide (x = json_null) then Ok None
      else let? s := ok_or (json_as_str x) ("invalid type for " +:+ k) in Ok (Some s)
  end.

Definition identity_wire_from_value (v : Value) : result string IdentityWire :=
  let? d := str_member v "server_did" in
  let? a := opt_str_member v "ethereum_address" in
  let? c := member v "identity_claim" in
  Ok {| server_did := d; ethereum_address := a; identity_claim := c |}.

(** ** The signed claim *)

Definition claim_error {A} (source : string) : result ClientError A :=
  Err (IdentityDiscovery "" source).

(** The loop over the claim's revisions: has a signature been seen, and has one
    verified. *)
Fixpoint claim_loop (advertised : string) (revisions : list (string * Value))
    (signature_seen signature_verified : bool) : result ClientError (bool * bool) :=
  match revisions with
  | [] => Ok (signature_seen, signature_verified)
  | (hash_str, rev_value) :: revisions' =>
      let? revision :=
        map_err (fun e => IdentityDiscovery ""
                   ("revision " +:+ hash_str +:+ " did not parse as AnyRevision: " +:+ e))
          (rev_from_value rev_value) in
      match as_signature revision with
      | Some sig =>
          if decide (signature_signer sig <> advertised)
          then claim_error ("signature revision signer " +:+ signature_signer sig +:+
                            " does not match advertised server_did " +:+ advertised)
          else if negb (verify_signature_sync revision hash_str)
          then claim_error "identity_claim signature failed verification"
          else claim_loop advertised revisions' true true
      | None => claim_loop advertised revisions' signature_seen signature_verified
      end
  end.

Definition verify_identity_claim (parsed : IdentityWire) : result ClientError unit :=
  let? tree :=
    ok_or (json_object (identity_claim parsed))
      (IdentityDiscovery "" "identity_claim is not a JSON object") in
  let? revisions :=
    ok_or (v ← (list_to_map tree : gmap string Value) !! "revisions"; json_object v)
      (IdentityDiscovery "" "identity_claim has no `revisions` object") in
  let? seen := claim_loop (server_did parsed) revisions false false in
  if negb seen.1 then claim_error "identity_claim has no Signature revision"
  else if negb seen.2 then claim_error "identity_claim signature was not verified"
  else Ok tt.

(** ** Rotation *)

Definition apply_rotation_policy (identity : ServerIdentity)
    (prior : option (string * OnRotation)) : result ClientError (option ServerRotation) :=
  match prior with
  | None => Ok None
  | Some (prior, policy) =>
      if decide (prior = did identity) then Ok None
      else
        let rotation :=
          {| prior_did := prior; discovered_did := did identity;
             discovered_identity_response := identity_response_json identity |} in
        match policy with
        | Refuse => Err (ServerIdentityRotated prior (did identity))
        | Warn => Ok (Some rotation)
        | Custom cb =>
            match cb rotation with
            | Accept => Ok (Some rotation)
            | Reject => Err (ServerIdentityRotated prior (did identity))
            end
        end
  end.

(** ** Discovery *)

(** The reply to [GET /.well-known/aqua-identity]; [status_text] prints a
    status. *)
Definition discover (status_text : Z -> string) (base_url : string)
    (reply : result string HttpReply) (prior : option (string * OnRotation))
    : result ClientError (ServerIdentity * option ServerRotation) :=
  let failed := IdentityDiscovery base_url in
  let? r := map_err failed reply in
  if negb (is_success (hr_status r))
  then Err (failed ("HTTP " +:+ status_text (hr_status r) +:+ ": " +:+ hr_body r))
  else
    let? value := map_err failed (json_from_str (hr_body r)) in
    let? parsed := map_err failed (identity_wire_from_value value) in
    let? _ := verify_identity_claim parsed in
    let address :=
      default (default "" (address_from_did (server_did parsed))) (ethereum_address parsed) in
    let identity :=
      {| did := server_did parsed; address := address; identity_response_json := value |} in
    let? rotation := apply_rotation_policy identity prior in
    Ok (identity, rotation).

(** ** The builder *)

Record TimestampClientBuilder := {
  b_base_url : option string;
  b_my_did : option string;
  b_has_signer : bool;
  b_expect_server_did : option (string * OnRotation);
  b_request_timeout : option Duration;
  b_poll_interval : option Duration;
}.

(** Its setters; the signer's closure is in [sign_in], which [build] is given. *)
Definition builder_empty : TimestampClientBuilder :=
  {| b_base_url := None; b_my_did := None; b_has_signer := false; b_expect_server_did := None;
     b_request_timeout := None; b_poll_interval := None |}.

Definition builder_base_url (url : string) (self : TimestampClientBuilder) : TimestampClientBuilder :=
  {| b_base_url := Some url; b_my_did := b_my_did self; b_has_signer := b_has_signer self;
     b_expect_server_did := b_expect_server_did self; b_request_timeout := b_request_timeout self;
     b_poll_interval := b_poll_interval self |}.
Definition builder_my_did (did : string) (self : TimestampClientBuilder) : TimestampClientBuilder :=
  {| b_base_url := b_base_url self; b_my_did := Some did; b_has_signer := b_has_signer self;
     b_expect_server_did := b_expect_server_did self; b_request_timeout := b_request_timeout self;
     b_poll_interval := b_poll_interval self |}.
Definition builder_signer (self : TimestampClientBuilder) : TimestampClientBuilder :=
  {| b_base_url := b_base_url self; b_my_did := b_my_did self; b_has_signer := true;
     b_expect_server_did := b_expect_server_did self; b_request_timeout := b_request_timeout self;
     b_poll_interval := b_poll_interval self |}.
Definition builder_expect_server_did (prior : string) (on_rotation : OnRotation) (self : TimestampClientBuilder)
    : TimestampClientBuilder :=
  {| b_base_url := b_base_url self; b_my_did := b_my_did self; b_has_signer := b_has_signer self;
     b_expect_server_did := Some (prior, on_rotation); b_request_timeout := b_request_timeout self;
     b_poll_interval := b_poll_interval self |}.
Definition builder_request_timeout (dur : Duration) (self : TimestampClientBuilder) : TimestampClientBuilder :=
  {| b_base_url := b_base_url self; b_my_did := b_my_did self; b_has_signer := b_has_signer self;
     b_expect_server_did := b_expect_server_did self; b_request_timeout := Some dur;
     b_poll_interval := b_poll_interval self |}.
Definition builder_poll_interval (dur : Duration) (self : TimestampClientBuilder) : TimestampClientBuilder :=
  {| b_base_url := b_base_url self; b_my_did := b_my_did self; b_has_signer := b_has_signer self;
     b_expect_server_did := b_expect_server_did self; b_request_timeout := b_request_timeout self;
     b_poll_interval := Some dur |}.

Record TimestampClient := {
  base_url : string;
  server : ServerIdentity;
  rotation : option ServerRotation;
  poll_interval : Duration;
  request_timeout : Duration;
}.

Definition secs (n : Z) : Duration := n * 1000000000.

(** [parse_url] is [url::Url::parse]; the transport's client may fail to build;
    [get] answers the discovery request of a base URL, [sign_in] the first
    [ensure_token]. *)
Definition build (parse_url : string -> result string string) (http : result string unit)
    (status_text : Z -> string) (get : string -> result string HttpReply)
    (sign_in : result ClientError string) (self : TimestampClientBuilder)
    : result ClientError TimestampClient :=
  let? url := ok_or (b_base_url self) (Invalid "base_url is required") in
  let? url := map_err Url (parse_url url) in
  let? _ := ok_or (b_my_did self) (Invalid "my_did is required") in
  let? _ := if b_has_signer self then Ok tt else Err (Invalid "signer is required") in
  let request_timeout := default (secs 10) (b_request_timeout self) in
  let poll_interval := default (secs 5) (b_poll_interval self) in
  let? _ := map_err Http http in
  let? found := discover status_text url (get url) (b_expect_server_did self) in
  let? _ := sign_in in
  Ok {| base_url := url; server := found.1; rotation := found.2;
        poll_interval := poll_interval; request_timeout := request_timeout |}.

Definition server_identity (c : TimestampClient) : ServerIdentity := server c.
Definition rotation_detected (c : TimestampClient) : option ServerRotation := rotation c.

(** [TimestampClient::try_fetch_witness]: against the pinned DID. *)
Definition fetch_witness (c : TimestampClient) :=
  try_fetch_witness (did (server c)).

(** ** What a claim must be *)

(** A revision that parses, and if it is a signature is the server's and
    verifies. *)
Definition claim_entry_ok (advertised : string) (e : string * Value) : Prop :=
  exists rev, rev_from_value e.2 = Ok rev /\
    match as_signature rev with
    | Some sig => signature_signer sig = advertised /\ verify_signature_sync rev e.1 = true
    | None => True
    end.
Definition signature_entry (e : string * Value) : Prop :=
  exists rev sig, rev_from_value e.2 = Ok rev /\ as_signature rev = Some sig.

Lemma claim_loop_ok adv revs b b' :
  claim_loop adv revs b b = Ok b' <->
  Forall (claim_entry_ok adv) revs /\
  exists c, b' = (c, c) /\ (c = true <-> b = true \/ Exists signature_entry revs).
Proof.
  revert b; induction revs as [|[h v] revs IH]; intros b; cbn [claim_loop].
  { setoid_rewrite Exists_nil. split.
    - intros [= <-]. split; [constructor|]. exists b. naive_solver.
    - intros (_ & c & -> & Hc). f_equal. destruct b, c; naive_solver. }
  rewrite Forall_cons. setoid_rewrite Exists_cons.
  unfold claim_entry_ok at 1, signature_entry at 1. cbn.
  destruct (rev_from_value v) as [rev|e]; cbn; [|naive_solver].
  destruct (as_signature rev) as [sig|] eqn:Hsg.
  - case_decide as Hs; [split; [done|]|].
    { intros [[(rev' & [= <-] & Hr) _] _]. rewrite Hsg in Hr.
      destruct Hr; cbn in *; congruence. }
    destruct (verify_signature_sync rev h) eqn:Hv; cbn.
    + rewrite (IH true). split.
      * intros (Hf & c & -> & Hc). split; [split; [|done]|].
        { exists rev. by rewrite Hsg. }
        exists c. split; [done|]. split; [intros _; right; left; by exists rev, sig|].
        intros _. apply Hc. by left.
      * intros ([_ Hf] & c & -> & Hc). split; [done|]. exists c. split; [done|].
        split; [intros _; by left|]. intros _. apply Hc. right. left. by exists rev, sig.
    + split; [done|]. intros [[(rev' & [= <-] & Hr) _] _]. rewrite Hsg in Hr.
      destruct Hr; cbn in *; congruence.
  - rewrite (IH b). split.
    + intros (Hf & c & -> & Hc). split; [split; [|done]|].
      { exists rev. by rewrite Hsg. }
      exists c. split; [done|]. rewrite Hc. split; [naive_solver|].
      intros [?|[(rev' & sig & [= <-] & ?)|?]]; [by left|congruence|by right].
    + intros ([_ Hf] & c & -> & Hc). split; [done|]. exists c. split; [done|]. rewrite Hc.
      split; [|naive_solver]. intros [?|[(rev' & sig & [= <-] & ?)|?]]; [by left|congruence|by right].
Qed.

(** The revisions of a claim, as the check reaches them. *)
Definition claim_revisions (claim : Value) : option (list (string * Value)) :=
  tree ← json_object claim; v ← (list_to_map tree : gmap string Value) !! "revisions"; json_object v.

Lemma verify_identity_claim_ok parsed :
  verify_identity_claim parsed = Ok tt <->
  exists revs, claim_revisions (identity_claim parsed) = Some revs /\
    Forall (claim_entry_ok (server_did parsed)) revs /\ Exists signature_entry revs.
Proof.
  unfold verify_identity_claim, claim_revisions.
  destruct (json_object (identity_claim parsed)) as [tree|]; cbn; [|naive_solver].
  destruct (_ !! "revisions") as [v|]; cbn; [|naive_solver].
  destruct (json_object v) as [revs|]; cbn; [|naive_solver].
  rewrite result_bind_ok. split.
  - intros (b' & Hb & Hr). apply claim_loop_ok in Hb as (Hf & c & -> & Hc). cbn in Hr.
    destruct c; [|done]. exists revs. split_and!; [done|done|]. naive_solver.
  - intros (revs' & [= <-] & Hf & He). exists (true, true). split; [|done].
    apply claim_loop_ok. split; [done|]. exists true. naive_solver.
Qed.

Lemma apply_rotation_policy_ok identity prior r :
  apply_rotation_policy identity prior = Ok r <->
  match prior with
  | None => r = None
  | Some (p, policy) =>
      let rot := {| prior_did := p; discovered_did := did identity;
                    discovered_identity_response := identity_response_json identity |} in
      p = did identity /\ r = None \/
      p <> did identity /\ r = Some rot /\
      match policy with Refuse => False | Warn => True | Custom cb => cb rot = Accept end
  end.
Proof.
  unfold apply_rotation_policy. destruct prior as [[p policy]|]; [|naive_solver].
  case_decide; [naive_solver|]. cbv zeta.
  destruct policy as [| |cb]; [naive_solver..|]. destruct (cb _); naive_solver.
Qed.

Lemma discover_ok status_text url reply prior identity rot :
  discover status_text url reply prior = Ok (identity, rot) <->
  exists r value parsed, reply = Ok r /\ is_success (hr_status r) = true /\
    json_from_str (hr_body r) = Ok value /\ identity_wire_from_value value = Ok parsed /\
    verify_identity_claim parsed = Ok tt /\
    identity = {| did := server_did parsed;
                  address := default (default "" (address_from_did (server_did parsed)))
                               (ethereum_address parsed);
                  identity_response_json := value |} /\
    apply_rotation_policy identity prior = Ok rot.
Proof.
  unfold discover. cbv zeta. rewrite result_bind_ok. setoid_rewrite map_err_ok. split.
  - intros (r & -> & Hr). destruct (is_success (hr_status r)) eqn:Hsu; [|done]. cbn [negb] in Hr.
    apply result_bind_ok in Hr as (value & Hv%map_err_ok & Hr).
    apply result_bind_ok in Hr as (parsed & Hp%map_err_ok & Hr).
    apply result_bind_ok in Hr as ([] & Hc & Hr).
    apply result_bind_ok in Hr as (rot' & Hrot & [= <- <-]).
    exists r, value, parsed. done.
  - intros (r & value & parsed & -> & Hsu & Hv & Hp & Hc & -> & Hrot). exists r. split; [done|].
    rewrite Hsu. cbn [negb]. rewrite Hv. cbn. rewrite Hp. cbn. rewrite Hc. cbn. by rewrite Hrot.
Qed.

(** Discovery, in full: it answers an identity exactly when the server
    replied with success, the body is a JSON document with a DID and a claim,
    every revision of the claim parses, every signature in it is by that DID
    and verifies, there is at least one, and the caller's policy accepts the
    DID. Nothing else of the claim is looked at. *)
Theorem discover_spec status_text url reply prior identity rot :
  discover status_text url reply prior = Ok (identity, rot) <->
  exists r value parsed revs, reply = Ok r /\ is_success (hr_status r) = true /\
    json_from_str (hr_body r) = Ok value /\ identity_wire_from_value value = Ok parsed /\
    claim_revisions (identity_claim parsed) = Some revs /\
    Forall (claim_entry_ok (server_did parsed)) revs /\ Exists signature_entry revs /\
    did identity = server_did parsed /\ identity_response_json identity = value /\
    address identity = default (default "" (address_from_did (server_did parsed)))
                         (ethereum_address parsed) /\
    match prior with
    | None => rot = None
    | Some (p, policy) =>
        p = did identity /\ rot = None \/
        p <> did identity /\
        rot = Some {| prior_did := p; discovered_did := did identity;
                      discovered_identity_response := value |} /\
        match policy with
        | Refuse => False
        | Warn => True
        | Custom cb => cb {| prior_did := p; discovered_did := did identity;
                             discovered_identity_response := value |} = Accept
        end
    end.
Proof.
  rewrite discover_ok. split.
  - intros (r & value & parsed & Hr & Hs & Hv & Hp & (revs & Hc & Hf & He)%verify_identity_claim_ok & -> & Hrot).
    exists r, value, parsed, revs. apply apply_rotation_policy_ok in Hrot.
    split_and!; try done.
  - intros (r & value & parsed & revs & Hr & Hs & Hv & Hp & Hc & Hf & He & Hd & Hj & Ha & Hrot).
    exists r, value, parsed. split_and!; try done.
    + apply verify_identity_claim_ok. by exists revs.
    + destruct identity. cbn in *. by subst.
    + apply apply_rotation_policy_ok. destruct prior as [[p policy]|]; [|done]. cbv zeta. by rewrite Hj.
Qed.
End identity.
