(* ===== verification/ClientTheorems.v ===== *)
(** * The client's properties

    What [extract_witness_pair] accepts, whose witnesses a pinned client hands
    out, and how long [await_witness] polls. *)

From S2P Require Import Prelude External Client ClientIdentity.
Open Scope string_scope.
Open Scope list_scope.
Open Scope Z_scope.

Section extraction.
Context `{HexCrate, Sdk, !ClientCrates}.

Definition is_sig (e : string * AnyRevision) : Prop := is_Some (as_signature e.2).
Definition is_obj (e : string * AnyRevision) : Prop :=
  as_signature e.2 = None /\ is_Some (as_typed e.2) /\ is_timestamp_object e.2 = true.
#[export] Instance is_sig_dec e : Decision (is_sig e).
Proof. unfold is_sig. apply _. Defined.
#[export] Instance is_obj_dec e : Decision (is_obj e).
Proof. unfold is_obj. apply and_dec; [|apply and_dec; apply _]. destruct (as_signature e.2); [right|left]; done. Defined.

(** The entries found so far, in a list. *)
Definition so_far {A} (o : option A) : list A := match o with Some x => [x] | None => [] end.

Lemma find_pair_ok (entries : list (string * AnyRevision)) s o s' o' :
  find_pair entries s o = Ok (s', o') <->
  so_far s' = so_far s ++ filter is_sig entries /\ so_far o' = so_far o ++ filter is_obj entries.
Proof.
  revert s o; induction entries as [|[h rev] entries IH]; intros s o; cbn [find_pair].
  { rewrite !filter_nil, !app_nil_r. split; [by intros [= -> ->]|].
    intros [Hs Ho]. destruct s, s', o, o'; naive_solver. }
  destruct (as_signature rev) as [sg|] eqn:Hsg.
  - rewrite filter_cons_True by (unfold is_sig; cbn; by rewrite Hsg).
    rewrite (filter_cons_False is_obj) by (intros [? _]; cbn in *; congruence).
    destruct s as [x|]; [|by rewrite IH].
    split; [done|]. intros [Hs _]. by destruct s'.
  - rewrite (filter_cons_False is_sig) by (unfold is_sig; cbn; rewrite Hsg; by intros []).
    destruct (bool_decide (is_Some (as_typed rev)) && is_timestamp_object rev) eqn:Hob.
    + apply andb_true_iff in Hob as [Ht%bool_decide_eq_true Hts].
      rewrite filter_cons_True by (by split).
      destruct o as [x|]; [|by rewrite IH].
      split; [done|]. intros [_ Ho]. by destruct o'.
    + rewrite filter_cons_False; [by rewrite IH|].
      intros (_ & Ht & Hts). cbn in *. by rewrite bool_decide_eq_true_2, Hts in Hob.
Qed.

(** The pair the client is ready to hand out. *)
Definition good_pair (m : AnchorMethod) (did : string) (sig obj : string * AnyRevision)
    (wp : WitnessPair) : Prop :=
  (exists s, as_signature sig.2 = Some s /\ link_to_string (signature_previous_revision s) = obj.1 /\
     signature_signer s = did) /\
  verify_signature_sync sig.2 sig.1 = true /\
  wp = {| object_revision := obj.2; signature_revision := sig.2; object_hash := obj.1;
          signature_hash := sig.1; anchor_method := m |}.

Lemma check_pair_ok m did sig obj wp : check_pair m did sig obj = Ok wp <-> good_pair m did sig obj wp.
Proof.
  unfold check_pair, good_pair. destruct (as_signature sig.2) as [s|].
  - case_decide as Hp; [split; [done|naive_solver]|].
    case_decide as Hd; [split; [done|naive_solver]|].
    destruct (verify_signature_sync sig.2 sig.1); cbn [negb]; [|split; [done|naive_solver]].
    split; [intros [= <-]; split; [by exists s|done]|].
    by intros (_ & _ & ->).
  - split; [done|]. by intros ((? & ? & _) & _).
Qed.

Lemma extract_ok (tree : list (string * AnyRevision)) m did wp :
  extract_witness_pair tree m did = Ok wp <->
  exists sig obj, filter is_sig tree = [sig] /\ filter is_obj tree = [obj] /\ good_pair m did sig obj wp.
Proof.
  unfold extract_witness_pair. rewrite result_bind_ok. split.
  - intros ([s o] & Hf%find_pair_ok & Hr). cbn in Hf, Hr. destruct Hf as [Hs Ho].
    destruct s as [sig|]; [|done]. destruct o as [obj|]; [|done]. cbn in *.
    apply check_pair_ok in Hr. by exists sig, obj.
  - intros (sig & obj & Hs & Ho & Hg%check_pair_ok). exists (Some sig, Some obj). split; [|exact Hg].
    apply find_pair_ok. by rewrite Hs, Ho.
Qed.

Lemma extract_perm (tree tree' : list (string * AnyRevision)) m did wp :
  tree ≡ₚ tree' ->
  extract_witness_pair tree m did = Ok wp <->
  exists sig obj, filter is_sig tree' = [sig] /\ filter is_obj tree' = [obj] /\
    good_pair m did sig obj wp.
Proof.
  intros Hp. rewrite extract_ok.
  assert (forall (P : string * AnyRevision -> Prop) `{!forall x, Decision (P x)} x,
            filter P tree = [x] <-> filter P tree' = [x]) as Hf.
  { intros P ? x. assert (filter P tree ≡ₚ filter P tree') as Hfp by by rewrite Hp.
    split; intros Hx; rewrite Hx in Hfp.
    - by apply Permutation_singleton_l in Hfp.
    - by apply Permutation_singleton_r in Hfp. }
  by setoid_rewrite Hf.
Qed.

(** The client hands out a witness exactly when the served tree holds one
    signature and one timestamp object, the signature signs that object, its
    signer is the server the client is pinned to, and it verifies; whatever
    the order the revisions arrive in, and whatever else the tree holds. *)
Theorem extract_witness_pair_spec (tree tree' : list (string * AnyRevision)) m did wp :
  tree ≡ₚ tree' ->
  extract_witness_pair tree m did = Ok wp <->
  exists sig obj, filter is_sig tree' = [sig] /\ filter is_obj tree' = [obj] /\
    good_pair m did sig obj wp.
Proof. apply extract_perm. Qed.
End extraction.

(** ** Pinning *)

Section pinning.
Context `{HexCrate, Sdk, !ClientCrates}.

Lemma fetch_ok pinned tok send l m wp :
  try_fetch_witness pinned tok send l m = Ok (Some wp) ->
  exists sig obj, good_pair m pinned sig obj wp.
Proof.
  unfold try_fetch_witness. intros Hf.
  apply result_bind_ok in Hf as (t & _ & Hf). apply result_bind_ok in Hf as (r & _ & Hf).
  case_decide; [done|]. destruct (is_success (hr_status r)); cbn [negb] in Hf; [|done].
  apply result_bind_ok in Hf as (tree & _ & Hf).
  apply result_bind_ok in Hf as (wp' & He%extract_ok & [= <-]).
  destruct He as (sig & obj & _ & _ & Hg). by exists sig, obj.
Qed.

Lemma build_ok parse_url http status_text get sign_in self c :
  build parse_url http status_text get sign_in self = Ok c ->
  exists url tok, b_base_url self ≫= (fun u => ok (parse_url u)) = Some url /\ base_url c = url /\
    is_Some (b_my_did self) /\ b_has_signer self = true /\ sign_in = Ok tok /\
    discover status_text url (get url) (b_expect_server_did self) = Ok (server c, rotation c) /\
    poll_interval c = default (secs 5) (b_poll_interval self) /\
    request_timeout c = default (secs 10) (b_request_timeout self).
Proof.
  unfold build. cbv zeta. intros Hb.
  apply result_bind_ok in Hb as (u & Hu%ok_or_ok & Hb). apply result_bind_ok in Hb as (url & Hp%map_err_ok & Hb).
  apply result_bind_ok in Hb as (d & Hd%ok_or_ok & Hb). apply result_bind_ok in Hb as (x & Hs & Hb).
  destruct (b_has_signer self); [|done].
  apply result_bind_ok in Hb as (y & _ & Hb). apply result_bind_ok in Hb as ([i rot] & Hdis & Hb).
  apply result_bind_ok in Hb as (tok & Ht & [= <-]). exists url, tok. rewrite Hu, Hd. cbn.
  rewrite Hp. by split_and!.
Qed.

End pinning.

(** ** Polling *)

Section polling.
Context `{HexCrate, Sdk, !ClientCrates}.
Variables (poll_interval timeout : Duration) (receipt : SubmissionReceipt).

(** The clock does not go back, and a nap lasts at least its time. *)
Fixpoint clock_ok (now : Duration) (rounds : list Round) : Prop :=
  match rounds with
  | [] => True
  | ro :: rounds' =>
      now <= ro_top ro /\ ro_top ro <= ro_before_nap ro /\ ro_before_nap ro <= ro_at_timeout ro /\
      match await_round poll_interval timeout receipt ro with
      | Answer _ => True
      | Nap d => clock_ok (ro_before_nap ro + d) rounds'
      end
  end.

Lemma nap_or_timeout_cases ro :
  0 < poll_interval ->
  match nap_or_timeout poll_interval timeout ro with
  | Answer r => r = Err (Timeout (ro_at_timeout ro)) /\ timeout <= ro_before_nap ro
  | Nap d => 0 < d /\ (d = poll_interval \/ timeout <= ro_before_nap ro + d)
  end.
Proof.
  intros Hp. unfold nap_or_timeout. destruct (_ =? 0) eqn:Hz; [apply Z.eqb_eq in Hz|apply Z.eqb_neq in Hz].
  - split; [done|lia].
  - lia.
Qed.

(** A round's end: what it answers and why, or a nap. *)
Lemma await_round_cases ro :
  0 < poll_interval -> ro_before_nap ro <= ro_at_timeout ro ->
  match await_round poll_interval timeout receipt ro with
  | Nap d => ro_top ro < timeout /\ 0 < d /\ (d = poll_interval \/ timeout <= ro_before_nap ro + d)
  | Answer (Ok wp) => exists sched, ro_schedule ro = Ok sched /\ sealed_for receipt sched = true /\
      ro_fetch ro = Ok (Some wp) /\ ro_top ro < timeout
  | Answer (Err e) => (exists t, e = Timeout t /\ timeout <= t) \/
      ro_schedule ro = Err e \/ ro_fetch ro = Err e
  end.
Proof.
  intros Hp Hat. pose proof (nap_or_timeout_cases ro Hp) as Hn. unfold await_round.
  destruct (timeout <=? ro_top ro) eqn:Ht; [apply Z.leb_le in Ht|apply Z.leb_gt in Ht].
  { left. by exists (ro_top ro). }
  assert (match nap_or_timeout poll_interval timeout ro with
          | Nap d => ro_top ro < timeout /\ 0 < d /\ (d = poll_interval \/ timeout <= ro_before_nap ro + d)
          | Answer (Ok wp) => False
          | Answer (Err e) => exists t, e = Timeout t /\ timeout <= t
          end) as Hn'.
  { destruct (nap_or_timeout poll_interval timeout ro) as [r|d]; [|by split].
    destruct Hn as [-> Hn]. eexists. split; [done|lia]. }
  assert (forall Q : RoundEnd -> Prop, (forall e, (exists t, e = Timeout t /\ timeout <= t) -> Q (Answer (Err e))) ->
            (forall d, ro_top ro < timeout /\ 0 < d /\ (d = poll_interval \/ timeout <= ro_before_nap ro + d) ->
               Q (Nap d)) -> Q (nap_or_timeout poll_interval timeout ro)) as HQ.
  { intros Q He Hd. destruct (nap_or_timeout poll_interval timeout ro) as [[wp|e]|d]; [done|by apply He|by apply Hd]. }
  destruct (ro_schedule ro) as [sched|e]; [|by right; left].
  destruct (sealed_for receipt sched) eqn:Hse.
  - destruct (ro_fetch ro) as [[wp|]|e]; [by exists sched| |by right; right].
    apply HQ; [by left|done].
  - apply HQ; [by left|done].
Qed.

Lemma await_ends now rounds :
  0 < poll_interval -> 0 <= now -> clock_ok now rounds ->
  timeout <= now + poll_interval * (Z.of_nat (length rounds) - 1) -> rounds <> [] ->
  is_Some (await_witness poll_interval timeout receipt rounds).
Proof.
  intros Hp. revert now; induction rounds as [|ro rounds IH]; intros now Hn Hc Hlen Hne; [done|].
  cbn [await_witness clock_ok length] in *. destruct Hc as (Htop & Hb & Hat & Hc).
  pose proof (await_round_cases ro Hp Hat) as Hr.
  destruct (await_round poll_interval timeout receipt ro) as [r|d]; [done|].
  destruct Hr as (Ht & Hd & Hnap).
  assert (rounds <> []) as Hne'.
  { intros ->. cbn in Hlen. lia. }
  apply (IH (ro_before_nap ro + d)); [lia|done| |done].
  destruct rounds as [|ro' rounds]; [done|]. cbn [length] in *. nia.
Qed.

(** C19. [await_witness] ends. Over rounds whose clock does not go back and whose
    naps last their time, with a poll interval above zero, it answers within
    one round more than [timeout / poll_interval], rounded up; it answers a
    witness only if a round saw the epoch sealed and fetched that witness; and
    otherwise a timeout, never before its time, or a request's own error. *)
Theorem await_witness_ends rounds :
  0 < poll_interval -> clock_ok 0 rounds ->
  timeout <= poll_interval * (Z.of_nat (length rounds) - 1) -> rounds <> [] ->
  exists r, await_witness poll_interval timeout receipt rounds = Some r /\
    match r with
    | Ok wp => exists ro sched, ro ∈ rounds /\ ro_schedule ro = Ok sched /\
        sealed_for receipt sched = true /\ ro_fetch ro = Ok (Some wp) /\ ro_top ro < timeout
    | Err e => (exists elapsed, e = Timeout elapsed /\ timeout <= elapsed) \/
        exists ro, ro ∈ rounds /\ (ro_schedule ro = Err e \/ ro_fetch ro = Err e)
    end.
Proof.
  intros Hp Hc Hlen Hne. destruct (await_ends 0 rounds Hp ltac:(lia) Hc) as [r Hr]; [lia|done|].
  exists r. split; [done|]. clear Hlen Hne. revert Hc.
  generalize 0 as now. induction rounds as [|ro rounds IH]; intros now Hc; [done|].
  cbn [await_witness clock_ok] in Hr, Hc. destruct Hc as (_ & _ & Hat & Hc).
  pose proof (await_round_cases ro Hp Hat) as Ha.
  destruct (await_round poll_interval timeout receipt ro) as [r'|d].
  - injection Hr as ->. destruct r as [wp|e].
    + destruct Ha as (sched & ?). exists ro, sched. split; [by left|done].
    + destruct Ha as [Ha|Ha]; [by left|]. right. exists ro. split; [by left|done].
  - specialize (IH Hr _ Hc). destruct r as [wp|e].
    + destruct IH as (ro' & sched & Hin & Hx). exists ro', sched. split; [by right|done].
    + destruct IH as [IH|(ro' & Hin & Hx)]; [by left|]. right. exists ro'. split; [by right|done].
Qed.
End polling.
