(* ===== verification/ClientServer.v ===== *)
(** * The client against the service

    What a client gets from the handlers of [Routes]: the requests of [Client]
    go to the handlers, and the handlers' answers back through the JSON of the
    wire. *)

From S2P Require Import Prelude External Merkle Accumulator Witness Selfcheck Epoch Utf8 Kv Storage StoreSpec StoreRefine StoreScans SealStore SealInv Sealer SealerProofs Auth Config Routes RouteTheorems Client ClientTheorems.
Open Scope string_scope.
Open Scope list_scope.
Open Scope Z_scope.

Definition server_method (m : Client.AnchorMethod) : Witness.AnchorMethod :=
  match m with Client.Evm => Witness.Evm | Client.Qtsa => Witness.Qtsa end.

Lemma server_method_str m : Witness.as_str (server_method m) = Client.as_str m.
Proof. by destruct m. Qed.

Section wire.
Context `{HexCrate, Sdk, Fjall, SerdeCrates, !StoreCodecs, !RouteCrates, !ClientCrates}.

(** The JSON texts axum writes for a body and for an error. *)
Class WireJson := {
  body_text : Body -> string;
  error_text : AuthApiError -> string;
}.
Context `{!WireJson}.

(** The reply the client's transport gets for a handler's answer. *)
Definition http_reply (r : result AuthApiError Response) : result string HttpReply :=
  Ok match r with
     | Ok resp => {| hr_status := status resp; hr_body := body_text (body resp) |}
     | Err e => {| hr_status := ae_status e; hr_body := error_text e |}
     end.

(** What the derived serialisers and deserialisers promise each other: the
    fields of the [/v1/leaves] answer, the revisions of a tree, and no
    [revisions] in a status body; a stored revision's JSON is read back. *)
Class WireLaws := {
  leaves_body_text r : exists v, json_from_str (body_text (BLeaves r)) = Ok v /\
    (json_get v "accepted" ≫= json_as_u64) = Some (lr_accepted r) /\
    (json_get v "duplicates" ≫= json_as_u64) = Some (lr_duplicates r) /\
    (json_get v "epoch_id" ≫= json_as_u64) = Some (lr_epoch_id r) /\
    (json_get v "epoch_closes_at" ≫= json_as_u64) = Some (lr_epoch_closes_at r) /\
    (json_get v "submitter_did" ≫= json_as_str) = Some (lr_submitter_did r);
  tree_body_text revs files : exists v rv entries,
    json_from_str (body_text (BTree revs files)) = Ok v /\
    json_get v "revisions" = Some rv /\ json_object rv = Some entries /\
    entries ≡ₚ map_to_list revs;
  status_body_text sb : exists v,
    json_from_str (body_text (BStatus sb)) = Ok v /\ json_get v "revisions" = None;
  rev_from_stored (rev : AnyRevision) v : json_of rev v -> rev_from_value v = Ok rev;
}.

(** What the client's verification shares with the service's self-check: a
    typed object is no signature, and a signature whose leaf the SDK classifies
    as verified verifies. *)
Class ClientSdkLaws := {
  typed_not_signature r o : as_typed r = Some o -> as_signature r = None;
  verified_leaf_verifies r sig h :
    as_signature r = Some sig -> classify_signature_leaf sig (link_from_bytes h) = Ok LeafVerified ->
    verify_signature_sync r (revision_wire_hex h) = true;
  (** The text of a link is the hex of its multihash. *)
  revision_wire_hex_inj a b : revision_wire_hex a = revision_wire_hex b -> a = b;
}.
End wire.

(** ** Submission *)

Section submit.
Context `{HexLaws, Sdk, Fjall, SerdeCrates, !StoreCodecs, !RouteCrates, !ClientCrates, !WireJson, !WireLaws}.

(** The server reads back the hashes the client sent. *)
Lemma client_leaves_decode (hashes : list Hash32) :
  Forall2 (fun raw h => parse_leaf_hex raw = Ok h) (lq_leaves (leaves_request hashes)) hashes.
Proof.
  unfold leaves_request. cbn [lq_leaves]. induction hashes as [|h hashes IH]; [by constructor|].
  constructor; [|exact IH]. unfold format_hash32_bare. apply parse_leaf_hex_0x_encode.
Qed.

Lemma leaves_reply_read (r : Routes.LeavesResponse) :
  json leaves_response_from_value (body_text (BLeaves r))
  = Ok {| lw_accepted := lr_accepted r; lw_duplicates := lr_duplicates r;
          lw_epoch_id := lr_epoch_id r; lw_epoch_closes_at := lr_epoch_closes_at r;
          lw_submitter_did := lr_submitter_did r |}.
Proof.
  destruct (leaves_body_text r) as (v & Hv & Ha & Hd & He & Hc & Hs). unfold json. rewrite Hv. cbn [result_bind].
  unfold leaves_response_from_value, u64_member, str_member, member.
  apply bind_Some in Ha as (? & -> & Ha), Hd as (? & -> & Hd), He as (? & -> & He),
    Hc as (? & -> & Hc), Hs as (? & -> & Hs).
  cbn. rewrite Ha. cbn. rewrite Hd. cbn. rewrite He. cbn. rewrite Hc. cbn. by rewrite Hs.
Qed.

(** The receipt of a leaf accepted into the open epoch. *)
Definition receipt_for (acc : AccumulatorInner) (did : string) (h : Hash32) : SubmissionReceipt :=
  {| rc_leaf := h; rc_epoch_id := acc_epoch_id acc; rc_epoch_closes_at := acc_closes_at acc;
     rc_submitter_did := did |}.

(** C16. A submission, end to end. Whatever 32-byte hashes the client submits, when
    the service's route takes the request the client gets one receipt per hash,
    in order, each naming the open epoch, its closing time and the caller, and
    every hash is then in that open epoch; and the client gets receipts only
    then: otherwise it gets the server's own status, and the service's
    accumulator is unchanged. *)
Theorem submit_end_to_end state bearer tok hashes :
  acc_inv (r_accumulator state) -> Z.of_nat (length hashes) <= U64_MAX -> hashes <> [] ->
  let answer := submit_leaves state bearer (lq_leaves (leaves_request hashes)) in
  let receipts := submit_many (Ok tok) (fun _ _ => http_reply answer.2) hashes in
  let acc := r_accumulator state in
  let acc' := r_accumulator answer.1 in
  (is_allowed state bearer = true /\ Z.of_nat (length hashes) <= r_max_leaves_per_request state /\
   Z.of_nat (length (acc_leaves acc) + length (novel (leaf_set (acc_leaves acc)) hashes))
     <= acc_leaf_cap acc /\
   receipts = Ok (receipt_for acc bearer <$> hashes) /\
   acc_epoch_id acc' = acc_epoch_id acc /\ forall h, h ∈ hashes -> h ∈ leaf_set (acc_leaves acc')) \/
  (acc' = acc /\ exists status text, receipts = Err (Server status text) /\
     (status = 400 \/ status = 403 \/ status = 503)).
Proof.
  intros Hi Hlen Hne answer receipts acc acc'.
  assert (decode_leaves (lq_leaves (leaves_request hashes)) = Ok hashes) as Hdec
    by apply decode_leaves_ok, client_leaves_decode.
  assert (length (lq_leaves (leaves_request hashes)) = length hashes) as Hl
    by apply length_fmap.
  assert (batch_ok hashes) as Hb by exact Hlen.
  subst answer receipts acc'. unfold submit_many, submit_leaves. rewrite decide_False by done.
  rewrite Hl, Hdec. cbn [result_bind].
  destruct (is_allowed state bearer) eqn:Ha; cbn [negb].
  2: { right. split; [done|]. eexists _, _. split; [done|by right; left]. }
  destruct (Z.of_nat (length hashes) =? 0) eqn:Hz.
  { apply Z.eqb_eq in Hz. by destruct hashes. }
  destruct (r_max_leaves_per_request state <? Z.of_nat (length hashes)) eqn:Hm.
  { right. split; [done|]. eexists _, _. split; [done|by left]. }
  apply Z.ltb_ge in Hm.
  destruct (append_batch_cases hashes bearer acc Hi Hb)
    as [[Hfull Heq]|(Hfit & inner' & Heq & Hi' & Hleaves & He & _)]; fold acc; rewrite Heq.
  - right. split; [done|]. eexists _, _. split; [done|by right; right].
  - left. split_and!; [done|done|done| |done|].
    + cbn -[leaves_response_from_value]. rewrite leaves_reply_read. done.
    + cbn [fst set_accumulator r_accumulator]. intros h Hh. rewrite Hleaves. unfold leaf_set.
      rewrite elem_of_list_to_set, fmap_app, elem_of_app.
      destruct (decide (h ∈ leaf_set (acc_leaves acc))) as [Hk|Hk];
        [left; by apply elem_of_list_to_set in Hk|right].
      rewrite <- list_fmap_compose. apply list_elem_of_fmap. exists h. split; [done|].
      by apply elem_of_novel.
Qed.
End submit.

(** ** Fetching a witness *)

Section fetch.
Context `{HexLaws, SdkLaws, FjallLaws, SerdeCrates, !StoreCodecs, !StoreCodecLaws, !RouteCrates, !RouteLaws}.
Context `{!ClientCrates, !WireJson, !WireLaws, !ClientSdkLaws}.

(** The router: the rest of the path is the handler's leaf. *)
Definition by_leaf_send (state : RouteState) (bearer : string) (_token path method : string)
    : result string HttpReply :=
  match strip_prefix "/trees/by-leaf/" path with
  | Some leaf_hex => http_reply (get_tree_by_leaf state bearer leaf_hex (Some method))
  | None => Err "no such route"
  end.

(** [TimestampClient::try_fetch_witness] against the service. *)
Definition fetched (state : RouteState) (bearer pinned tok : string) (l : Hash32)
    (m : Client.AnchorMethod) : result ClientError (option WitnessPair) :=
  try_fetch_witness pinned (Ok tok) (by_leaf_send state bearer) l m.

Lemma by_leaf_send_path state bearer tok l m :
  by_leaf_send state bearer tok (witness_path l) (Client.as_str m)
  = http_reply (get_tree_by_leaf state bearer (hex_encode (arr l))
                  (Some (Witness.as_str (server_method m)))).
Proof.
  unfold by_leaf_send, witness_path. by rewrite strip_prefix_app, server_method_str.
Qed.

(** What the client makes of the handler's answer. *)
Lemma fetched_cases state bearer pinned tok l m r :
  get_tree_by_leaf state bearer (hex_encode (arr l)) (Some (Witness.as_str (server_method m))) = r ->
  fetched state bearer pinned tok l m =
  match r with
  | Ok resp =>
      if decide (status resp = 404) then Ok None
      else if negb (is_success (status resp)) then Err (Server (status resp) (body_text (body resp)))
      else
        let? tree := json tree_from_value (body_text (body resp)) in
        let? wp := extract_witness_pair tree m pinned in Ok (Some wp)
  | Err e =>
      if decide (ae_status e = 404) then Ok None
      else if negb (is_success (ae_status e)) then Err (Server (ae_status e) (error_text e))
      else
        let? tree := json tree_from_value (error_text e) in
        let? wp := extract_witness_pair tree m pinned in Ok (Some wp)
  end.
Proof.
  intros <-. unfold fetched, try_fetch_witness. cbn [result_bind].
  rewrite by_leaf_send_path. unfold http_reply. cbn [map_err result_bind]. by destruct (get_tree_by_leaf _ _ _ _).
Qed.

(** The failing keyspace is the server's error to the client. *)
Lemma fetched_store_failure state bearer pinned tok l m e :
  get_tree_by_leaf state bearer (hex_encode (arr l)) (Some (Witness.as_str (server_method m))) = Err e ->
  store_failure e -> fetched state bearer pinned tok l m = Err (Server 400 (error_text e)).
Proof. intros Hr [fe He]. rewrite (fetched_cases _ _ _ _ _ _ _ Hr). by destruct He as [-> | ->]. Qed.

(** *** A served witness *)

(** The pair of [idx] in the store is the witness [w]. *)
Definition stored_as (A : AStore) (idx : TipPairIndex) (w : MintedWitness) : Prop :=
  ti_object_hash idx = w_object_hash w /\ ti_signature_hash idx = w_signature_hash w /\
  look A witness_revisions (w_object_hash w) = Some (w_object_revision w) /\
  look A witness_revisions (w_signature_hash w) = Some (w_signature_revision w).

(** The witness as the client hands it out. *)
Definition handed_out (m : Client.AnchorMethod) (w : MintedWitness) : WitnessPair :=
  {| object_revision := w_object_revision w; signature_revision := w_signature_revision w;
     object_hash := revision_wire_hex (w_object_hash w);
     signature_hash := revision_wire_hex (w_signature_hash w); anchor_method := m |}.

Lemma verified_parts w did hosts :
  verify_minted_witness w did hosts = Verified ->
  is_Some (as_typed (w_object_revision w)) /\
  exists sig, as_signature (w_signature_revision w) = Some sig /\
    classify_signature_leaf sig (link_from_bytes (w_signature_hash w)) = Ok LeafVerified /\
    signature_previous_revision sig = link_from_bytes (w_object_hash w) /\ signature_signer sig = did.
Proof.
  intros (p & Hc & _ & Hs)%verify_minted_witness_verified. split.
  - unfold content_and_inclusion in Hc. by destruct (as_typed (w_object_revision w)).
  - unfold service_signature in Hs. destruct (as_signature (w_signature_revision w)) as [sig|]; [|done].
    exists sig. destruct (classify_signature_leaf _ _) as [v|]; [|done].
    destruct (decide (v = LeafVerified)) as [->|]; [|done].
    case_decide as Hp; [done|]. case_decide as Hd; [done|]. done.
Qed.

(** The tree of a verified witness, in either order. *)
Lemma verified_tree_extracted w did hosts m (tree : list (string * AnyRevision)) :
  verify_minted_witness w did hosts = Verified ->
  is_timestamp_object (w_object_revision w) = true ->
  tree ≡ₚ [(revision_wire_hex (w_signature_hash w), w_signature_revision w);
           (revision_wire_hex (w_object_hash w), w_object_revision w)] ->
  extract_witness_pair tree m did = Ok (handed_out m w).
Proof.
  intros (Ht & sig & Hsig & Hcl & Hprev & Hsigner)%verified_parts Hts Hp.
  assert (as_signature (w_object_revision w) = None) as Hno
    by (destruct Ht as [o Ho]; by eapply typed_not_signature).
  apply (extract_perm _ _ m did _ Hp).
  set (se := (revision_wire_hex (w_signature_hash w), w_signature_revision w)).
  set (oe := (revision_wire_hex (w_object_hash w), w_object_revision w)).
  assert (is_sig se) as Hse by by exists sig.
  assert (is_obj oe) as Hoe by done.
  exists se, oe. split_and!.
  - rewrite filter_cons_True by done. rewrite filter_cons_False, filter_nil; [done|].
    unfold is_sig, oe. cbn [snd]. rewrite Hno. by intros [].
  - rewrite filter_cons_False by (intros [Hx _]; unfold se in Hx; cbn in Hx; congruence).
    by rewrite filter_cons_True.
  - split; [|split; [|done]].
    + exists sig. split_and!; [done| |done]. by rewrite Hprev.
    + by apply (verified_leaf_verifies _ sig).
Qed.

(** The reader keeps the revisions, whatever the order the JSON has them in. *)
Lemma tree_text_read (revs : gmap string Value) files (entries : list (string * Value))
    (tree : list (string * AnyRevision)) :
  map_to_list revs ≡ₚ entries ->
  Forall2 (fun (kv : string * Value) (e : string * AnyRevision) =>
             e.1 = kv.1 /\ rev_from_value kv.2 = Ok e.2) entries tree ->
  exists tree' : list (string * AnyRevision),
    json tree_from_value (body_text (BTree revs files)) = Ok tree' /\ tree' ≡ₚ tree.
Proof.
  intros Hp Hf. destruct (tree_body_text revs files) as (v & rv & es & Hv & Hr & Ho & Hes).
  destruct (Permutation_Forall2 (symmetry (transitivity Hes Hp)) Hf) as (tree' & Ht & Hf').
  exists tree'. split; [|done]. unfold json. rewrite Hv. cbn [result_bind]. unfold tree_from_value, member.
  rewrite Hr. cbn [ok_or result_bind]. rewrite Ho. cbn [ok_or result_bind].
  rewrite (proj2 (collect_ok _ es tree')); [done|].
  eapply Forall2_impl; [exact Hf'|]. intros [k x] [k' rev] [Hk Hx]. cbn in *. rewrite Hx. cbn. by rewrite Hk.
Qed.

Lemma served_pair_read (A : AStore) idx w did hosts b :
  pair_body A idx b -> stored_as A idx w -> verify_minted_witness w did hosts = Verified ->
  exists tree : list (string * AnyRevision),
    json tree_from_value (body_text b) = Ok tree /\
    tree ≡ₚ [(revision_wire_hex (w_signature_hash w), w_signature_revision w);
             (revision_wire_hex (w_object_hash w), w_object_revision w)].
Proof.
  intros (o & s & ov & sv & Ho & Hov & Hs & Hsv & ->) (Hio & His & Hwo & Hws) Hv.
  rewrite Hio in *. rewrite His in *. rewrite Hwo in Ho. rewrite Hws in Hs.
  injection Ho as <-. injection Hs as <-.
  destruct (verified_parts w did hosts Hv) as ([x Hx] & sig & Hsig & _).
  eapply tree_text_read.
  - rewrite map_to_list_insert; [by rewrite map_to_list_singleton|].
    apply lookup_singleton_ne. intros Heq%revision_wire_hex_inj.
    rewrite Heq, Hws in Hwo. injection Hwo as Hwo. rewrite <- Hwo in Hx.
    apply typed_not_signature in Hx. congruence.
  - repeat constructor; cbn; by apply rev_from_stored.
Qed.

(** A served witness: the pair of a self-checked tip, passed under the pinned
    DID. *)
Lemma served_witness_fetched_at state bearer pinned tok l m t idx w hosts (A : AStore) next :
  represents (view (r_store state)) A -> store_inv A next ->
  look A leaf_owner l = Some bearer -> look A leaf_to_tips (l, server_method m) = Some t ->
  look A tip_to_pair t = Some idx -> is_Some (look A self_checked_tips t) -> stored_as A idx w ->
  verify_minted_witness w pinned hosts = Verified ->
  is_timestamp_object (w_object_revision w) = true ->
  fetched state bearer pinned tok l m = Ok (Some (handed_out m w)) \/
  exists e, store_failure e /\ fetched state bearer pinned tok l m = Err (Server 400 (error_text e)).
Proof.
  intros Hr Hi Ho Ht Hidx Hc Hst Hv Hts.
  destruct (by_leaf_served state bearer (hex_encode (arr l)) (server_method m) l t idx A next)
    as [(b & Hb & Hpb)|(e & He & Hf)]; try done; [apply parse_leaf_hex_encode| |].
  - left. rewrite (fetched_cases _ _ _ _ _ _ _ Hb). cbn [status body].
    destruct (served_pair_read A idx w pinned hosts b Hpb Hst Hv) as (tree & Htree & Hp).
    rewrite decide_False by done. cbn [is_success]. change (is_success 200) with true. cbn [negb].
    rewrite Htree. cbn [result_bind].
    by rewrite (verified_tree_extracted w pinned hosts m tree).
  - right. exists e. split; [done|]. by apply fetched_store_failure.
Qed.

(** *** A pending witness *)

Lemma pending_body_fails sb : exists e, json tree_from_value (body_text (BStatus sb)) = Err (Http e).
Proof.
  destruct (status_body_text sb) as (v & Hv & Hr). unfold json. rewrite Hv. cbn [result_bind].
  unfold tree_from_value, member. rewrite Hr. by eexists.
Qed.

Lemma fetched_pending state bearer pinned tok l m resp sb :
  get_tree_by_leaf state bearer (hex_encode (arr l)) (Some (Witness.as_str (server_method m))) = Ok resp ->
  body resp = BStatus sb -> status resp = 202 \/ status resp = 503 ->
  exists e, fetched state bearer pinned tok l m = Err e.
Proof.
  intros Hr Hb Hst. rewrite (fetched_cases _ _ _ _ _ _ _ Hr), Hb.
  destruct (pending_body_fails sb) as [e He].
  destruct Hst as [-> | ->]; [|by eexists]. cbv iota. rewrite He. by eexists.
Qed.

(** C32. A witness whose anchor is outstanding ends the wait. The service answers
    202 ("poll again") for a leaf of a sealed epoch that waits for its anchor;
    the client takes every successful answer for a tree, so the fetch fails,
    where its documentation promises [None], and [await_witness], whose round
    has seen the epoch sealed, returns that error instead of napping and
    asking again. *)
Theorem pending_fetch_fails state bearer pinned tok l m epoch_id (A : AStore) next
    poll_interval timeout receipt ro rounds sched :
  represents (view (r_store state)) A -> store_inv A next ->
  look A leaf_owner l = Some bearer -> look A leaf_to_tips (l, server_method m) = None ->
  look A pending_leaves (l, server_method m) = Some epoch_id ->
  ro_fetch ro = fetched state bearer pinned tok l m ->
  ro_top ro < timeout -> ro_schedule ro = Ok sched -> sealed_for receipt sched = true ->
  exists e, fetched state bearer pinned tok l m = Err e /\
    await_witness poll_interval timeout receipt (ro :: rounds) = Some (Err e).
Proof.
  intros Hr Hi Ho Ht Hp Hfe Htop Hsched Hsealed.
  assert (exists e, fetched state bearer pinned tok l m = Err e) as [e He].
  { destruct (by_leaf_waits state bearer (hex_encode (arr l)) (server_method m) l epoch_id A next)
      as [Hw|(e & He & Hf)]; try done; [apply parse_leaf_hex_encode| |].
    - destruct (pending_response_statuses state (server_method m) epoch_id (Some l)) as [Hst (sb & Hb & _)].
      apply (fetched_pending _ _ _ _ _ _ _ sb Hw Hb). destruct Hst as [?|[? _]]; [by left|by right].
    - eexists. by apply fetched_store_failure. }
  exists e. split; [done|]. cbn [await_witness]. unfold await_round.
  apply Z.leb_gt in Htop. by rewrite Htop, Hsched, Hsealed, Hfe, He.
Qed.
End fetch.
