(* ===== verification/ServedLeaf.v ===== *)
(** * A served leaf reaches the client

    The service's run, the routes over its store and the client's fetch
    together: whatever the run, the client that pins the service's DID gets, for
    every leaf of its caller that is served, a witness of that leaf and method
    which the self-check passed: first at the handler, then over the wire, where
    its request is routed, its token checked, its path and query extracted, and
    the answer comes back as JSON. *)

From S2P Require Import Prelude External Merkle Accumulator Witness Selfcheck Epoch Utf8 Kv Storage StoreSpec StoreRefine SealStore Anchors Sealer SealInv SealerProofs SealerTheorems Auth Text Config Vouched SealLoops Watcher Identity Pages App Routes RouteTheorems EventStream Router Service ServiceTheorems Client ClientTheorems ClientServer.
Open Scope string_scope.
Open Scope list_scope.
Open Scope Z_scope.

(** The SDK's finish adds timestamp objects: what a tree holds beside the
    link-only carrier of its leaf is one to the client's SDK. *)
Class TimestampLaws `{Sdk, !ClientCrates} := {
  finish_timestamp p ls f trees tree (i : nat) l link rev :
    finish_batch_timestamp p (link_only_carrier <$> ls) f = Ok trees ->
    trees !! i = Some tree -> ls !! i = Some l ->
    filter (fun kv => kv.1 <> link_from_bytes l) (tree_revisions tree) = [(link, rev)] ->
    is_timestamp_object rev = true;
}.

Section served_leaf.
Context `{HexLaws, SdkLaws, FjallLaws, SerdeCrates, !StoreCodecs, !StoreCodecLaws, !RouteCrates, !RouteLaws}.
Context `{!ClientCrates, !WireJson, !WireLaws, !ClientSdkLaws, !TimestampLaws}.
Context `{!AnchorWorld, Sha3Crate, !ClaimLaws}.

Lemma minted_timestamp w : minted_object w -> is_timestamp_object (w_object_revision w) = true.
Proof. intros (p & ls & f & trees & tree & i & link & Hf & Ht & Hl & Hfil). by eapply finish_timestamp. Qed.

(** A held witness of the service, fetched. *)
Lemma held_fetched state bearer did tok (l : Hash32) m w (A : AStore) next :
  represents (view (r_store state)) A -> store_inv A next ->
  look A leaf_owner l = Some bearer -> served A l (server_method m) ->
  look A leaf_to_tips (l, server_method m) = Some (w_signature_hash w) ->
  of_service did w -> in_store A w ->
  fetched state bearer did tok l m = Ok (Some (handed_out m w)) \/
  exists e, store_failure e /\ fetched state bearer did tok l m = Err (Server 400 (error_text e)).
Proof.
  intros Hr Hi Ho (t & Ht & Hc) Htw [Hm [hosts Hv]] (Hob & Hsg & idx & Hidx & Hio & His).
  assert (t = w_signature_hash w) as -> by congruence.
  eapply served_witness_fetched_at; try done. by apply minted_timestamp.
Qed.

(** What the service serves, the client gets. Take any run of the service
    (submissions, seals that fail in any way, a changing world) from a store
    whose contents the self-check passed under the service's DID, such as an
    empty one, and the routes over the store it ends with. For every leaf the
    store lists as the caller's with a served witness of a method, the client
    that pins the service's DID fetches a witness of that very leaf and method
    which the SDK's finish made and the self-check passed, through the path it
    builds, the route's judgement and the JSON of the wire; short of the
    keyspace failing, which reaches it as the server's error. Assumed: no two
    revisions of the service's witnesses share a link. *)
Theorem served_leaf_fetched did ops A s :
  seal_ready A s -> vouched did A -> no_collision did ->
  Forall svc_op_ok ops -> Forall (seals_as did) ops ->
  acc_epoch_id (s_acc s) + Z.of_nat (length ops) < U64_MAX ->
  exists A' : AStore, represents (view (s_sto (fold_left svc_step ops s))) A' /\
    forall state bearer tok (l : Hash32) m,
      r_store state = s_sto (fold_left svc_step ops s) ->
      look A' leaf_owner l = Some bearer -> served A' l (server_method m) ->
      exists w, of_service did w /\ w_leaf w = l /\ w_method w = server_method m /\
        (fetched state bearer did tok l m = Ok (Some (handed_out m w)) \/
         exists e, store_failure e /\
           fetched state bearer did tok l m = Err (Server 400 (error_text e))).
Proof.
  intros Hr Hv Hnc Ho Hd Hid.
  destruct (service_vouched_run did ops A s Hr Hv Ho Hd Hid) as (A' & Hr' & _ & Hv').
  exists A'. split; [apply (sr_absr _ _ Hr')|]. intros state bearer tok l m Hst How Hs.
  pose proof Hs as (t & Ht & _).
  destruct (vouched_held did A' _ l (server_method m) t (sr_inv _ _ Hr') Hv' Hnc Ht)
    as (w & Hw & Hl & Hm & <- & Hh).
  exists w. do 3 (split; [done|]).
  eapply held_fetched; try done; [|apply (sr_inv _ _ Hr')].
  rewrite Hst. apply (sr_absr _ _ Hr').
Qed.
End served_leaf.

(** ** Over the wire *)

Section wire.
Context `{HexLaws, SdkLaws, FjallLaws, SerdeCrates, !StoreCodecs, !StoreCodecLaws, !RouteCrates, !RouteLaws}.
Context `{!ClientCrates, !WireJson, !WireLaws, !ClientSdkLaws, !TimestampLaws}.
Context `{!AnchorWorld, !LiveAnchors, Sha3Crate, !ClaimLaws, EvmChains, !IdentityCrates}.
Context `{!AuthCrate, !AuthLaws, BroadcastLaws, AxumLaws, ExtractorLaws}.

(** The bodies that are no JSON of [Body] or [AuthApiError], and the query of
    [reqwest] with its [by-leaf] reading. *)
Class Wire := {
  other_reply : HttpResponse -> HttpReply;
  method_query : string -> string;
}.
Context `{!Wire}.

Class WireQueryLaws := {
  query_by_leaf_method m : query_by_leaf (method_query m) = Ok (Some m);
  path_string_hex b : path_string (hex_encode b) = Ok (hex_encode b);
}.
Context `{!WireQueryLaws}.

Definition reply_of (r : HttpResponse) : HttpReply :=
  match r with
  | RsJson st b => {| hr_status := st; hr_body := body_text b |}
  | RsError e => {| hr_status := ae_status e; hr_body := error_text e |}
  | _ => other_reply r
  end.

(** The client's [GET] with its bearer, at the service. *)
Definition wire_send (dp : Deployment) (now uptime : u64) (s : Service.Server) (token path method : string)
    : result string HttpReply :=
  Ok (reply_of (serve dp
    {| hq_method := "GET"; hq_path := path; hq_query := method_query method;
       hq_authorization := Some ("Bearer " +:+ token); hq_content_type := None; hq_body := [] |} now uptime s).2).

Lemma contains_slash s : contains "/" s = true -> Ascii.ascii_of_nat 47 ∈ String.list_ascii_of_string s.
Proof.
  induction s as [|c s IH]; cbn; [done|]. intros [Hs|Hs]%orb_true_iff.
  - unfold starts_with in Hs. cbn in Hs. case_decide as Hc; [subst c; by left|]. by apply bool_decide_eq_true in Hs as [].
  - right. by apply IH.
Qed.

Lemma hex_segment (l : Hash32) : hex_encode (arr l) <> "" /\ contains "/" (hex_encode (arr l)) = false.
Proof.
  split.
  - intros He. pose proof (hex_encode_length32 l) as Hl. by rewrite He in Hl.
  - apply not_true_is_false. intros Hc%contains_slash. pose proof (hex_encode_digits (arr l)) as Hd.
    rewrite Forall_forall in Hd. by apply Hd in Hc.
Qed.

(** The service answers the client's fetch as its handler does. *)
Lemma wire_send_fetch dp now uptime s tok bearer l m :
  (bearer_did (Some ("Bearer " +:+ tok)) now (sv_auth s)).2 = Ok bearer ->
  wire_send dp now uptime s tok (witness_path l) (Client.as_str m)
  = by_leaf_send (app_state dp (sv_seal s)) bearer tok (witness_path l) (Client.as_str m).
Proof.
  intros Hb. rewrite by_leaf_send_path. unfold wire_send, serve, witness_path, format_hash32_bare. cbn [hq_method hq_path].
  destruct (hex_segment l) as [Hne Hs]. rewrite router_by_leaf by done. cbn [handle]. unfold with_bearer.
  cbn [hq_authorization]. destruct (bearer_did _ now (sv_auth s)) as [auth r]. cbn [snd] in Hb. subst r.
  cbn [handle_read default from_option id]. unfold extracted. rewrite path_string_hex. cbn [hq_query]. rewrite query_by_leaf_method.
  rewrite decide_False by done. cbn [snd]. rewrite server_method_str.
  unfold app_state, with_auth. cbn [sv_seal]. unfold http_reply, answer.
  by destruct (get_tree_by_leaf _ _ _ _).
Qed.

(** C5. What the service serves, the client gets, over the wire. Take the
    whole service from a store whose contents the self-check passed under its
    DID, such as an empty one, and any run of it (requests of any kind, seals
    that fail in any way, ticks of the tasks). When it accepts a caller's token,
    then for every leaf the store lists as the caller's with a served witness
    of a method, the client that pins the service's DID fetches a witness of
    that very leaf and method which the SDK's finish made and the self-check
    passed: through the path it builds, the router, the token check, the
    extractors, the route's judgement and the JSON of the wire; short of the
    keyspace failing, which reaches it as the server's error. Assumed: no two
    revisions of the service's witnesses share a link. *)
Theorem served_leaf_on_the_wire did auth0 dp ops A s :
  fresh_auth auth0 -> service_inv did auth0 [] A s -> no_collision did -> Forall (service_op_ok did) ops ->
  acc_epoch_id (s_acc (sv_seal s)) + Z.of_nat (length ops) < U64_MAX ->
  let s' := service_state dp ops s in
  exists A' : AStore, seal_ready A' (sv_seal s') /\ nothing_lost A A' /\
    forall tok bearer now uptime (l : Hash32) m,
      (bearer_did (Some ("Bearer " +:+ tok)) now (sv_auth s')).2 = Ok bearer ->
      look A' leaf_owner l = Some bearer -> served A' l (server_method m) ->
      let fetch := try_fetch_witness did (Ok tok) (wire_send dp now uptime s') l m in
      exists w, of_service did w /\ w_leaf w = l /\ w_method w = server_method m /\
        (fetch = Ok (Some (handed_out m w)) \/
         exists e, store_failure e /\ fetch = Err (Server 400 (error_text e))).
Proof.
  intros Hf Hi Hnc Ho Hid s'.
  destruct (service_run_inv did auth0 dp ops [] A s Hf Hi Ho Hid) as (A' & [Hr Hv _ _ _] & Hn & _).
  exists A'. split; [exact Hr|]. split; [exact Hn|]. intros tok bearer now uptime l m Hb How Hs fetch.
  pose proof Hs as (t & Ht & _).
  destruct (vouched_held did A' _ l (server_method m) t (sr_inv _ _ Hr) Hv Hnc Ht) as (w & Hw & Hl & Hm & <- & Hh).
  exists w. do 3 (split; [done|]).
  assert (fetch = fetched (app_state dp (sv_seal s')) bearer did tok l m) as ->.
  { unfold fetch, fetched, try_fetch_witness. cbn [result_bind]. by rewrite (wire_send_fetch dp now uptime s' tok bearer). }
  pose proof (sr_absr _ _ Hr : represents (view (r_store (app_state dp (sv_seal s')))) A') as HA.
  by apply (held_fetched (app_state dp (sv_seal s')) bearer did tok l m w A' _ HA (sr_inv _ _ Hr)).
Qed.
End wire.
