(* ===== verification/KnownServers.v ===== *)
(** * The known-servers file
    ([crates/aqua-timestamp-client/src/known_servers.rs])

    The record of which DID was seen at which base URL, in memory and as JSON
    lines on disk.  The disk is a map from paths to contents; each call of the
    file system may fail, and a failing write leaves any part of the text. *)

From S2P Require Import Prelude External Utf8 Text.
Open Scope string_scope.
Open Scope list_scope.
Open Scope Z_scope.

(** ** The Standard Library *)

Inductive IoError := NotFound (text : string) | OtherIo (text : string).

(** A path of a file: its directory's components and its name. *)
Record PathBuf := { dir : list string; file_name : string }.

#[export] Instance PathBuf_eq_dec : EqDecision PathBuf.
Proof. solve_decision. Defined.
#[export] Instance PathBuf_countable : Countable PathBuf :=
  inj_countable' (fun p => (dir p, file_name p)) (fun x => {| dir := x.1; file_name := x.2 |})
    ltac:(by intros []).

(** [name.rsplit_once('.')]. *)
Fixpoint rsplit_once_dot (s : string) : option (string * string) :=
  match s with
  | EmptyString => None
  | String c s' =>
      match rsplit_once_dot s' with
      | Some (a, b) => Some (String c a, b)
      | None => if decide (String c EmptyString = ".") then Some (EmptyString, s') else None
      end
  end.

(** [Path::file_stem]: a leading dot starts no extension. *)
Definition file_stem (name : string) : string :=
  match rsplit_once_dot name with
  | Some (stem, _) => if decide (stem = "") then name else stem
  | None => name
  end.
(** [set_extension("tmp")]. *)
Definition tmp_path (p : PathBuf) : PathBuf :=
  {| dir := dir p; file_name := file_stem (file_name p) +:+ ".tmp" |}.

Example tmp_path_ex :
  file_name (tmp_path {| dir := []; file_name := "known_servers" |}) = "known_servers.tmp" /\
  file_name (tmp_path {| dir := []; file_name := "a.b.json" |}) = "a.b.tmp" /\
  file_name (tmp_path {| dir := []; file_name := ".known" |}) = ".known.tmp".
Proof. repeat split. Qed.

Definition newline : string := String (Ascii.ascii_of_nat 10) EmptyString.
Definition carriage : string := String (Ascii.ascii_of_nat 13) EmptyString.

(** [strip_suffix('\r')], of a line that ended in a newline. *)
Fixpoint strip_cr (s : string) : string :=
  match s with
  | EmptyString => EmptyString
  | String c s' => if decide (s = carriage) then EmptyString else String c (strip_cr s')
  end.

(** [BufRead::lines]; [acc]: the line read so far. *)
Fixpoint lines_from (acc s : string) : list string :=
  match s with
  | EmptyString => if decide (acc = "") then [] else [acc]
  | String c s' =>
      if decide (String c EmptyString = newline) then strip_cr acc :: lines_from "" s'
      else lines_from (acc +:+ String c EmptyString) s'
  end.
Definition lines (s : string) : list string := lines_from "" s.

(** [s.trim_end_matches('/')]. *)
Fixpoint trim_end_slashes (s : string) : string :=
  match s with
  | EmptyString => EmptyString
  | String c s' =>
      let r := trim_end_slashes s' in
      if decide (r = EmptyString /\ String c EmptyString = "/") then EmptyString else String c r
  end.

Definition normalise (base_url : string) : string := trim_end_slashes base_url.

Example normalise_ex : normalise "https://x.example//" = "https://x.example" /\ normalise "/" = "".
Proof. split; reflexivity. Qed.

(** ** The file *)

Record Entry := {
  base_url : string;
  did : string;
  first_seen_at : u64;
  last_seen_at : u64;
}.

#[export] Instance Entry_eq_dec : EqDecision Entry.
Proof. solve_decision. Defined.

Record KnownServersFile := { path : PathBuf; entries : gmap string Entry }.

Abbreviation Disk := (gmap PathBuf string).

(** [serde_json] on an entry, and the order [HashMap::values] iterates in. *)
Class EntryCrates := {
  entry_to_string : Entry -> result IoError string;
  entry_from_str : string -> option Entry;
  values : gmap string Entry -> list Entry;
}.

(** An object's text is one line, with no white space around it, in UTF-8, and
    reads back; every value is iterated once. *)
Class EntryLaws `{EntryCrates} := {
  entry_line e s : entry_to_string e = Ok s ->
    entry_from_str s = Some e /\ trim s = s /\ s <> "" /\ strip_cr s = s /\
    Forall (fun c => String c EmptyString <> newline) (String.list_ascii_of_string s) /\
    valid_utf8 s = true;
  values_perm m : values m ≡ₚ (map_to_list m).*2;
}.

Section known_servers.
Context `{EntryCrates}.

(** The loop of [read_entries]: a line that does not parse is skipped, one that
    is not UTF-8 ends it. *)
Fixpoint read_lines (ls : list string) (m : gmap string Entry)
    : result IoError (gmap string Entry) :=
  match ls with
  | [] => Ok m
  | line :: ls' =>
      if negb (valid_utf8 line) then Err (OtherIo "stream did not contain valid UTF-8")
      else if decide (trim line = "") then read_lines ls' m
      else
        match entry_from_str line with
        | Some e => read_lines ls' (<[base_url e := e]> m)
        | None => read_lines ls' m
        end
  end.

(** [open_fault]: the file exists but opening it fails. *)
Definition read_entries (open_fault : option IoError) (disk : Disk) (p : PathBuf)
    : result IoError (gmap string Entry) :=
  match disk !! p with
  | None => Ok ∅
  | Some text =>
      match open_fault with
      | Some (NotFound _) => Ok ∅
      | Some e => Err e
      | None => read_lines (lines text) ∅
      end
  end.

(** [mkdir]: the answer of [create_dir_all]. *)
Definition open (mkdir : result IoError unit) (open_fault : option IoError) (disk : Disk)
    (p : PathBuf) : result IoError KnownServersFile :=
  let? _ := mkdir in
  let? m := read_entries open_fault disk p in
  Ok {| path := p; entries := m |}.

(** The environment's [XDG_CONFIG_HOME] and [HOME]. *)
Definition default_path (xdg home : option (list string)) : result IoError PathBuf :=
  match xdg, home with
  | Some d, _ => Ok {| dir := d ++ ["aqua"]; file_name := "known_servers" |}
  | None, Some d => Ok {| dir := d ++ [".config"; "aqua"]; file_name := "known_servers" |}
  | None, None => Err (NotFound "neither $XDG_CONFIG_HOME nor $HOME is set")
  end.

Definition lookup_did (url : string) (self : KnownServersFile) : option string :=
  did <$> entries self !! normalise url.

(** Where a flush fails: opening the temporary file, after [n] bytes of the
    text, or renaming it. *)
Inductive FlushFault :=
| AtOpen (e : IoError)
| AtWrite (n : nat) (e : IoError)
| AtRename (e : IoError).

(** The text written, and the error that ended it. *)
Fixpoint render (es : list Entry) : string * result IoError unit :=
  match es with
  | [] => ("", Ok tt)
  | e :: es' =>
      match entry_to_string e with
      | Err x => ("", Err x)
      | Ok line => let '(text, r) := render es' in (line +:+ newline +:+ text, r)
      end
  end.

Definition rename (from to : PathBuf) (text : string) (disk : Disk) : Disk :=
  <[to := text]> (delete from disk).

Definition flush (fault : option FlushFault) (self : KnownServersFile) (disk : Disk)
    : Disk * result IoError unit :=
  let tmp := tmp_path (path self) in
  let '(text, r) := render (values (entries self)) in
  match fault with
  | Some (AtOpen e) => (disk, Err e)
  | Some (AtWrite n e) => (<[tmp := String.substring 0 n text]> disk, Err e)
  | _ =>
      let disk := <[tmp := text]> disk in
      match r, fault with
      | Err e, _ => (disk, Err e)
      | Ok _, Some (AtRename e) => (disk, Err e)
      | Ok _, _ => (rename tmp (path self) text disk, Ok tt)
      end
  end.

Definition recorded (url new_did : string) (now : u64) (m : gmap string Entry) : gmap string Entry :=
  let key := normalise url in
  match m !! key with
  | Some e =>
      <[key := {| base_url := base_url e; did := new_did; first_seen_at := first_seen_at e;
                  last_seen_at := now |}]> m
  | None =>
      <[key := {| base_url := key; did := new_did; first_seen_at := now; last_seen_at := now |}]> m
  end.

Definition record (fault : option FlushFault) (now : u64) (url new_did : string)
    (self : KnownServersFile) (disk : Disk) : KnownServersFile * Disk * result IoError unit :=
  let self := {| path := path self; entries := recorded url new_did now (entries self) |} in
  let '(disk, r) := flush fault self disk in (self, disk, r).

(** ** Lookups *)

(** An entry is kept under its own URL. *)
Definition keyed (m : gmap string Entry) : Prop := forall k e, m !! k = Some e -> base_url e = k.

Lemma keyed_recorded url d now m : keyed m -> keyed (recorded url d now m).
Proof.
  intros Hk k e. unfold recorded. destruct (m !! normalise url) as [e'|] eqn:He;
    (intros [[<- <-]|[_ Hm]]%lookup_insert_Some; [|by apply Hk]); [by apply Hk in He|done].
Qed.

Lemma read_lines_keyed ls m m' : keyed m -> read_lines ls m = Ok m' -> keyed m'.
Proof.
  revert m; induction ls as [|l ls IH]; intros m Hk; cbn; [by intros [= <-]|].
  destruct (valid_utf8 l); cbn; [|done]. case_decide; [by apply IH|].
  destruct (entry_from_str l) as [e|]; [|by apply IH]. apply IH.
  intros k e' [[<- <-]|[_ Hm]]%lookup_insert_Some; [done|by apply Hk].
Qed.

Lemma lookup_recorded url d now self disk fault u :
  lookup_did u (record fault now url d self disk).1.1
  = if decide (normalise u = normalise url) then Some d else lookup_did u self.
Proof.
  unfold record. destruct (flush _ _ _). cbn [fst]. unfold lookup_did, recorded. cbn [entries].
  destruct (entries self !! normalise url) eqn:He; case_decide as Hd;
    rewrite ?Hd, ?lookup_insert_eq, ?lookup_insert_ne by done; done.
Qed.

Lemma normalise_idemp u : normalise (normalise u) = normalise u.
Proof.
  unfold normalise. induction u as [|c u IH]; [done|]. cbn. case_decide as Hd; [done|].
  cbn. rewrite IH. by rewrite decide_False.
Qed.
End known_servers.

(** ** The file on disk *)

Section on_disk.
Context `{EntryLaws}.

Lemma string_app_nil (s : string) : s +:+ "" = s.
Proof. induction s as [|c s IH]; [done|]. exact (f_equal (String c) IH). Qed.

Lemma string_app_cons (s : string) c t : (s +:+ String c EmptyString) +:+ t = s +:+ String c t.
Proof. induction s as [|d s IH]; [done|]. exact (f_equal (String d) IH). Qed.

Lemma lines_from_line acc s rest :
  Forall (fun c => String c EmptyString <> newline) (String.list_ascii_of_string s) ->
  lines_from acc (s +:+ newline +:+ rest) = strip_cr (acc +:+ s) :: lines_from "" rest.
Proof.
  revert acc; induction s as [|c s IH]; intros acc Hs.
  - rewrite string_app_nil. reflexivity.
  - cbn in Hs. inversion Hs as [|? ? Hc Hs']; subst.
    change (lines_from acc (String c s +:+ newline +:+ rest)) with
      (if decide (String c EmptyString = newline)
       then strip_cr acc :: lines_from "" (s +:+ newline +:+ rest)
       else lines_from (acc +:+ String c EmptyString) (s +:+ newline +:+ rest)).
    rewrite decide_False by done. rewrite IH by done. by rewrite string_app_cons.
Qed.

(** Reading back what was written. *)
Lemma read_rendered es m :
  (render es).2 = Ok tt ->
  read_lines (lines (render es).1) m = Ok (foldl (fun m e => <[base_url e := e]> m) m es).
Proof.
  unfold lines. revert m; induction es as [|e es IH]; intros m; [done|]. cbn [render foldl].
  destruct (entry_to_string e) as [line|x] eqn:He; [|done].
  destruct (render es) as [text r] eqn:Hr. cbn [fst snd] in *. intros Hok.
  destruct (entry_line e line He) as (Hparse & Htrim & Hne & Hcr & Hnl & Hutf).
  rewrite lines_from_line by done. change ("" +:+ line) with line. rewrite Hcr. cbn [read_lines].
  rewrite Hutf. cbn [negb]. rewrite Htrim, decide_False by done. rewrite Hparse. by apply IH.
Qed.

Lemma fold_entries es (m : gmap string Entry) :
  NoDup (base_url <$> es) ->
  foldl (fun m e => <[base_url e := e]> m) m es
  = list_to_map ((fun e => (base_url e, e)) <$> es) ∪ m.
Proof.
  revert m; induction es as [|e es IH]; intros m Hnd; cbn; [by rewrite (left_id_L ∅ _)|].
  inversion Hnd as [|? ? Hni Hnd']; subst. rewrite IH by done.
  rewrite <- insert_union_r; [by rewrite insert_union_l|].
  apply not_elem_of_list_to_map. rewrite <- list_fmap_compose. exact Hni.
Qed.

Lemma keyed_values m :
  keyed m -> (fun e => (base_url e, e)) <$> values m ≡ₚ map_to_list m.
Proof.
  intros Hk. rewrite values_perm, <- list_fmap_compose.
  rewrite (Forall_fmap_ext_1 _ id), list_fmap_id; [done|].
  apply Forall_forall. intros [k e] Hin%elem_of_map_to_list. cbn. f_equal. by apply Hk.
Qed.

Lemma read_values m :
  keyed m -> (render (values m)).2 = Ok tt ->
  read_lines (lines (render (values m)).1) ∅ = Ok m.
Proof.
  intros Hk Hr. rewrite (read_rendered _ _ Hr). f_equal.
  pose proof (keyed_values m Hk) as Hp.
  assert (NoDup ((fun e => (base_url e, e)) <$> values m).*1) as Hnd
    by (rewrite Hp; apply NoDup_fst_map_to_list).
  rewrite fold_entries by by rewrite <- list_fmap_compose in Hnd.
  rewrite (right_id_L ∅ _), (list_to_map_proper _ _ Hnd Hp). apply list_to_map_to_list.
Qed.

Lemma flush_disk fault self disk :
  tmp_path (path self) <> path self ->
  let '(disk', r) := flush fault self disk in
  match r with
  | Ok _ => (render (values (entries self))).2 = Ok tt /\
            disk' !! path self = Some (render (values (entries self))).1
  | Err _ => disk' !! path self = disk !! path self
  end.
Proof.
  intros Ht. unfold flush, rename. destruct (render _) as [text r]. cbn [fst snd].
  destruct fault as [[e|n e|e]|]; [done|by rewrite lookup_insert_ne| |];
    destruct r as [[]|e']; (rewrite ?lookup_insert_ne by done); try done.
  by rewrite lookup_insert_eq.
Qed.

(** C33. The known-servers file is replaced whole. Whatever step of a [record]
    fails, and with the process gone in the middle of it, the file holds what
    it held before; once [record] has answered [Ok], reopening it gives back
    exactly the recorder's entries, so every URL looks up to what it did
    before, and the recorded one, up to trailing slashes, to the new DID.
    Either way the recorder itself answers the new DID. *)
Theorem record_reopen fault now url new_did self disk mkdir :
  tmp_path (path self) <> path self -> keyed (entries self) -> mkdir = Ok tt ->
  let '(self', disk', r) := record fault now url new_did self disk in
  (forall u, lookup_did u self'
    = if decide (normalise u = normalise url) then Some new_did else lookup_did u self) /\
  keyed (entries self') /\
  match r with
  | Ok _ => open mkdir None disk' (path self) = Ok self'
  | Err _ => forall open_fault,
      open mkdir open_fault disk' (path self) = open mkdir open_fault disk (path self)
  end.
Proof.
  intros Ht Hk ->. pose proof (lookup_recorded url new_did now self disk fault) as Hl.
  unfold record in *.
  pose proof (flush_disk fault {| path := path self; entries := recorded url new_did now (entries self) |}
                disk Ht) as Hf.
  destruct (flush fault _ disk) as [disk' r]. cbn [fst snd path entries] in *.
  assert (keyed (recorded url new_did now (entries self))) as Hk' by by apply keyed_recorded.
  split; [done|]. split; [done|]. destruct r as [[]|e].
  - destruct Hf as [Hr Hd]. unfold open, read_entries. cbn [result_bind]. rewrite Hd.
    by rewrite (read_values _ Hk' Hr).
  - intros open_fault. unfold open, read_entries. by rewrite Hf.
Qed.
End on_disk.
