(* ===== verification/HarnessPoll.v ===== *)
(** * Polling in the end-to-end harness
    ([crates/aqua-timestamp-e2e/src]: [flow.rs], [witness.rs])

    The retried read, the wait for the seal and the fetch of a served witness,
    on what each attempt gets and the clock reads after it.  The logged lines
    keep the attempt's number, its failure and whether it is the last. *)

From S2P Require Import Prelude External Utf8 Client.
Open Scope string_scope.
Open Scope list_scope.
Open Scope Z_scope.

(** One request: a transport error, or a status with the body or the error of
    reading it; and the clock after it. *)
Record Attempt := {
  at_answer : result string (Z * result string string);
  at_now : Duration;
}.

Record LogLine := { ll_attempt : Z; ll_failure : string; ll_deadline_reached : bool }.

Record PollBudget := { pb_deadline : Duration; pb_interval : Duration }.

Definition nanos (secs : Z) : Duration := secs * 1000000000.

(** The deadline counts from [now], the process clock. *)
Definition from_epoch_close (now : Duration) (epoch_closes_at now_secs grace_secs : u64) : PollBudget :=
  let span := sat_sub epoch_closes_at now_secs in
  let max_wait := wrapping_add 64 ((2 * span) mod 2 ^ 64) grace_secs in
  {| pb_deadline := now + nanos (Z.max max_wait 60); pb_interval := nanos 5 |}.
Definition fast (now : Duration) (seconds : u64) : PollBudget :=
  {| pb_deadline := now + nanos (Z.max seconds 2); pb_interval := 50000000 |}.

Definition is_client_error (status : Z) : bool := (400 <=? status) && (status <? 500).
Definition is_server_error (status : Z) : bool := (500 <=? status) && (status <? 600).

(** [body.chars().take(n)]. *)
Fixpoint take_chars (n : nat) (l : bytes) : bytes :=
  match n, l with
  | S n', b0 :: r => let k := (utf8_chunk b0 r).2 in take k l ++ take_chars n' (drop k l)
  | _, _ => []
  end.

Section polling.
(** [Display] of a status code. *)
Context (status_text : Z -> string).
Context (budget : PollBudget).

Abbreviation deadline := (pb_deadline budget).
Abbreviation interval := (pb_interval budget).

(** The answer an attempt ends with, or its failure. *)
Definition attempt_end (a : Attempt) : (Z * string) + string :=
  match at_answer a with
  | Err e => inr e
  | Ok (status, Err e) =>
      if is_client_error status then inl (status, "")
      else inr ("HTTP " +:+ status_text status +:+ ", body read failed: " +:+ e)
  | Ok (status, Ok body) =>
      if is_server_error status
      then inr ("HTTP " +:+ status_text status +:+ " " +:+ of_bytes (take_chars 200 (as_bytes body)))
      else inl (status, body)
  end.

(** What a retried read comes to: the answer or the last failure, the clock at
    its end, and the log. *)
Record Read := { rd_answer : result string (Z * string); rd_now : Duration; rd_log : list LogLine }.

Definition logged (line : LogLine) (r : Read) : Read :=
  {| rd_answer := rd_answer r; rd_now := rd_now r; rd_log := line :: rd_log r |}.

(** [None]: the attempts ended before it did. *)
Fixpoint get_retrying (attempt : Z) (attempts : list Attempt) : option Read :=
  match attempts with
  | [] => None
  | a :: attempts' =>
      match attempt_end a with
      | inl answer => Some {| rd_answer := Ok answer; rd_now := at_now a; rd_log := [] |}
      | inr failure =>
          if deadline <=? at_now a
          then Some {| rd_answer := Err failure; rd_now := at_now a;
                       rd_log := [{| ll_attempt := attempt; ll_failure := failure;
                                     ll_deadline_reached := true |}] |}
          else
            logged {| ll_attempt := attempt; ll_failure := failure; ll_deadline_reached := false |}
              <$> get_retrying (attempt + 1) attempts'
      end
  end.

(** How many attempts the read makes: each is one request. *)
Fixpoint attempts_made (attempts : list Attempt) : nat :=
  match attempts with
  | [] => O
  | a :: attempts' =>
      match attempt_end a with
      | inl _ => 1
      | inr _ => if deadline <=? at_now a then 1 else S (attempts_made attempts')
      end
  end.

(** The nap after a failed attempt. *)
Definition retry_nap (now : Duration) : Duration := Z.min interval (deadline - now).

(** The clock does not go back, and a nap lasts its time. *)
Fixpoint retry_clock (now : Duration) (attempts : list Attempt) : Prop :=
  match attempts with
  | [] => True
  | a :: attempts' =>
      now <= at_now a /\ retry_clock (at_now a + retry_nap (at_now a)) attempts'
  end.

(** ** The retried read *)

(** Enough attempts for a read that starts at [now]. *)
Definition enough {A} (now : Duration) (l : list A) : Prop :=
  l <> [] /\ deadline <= now + interval * (Z.of_nat (length l) - 1).

Lemma enough_next {A} now t (x : A) l :
  0 < interval -> enough now (x :: l) -> now <= t -> t < deadline ->
  enough (t + retry_nap t) l.
Proof.
  intros Hi [_ He] Hn Ht. unfold retry_nap. cbn [length] in He. destruct l as [|y l]; [cbn in He; lia|].
  split; [done|]. cbn [length] in *. nia.
Qed.

Lemma get_retrying_ends attempt now attempts :
  0 < interval -> retry_clock now attempts -> enough now attempts ->
  exists r, get_retrying attempt attempts = Some r /\ now <= rd_now r /\
    match rd_answer r with
    | Ok answer => exists a, a ∈ attempts /\ attempt_end a = inl answer
    | Err failure => deadline <= rd_now r /\ exists a, a ∈ attempts /\ attempt_end a = inr failure
    end.
Proof.
  intros Hi. revert attempt now; induction attempts as [|a attempts IH]; intros attempt now Hc He.
  { by destruct He. }
  cbn [get_retrying retry_clock] in *. destruct Hc as [Hn Hc].
  destruct (attempt_end a) as [answer|failure] eqn:Ha.
  - eexists. split; [done|]. split; [done|]. exists a. split; [by left|done].
  - destruct (deadline <=? at_now a) eqn:Hd; [apply Z.leb_le in Hd|apply Z.leb_gt in Hd].
    + eexists. split; [done|]. split; [done|]. split; [done|]. exists a. split; [by left|done].
    + destruct (IH (attempt + 1) _ Hc (enough_next _ _ _ _ Hi He Hn Hd)) as (r & -> & Hr & Hx).
      eexists. split; [done|]. cbn. split; [unfold retry_nap in Hr; lia|].
      destruct (rd_answer r).
      * destruct Hx as (a' & Hin & ?). exists a'. split; [by right|done].
      * destruct Hx as (? & a' & Hin & ?). split; [done|]. exists a'. split; [by right|done].
Qed.

(** A failed attempt is logged, and only the last can be past the deadline. *)
Lemma get_retrying_log attempt attempts r :
  get_retrying attempt attempts = Some r ->
  Forall (fun l => attempt <= ll_attempt l) (rd_log r) /\
  match rd_answer r with
  | Ok _ => Forall (fun l => ll_deadline_reached l = false) (rd_log r)
  | Err failure => exists lines n, rd_log r = lines ++ [{| ll_attempt := n; ll_failure := failure;
                                                          ll_deadline_reached := true |}] /\
      Forall (fun l => ll_deadline_reached l = false) lines
  end.
Proof.
  revert attempt r; induction attempts as [|a attempts IH]; intros attempt r; cbn [get_retrying]; [done|].
  destruct (attempt_end a) as [answer|failure]; [intros [= <-]; split; constructor|].
  destruct (deadline <=? at_now a).
  - intros [= <-]. split; [repeat constructor; cbn; lia|]. by exists [], attempt.
  - intros (r' & Hr & ->)%fmap_Some. destruct (IH _ _ Hr) as [Hf Hx]. cbn. split.
    + constructor; [cbn; lia|]. eapply Forall_impl; [exact Hf|]. cbn. intros; lia.
    + destruct (rd_answer r'); [by constructor|]. destruct Hx as (lines & n & -> & Hl).
      eexists (_ :: lines), n. split; [done|]. by constructor.
Qed.

(** ** [fetch_served] *)

Inductive WitnessMethod := WEvm | WQtsa.

#[export] Instance WitnessMethod_eq_dec : EqDecision WitnessMethod.
Proof. solve_decision. Defined.

Definition method_str (m : WitnessMethod) : string := match m with WEvm => "evm" | WQtsa => "qtsa" end.

Inductive WitnessError :=
| WNotFound (method : WitnessMethod) (body : string)
| StillPending (method : WitnessMethod) (detail : string)
| Stub (method : WitnessMethod) (reason : string)
| WHttp (method : WitnessMethod) (status : Z) (body : string)
| Malformed (method : WitnessMethod) (reason : string)
| Unreachable (method : WitnessMethod) (error : string).

(** Its [Display]. *)
Definition witness_error_display (e : WitnessError) : string :=
  match e with
  | WNotFound method body =>
      method_str method +:+ " witness: HTTP 404 (both anchors are required, a missing method is a failure) body=" +:+ body
  | StillPending method detail =>
      method_str method +:+ " witness still pending (HTTP 202) at the timeout: " +:+ detail
  | Stub method reason => method_str method +:+ " witness is a stub: " +:+ reason
  | WHttp method status body => method_str method +:+ " witness: HTTP " +:+ pretty.pretty status +:+ " body=" +:+ body
  | Malformed method reason => method_str method +:+ " witness is malformed: " +:+ reason
  | Unreachable method error =>
      method_str method +:+ " witness: no answer from the server before the timeout: " +:+ error
  end.

(** [pending_detail]'s text of a 202's body. *)
Context (pending_detail : string -> string).

(** A round: the attempts its read gets. [pending]: the last 202's detail. *)
Fixpoint fetch_served (method : WitnessMethod) (pending : option string)
    (rounds : list (list Attempt)) : option (result WitnessError (Z * string)) :=
  match rounds with
  | [] => None
  | attempts :: rounds' =>
      match get_retrying 1 attempts with
      | None => None
      | Some r =>
          match rd_answer r with
          | Ok (status, body) =>
              if decide (status = 202) then
                let detail := pending_detail body in
                if deadline <=? rd_now r then Some (Err (StillPending method detail))
                else fetch_served method (Some detail) rounds'
              else if decide (status = 404) then Some (Err (WNotFound method body))
              else if is_success status then Some (Ok (status, body))
              else Some (Err (WHttp method status body))
          | Err error =>
              Some (Err (match pending with
                         | Some detail => StillPending method detail
                         | None => Unreachable method error
                         end))
          end
      end
  end.

(** The requests of the fetch: those of its rounds, up to the one that ends it. *)
Fixpoint fetch_requests (rounds : list (list Attempt)) : nat :=
  match rounds with
  | [] => O
  | attempts :: rounds' =>
      attempts_made attempts +
      match get_retrying 1 attempts with
      | Some {| rd_answer := Ok (status, _); rd_now := now |} =>
          if decide (status = 202) then if deadline <=? now then O else fetch_requests rounds' else O
      | _ => O
      end
  end.

(** Each round's attempts are enough for it, and the naps between last their
    time. *)
Fixpoint rounds_clock (now : Duration) (rounds : list (list Attempt)) : Prop :=
  match rounds with
  | [] => True
  | attempts :: rounds' =>
      retry_clock now attempts /\ enough now attempts /\
      forall r, get_retrying 1 attempts = Some r -> rounds_clock (rd_now r + interval) rounds'
  end.

(** The server gave the answer in some attempt. *)
Definition answered (rounds : list (list Attempt)) (answer : Z * string) : Prop :=
  exists attempts a, attempts ∈ rounds /\ a ∈ attempts /\ attempt_end a = inl answer.

Lemma answered_cons attempts rounds answer : answered rounds answer -> answered (attempts :: rounds) answer.
Proof. intros (l & a & ? & ?). exists l, a. split; [by right|done]. Qed.

Definition read_failed (rounds : list (list Attempt)) (failure : string) : Prop :=
  exists attempts a, attempts ∈ rounds /\ a ∈ attempts /\ attempt_end a = inr failure.

(** What the fetch may answer, given the answers [A] the server gave. *)
Definition fetch_outcome (method : WitnessMethod) (A : Z * string -> Prop) (F : string -> Prop)
    (pending : option string) (r : result WitnessError (Z * string)) : Prop :=
  match r with
  | Ok (status, body) => is_success status = true /\ status <> 202 /\ A (status, body)
  | Err (WNotFound m body) => m = method /\ A (404, body)
  | Err (WHttp m status body) =>
      m = method /\ A (status, body) /\ is_success status = false /\ status <> 404
  | Err (StillPending m detail) =>
      m = method /\ exists body, A (202, body) /\ detail = pending_detail body
  | Err (Unreachable m failure) => m = method /\ pending = None /\ F failure
  | Err _ => False
  end.

Lemma fetch_served_step method (A : Z * string -> Prop) (F : string -> Prop) now pending rounds :
  0 < interval -> rounds_clock now rounds -> enough now rounds ->
  (forall answer, answered rounds answer -> A answer) ->
  (forall failure, read_failed rounds failure -> F failure) ->
  (forall d, pending = Some d -> exists body, A (202, body) /\ d = pending_detail body) ->
  exists r, fetch_served method pending rounds = Some r /\ fetch_outcome method A F pending r.
Proof.
  intros Hi. revert now pending; induction rounds as [|attempts rounds IH];
    intros now pending Hc He HA HF Hp; [by destruct He|].
  cbn [fetch_served rounds_clock] in *. destruct Hc as (Hrc & Hen & Hnext).
  destruct (get_retrying_ends 1 now attempts Hi Hrc Hen) as (r & Hr & Hnow & Hx). rewrite Hr.
  destruct (rd_answer r) as [[status body]|error].
  - destruct Hx as (a & Hin & Ha).
    assert (A (status, body)) as Hans by (apply HA; exists attempts, a; split; [by left|done]).
    destruct (decide (status = 202)) as [->|Hne].
    + destruct (deadline <=? rd_now r) eqn:Hd; [apply Z.leb_le in Hd|apply Z.leb_gt in Hd].
      { eexists. split; [done|]. split; [done|]. by exists body. }
      destruct (IH (rd_now r + interval) (Some (pending_detail body))) as (r' & Hr' & Ho).
      * by apply Hnext.
      * destruct He as [_ He]. cbn [length] in He. destruct rounds as [|x rounds]; [cbn in He; lia|].
        split; [done|]. cbn [length] in *. nia.
      * intros ans Hans'. by apply HA, answered_cons.
      * intros f (l & a' & ? & ?). apply HF. exists l, a'. split; [by right|done].
      * intros d [= <-]. by exists body.
      * exists r'. split; [done|]. destruct r' as [[st b]|[]]; cbn in *; naive_solver.
    + destruct (decide (status = 404)) as [->|Hne']; [by eexists|].
      destruct (is_success status) eqn:Hs; eexists; (split; [done|]); by split_and!.
  - destruct Hx as (_ & a & Hin & Ha). destruct pending as [d|]; eexists; (split; [done|]); cbn.
    + destruct (Hp d eq_refl) as (body & ? & ?). split; [done|]. by exists body.
    + split; [done|]. split; [done|]. apply HF. exists attempts, a. split; [by left|done].
Qed.

(** The harness's fetch ends and answers what the server said. With a poll
    interval above zero and a clock that does not go back, it stops within one
    poll of the deadline. A success is an answer of the server in the 200s
    other than 202, a missing witness a 404 of the server, another status one
    that is no success; it is pending only when the server answered 202, and
    unreachable only when a read failed up to the deadline with no 202 before. *)
Theorem fetch_served_ends method now rounds :
  0 < interval -> rounds_clock now rounds -> enough now rounds ->
  exists r, fetch_served method None rounds = Some r /\
    fetch_outcome method (answered rounds) (read_failed rounds) None r.
Proof. intros Hi Hc He. by apply (fetch_served_step _ _ _ now). Qed.

(** ** [wait_for_seal] *)

(** [schedule_epoch]: the [last_sealed_epoch_id] of a schedule's body, zero when
    absent; an error when it is no JSON. A round: the clock at its top and the
    attempts of its read. *)
Context (schedule_epoch : string -> result string u64).

Fixpoint wait_for_seal (epoch_id : u64) (rounds : list (Duration * list Attempt))
    : option (result string unit) :=
  match rounds with
  | [] => None
  | (top, attempts) :: rounds' =>
      if deadline <=? top then Some (Err ("timed out waiting for epoch " +:+ pretty.pretty epoch_id +:+ " to seal"))
      else
        match get_retrying 1 attempts with
        | None => None
        | Some r =>
            match rd_answer r with
            | Err last => Some (Err ("timed out waiting for epoch " +:+ pretty.pretty epoch_id +:+
                                        " to seal; last read: " +:+ last))
            | Ok (status, body) =>
                if negb (is_success status) then Some (Err ("GET /v1/schedule: HTTP " +:+ pretty.pretty status))
                else
                  match schedule_epoch body with
                  | Err e => Some (Err ("schedule json: " +:+ e))
                  | Ok last_sealed =>
                      if epoch_id <=? last_sealed then Some (Ok tt) else wait_for_seal epoch_id rounds'
                  end
            end
        end
  end.

(** The requests of the wait. *)
Fixpoint seal_requests (epoch_id : u64) (rounds : list (Duration * list Attempt)) : nat :=
  match rounds with
  | [] => O
  | (top, attempts) :: rounds' =>
      if deadline <=? top then O
      else
        attempts_made attempts +
        match get_retrying 1 attempts with
        | Some {| rd_answer := Ok (status, body) |} =>
            if negb (is_success status) then O
            else
              match schedule_epoch body with
              | Err _ => O
              | Ok last_sealed => if epoch_id <=? last_sealed then O else seal_requests epoch_id rounds'
              end
        | _ => O
        end
  end.

Fixpoint seal_clock (now : Duration) (rounds : list (Duration * list Attempt)) : Prop :=
  match rounds with
  | [] => True
  | (top, attempts) :: rounds' =>
      now <= top /\ retry_clock top attempts /\ (top < deadline -> enough top attempts) /\
      forall r, get_retrying 1 attempts = Some r -> seal_clock (rd_now r + interval) rounds'
  end.

(** The wait for the seal ends, and with success only on a schedule the server
    gave whose last sealed epoch is not below the awaited one. *)
Theorem wait_for_seal_ends epoch_id now rounds :
  0 < interval -> seal_clock now rounds -> enough now rounds ->
  exists r, wait_for_seal epoch_id rounds = Some r /\
    (r = Ok tt -> exists top attempts a status body last_sealed,
       (top, attempts) ∈ rounds /\ a ∈ attempts /\ attempt_end a = inl (status, body) /\
       is_success status = true /\ schedule_epoch body = Ok last_sealed /\ epoch_id <= last_sealed).
Proof.
  intros Hi. revert now; induction rounds as [|[top attempts] rounds IH]; intros now Hc He.
  { by destruct He. }
  cbn [wait_for_seal seal_clock] in *. destruct Hc as (Htop & Hrc & Hen & Hnext).
  destruct (deadline <=? top) eqn:Hd; [by eexists|]. apply Z.leb_gt in Hd.
  destruct (get_retrying_ends 1 top attempts Hi Hrc (Hen Hd)) as (r & Hr & Hnow & Hx). rewrite Hr.
  destruct (rd_answer r) as [[status body]|error]; [|by eexists].
  destruct Hx as (a & Hin & Ha). destruct (is_success status) eqn:Hs; cbn [negb]; [|by eexists].
  destruct (schedule_epoch body) as [last|] eqn:Hl; [|by eexists].
  destruct (epoch_id <=? last) eqn:Hle.
  - apply Z.leb_le in Hle. eexists. split; [done|]. intros _. exists top, attempts, a, status, body, last.
    split_and!; try done. by left.
  - destruct (IH (rd_now r + interval)) as (r' & Hr' & Hok).
    + by apply Hnext.
    + destruct He as [_ He]. cbn [length] in He. destruct rounds as [|x rounds]; [cbn in He; lia|].
      split; [done|]. cbn [length] in *. nia.
    + exists r'. split; [done|]. intros Hr''. destruct (Hok Hr'') as (t & l & a' & st & b & ls & Hin' & Hy).
      exists t, l, a', st, b, ls. split; [by right|done].
Qed.
End polling.
