(* ===== verification/HarnessWitness.v ===== *)
(** * What the end-to-end harness accepts as a witness
    ([crates/aqua-timestamp-e2e/src]: [witness.rs], [flow.rs], [target.rs])

    Reading a served pair, telling a stub, the EIP-55 spelling of an address,
    the reader's endpoint and the refused targets. *)

From S2P Require Import Prelude External Client ClientIdentity KnownServers Config HarnessPoll.
Open Scope string_scope.
Open Scope list_scope.
Open Scope Z_scope.

Section witness.
Context `{HexCrate, Sdk, !ClientCrates}.

(** [{:?}] of a string, [Value]'s text, and the SDK's reading of a tree. *)
Class HarnessCrates := {
  debug_text : string -> string;
  value_text : Value -> string;
  tree_parses : Value -> result string unit;
}.
Context `{!HarnessCrates}.

Record Fetched := {
  fe_method : WitnessMethod;
  fe_tree : Value;
  fe_object_key : string;
  fe_signature_key : string;
  fe_payloads : Value;
}.

Definition stub_text (payloads : Value) (k : string) : string :=
  default "" (json_get payloads k ≫= json_as_str).

Definition STUB_FIELDS : list string :=
  ["tsa_provider"; "network"; "sender_account_address"; "smart_contract_address"].

Definition is_zero_digit (c : Ascii.ascii) : bool := bool_decide (String c EmptyString = "0").

Definition detect_stub (method : WitnessMethod) (payloads : Value) : option string :=
  let text := stub_text payloads in
  let tx := text "transaction_hash" in
  let digits := strip_prefix_or "0x" tx in
  if decide (digits = "") then Some "empty transaction_hash"
  else if bool_decide (method = WEvm) && forallb is_zero_digit (String.list_ascii_of_string digits)
  then Some ("zero transaction_hash " +:+ tx)
  else
    match List.find (fun k => contains "stub" (to_ascii_lowercase (text k))) STUB_FIELDS with
    | Some k => Some (k +:+ " = " +:+ debug_text (text k))
    | None =>
        match method, bool_decide (text "network" = "tsa") with
        | WQtsa, false =>
            Some ("qtsa witness on network " +:+ debug_text (text "network") +:+ ", expected " +:+
                  debug_text "tsa")
        | WEvm, true => Some ("evm witness on the " +:+ debug_text "tsa" +:+ " network")
        | _, _ => None
        end
    end.

Definition pending_detail (body : string) : string :=
  match ok (json_from_str body) with
  | None => body
  | Some v =>
      match json_get v "detail" ≫= json_as_str with
      | None => body
      | Some detail =>
          "epoch " +:+ default "" (value_text <$> json_get v "epoch") +:+ ": " +:+ detail
      end
  end.

(** The loop over the two revisions; a later one of the same kind replaces an
    earlier. *)
Fixpoint served_pair (revisions : list (string * Value)) (object : option (string * Value))
    (signature : option string)
    : result (string * string) (option (string * Value) * option string) :=
  match revisions with
  | [] => Ok (object, signature)
  | (key, value) :: revisions' =>
      let? rev := map_err (fun e => (key, e)) (rev_from_value value) in
      match as_typed rev, as_signature rev with
      | Some _, _ => served_pair revisions' (Some (key, value)) signature
      | None, Some _ => served_pair revisions' object (Some key)
      | None, None => served_pair revisions' object signature
      end
  end.

Definition parse_served (method : WitnessMethod) (body : string) : result WitnessError Fetched :=
  let malformed := Malformed method in
  let? tree := map_err (fun e => malformed ("not JSON: " +:+ e)) (json_from_str body) in
  let? _ := map_err (fun e => malformed ("not an SDK tree: " +:+ e)) (tree_parses tree) in
  let? revisions :=
    ok_or (json_get tree "revisions" ≫= json_object) (malformed "tree.revisions missing") in
  if decide (length revisions <> 2%nat)
  then Err (malformed ("expected 2 revisions (timestamp + signature), got " +:+
                       pretty.pretty (Z.of_nat (length revisions))))
  else
    let? found := map_err (fun ke : string * string =>
                    malformed ("revision " +:+ ke.1 +:+ ": " +:+ ke.2))
                    (served_pair revisions None None) in
    let? object := ok_or found.1 (malformed "no timestamp revision") in
    let? signature_key := ok_or found.2 (malformed "no signature revision") in
    let? payloads :=
      ok_or (json_get object.2 "payloads") (malformed "timestamp revision has no payloads") in
    Ok {| fe_method := method; fe_tree := tree; fe_object_key := object.1;
          fe_signature_key := signature_key; fe_payloads := payloads |}.

Definition parse_witness (method : WitnessMethod) (body : string) : result WitnessError Fetched :=
  let? fetched := parse_served method body in
  match detect_stub method (fe_payloads fetched) with
  | Some reason => Err (Stub method reason)
  | None => Ok fetched
  end.

(** ** What is accepted *)

(** A payload that is no stub of the method. *)
Definition no_stub (method : WitnessMethod) (payloads : Value) : Prop :=
  let digits := strip_prefix_or "0x" (stub_text payloads "transaction_hash") in
  digits <> "" /\
  (method = WEvm -> exists c, c ∈ String.list_ascii_of_string digits /\ String c EmptyString <> "0") /\
  (forall k, k ∈ STUB_FIELDS -> contains "stub" (to_ascii_lowercase (stub_text payloads k)) = false) /\
  (stub_text payloads "network" = "tsa" <-> method = WQtsa).

Lemma not_all_zero l :
  forallb is_zero_digit l = false <-> exists c, c ∈ l /\ String c EmptyString <> "0".
Proof.
  induction l as [|c l IH]; cbn; [split; [done|by intros (? & ?%elem_of_nil & _)]|].
  rewrite andb_false_iff, IH. unfold is_zero_digit at 1. rewrite bool_decide_eq_false.
  setoid_rewrite elem_of_cons. split.
  - intros [?|(d & ? & ?)]; [exists c|exists d]; tauto.
  - intros (d & [->|?] & ?); [by left|right; by exists d].
Qed.

Lemma detect_stub_None method payloads : detect_stub method payloads = None <-> no_stub method payloads.
Proof.
  unfold detect_stub, no_stub. cbv zeta. case_decide as Hd; [split; [done|by intros [? _]]|].
  destruct (bool_decide (method = WEvm) && _) eqn:Hz.
  { apply andb_true_iff in Hz as [Hm%bool_decide_eq_true Hz]. split; [done|]. intros (_ & Hex & _).
    apply Hex, not_all_zero in Hm. congruence. }
  assert (method = WEvm -> exists c, c ∈ String.list_ascii_of_string
            (strip_prefix_or "0x" (stub_text payloads "transaction_hash")) /\ String c EmptyString <> "0") as Hex.
  { intros ->. by apply not_all_zero. }
  destruct (List.find _ STUB_FIELDS) as [k|] eqn:Hf.
  { apply find_some in Hf as [Hin Hc]. split; [done|]. intros (_ & _ & Hno & _).
    rewrite Hno in Hc; [done|]. by apply list_elem_of_In. }
  assert (forall k, k ∈ STUB_FIELDS ->
            contains "stub" (to_ascii_lowercase (stub_text payloads k)) = false) as Hno.
  { intros k Hin%list_elem_of_In. by apply (find_none _ _ Hf). }
  clear Hz. destruct method, (decide (stub_text payloads "network" = "tsa")) as [Hn|Hn];
    first [rewrite bool_decide_eq_true_2 by done|rewrite bool_decide_eq_false_2 by done].
  - split; [done|]. intros (_ & _ & _ & Hi). by apply Hi in Hn.
  - split; [|done]. intros _. split_and!; [done..|]. by split.
  - split; [|done]. intros _. split_and!; [done..|]. by split.
  - split; [done|]. intros (_ & _ & _ & Hi). exfalso. apply Hn. by apply Hi.
Qed.

(** The one typed revision and the one signature of a two-revision tree. *)
Definition typed_entry (e : string * Value) : Prop :=
  exists rev, rev_from_value e.2 = Ok rev /\ is_Some (as_typed rev).
Definition signature_only (e : string * Value) : Prop :=
  exists rev, rev_from_value e.2 = Ok rev /\ as_typed rev = None /\ is_Some (as_signature rev).

Lemma served_pair_two e1 e2 o s :
  served_pair [e1; e2] None None = Ok (Some o, Some s) <->
  (typed_entry e1 /\ signature_only e2 /\ o = e1 /\ s = e2.1) \/
  (signature_only e1 /\ typed_entry e2 /\ o = e2 /\ s = e1.1).
Proof.
  destruct e1 as [k1 v1], e2 as [k2 v2]. unfold typed_entry, signature_only. cbn.
  destruct (rev_from_value v1) as [r1|]; cbn; [|naive_solver].
  destruct (as_typed r1) as [t1|] eqn:Ht1, (as_signature r1) as [s1|] eqn:Hs1; cbn;
    (destruct (rev_from_value v2) as [r2|]; cbn; [|naive_solver]);
    destruct (as_typed r2) as [t2|] eqn:Ht2, (as_signature r2) as [s2|] eqn:Hs2; cbn;
    (split; [intros [= <- <-]|intros [(Ha & Hb & -> & ->)|(Ha & Hb & -> & ->)]]);
    first [by naive_solver
      |destruct Ha as (ra & [= <-] & Ha), Hb as (rb & [= <-] & Hb); unfold is_Some in *; naive_solver].
Qed.
Lemma served_pair_some revs o s :
  served_pair revs None None = Ok (Some o, Some s) -> (2 <= length revs)%nat.
Proof.
  destruct revs as [|[k v] [|e revs]]; cbn; [done| |lia].
  destruct (rev_from_value v) as [r|]; cbn; [|done]. by destruct (as_typed r), (as_signature r).
Qed.

(** What the harness takes for a witness: exactly a JSON tree the SDK reads,
    of two revisions in either order, one typed and one a signature, whose
    typed one has payloads that are no stub of the method: a transaction hash
    with a digit, not all zeros on the chain, no field that says stub, and the
    TSA's network exactly for the qualified timestamp. *)
Theorem parse_witness_spec method body f :
  parse_witness method body = Ok f <->
  exists tree revs typed sig, json_from_str body = Ok tree /\ tree_parses tree = Ok tt /\
    (json_get tree "revisions" ≫= json_object) = Some revs /\
    (revs = [typed; sig] \/ revs = [sig; typed]) /\ typed_entry typed /\ signature_only sig /\
    fe_method f = method /\ fe_tree f = tree /\ fe_object_key f = typed.1 /\
    fe_signature_key f = sig.1 /\ json_get typed.2 "payloads" = Some (fe_payloads f) /\
    no_stub method (fe_payloads f).
Proof.
  unfold parse_witness. rewrite result_bind_ok. split.
  - intros (f' & Hp & Hst). destruct (detect_stub method (fe_payloads f')) eqn:Hd; [done|].
    injection Hst as ->. apply detect_stub_None in Hd. unfold parse_served in Hp.
    apply result_bind_ok in Hp as (tree & Ht%map_err_ok & Hp).
    apply result_bind_ok in Hp as ([] & Hpa%map_err_ok & Hp).
    apply result_bind_ok in Hp as (revs & Hr%ok_or_ok & Hp). case_decide as Hl; [done|].
    apply result_bind_ok in Hp as ([o sg] & Hs%map_err_ok & Hp).
    apply result_bind_ok in Hp as (obj & Ho%ok_or_ok & Hp).
    apply result_bind_ok in Hp as (sk & Hsk%ok_or_ok & Hp). cbn in Ho, Hsk. subst o sg.
    apply result_bind_ok in Hp as (pl & Hpl%ok_or_ok & [= <-]).
    destruct revs as [|e1 [|e2 [|]]]; try (cbn in Hl; lia).
    apply served_pair_two in Hs as [(Ha & Hb & -> & ->)|(Ha & Hb & -> & ->)].
    + exists tree, [e1; e2], e1, e2. split_and!; try done. by left.
    + exists tree, [e1; e2], e2, e1. split_and!; try done. by right.
  - intros (tree & revs & ty & sig & Ht & Hpa & Hr & Hrevs & Hty & Hsig & Hm & Hft & Hok & Hsk & Hpl & Hn).
    exists f. split; [|by apply detect_stub_None in Hn as ->].
    assert (length revs = 2%nat /\ served_pair revs None None = Ok (Some ty, Some sig.1)) as [Hl Hs].
    { destruct Hrevs as [->| ->]; (split; [done|]); apply served_pair_two; [left|right]; by split_and!. }
    unfold parse_served. rewrite Ht. cbn [map_err result_bind]. rewrite Hpa. cbn [map_err result_bind].
    rewrite Hr. cbn [ok_or result_bind]. rewrite decide_False by lia. rewrite Hs.
    cbn [map_err result_bind ok_or fst snd]. rewrite Hpl. cbn. destruct f; cbn in *. by subst.
Qed.
End witness.

(** ** EIP-55 *)

Definition is_ascii_alphabetic (c : Ascii.ascii) : bool :=
  let n := Ascii.N_of_ascii c in
  ((65 <=? n)%N && (n <=? 90)%N) || ((97 <=? n)%N && (n <=? 122)%N).
Definition ascii_upper (c : Ascii.ascii) : Ascii.ascii :=
  let n := Ascii.N_of_ascii c in
  if ((97 <=? n)%N && (n <=? 122)%N)%bool then Ascii.ascii_of_N (n - 32) else c.

Section eip55.
Context `{HexLaws}.
(** [sha3::Keccak256]. *)
Variable keccak256 : bytes -> Hash32.

(** The [i]-th hex digit of the hash. *)
Definition nibble (hash : Hash32) (i : nat) : Z :=
  let byte := Z_of_byte (nth (Nat.div i 2) (arr hash) Byte.x00) in
  Z.land (Z.shiftr byte (if Nat.even i then 4 else 0)) 15.

Fixpoint checksum (hash : Hash32) (i : nat) (s : string) : string :=
  match s with
  | EmptyString => EmptyString
  | String c s' =>
      String (if is_ascii_alphabetic c && (8 <=? nibble hash i) then ascii_upper c else c)
        (checksum hash (S i) s')
  end.

Definition eip55 (addr : Address20) : string :=
  let hex_addr := hex_encode (arr addr) in
  "0x" +:+ checksum (keccak256 (as_bytes hex_addr)) 0 hex_addr.

Lemma checksum_length hash i s : String.length (checksum hash i s) = String.length s.
Proof. revert i; induction s as [|c s IH]; intros i; [done|]. exact (f_equal S (IH (S i))). Qed.

Lemma lower_hex_digit_cased c :
  is_lower_hex_digit c = true -> ascii_lower (ascii_upper c) = c /\ ascii_lower c = c.
Proof. destruct c as [[] [] [] [] [] [] [] []]; vm_compute; by intros. Qed.

Lemma checksum_lower hash i s :
  Forall (fun c => is_lower_hex_digit c) (String.list_ascii_of_string s) ->
  to_ascii_lowercase (checksum hash i s) = s.
Proof.
  revert i; induction s as [|c s IH]; intros i Hs; [done|]. cbn in Hs.
  inversion Hs as [|? ? Hc Hs']; subst. cbn [checksum to_ascii_lowercase]. rewrite (IH _ Hs').
  apply Is_true_true, lower_hex_digit_cased in Hc as [Hu Hl].
  destruct (_ && _)%bool; by rewrite ?Hu, ?Hl.
Qed.

(** The checksummed spelling is the address: forty digits after [0x], the hex
    of the address in lower case, and what the client reads back from the DID
    made of it. *)
Theorem eip55_spec addr :
  String.length (eip55 addr) = 42%nat /\
  to_ascii_lowercase (eip55 addr) = ("0x" +:+ hex_encode (arr addr))%string /\
  address_from_did ("did:pkh:eip155:1:" +:+ eip55 addr) = Some (eip55 addr).
Proof.
  assert (String.length (eip55 addr) = 42%nat) as Hl.
  { unfold eip55. rewrite string_length_app, checksum_length, hex_encode_length, arr_length. done. }
  split; [done|]. split.
  - unfold eip55.
    exact (f_equal (String.append "0x") (checksum_lower _ 0 _ (hex_encode_digits (arr addr)))).
  - unfold address_from_did. change ("did:pkh:eip155:1:" +:+ eip55 addr)
      with ("did:pkh:eip155:" +:+ ("1:" +:+ eip55 addr)). rewrite strip_prefix_app.
    change (split_once_colon ("1:" +:+ eip55 addr)) with (Some ("1", eip55 addr)). cbv iota beta.
    rewrite bool_decide_eq_true_2 by done. unfold starts_with, eip55.
    rewrite strip_prefix_app. by rewrite bool_decide_eq_true_2 by by eexists.
Qed.
End eip55.

(** ** Where the harness goes *)

Definition DEFAULT_SEPOLIA_RPC_URL : string := "https://ethereum-sepolia-rpc.publicnode.com".

Section targets.
Context `{EvmChains}.

Definition reader_evm_endpoint (evm_network : string) (override_url : option string)
    : result string (u64 * string) :=
  let? chain_id :=
    ok_or (evm_chain_id_for_network evm_network)
      ("witness network " +:+ evm_network +:+ " is not one the SDK verifies") in
  match override_url with
  | Some url => Ok (chain_id, url)
  | None =>
      if decide (evm_network = "sepolia") then Ok (chain_id, DEFAULT_SEPOLIA_RPC_URL)
      else Err ("no default EVM RPC endpoint for witness network " +:+ evm_network +:+
                ": pass --evm-rpc-url")
  end.
End targets.

(** [parse]: [Url::parse]'s scheme and host. *)
Definition check_base_url (parse : string -> result string (string * option string)) (raw : string)
    (allow_production : bool) : result string string :=
  let? url := map_err (fun e => "--base-url " +:+ raw +:+ ": " +:+ e) (parse raw) in
  if negb (bool_decide (url.1 = "http") || bool_decide (url.1 = "https"))
  then Err ("--base-url must be http or https, got " +:+ raw)
  else
    let? host := ok_or url.2 ("--base-url " +:+ raw +:+ " has no host") in
    let host := to_ascii_lowercase host in
    let production := bool_decide (host = "openwitness.org") || ends_with ".openwitness.org" host in
    if production && negb allow_production
    then Err (host +:+ " is production: refusing without --allow-production")
    else Ok (trim_end_slashes raw).
