(* ===== verification/HarnessStore.v ===== *)
(** * The step log and the run directory's store
    ([crates/aqua-timestamp-e2e/src/seal]: [log.rs], [run_dir.rs])

    The assertions of a step and its verdict, and the one way steps read and
    write: in a live run into the run directory, in a replay only below
    [--out].  The disk maps paths to contents; a write may fail at any point.
    Printing to stdout is left out. *)

From S2P Require Import Prelude External Utf8.
Open Scope string_scope.
Open Scope list_scope.
Open Scope Z_scope.

(** ** [std::fs] *)

(** The components of an absolute path, and of one relative to it. *)
Abbreviation Path := (list string).
Definition file_text (file : Path) : string := String.concat "/" file.

(** [s.rfind(p)]: the text before the last [p], and the text after it. *)
Fixpoint rsplit_at (p s : string) : option (string * string) :=
  match match s with
        | EmptyString => None
        | String c s' => (fun ab : string * string => (String c ab.1, ab.2)) <$> rsplit_at p s'
        end with
  | Some ab => Some ab
  | None => (fun rest => (EmptyString, rest)) <$> strip_prefix p s
  end.

(** A file that is there but cannot be read has its error; a directory is held
    where it stands in a file's place. *)
Inductive Unread := IsDirectory | Unreadable (e : string).
#[export] Instance Unread_eq_dec : EqDecision Unread.
Proof. solve_decision. Defined.
#[export] Instance result_eq_dec {E A} `{EqDecision E, EqDecision A} : EqDecision (result E A).
Proof. solve_decision. Defined.
Abbreviation Files := (gmap Path (result Unread bytes)).

(** Where a write fails: before the file is opened, or after [n] bytes. *)
Inductive WriteFault := AtOpen (e : string) | AtWrite (n : nat) (e : string).

(** [fs_faults]: what happens to the writes to come. *)
Record Fs := { fs_files : Files; fs_faults : list (option WriteFault) }.

Definition with_files (f : Files) (fs : Fs) : Fs := {| fs_files := f; fs_faults := tail (fs_faults fs) |}.

(** [write_file]: creates the parents, truncates, writes. *)
Definition write_file (path : Path) (data : bytes) (fs : Fs) : Fs * result string unit :=
  if decide (fs_files fs !! path = Some (Err IsDirectory))
  then (with_files (fs_files fs) fs, Err ("write " +:+ file_text path +:+ ": Is a directory"))
  else
  match fs_faults fs with
  | Some (AtOpen e) :: _ => (with_files (fs_files fs) fs, Err ("write " +:+ file_text path +:+ ": " +:+ e))
  | Some (AtWrite n e) :: _ =>
      (with_files (<[path := Ok (take n data)]> (fs_files fs)) fs,
       Err ("write " +:+ file_text path +:+ ": " +:+ e))
  | _ => (with_files (<[path := Ok data]> (fs_files fs)) fs, Ok tt)
  end.

(** [std::fs::read]. *)
Inductive ReadError := ReadNotFound | ReadOther (e : string).
Definition fs_read (path : Path) (fs : Fs) : result ReadError bytes :=
  match fs_files fs !! path with
  | None => Err ReadNotFound
  | Some (Err IsDirectory) => Err (ReadOther "Is a directory")
  | Some (Err (Unreadable e)) => Err (ReadOther e)
  | Some (Ok b) => Ok b
  end.
Definition read_error_text (e : ReadError) : string :=
  match e with ReadNotFound => "No such file or directory" | ReadOther e => e end.

(** A write touches its own path only. *)
Lemma write_file_other path data fs q :
  q <> path -> fs_files (write_file path data fs).1 !! q = fs_files fs !! q.
Proof.
  intros Hq. unfold write_file. destruct (decide _) as [|_]; [done|]. destruct (fs_faults fs) as [|[[e|n e]|] fl]; cbn;
    by rewrite ?lookup_insert_ne by done.
Qed.

Lemma write_file_ok path data fs :
  (write_file path data fs).2 = Ok tt -> fs_files (write_file path data fs).1 = <[path := Ok data]> (fs_files fs).
Proof. unfold write_file. destruct (decide _) as [|_]; [done|]. by destruct (fs_faults fs) as [|[[e|n e]|] fl]; cbn. Qed.

(** ** [log.rs] *)

Record StepLog := { sl_n : Z; sl_lines : list string; sl_fails : list string }.

Definition StepLog_new (utc : string) (n : Z) (title : string) (header : list string) : StepLog :=
  {| sl_n := n;
     sl_lines := ("# seal e2e step " +:+ pretty.pretty n +:+ ": " +:+ title) :: header ++
                 ["# step started " +:+ utc];
     sl_fails := [] |}.

Definition l (s : string) (log : StepLog) : StepLog :=
  {| sl_n := sl_n log; sl_lines := sl_lines log ++ [s]; sl_fails := sl_fails log |}.

Definition check (ok : bool) (what falsifier : string) (log : StepLog) : StepLog * bool :=
  let log := l ("ASSERT " +:+ (if ok then "ok  " else "FAIL") +:+ " " +:+ what) log in
  (if negb ok && negb (bool_decide (falsifier ∈ sl_fails log))
   then {| sl_n := sl_n log; sl_lines := sl_lines log; sl_fails := sl_fails log ++ [falsifier] |}
   else log,
   ok).

Definition passed (log : StepLog) : bool := bool_decide (sl_fails log = []).

Definition verdict (log : StepLog) : string :=
  if passed log then "STEP " +:+ pretty.pretty (sl_n log) +:+ " PASS"
  else "STEP " +:+ pretty.pretty (sl_n log) +:+ " FAIL " +:+ String.concat "; " (sl_fails log).

Definition nl : string := String (Ascii.ascii_of_nat 10) EmptyString.

Definition log_text (log : StepLog) (closing : string) : string :=
  String.concat nl (sl_lines log) +:+ nl +:+ "# " +:+ closing +:+ nl +:+ verdict log +:+ nl.

(** [StepLog::write]. *)
Definition log_write (log : StepLog) (dir : Path) (closing : string) (fs : Fs) : Fs * result string unit :=
  write_file (dir ++ ["step-" +:+ pretty.pretty (sl_n log) +:+ ".log"]) (as_bytes (log_text log closing)) fs.

Definition all_passed (logs : list StepLog) : bool :=
  negb (bool_decide (logs = [])) && forallb passed logs.

(** A step passes exactly when no assertion failed; a failed one fires its
    falsifier, once. *)
Lemma check_passed ok what fals log :
  passed (check ok what fals log).1 = passed log && ok /\ (check ok what fals log).2 = ok.
Proof.
  unfold check, passed. cbn [sl_fails l fst snd]. split; [|done]. destruct ok; cbn; [by rewrite andb_true_r|].
  rewrite andb_false_r. apply bool_decide_eq_false.
  destruct (decide (fals ∈ sl_fails log)) as [Hin|Hin].
  - rewrite bool_decide_eq_true_2 by done. cbn. intros He. rewrite He in Hin. by apply elem_of_nil in Hin.
  - rewrite bool_decide_eq_false_2 by done. cbn. by destruct (sl_fails log).
Qed.

Lemma check_fails ok what fals log :
  NoDup (sl_fails log) ->
  NoDup (sl_fails (check ok what fals log).1) /\
  forall f, f ∈ sl_fails (check ok what fals log).1 <-> f ∈ sl_fails log \/ (ok = false /\ f = fals).
Proof.
  intros Hnd. unfold check. cbn [fst sl_fails l]. destruct ok; cbn; [split; [done|]; intros f; naive_solver|].
  destruct (decide (fals ∈ sl_fails log)) as [Hin|Hin];
    [rewrite bool_decide_eq_true_2 by done|rewrite bool_decide_eq_false_2 by done]; cbn.
  - split; [done|]. intros f. split; [by left|]. by intros [?|[_ ->]].
  - split; [apply NoDup_app; split_and!; [done| |by apply NoDup_singleton]|].
    + intros f Hf ->%list_elem_of_singleton. done.
    + intros f. rewrite elem_of_app, list_elem_of_singleton. naive_solver.
Qed.

(** ** [run_dir.rs]: the store *)

Inductive StoreMode := Persist | Replay (out : option Path).

Record Store := { st_run : Path; st_mode : StoreMode }.

Definition write_dir (s : Store) : option Path :=
  match st_mode s with Persist => Some (st_run s) | Replay out => out end.

Definition read_bytes (s : Store) (file : Path) (fs : Fs) : result string bytes :=
  map_err (fun e => "read " +:+ file_text (st_run s ++ file) +:+ ": " +:+ read_error_text e)
    (fs_read (st_run s ++ file) fs).

(** [read_to_string]: the text must be UTF-8. *)
Definition read (s : Store) (file : Path) (fs : Fs) : result string string :=
  let? b := read_bytes s file fs in
  if valid_utf8 (of_bytes b) then Ok (of_bytes b)
  else Err ("read " +:+ file_text (st_run s ++ file) +:+ ": stream did not contain valid UTF-8").

Definition artifact (s : Store) (file : Path) (data : bytes) (fs : Fs) : Fs * result string unit :=
  match write_dir s with
  | Some dir => write_file (dir ++ file) data fs
  | None => (fs, Ok tt)
  end.

(** The name an entry has below [d], if it is there. *)
Fixpoint entry_below (d p : Path) : option string :=
  match d, p with
  | [], n :: _ => Some n
  | x :: d', y :: p' => if decide (x = y) then entry_below d' p' else None
  | _, _ => None
  end.

Fixpoint insert_sorted (n : string) (ns : list string) : list string :=
  match ns with
  | [] => [n]
  | m :: ns' => if String.leb n m then n :: ns else m :: insert_sorted n ns'
  end.

(** [Store::list]: the sorted names below; none where there is no directory. *)
Definition list_dir (s : Store) (sub : Path) (fs : Fs) : result string (list string) :=
  match fs_files fs !! (st_run s ++ sub) with
  | Some (Ok _) | Some (Err (Unreadable _)) => Err (file_text (st_run s ++ sub) +:+ ": Not a directory")
  | _ =>
      Ok (foldr insert_sorted []
            (remove_dups (omap (fun kv : Path * result Unread bytes => entry_below (st_run s ++ sub) kv.1)
              (map_to_list (fs_files fs)))))
  end.

(** [Store::ensure_dir]: directories that hold nothing are not kept. *)
Definition ensure_dir (s : Store) (sub : Path) (fs : Fs) : Fs * result string unit :=
  match write_dir s with
  | None => (fs, Ok tt)
  | Some dir =>
      match fs_faults fs with
      | Some (AtOpen e) :: _ | Some (AtWrite _ e) :: _ =>
          (with_files (fs_files fs) fs, Err ("mkdir " +:+ file_text (dir ++ sub) +:+ ": " +:+ e))
      | _ => (with_files (fs_files fs) fs, Ok tt)
      end
  end.

(** The comparison of [derived]; nothing in a live run. *)
Definition compare_persisted (s : Store) (file : Path) (data : bytes) (falsifier : string)
    (log : StepLog) (fs : Fs) : StepLog :=
  match st_mode s with
  | Persist => log
  | Replay _ =>
      match fs_read (st_run s ++ file) fs with
      | Ok persisted =>
          (check (bool_decide (persisted = data))
             ("replay reproduces " +:+ file_text file +:+ " byte for byte (" +:+
              pretty.pretty (Z.of_nat (length data)) +:+ " vs " +:+ pretty.pretty (Z.of_nat (length persisted)) +:+
              " persisted bytes)") falsifier log).1
      | Err e =>
          (check false (file_text file +:+ ": the persisted bytes to compare cannot be read: " +:+
                        read_error_text e) falsifier log).1
      end
  end.

Definition derived (s : Store) (file : Path) (data : bytes) (falsifier : string) (log : StepLog) (fs : Fs)
    : StepLog * Fs * result string unit :=
  let log := compare_persisted s file data falsifier log fs in
  let '(fs, r) := artifact s file data fs in (log, fs, r).

(** [p] is [d] or below it. *)
Definition below (d p : Path) : bool := bool_decide (d `prefix_of` p).

(** Where the store writes: below its write directory. *)
Lemma artifact_below s file data fs q :
  (forall d, write_dir s = Some d -> ~ d `prefix_of` q) ->
  fs_files (artifact s file data fs).1 !! q = fs_files fs !! q.
Proof.
  unfold artifact. intros Hd. destruct (write_dir s) as [d|]; [|done].
  apply write_file_other. intros ->. eapply Hd; [done|]. by apply prefix_app_r.
Qed.

Lemma ensure_dir_files s sub fs : fs_files (ensure_dir s sub fs).1 = fs_files fs.
Proof. unfold ensure_dir. destruct (write_dir s); [|done]. by destruct (fs_faults fs) as [|[[]|] ?]. Qed.

(** Byte for byte: a compared file passes exactly when the persisted bytes are
    there and the same. *)
Theorem derived_replay s out file data fals log fs :
  st_mode s = Replay out ->
  passed (derived s file data fals log fs).1.1 = true <->
  passed log = true /\ fs_read (st_run s ++ file) fs = Ok data.
Proof.
  intros Hm. unfold derived. destruct (artifact s file data fs) as [fs' r]. cbn [fst].
  unfold compare_persisted. rewrite Hm. destruct (fs_read (st_run s ++ file) fs) as [p|e].
  - match goal with |- passed (check ?a ?b ?c ?d).1 = true <-> _ =>
      destruct (check_passed a b c d) as [-> _] end.
    rewrite andb_true_iff, bool_decide_eq_true. split; [by intros [? ->]|by intros [? [= ->]]].
  - match goal with |- passed (check ?a ?b ?c ?d).1 = true <-> _ =>
      destruct (check_passed a b c d) as [-> _] end.
    rewrite andb_false_r. split; [done|by intros [_ ?]].
Qed.
