(* ===== verification/HarnessPath.v ===== *)
(** * Where a run directory leads
    ([crates/aqua-timestamp-e2e/src/seal]: [run_dir.rs], [live.rs])

    The guard on the run directory, on a tree of directories, files and
    symbolic links that the kernel walks: what [resolved] answers, and that a
    directory the guard lets through lies outside the guarded one, links
    followed, and is empty. *)

From S2P Require Import Prelude External.
Open Scope string_scope.
Open Scope list_scope.
Open Scope nat_scope.

(** ** Paths and the tree *)

Inductive Component := Normal (name : string) | ParentDir.

#[export] Instance Component_eq_dec : EqDecision Component.
Proof. solve_decision. Defined.

Record RawPath := { rp_absolute : bool; rp_components : list Component }.

(** A link's target starts at the root or where the link is. *)
Inductive Node := Directory | RegularFile | Symlink (target : RawPath).

#[export] Instance RawPath_eq_dec : EqDecision RawPath.
Proof. solve_decision. Defined.

#[export] Instance Node_eq_dec : EqDecision Node.
Proof. solve_decision. Defined.

(** The nodes under their canonical paths; the root is a directory. *)
Abbreviation Canonical := (list string).
Abbreviation FileTree := (gmap Canonical Node).

Definition is_directory (fs : FileTree) (p : Canonical) : Prop := p = [] \/ fs !! p = Some Directory.

#[export] Instance is_directory_dec fs p : Decision (is_directory fs p).
Proof. unfold is_directory. apply _. Defined.

(** Only directories have entries. *)
Definition tree_ok (fs : FileTree) : Prop :=
  forall p n x, fs !! (p ++ [n]) = Some x -> is_directory fs p.

Inductive IoErrorKind := NotFound | NotADirectory | AlreadyExists | FilesystemLoop.

#[export] Instance IoErrorKind_eq_dec : EqDecision IoErrorKind.
Proof. solve_decision. Defined.

Definition parent (p : Canonical) : Canonical := removelast p.

(** The kernel's path walk from the directory [cur]; [links]: the links it
    still follows. *)
Fixpoint walk (links : nat) (fs : FileTree) (cur : Canonical) (todo : list Component)
    : result IoErrorKind Canonical :=
  (fix go cur todo {struct todo} :=
     match todo with
     | [] => Ok cur
     | ParentDir :: todo' => go (parent cur) todo'
     | Normal n :: todo' =>
         match fs !! (cur ++ [n]) with
         | None => Err NotFound
         | Some Directory => go (cur ++ [n]) todo'
         | Some RegularFile => if decide (todo' = []) then Ok (cur ++ [n]) else Err NotADirectory
         | Some (Symlink target) =>
             match links with
             | O => Err FilesystemLoop
             | S links' =>
                 walk links' fs (if rp_absolute target then [] else cur)
                   (rp_components target ++ todo')
             end
         end
     end) cur todo.

(** Linux follows 40 links. *)
Definition MAXSYMLINKS : nat := 40.
Definition canonicalize (fs : FileTree) (p : list Component) : result IoErrorKind Canonical :=
  walk MAXSYMLINKS fs [] p.
#[global] Arguments canonicalize : simpl never.

(** [symlink_metadata]: the last name is not followed; the path is given from
    its last component. *)
Definition symlink_metadata (fs : FileTree) (rev_path : list Component) : result IoErrorKind Node :=
  match rev_path with
  | Normal n :: init =>
      let? d := canonicalize fs (rev init) in ok_or (fs !! (d ++ [n])) NotFound
  | _ => let? _ := canonicalize fs (rev rev_path) in Ok Directory
  end.

(** ** [run_dir.rs] *)

Inductive PathError :=
| EmptyPath | DanglingLink | ParentAfterMissing | NoAncestor | PathIo (e : IoErrorKind)
| InsideGuarded (path guard : Canonical) | NotEmpty (entry : string).

(** [std::path::absolute]. *)
Definition absolute (cwd : list Component) (p : RawPath) : result PathError (list Component) :=
  if rp_absolute p then Ok (rp_components p)
  else if decide (rp_components p = []) then Err EmptyPath
  else Ok (cwd ++ rp_components p).

Definition names (p : list Component) : Canonical :=
  omap (fun c => match c with Normal n => Some n | ParentDir => None end) p.

(** The loop over the ancestors, longest first: [anc] from its last component,
    [rest] what was taken off it. *)
Fixpoint resolved_from (fs : FileTree) (anc rest : list Component) : result PathError Canonical :=
  match canonicalize fs (rev anc) with
  | Ok real => if bool_decide (ParentDir ∈ rest) then Err ParentAfterMissing else Ok (real ++ names rest)
  | Err e =>
      if decide (e = NotFound) then
        if is_ok (symlink_metadata fs anc) then Err DanglingLink
        else match anc with [] => Err NoAncestor | c :: anc' => resolved_from fs anc' (c :: rest) end
      else Err (PathIo e)
  end.

Definition resolved (cwd : list Component) (fs : FileTree) (p : RawPath) : result PathError Canonical :=
  let? abs := absolute cwd p in resolved_from fs (rev abs) [].

Definition ensure_outside (cwd : list Component) (fs : FileTree) (path guarded : RawPath)
    : result PathError unit :=
  let? abs := resolved cwd fs path in
  let? guard := resolved cwd fs guarded in
  if decide (guard `prefix_of` abs) then Err (InsideGuarded abs guard) else Ok tt.

(** ** [live.rs] *)

(** The entries of a directory. *)
Definition entries (fs : FileTree) (d : Canonical) : list string :=
  omap (fun kv : Canonical * Node =>
          match last kv.1 with
          | Some n => if decide (kv.1 = d ++ [n]) then Some n else None
          | None => None
          end) (map_to_list fs).

Definition read_dir (fs : FileTree) (p : list Component) : result IoErrorKind (list string) :=
  let? d := canonicalize fs p in
  if decide (is_directory fs d) then Ok (entries fs d) else Err NotADirectory.

Definition check_run_dir (cwd : list Component) (fs : FileTree) (run_dir identity_dir : RawPath)
    : result PathError unit :=
  let? _ := ensure_outside cwd fs run_dir identity_dir in
  let? abs := absolute cwd run_dir in
  match read_dir fs abs with
  | Err e => if decide (e = NotFound) then Ok tt else Err (PathIo e)
  | Ok [] => Ok tt
  | Ok (entry :: _) => Err (NotEmpty entry)
  end.

(** [mkdir] of a path given from its last component. *)
Definition mkdir (fs : FileTree) (rev_path : list Component) : result IoErrorKind FileTree :=
  match rev_path with
  | Normal n :: init =>
      let? d := canonicalize fs (rev init) in
      if decide (is_directory fs d) then
        match fs !! (d ++ [n]) with
        | Some _ => Err AlreadyExists
        | None => Ok (<[d ++ [n] := Directory]> fs)
        end
      else Err NotADirectory
  | _ => let? _ := canonicalize fs (rev rev_path) in Err AlreadyExists
  end.

Definition is_dir (fs : FileTree) (p : list Component) : bool :=
  match canonicalize fs p with
  | Ok d => bool_decide (is_directory fs d)
  | Err _ => false
  end.

(** [std::fs::create_dir_all], of a path given from its last component. *)
Fixpoint create_dir_all (fs : FileTree) (rev_path : list Component) : result IoErrorKind FileTree :=
  match mkdir fs rev_path with
  | Ok fs' => Ok fs'
  | Err e =>
      if decide (e = NotFound) then
        match rev_path with
        | [] => Err e
        | c :: init =>
            let? fs' := create_dir_all fs init in
            match mkdir fs' (c :: init) with
            | Ok fs'' => Ok fs''
            | Err e' => if is_dir fs' (rev (c :: init)) then Ok fs' else Err e'
            end
        end
      else if is_dir fs (rev rev_path) then Ok fs else Err e
  end.

(** ** The walk *)

Lemma walk_eq links fs cur todo :
  walk links fs cur todo =
  match todo with
  | [] => Ok cur
  | ParentDir :: todo' => walk links fs (parent cur) todo'
  | Normal n :: todo' =>
      match fs !! (cur ++ [n]) with
      | None => Err NotFound
      | Some Directory => walk links fs (cur ++ [n]) todo'
      | Some RegularFile => if decide (todo' = []) then Ok (cur ++ [n]) else Err NotADirectory
      | Some (Symlink target) =>
          match links with
          | O => Err FilesystemLoop
          | S links' =>
              walk links' fs (if rp_absolute target then [] else cur) (rp_components target ++ todo')
          end
      end
  end.
Proof. destruct links, todo as [|[n|] todo]; reflexivity. Qed.

(** What a walk finds stays: the tree may grow below its directories. *)
Lemma walk_mono fs fs' links cur todo r :
  fs ⊆ fs' -> walk links fs cur todo = Ok r -> walk links fs' cur todo = Ok r.
Proof.
  intros Hsub. revert cur todo.
  induction links as [|links IHl]; intros cur todo; revert cur;
    induction todo as [|[n|] todo IH]; intros cur; rewrite (walk_eq _ fs cur), (walk_eq _ fs' cur); try done; try apply IH;
    destruct (fs !! (cur ++ [n])) as [x|] eqn:Hx; try done;
    rewrite (lookup_weaken _ _ _ _ Hx Hsub); destruct x; try done; try apply IH; try apply IHl.
Qed.

(** An error ends the walk. *)
Lemma walk_app_err fs links cur p q e :
  walk links fs cur p = Err e -> walk links fs cur (p ++ q) = Err e.
Proof.
  revert cur p.
  induction links as [|links IHl]; intros cur p; revert cur;
    induction p as [|[n|] p IH]; intros cur; cbn [app]; rewrite (walk_eq _ _ cur); try done;
    rewrite (walk_eq _ _ cur); try apply IH; destruct (fs !! (cur ++ [n])) as [[]|]; try done; try apply IH;
    try (destruct (decide (p = [])) as [->|Hp]; [done|];
         rewrite decide_False by (by intros [? ?]%app_eq_nil); done).
  rewrite app_assoc. apply IHl.
Qed.

Lemma parent_directory fs cur : tree_ok fs -> is_directory fs cur -> is_directory fs (parent cur).
Proof.
  intros Htree Hcur. destruct cur as [|c cur _] using rev_ind; [by left|].
  unfold parent. rewrite removelast_last. destruct Hcur as [[_ ?]%app_eq_nil|Hcur]; [done|].
  by eapply Htree.
Qed.

(** A walk that ends in a directory goes on from there. *)
Lemma walk_app fs links cur p q r :
  tree_ok fs -> is_directory fs r -> walk links fs cur p = Ok r ->
  exists links', walk links fs cur (p ++ q) = walk links' fs r q.
Proof.
  intros Htree Hr. revert cur p.
  induction links as [|links IHl]; intros cur p; revert cur;
    induction p as [|[n|] p IH]; intros cur; cbn [app]; rewrite (walk_eq _ _ cur);
    try (intros [= ->]; by eexists);
    rewrite (walk_eq _ _ cur); try apply IH;
    destruct (fs !! (cur ++ [n])) as [[]|] eqn:Hn; try done; try apply IH;
    try (destruct (decide (p = [])); [|done]; intros [= <-];
         destruct Hr as [[_ ?]%app_eq_nil|Hr]; congruence).
  rewrite app_assoc. apply IHl.
Qed.

(** What a walk reaches is a directory or a file. *)
Lemma walk_reaches fs links cur p r :
  tree_ok fs -> is_directory fs cur -> walk links fs cur p = Ok r ->
  is_directory fs r \/ fs !! r = Some RegularFile.
Proof.
  intros Htree. revert cur p.
  induction links as [|links IHl]; intros cur p; revert cur;
    induction p as [|[n|] p IH]; intros cur Hcur; rewrite walk_eq;
    try (intros [= <-]; by left); try (apply IH; by apply parent_directory);
    destruct (fs !! (cur ++ [n])) as [[]|] eqn:Hn; try done;
    try (apply IH; by right); try (destruct (decide (p = [])); [|done]; intros [= <-]; by right).
  apply IHl. destruct (rp_absolute target); [by left|done].
Qed.

(** A file has nothing below it. *)
Lemma walk_file fs links cur p n r :
  tree_ok fs -> is_directory fs cur -> walk links fs cur p = Ok r -> ~ is_directory fs r ->
  walk links fs cur (p ++ [Normal n]) = Err NotADirectory.
Proof.
  intros Htree Hcur Hw Hr. revert cur p Hcur Hw.
  induction links as [|links IHl]; intros cur p; revert cur;
    induction p as [|[m|] p IH]; intros cur Hcur; cbn [app]; rewrite (walk_eq _ _ cur);
    try (intros [= ->]; done); rewrite (walk_eq _ _ cur);
    try (apply IH; by apply parent_directory);
    destruct (fs !! (cur ++ [m])) as [[]|] eqn:Hm; try done; try (apply IH; by right);
    try (destruct (decide (p = [])) as [->|]; [|done]; intros _; rewrite decide_False by done; done).
  rewrite app_assoc. apply IHl. destruct (rp_absolute target); [by left|done].
Qed.

(** *** Canonical paths *)

Lemma canonicalize_app fs p q r :
  tree_ok fs -> is_directory fs r -> canonicalize fs p = Ok r ->
  exists links, canonicalize fs (p ++ q) = walk links fs r q.
Proof. intros Htree Hr Hp. exact (walk_app fs MAXSYMLINKS [] p q r Htree Hr Hp). Qed.

Lemma canonicalize_missing fs p n q r :
  tree_ok fs -> is_directory fs r -> canonicalize fs p = Ok r -> fs !! (r ++ [n]) = None ->
  canonicalize fs (p ++ Normal n :: q) = Err NotFound.
Proof.
  intros Htree Hr Hp Hn. destruct (canonicalize_app fs p (Normal n :: q) r Htree Hr Hp) as [links ->].
  by rewrite walk_eq, Hn.
Qed.

Lemma canonicalize_init fs p c r :
  tree_ok fs -> canonicalize fs (p ++ [c]) = Ok r ->
  exists d, canonicalize fs p = Ok d /\
    match c with Normal n => is_directory fs d /\ exists x, fs !! (d ++ [n]) = Some x | ParentDir => True end.
Proof.
  intros Htree Hp. destruct (canonicalize fs p) as [d|e] eqn:Hd.
  2: { unfold canonicalize in *. rewrite (walk_app_err _ _ _ _ [c] _ Hd) in Hp. done. }
  exists d. split; [done|]. destruct c as [n|]; [|done].
  destruct (decide (is_directory fs d)) as [Hdir|Hdir].
  - split; [done|]. destruct (fs !! (d ++ [n])) as [x|] eqn:Hn; [by eexists|].
    rewrite (canonicalize_missing fs p n [] d Htree Hdir Hd Hn) in Hp. done.
  - unfold canonicalize in *. rewrite (walk_file fs _ [] p n d Htree) in Hp; [done|by left|done|done].
Qed.

(** *** [create_dir_all] *)

Lemma mkdir_snoc fs p n :
  mkdir fs (rev (p ++ [Normal n])) =
  let? d := canonicalize fs p in
  if decide (is_directory fs d) then
    match fs !! (d ++ [n]) with
    | Some _ => Err AlreadyExists
    | None => Ok (<[d ++ [n] := Directory]> fs)
    end
  else Err NotADirectory.
Proof. rewrite rev_app_distr. cbn. by rewrite rev_involutive. Qed.

Lemma create_dir_all_eq fs p :
  create_dir_all fs (rev p) =
  match mkdir fs (rev p) with
  | Ok fs' => Ok fs'
  | Err e =>
      if decide (e = NotFound) then
        match rev p with
        | [] => Err e
        | c :: init =>
            let? fs' := create_dir_all fs init in
            match mkdir fs' (c :: init) with
            | Ok fs'' => Ok fs''
            | Err e' => if is_dir fs' (rev (c :: init)) then Ok fs' else Err e'
            end
        end
      else if is_dir fs p then Ok fs else Err e
  end.
Proof. destruct p as [|c p _] using rev_ind; [done|]. rewrite rev_app_distr. cbn. by rewrite rev_involutive. Qed.

(** A path that leads somewhere is left as it is. *)
Lemma create_dir_all_existing fs p real fs' :
  tree_ok fs -> canonicalize fs p = Ok real -> create_dir_all fs (rev p) = Ok fs' -> fs' = fs.
Proof.
  intros Htree Hp. rewrite create_dir_all_eq.
  assert (mkdir fs (rev p) = Err AlreadyExists) as ->.
  { destruct p as [|c p _] using rev_ind; [done|].
    destruct (canonicalize_init fs p c real Htree Hp) as (d & Hd & Hc). destruct c as [n|].
    - rewrite mkdir_snoc, Hd. cbn. destruct Hc as [Hdir [x ->]]. by rewrite decide_True by done.
    - rewrite rev_app_distr. cbn [rev app mkdir]. rewrite rev_involutive. by rewrite Hp. }
  rewrite decide_False by done. destruct (is_dir fs p); congruence.
Qed.

(** The directories [ns] below [real], one in the other. *)
Definition with_dirs (fs : FileTree) (real : Canonical) (ns : list string) (fs' : FileTree) : Prop :=
  fs ⊆ fs' /\ (forall k, 0 < k <= length ns -> fs' !! (real ++ take k ns) = Some Directory) /\
  forall q x, fs' !! q = Some x -> fs !! q = Some x \/ exists k, k <= length ns /\ q = real ++ take k ns.

Lemma with_dirs_snoc fs real ns n fs1 :
  with_dirs fs real ns fs1 -> fs1 !! (real ++ ns ++ [n]) = None ->
  with_dirs fs real (ns ++ [n]) (<[real ++ ns ++ [n] := Directory]> fs1).
Proof.
  intros (Hsub & Hdirs & Hback) Hnone. split_and!.
  - etransitivity; [exact Hsub|]. by apply insert_subseteq.
  - intros k Hk. rewrite length_app in Hk. cbn in Hk. destruct (decide (k = S (length ns))) as [->|Hne].
    + rewrite take_ge by (rewrite length_app; cbn; lia). by rewrite lookup_insert_eq.
    + rewrite take_app_le by lia. rewrite lookup_insert_ne; [apply Hdirs; lia|].
      intros ?%app_inv_head%(f_equal length). rewrite length_app, length_take in *. cbn in *. lia.
  - intros q x. rewrite lookup_insert_Some. intros [[<- <-]|[_ Hq]].
    + right. exists (S (length ns)). rewrite length_app. cbn. split; [lia|].
      by rewrite take_ge by (rewrite length_app; cbn; lia).
    + destruct (Hback q x Hq) as [?|(k & Hk & ->)]; [by left|]. right. exists k.
      rewrite length_app, take_app_le by lia. split; [lia|done].
Qed.

(** Nothing is below a name that is not there. *)
Lemma nothing_below fs p q : tree_ok fs -> fs !! p = None -> p <> [] -> fs !! (p ++ q) = None.
Proof.
  intros Htree Hp Hne. induction q as [|n q IH] using rev_ind; [by rewrite app_nil_r|].
  destruct (fs !! (p ++ q ++ [n])) as [x|] eqn:Hx; [|done]. rewrite app_assoc in Hx.
  destruct (Htree _ _ _ Hx) as [[? _]%app_eq_nil|?]; congruence.
Qed.

Lemma with_dirs_canonicalize fs p real ns fs' :
  tree_ok fs -> tree_ok fs' -> is_directory fs real -> canonicalize fs p = Ok real -> with_dirs fs real ns fs' ->
  canonicalize fs' (p ++ map Normal ns) = Ok (real ++ ns).
Proof.
  intros Htree Htree' Hdir Hp (Hsub & Hdirs & _).
  assert (is_directory fs' real) as Hdir'.
  { destruct Hdir as [?|?]; [by left|right]. by eapply lookup_weaken. }
  destruct (canonicalize_app fs' p (map Normal ns) real Htree' Hdir') as [links ->].
  { by eapply walk_mono. }
  assert (forall done_ todo, ns = done_ ++ todo ->
            walk links fs' (real ++ done_) (map Normal todo) = Ok (real ++ ns)) as Hwalk.
  { intros done_ todo. revert done_. induction todo as [|n todo IH]; intros done_ Hns; rewrite walk_eq; cbn.
    - by rewrite Hns, app_nil_r.
    - rewrite <- app_assoc. assert (done_ ++ [n] = take (S (length done_)) ns) as Ht.
      { rewrite Hns, take_app_ge, Nat.sub_succ_l, Nat.sub_diag by lia. done. }
      rewrite Ht, Hdirs, <- Ht; [|rewrite Hns, length_app; cbn; lia]. apply IH. by rewrite <- app_assoc. }
  specialize (Hwalk [] ns eq_refl). by rewrite app_nil_r in Hwalk.
Qed.

Lemma mkdir_tree_ok fs d n :
  tree_ok fs -> is_directory fs d -> fs !! (d ++ [n]) = None -> tree_ok (<[d ++ [n] := Directory]> fs).
Proof.
  intros Htree Hd Hnone p m x. destruct (decide (p ++ [m] = d ++ [n])) as [He|Hne].
  - apply app_inj_tail in He as [-> ->]. intros _. destruct Hd as [->|Hd]; [by left|right].
    rewrite lookup_insert_ne; [done|]. intros He. congruence.
  - rewrite lookup_insert_ne by congruence. intros [->|Hp]%Htree; [by left|right].
    destruct (decide (d ++ [n] = p)) as [->|?]; [by rewrite lookup_insert_eq|by rewrite lookup_insert_ne].
Qed.

(** The missing names are made, each a directory. *)
Lemma create_dir_all_missing fs p real n ns fs' :
  tree_ok fs -> is_directory fs real -> canonicalize fs p = Ok real -> fs !! (real ++ [n]) = None ->
  create_dir_all fs (rev (p ++ map Normal (n :: ns))) = Ok fs' ->
  with_dirs fs real (n :: ns) fs' /\ tree_ok fs'.
Proof.
  intros Htree Hdir Hp Hnone. revert fs'. induction ns as [|m ns IH] using rev_ind; intros fs'.
  - cbn [map]. rewrite create_dir_all_eq, mkdir_snoc, Hp. cbn [result_bind].
    rewrite decide_True, Hnone by done. intros [= <-]. split; [|by apply mkdir_tree_ok].
    apply (with_dirs_snoc fs real [] n fs); [|done]. split_and!; [done|cbn; lia|by left].
  - change (n :: ns ++ [m]) with ((n :: ns) ++ [m]). rewrite map_app, app_assoc. cbn [map].
    rewrite create_dir_all_eq, mkdir_snoc.
    rewrite (canonicalize_missing fs p n (map Normal ns) real Htree Hdir Hp Hnone). cbn [result_bind].
    rewrite decide_True by done.
    assert (rev ((p ++ Normal n :: map Normal ns) ++ [Normal m]) =
            Normal m :: rev (p ++ Normal n :: map Normal ns)) as -> by by rewrite rev_app_distr.
    destruct (create_dir_all fs (rev (p ++ Normal n :: map Normal ns))) as [fs1|e] eqn:H1; [|done].
    destruct (IH fs1 H1) as [Hdirs Htree1]. cbn [result_bind].
    pose proof (with_dirs_canonicalize fs p real (n :: ns) fs1 Htree Htree1 Hdir Hp Hdirs) as Hc.
    assert (Normal m :: rev (p ++ Normal n :: map Normal ns) = rev ((p ++ map Normal (n :: ns)) ++ [Normal m]))
      as -> by by rewrite (rev_app_distr (p ++ map Normal (n :: ns))).
    rewrite mkdir_snoc, Hc. cbn [result_bind].
    assert (is_directory fs1 (real ++ n :: ns)) as Hlast.
    { right. destruct Hdirs as (_ & Hd & _). specialize (Hd (length (n :: ns))).
      rewrite take_ge in Hd by done. apply Hd. cbn. lia. }
    rewrite decide_True by done. rewrite <- app_assoc.
    assert (fs1 !! (real ++ (n :: ns) ++ [m]) = None) as Hm.
    { destruct (fs1 !! (real ++ (n :: ns) ++ [m])) as [x|] eqn:Hx; [|done].
      destruct Hdirs as (_ & _ & Hback). destruct (Hback _ _ Hx) as [Hfs|(k & Hk & He)].
      - assert (fs !! ((real ++ [n]) ++ ns ++ [m]) = None) as Hb.
        { apply nothing_below; [done|done|]. by intros [_ ?]%app_eq_nil. }
        rewrite <- app_assoc in Hb. cbn in Hb, Hfs. congruence.
      - apply app_inv_head, (f_equal length) in He. rewrite length_app, length_take in He. cbn in He. lia. }
    rewrite Hm. intros [= <-]. split; [by apply with_dirs_snoc|].
    assert (real ++ (n :: ns) ++ [m] = (real ++ n :: ns) ++ [m]) as Hr by by rewrite <- app_assoc.
    rewrite Hr in Hm. cbn [app] in Hr. rewrite Hr. by apply mkdir_tree_ok.
Qed.

(** *** What [resolved] answers *)

Lemma map_names p : ParentDir ∉ p -> map Normal (names p) = p.
Proof.
  induction p as [|[n|] p IH]; intros Hp; [done| |set_solver].
  cbn. f_equal. apply IH. set_solver.
Qed.

Lemma first_missing fs anc n real :
  tree_ok fs -> canonicalize fs (rev anc) = Ok real ->
  canonicalize fs (rev anc ++ [Normal n]) = Err NotFound ->
  is_ok (symlink_metadata fs (Normal n :: anc)) = false ->
  is_directory fs real /\ fs !! (real ++ [n]) = None.
Proof.
  intros Htree Hreal Hnf Hsym. cbn in Hsym. rewrite Hreal in Hsym. cbn in Hsym. split.
  - destruct (decide (is_directory fs real)) as [|Hno]; [done|]. unfold canonicalize in *.
    rewrite (walk_file fs _ [] _ n real Htree) in Hnf; [done|by left|done|done].
  - by destruct (fs !! (real ++ [n])).
Qed.

(** The longest ancestor that leads somewhere, the names after it, and nothing
    at the first of them. *)
Lemma resolved_from_spec fs anc rest abs :
  tree_ok fs ->
  match rest with
  | Normal n :: _ =>
      canonicalize fs (rev anc ++ [Normal n]) = Err NotFound /\
      is_ok (symlink_metadata fs (Normal n :: anc)) = false
  | _ => True
  end ->
  resolved_from fs anc rest = Ok abs ->
  exists p real ns,
    rev anc ++ rest = p ++ map Normal ns /\ canonicalize fs p = Ok real /\ abs = real ++ ns /\
    match ns with n :: _ => is_directory fs real /\ fs !! (real ++ [n]) = None | [] => True end.
Proof.
  intros Htree. revert rest. induction anc as [|c anc IH]; intros rest Hrest Hres.
  - cbn [resolved_from rev] in Hres. change (canonicalize fs []) with (@Ok IoErrorKind Canonical []) in Hres.
    cbn iota in Hres. destruct (bool_decide_reflect (ParentDir ∈ rest)) as [|Hno]; [done|]. simplify_eq/=.
    exists [], [], (names rest). rewrite map_names by done. split_and!; [done..|].
    destruct rest as [|[n|] rest]; [done| |set_solver]. cbn [names omap list_omap].
    destruct Hrest. by apply (first_missing fs []).
  - cbn [resolved_from] in Hres. destruct (canonicalize fs (rev (c :: anc))) as [real|e] eqn:Hreal.
    + destruct (bool_decide_reflect (ParentDir ∈ rest)) as [|Hno]; [done|]. simplify_eq/=.
      exists (rev anc ++ [c]), real, (names rest). rewrite map_names by done. split_and!; [done..|].
      destruct rest as [|[n|] rest]; [done| |set_solver]. cbn [names omap list_omap].
      destruct Hrest. by apply (first_missing fs (c :: anc)).
    + destruct (decide (e = NotFound)) as [->|]; [|done].
      destruct (is_ok (symlink_metadata fs (c :: anc))) eqn:Hsym; [done|].
      cbn [rev]. rewrite <- app_assoc. cbn [app]. apply IH; [|done]. destruct c as [n|]; [|done].
      split; [done|exact Hsym].
Qed.

(** ** The guard *)

Lemma read_dir_entries fs d n : tree_ok fs -> entries fs d = [] -> fs !! (d ++ [n]) = None.
Proof.
  intros _ He. destruct (fs !! (d ++ [n])) as [x|] eqn:Hx; [|done].
  assert (n ∈ entries fs d) as Hin; [|rewrite He in Hin; set_solver].
  apply list_elem_of_omap. exists (d ++ [n], x). split; [by apply elem_of_map_to_list|].
  cbn. by rewrite last_snoc, decide_True.
Qed.

(** C28. A run directory the guard lets through is, once made, where [resolved]
    said: links followed, it lies outside the guarded directory and is empty,
    and making it changed nothing else. *)
Theorem run_dir_guard cwd fs run guarded abs fs' :
  tree_ok fs ->
  check_run_dir cwd fs run guarded = Ok tt ->
  absolute cwd run = Ok abs -> create_dir_all fs (rev abs) = Ok fs' ->
  exists real guard,
    canonicalize fs' abs = Ok real /\ resolved cwd fs guarded = Ok guard /\ ~ guard `prefix_of` real /\
    (forall n q, fs' !! (real ++ n :: q) = None) /\
    fs ⊆ fs' /\ forall p, guard `prefix_of` p -> fs' !! p = fs !! p.
Proof.
  intros Htree Hcheck Habs Hmk. unfold check_run_dir, ensure_outside in Hcheck.
  apply result_bind_ok in Hcheck as (u & Hout & Hcheck). rewrite Habs in Hcheck. cbn [result_bind] in Hcheck.
  apply result_bind_ok in Hout as (real & Hreal & Hout). apply result_bind_ok in Hout as (guard & Hguard & Hout).
  destruct (decide (guard `prefix_of` real)) as [|Hpre]; [done|]. exists real, guard.
  unfold resolved in Hreal. rewrite Habs in Hreal. cbn [result_bind] in Hreal.
  destruct (resolved_from_spec fs (rev abs) [] real Htree I Hreal) as (p & d & ns & Hp & Hd & -> & Hns).
  rewrite rev_involutive, app_nil_r in Hp. subst abs. destruct ns as [|n ns].
  - cbn [map] in *. rewrite !app_nil_r in *.
    pose proof (create_dir_all_existing fs p d fs' Htree Hd Hmk) as ->.
    split_and!; [done..| |done|done]. intros n q. unfold read_dir in Hcheck. rewrite Hd in Hcheck. cbn [result_bind] in Hcheck.
    destruct (decide (is_directory fs d)) as [Hdir|]; [|done].
    destruct (entries fs d) as [|e es] eqn:He; [|done].
    change (d ++ n :: q) with (d ++ [n] ++ q). rewrite app_assoc.
    apply nothing_below; [done|by apply read_dir_entries|by intros [_ ?]%app_eq_nil].
  - destruct Hns as [Hdir Hnone].
    destruct (create_dir_all_missing fs p d n ns fs' Htree Hdir Hd Hnone Hmk) as [Hdirs Htree'].
    split_and!; [exact (with_dirs_canonicalize fs p d (n :: ns) fs' Htree Htree' Hdir Hd Hdirs)|done|done| |apply Hdirs|].
    + intros m q. destruct (fs' !! _) as [x|] eqn:Hx; [|done]. rewrite <- app_assoc in Hx.
      destruct Hdirs as (_ & _ & Hback). destruct (Hback _ _ Hx) as [Hfs|(k & Hk & He)].
      * assert (fs !! ((d ++ [n]) ++ ns ++ m :: q) = None) as Hb.
        { apply nothing_below; [done|done|by intros [_ ?]%app_eq_nil]. }
        rewrite <- app_assoc in Hb. cbn in Hb, Hfs. congruence.
      * apply app_inv_head, (f_equal length) in He. rewrite length_app, length_take in He. cbn in He. lia.
    + intros q Hq. destruct Hdirs as (Hsub & _ & Hback).
      destruct (fs' !! q) as [x|] eqn:Hx; [|symmetry; by eapply lookup_weaken_None].
      destruct (Hback _ _ Hx) as [->|(k & Hk & ->)]; [done|]. destruct Hpre. etransitivity; [exact Hq|].
      apply prefix_app, prefix_take.
Qed.

(** *** A run *)

(** [/id] is the identity directory, [/link] a link to it, [/work] empty. *)
Definition sample_tree : FileTree :=
  <[["id"] := Directory]> (<[["id"; "identity.key"] := RegularFile]>
  (<[["link"] := Symlink {| rp_absolute := true; rp_components := [Normal "id"] |}]>
  (<[["work"] := Directory]> ∅))).

Definition at_root (p : list string) : RawPath := {| rp_absolute := true; rp_components := map Normal p |}.

Lemma sample_tree_ok : tree_ok sample_tree.
Proof.
  intros p n x Hx. unfold sample_tree in Hx.
  repeat (apply lookup_insert_Some in Hx as [[He _]|[_ Hx]];
    [destruct p as [|a [|b p]]; simplify_eq/=; first [by left|by right|by destruct p]|]).
  by rewrite lookup_empty in Hx.
Qed.

Lemma run_dir_guard_witness :
  (exists real guard,
     canonicalize (<[["work"; "run"] := Directory]> sample_tree) [Normal "work"; Normal "run"] = Ok real /\
     resolved [] sample_tree (at_root ["id"]) = Ok guard /\ ~ guard `prefix_of` real /\
     (forall n q, <[["work"; "run"] := Directory]> sample_tree !! (real ++ n :: q) = None) /\
     sample_tree ⊆ <[["work"; "run"] := Directory]> sample_tree /\
     forall p, guard `prefix_of` p -> <[["work"; "run"] := Directory]> sample_tree !! p = sample_tree !! p) /\
  check_run_dir [] sample_tree (at_root ["link"; "new"; "run"]) (at_root ["id"]) =
    Err (InsideGuarded ["id"; "new"; "run"] ["id"]).
Proof.
  split; [|vm_compute; reflexivity].
  apply (run_dir_guard [] sample_tree (at_root ["work"; "run"]) (at_root ["id"])).
  - exact sample_tree_ok.
  - vm_compute. reflexivity.
  - reflexivity.
  - change (rev (map Normal ["work"; "run"])) with (rev ([Normal "work"] ++ [Normal "run"])).
    rewrite create_dir_all_eq, (mkdir_snoc _ [Normal "work"] "run").
    assert (canonicalize sample_tree [Normal "work"] = Ok ["work"]) as -> by (vm_compute; reflexivity).
    cbn [result_bind]. rewrite decide_True by (right; vm_compute; reflexivity).
    assert (sample_tree !! (["work"] ++ ["run"]) = None) as -> by (vm_compute; reflexivity). reflexivity.
Defined.
