(* ===== verification/SealSdk.v ===== *)
(** * The SDK's seals, as the steps of a run read them
    ([crates/aqua-timestamp-e2e/src/seal/policy.rs])

    The interface of [aqua_rs_sdk::core::seal] and of the crates the steps
    call, none of which is under [src/]: enumerations keep the cases the
    source tells apart.  A call that reads the chain takes the number of the
    blocking call it is made in.  Then the reader's policy. *)

From S2P Require Import Prelude External Client HarnessPoll.
Open Scope string_scope.
Open Scope list_scope.
Open Scope Z_scope.

(** ** Enumerations *)

Inductive SealStatus := StatusVerified | StatusNotChecked | StatusOther (name : string).
Inductive DimensionState := Pass | Fail_ | NotChecked | DimensionOther (name : string).
Inductive Headline := HeadlineVerified | PartiallyVerified | HeadlineOther (name : string).
Inductive AnchorKind := KindEvm | KindTsa | KindOther (name : string).
Inductive AttestationRule := IfPresent | RuleOther (name : string).
Inductive AttestationBasis := Unpinned | Pinned.
Inductive WitnessAdmission := Admitted_ | NotAdmitted (reason : string) | Failed (reason : string).
Inductive AttestationVerdict :=
| AttVerified (attester signature_type : string) (basis : AttestationBasis)
| Unverifiable (cause : string).
Inductive WitnessRefusal :=
| EvmAnchorNotFinal | EvmAnchorNotVerified (verdict : string) | RefusedNoWitness | RefusalOther (name : string).
Inductive SealError := SealNoWitness | Refused (r : WitnessRefusal) | SealErrorOther (text : string).
Inductive EvmFinality := FinalizedBlocks | FinalityOther (name : string).
Inductive PolicyOrigin := ReaderLocal | OriginOther (name : string).

#[export] Instance SealStatus_eq_dec : EqDecision SealStatus.
Proof. solve_decision. Defined.
#[export] Instance DimensionState_eq_dec : EqDecision DimensionState.
Proof. solve_decision. Defined.
#[export] Instance Headline_eq_dec : EqDecision Headline.
Proof. solve_decision. Defined.
#[export] Instance AnchorKind_eq_dec : EqDecision AnchorKind.
Proof. solve_decision. Defined.
#[export] Instance AnchorKind_countable : Countable AnchorKind.
Proof.
  refine (inj_countable'
    (fun k => match k with KindEvm => inl true | KindTsa => inl false | KindOther n => inr n end)
    (fun c => match c with inl true => KindEvm | inl false => KindTsa | inr n => KindOther n end) _).
  by intros [].
Defined.
#[export] Instance AttestationBasis_eq_dec : EqDecision AttestationBasis.
Proof. solve_decision. Defined.
#[export] Instance WitnessAdmission_eq_dec : EqDecision WitnessAdmission.
Proof. solve_decision. Defined.
#[export] Instance AttestationVerdict_eq_dec : EqDecision AttestationVerdict.
Proof. solve_decision. Defined.

(** ** Public structs *)

Record TsaAcceptance := { ta_policy_oids : gset string; ta_issuers : option (gset string) }.
Record EvmAcceptance := { ea_chain_ids : gset Z; ea_contracts : gset string; ea_finality : EvmFinality }.
Record WitnessAcceptance := {
  wa_source : string;
  wa_tsa : option TsaAcceptance;
  wa_evm : option EvmAcceptance;
}.

Section structs.
Context `{Sdk}.

Record SealWitness := { sw_object : AnyRevision; sw_signature : option AnyRevision }.

(** A witness the evaluator accepted, and one the reader read. *)
Record AcceptedWitness := {
  aw_kind : AnchorKind;
  aw_timestamp : u64;
  aw_attester : option string;
}.
Record WitnessReading := {
  wr_witness : RevisionLink;
  wr_descriptor : string;
  wr_admission : WitnessAdmission;
  wr_timestamp : u64;
  wr_provenance : option string;
}.
Record Acceptance := { ac_witnesses : list WitnessReading; ac_findings : list (list string) }.

(** [SealTime::Accepted]'s witnesses, if it is that. *)
Record SealTime := { ti_accepted : option (list RevisionLink); ti_text : string }.

Record Attestation := { at_attestation : RevisionLink; at_verdict : AttestationVerdict }.
Record WitnessAttestations := { wt_witness : RevisionLink; wt_attestations : list Attestation }.
(** What a reading lists besides is kept by its text. *)
Record SealAttestationsReading := {
  sr_witnesses : list WitnessAttestations;
  sr_unmatched : list string;
  sr_findings : list string;
  sr_rejected : option string;
}.

Record Finding := { fi_code : string; fi_args : list string }.
Record FullSetVerdict := {
  fv_set_headline : Headline;
  fv_completeness : DimensionState;
  fv_integrity : DimensionState;
  fv_non_suppression : DimensionState;
  fv_findings : list Finding;
}.
End structs.

(** ** The calls *)

Class SealSdk `{Sdk} := {
  (** [{:?}], [{:#?}] and [{}] of the SDK's values, [as_str] of its enumerations. *)
  debug : forall {A : Type}, A -> string;
  debug_pretty : forall {A : Type}, A -> string;
  display : forall {A : Type}, A -> string;
  (** Trees as JSON texts, links, and the sum's third case. *)
  tree_from_str : string -> result string Tree;
  tree_to_string : Tree -> result string string;
  tree_to_pretty : Tree -> result string string;
  tree_with_revisions : Tree -> list (RevisionLink * AnyRevision) -> Tree;
  link_parse : string -> result string RevisionLink;
  link_leb : RevisionLink -> RevisionLink -> bool;
  rev_previous : AnyRevision -> option RevisionLink;
  rev_link : AnyRevision -> result string RevisionLink;
  rev_to_value : AnyRevision -> result string Value;
  rev_to_string : AnyRevision -> result string string;
  revision_type : AnyRevision -> string;
  Method : Type;
  method_from_value : Value -> result string Method;
  Anchor : Type;
  anchor_new : RevisionLink -> Method -> list RevisionLink -> Anchor;
  anchor_calculate_link : Anchor -> result string RevisionLink;
  anchor_populate_leaves : Anchor -> result string Anchor;
  any_anchor : Anchor -> AnyRevision;
  is_anchor : AnyRevision -> bool;
  (** The reader's [Aquafier] over its hosts. *)
  Aquafier : Type;
  aquafier_build : WebHost -> BlockchainHost -> Aquafier;
  WitnessInput : Type;
  witness_input_policy : WitnessAcceptance -> PolicyOrigin -> WitnessInput;
  SignatureCatalogue : Type;
  catalogue_custom : string -> list string -> SignatureCatalogue;
  catalogue_kind : SignatureCatalogue -> string;
  catalogue_source : SignatureCatalogue -> string;
  (** The requirement on the witnesses. *)
  WitnessRequirement : Type;
  open_witness : WitnessRequirement;
  without_evm : WitnessRequirement -> WitnessRequirement;
  requirement_kinds : list AnchorKind -> AttestationRule -> result SealError WitnessRequirement;
  requirement_from_str : string -> result string WitnessRequirement;
  requirement_to_string : WitnessRequirement -> result string string;
  (** Heads, prepared seals, receipts, members. *)
  SealHead : Type;
  SealHead_eq_dec :: EqDecision SealHead;
  head_from_leaves : RevisionLink -> list Hash32 -> result string SealHead;
  head_root : SealHead -> Hash32;
  PreparedSeal : Type;
  prepared_from_str : string -> result string PreparedSeal;
  prepared_to_pretty : PreparedSeal -> result string string;
  prepared_signer : PreparedSeal -> result string string;
  prepared_submit_digest : PreparedSeal -> result string Hash32;
  prepared_head : PreparedSeal -> result string SealHead;
  SealReceipt : Type;
  receipt_issue : RevisionLink -> SealHead -> list Hash32 -> u64 -> RevisionLink -> Hash32 -> result string SealReceipt;
  receipt_to_json_string : SealReceipt -> string;
  receipt_parse : string -> result string SealReceipt;
  MemberTree : Type;
  member_verify : nat -> Aquafier -> Tree -> string -> bytes -> result string MemberTree;
  member_spine : MemberTree -> list RevisionLink;
  (** Building a seal. *)
  AcceptedWitnesses : Type;
  accepted_anchor : AcceptedWitnesses -> RevisionLink;
  accepted_witnesses : AcceptedWitnesses -> list AcceptedWitness;
  evaluate_seal_witnesses :
    nat -> Aquafier -> PreparedSeal -> SealHead -> string -> list SealWitness -> WitnessRequirement ->
    result WitnessRefusal AcceptedWitnesses;
  SealAttestations : Type;
  attestations_parse : string -> result string SealAttestations;
  attestations_to_canonical_json : SealAttestations -> result string string;
  finish_seal : PreparedSeal -> AcceptedWitnesses -> result string (Tree * SealAttestations);
  complete_seal :
    nat -> Aquafier -> PreparedSeal -> SealHead -> string -> list SealWitness -> WitnessRequirement ->
    result SealError (Tree * SealAttestations);
  SigningCredentials : Type;
  secp256k1_key : Hash32 -> SigningCredentials;
  build_seal_container :
    nat -> Aquafier -> SealHead -> SigningCredentials -> WitnessRequirement -> result SealError (Tree * SealAttestations);
  (** Reading a seal. *)
  VerifiedSeal : Type;
  seal_status : VerifiedSeal -> SealStatus;
  seal_anchor : VerifiedSeal -> RevisionLink;
  seal_head_link : VerifiedSeal -> RevisionLink;
  seal_genesis : VerifiedSeal -> RevisionLink;
  seal_signature : VerifiedSeal -> RevisionLink;
  seal_signer : VerifiedSeal -> string;
  seal_signed_head : VerifiedSeal -> string;
  seal_witnesses : VerifiedSeal -> list RevisionLink;
  seal_acceptance : VerifiedSeal -> Acceptance;
  seal_sealer_signature : VerifiedSeal -> string;
  sealer_signature_is_admitted : VerifiedSeal -> bool;
  seal_time : VerifiedSeal -> SealTime;
  seal_sdk_text : VerifiedSeal -> string;
  seal_sdk_errors : VerifiedSeal -> string;
  seal_sdk_tsa_tokens : VerifiedSeal -> string;
  seal_sdk_evm_anchors : VerifiedSeal -> string;
  seal_identity_verified : VerifiedSeal -> bool;
  RejectedSeal : Type;
  rejected_id : RejectedSeal -> option RevisionLink;
  SealReading : Type;
  reading_status : SealReading -> SealStatus;
  (** The two cases the source matches, and [into_seal]. *)
  reading_seal : SealReading -> option VerifiedSeal;
  reading_rejected : SealReading -> option RejectedSeal;
  into_seal : SealReading -> result RejectedSeal VerifiedSeal;
  verify_seal_container : nat -> Aquafier -> Tree -> WitnessInput -> SignatureCatalogue -> SealReading;
  read_seal_attestations : VerifiedSeal -> option string -> gset string -> SealAttestationsReading;
  handover_is_pass : VerifiedSeal -> string -> bool;
  FullSetPackage : Type;
  full_set_package :
    option RevisionLink -> list VerifiedSeal -> list RejectedSeal -> list MemberTree -> list SealReceipt -> FullSetPackage;
  full_set_check : FullSetPackage -> FullSetVerdict;
  (** [base64]'s STANDARD engine, [Value]'s text and arrays. *)
  b64_encode : bytes -> string;
  b64_decode : string -> result string bytes;
  json_array : Value -> option (list Value);
  json_to_string : Value -> string;
  json_set : Value -> string -> Value -> Value;
  json_remove : Value -> string -> Value;
  json_string : string -> Value;
  json_number : Z -> Value;
  json_array_of : list Value -> Value;
  json_object_of : list (string * Value) -> Value;
}.

Section policy.
Context `{SealSdk}.

(** [v["k"]]: null where there is none. *)
Definition json_index (v : Value) (k : string) : Value := default json_null (json_get v k).

(** ** [policy.rs] *)

Record ReaderPolicy := {
  rp_tsa_policy_oid : string;
  rp_tsa_issuer : string;
  rp_evm_chain_id : u64;
  rp_evm_contract : string;
  rp_sealer_signature_type : string;
}.

Definition CATALOGUE_SOURCE : string := "reader policy openwitness-seal-e2e".

(** [ReaderPolicy::open_witness]. *)
Definition open_witness_policy : ReaderPolicy := {|
  rp_tsa_policy_oid := "0.4.0.2023.1.1";
  rp_tsa_issuer := "CN=Sectigo Qualified Time Stamping CA R35,O=Sectigo (Europe) SL,C=ES";
  rp_evm_chain_id := 11155111;
  rp_evm_contract := "0x269Ff9a5CB9BD5319bd95b248d2579Aa1e9D78FE";
  rp_sealer_signature_type := "ethereum:eip-191";
|}.

Definition tsa (p : ReaderPolicy) : TsaAcceptance :=
  {| ta_policy_oids := {[ rp_tsa_policy_oid p ]}; ta_issuers := Some {[ rp_tsa_issuer p ]} |}.

Definition dual (p : ReaderPolicy) : WitnessInput :=
  witness_input_policy
    {| wa_source := "reader policy openwitness-seal-e2e P2 (pinned dual)";
       wa_tsa := Some (tsa p);
       wa_evm := Some {| ea_chain_ids := {[ rp_evm_chain_id p ]}; ea_contracts := {[ rp_evm_contract p ]};
                         ea_finality := FinalizedBlocks |} |}
    ReaderLocal.

Definition tsa_only (p : ReaderPolicy) : WitnessInput :=
  witness_input_policy
    {| wa_source := "reader policy openwitness-seal-e2e P3 (qTSA only)"; wa_tsa := Some (tsa p); wa_evm := None |}
    ReaderLocal.

Definition catalogue (p : ReaderPolicy) : SignatureCatalogue :=
  catalogue_custom CATALOGUE_SOURCE [rp_sealer_signature_type p].

(** The policy as a JSON line. *)
Definition describe (p : ReaderPolicy) (name : string) (with_evm : bool) (label_pin : string) : string :=
  let evm :=
    if with_evm then
      json_object_of
        [("chain_ids", json_array_of [json_number (rp_evm_chain_id p)]);
         ("contracts", json_array_of [json_string (rp_evm_contract p)]);
         ("finality", json_string "finalized")]
    else json_null in
  json_to_string
    (json_object_of
      [("policy", json_string name);
       ("origin", json_string "ReaderLocal");
       ("tsa", json_object_of
          [("policy_oids", json_array_of [json_string (rp_tsa_policy_oid p)]);
           ("issuers", json_array_of [json_string (rp_tsa_issuer p)])]);
       ("evm", evm);
       ("sealer_catalogue", json_object_of
          [("kind", json_string "Custom");
           ("source", json_string CATALOGUE_SOURCE);
           ("admitted", json_array_of [json_string (rp_sealer_signature_type p)])]);
       ("attestation_label_pins", json_array_of [json_string label_pin])]).

Record Reader := { re_aq : Aquafier; re_policy : ReaderPolicy }.

Definition Reader_new (web : WebHost) (blockchain : BlockchainHost) (policy : ReaderPolicy) : Reader :=
  {| re_aq := aquafier_build web blockchain; re_policy := policy |}.
End policy.
