(* ===== verification/SealTamper.v ===== *)
(** * The byte flips of the tamper step
    ([crates/aqua-timestamp-e2e/src/seal/tamper.rs])

    What each flip changes and what it leaves: one bit of the token's last
    byte or of the signature's first, one revision or one entry replaced. *)

From S2P Require Import Prelude External Client SealSdk.
Open Scope string_scope.
Open Scope list_scope.
Open Scope Z_scope.

(** [byte ^ 0x01]. *)
Definition flip_low (b : byte) : byte := byte_of_Z (Z.lxor (Z_of_byte b) 1).

(** The last byte flipped; nothing of an empty list. *)
Fixpoint flip_last (l : bytes) : bytes :=
  match l with
  | [] => []
  | [b] => [flip_low b]
  | b :: l' => b :: flip_last l'
  end.

(** [u8::from_str_radix(s, 16)] of two characters. *)
Definition hex_digit_value (c : Ascii.ascii) : option Z :=
  let n := Z.of_N (Ascii.N_of_ascii c) in
  if (48 <=? n) && (n <=? 57) then Some (n - 48)
  else if (97 <=? n) && (n <=? 102) then Some (n - 87)
  else if (65 <=? n) && (n <=? 70) then Some (n - 55)
  else None.

Definition from_str_radix16 (s : string) : option Z :=
  match s with
  | String a (String b EmptyString) =>
      lo ← hex_digit_value b;
      if bool_decide (String a EmptyString = "+") then Some lo
      else hi ← hex_digit_value a; Some (16 * hi + lo)
  | _ => None
  end.

Section tamper.
Context `{HexCrate, SealSdk, !ClientCrates}.

Definition link_of (r : AnyRevision) : result string RevisionLink := map_err (fun e => "SDK link: " +:+ e) (rev_link r).

(** The hex of one byte with [0x]. *)
Definition byte_text (b : byte) : string := "0x" +:+ hex_encode [b].

Definition flip_tsa_token (t : AnyRevision) : result string (AnyRevision * string) :=
  let? v := rev_to_value t in
  let? b64 := ok_or (json_as_str (json_index (json_index v "payloads") "transaction_hash"))
                "qTSA T has no transaction_hash" in
  let? der := map_err (fun e => "base64 TimeStampResp: " +:+ e) (b64_decode b64) in
  match last der with
  | None => Err "transaction_hash decodes to nothing; flip not applied"
  | Some old =>
      if decide (b64_encode der <> b64)
      then Err "transaction_hash is not canonical standard base64; flip not applied"
      else
        let note := "TimeStampResp " +:+ pretty.pretty (Z.of_nat (length der)) +:+ " bytes, last byte " +:+
                    byte_text old +:+ " -> " +:+ byte_text (flip_low old) in
        let payloads := json_set (json_index v "payloads") "transaction_hash"
                          (json_string (b64_encode (flip_last der))) in
        let? rev := rev_from_value (json_set v "payloads" payloads) in
        Ok (rev, note)
  end.

(** [BTreeMap] on a list of entries in key order. *)
Definition btree_remove (k : RevisionLink) (m : list (RevisionLink * AnyRevision)) : list (RevisionLink * AnyRevision) :=
  List.filter (fun e => negb (bool_decide (e.1 = k))) m.
Definition btree_insert (k : RevisionLink) (x : AnyRevision) (m : list (RevisionLink * AnyRevision))
    : list (RevisionLink * AnyRevision) :=
  let m := btree_remove k m in
  List.filter (fun e => link_leb e.1 k) m ++ (k, x) :: List.filter (fun e => negb (link_leb e.1 k)) m.

Definition tree_get (t : Tree) (k : RevisionLink) : option AnyRevision :=
  snd <$> List.find (fun e => bool_decide (e.1 = k)) (tree_revisions t).

Record RelinkedContainer := {
  rl_container : Tree;
  rl_flipped : AnyRevision;
  rl_flipped_link : RevisionLink;
  rl_anchor_link : RevisionLink;
  rl_links : list RevisionLink;
  rl_note : string;
}.

(** [links.sort()] of two. *)
Definition sort2 (a b : RevisionLink) : list RevisionLink := if link_leb a b then [a; b] else [b; a].

Definition relink_flipped_token (container : Tree) (anchor head t_tsa t_evm : RevisionLink)
    : result string RelinkedContainer :=
  let? a_rev := ok_or (tree_get container anchor) ("A " +:+ link_to_string anchor +:+ " is not in the container") in
  if negb (is_anchor a_rev) then Err (link_to_string anchor +:+ " is not an anchor revision")
  else if decide (rev_previous a_rev <> Some head) then
    Err (link_to_string anchor +:+ " does not follow the head " +:+ link_to_string head +:+
         ": it is not the seal's A")
  else
    let? a_json := rev_to_value a_rev in
    let? method := map_err (fun e => "A has no method: " +:+ e) (method_from_value (json_index a_json "method")) in
    let? t := ok_or (tree_get container t_tsa) ("qTSA T " +:+ link_to_string t_tsa +:+ " is not in the container") in
    let? flipped := flip_tsa_token t in
    let? flipped_link := link_of flipped.1 in
    let links := sort2 t_evm flipped_link in
    let relinked := anchor_new head method links in
    let? anchor_link := anchor_calculate_link relinked in
    let? relinked := anchor_populate_leaves relinked in
    let revs := btree_remove anchor (btree_remove t_tsa (tree_revisions container)) in
    let revs := btree_insert anchor_link (any_anchor relinked) (btree_insert flipped_link flipped.1 revs) in
    Ok {| rl_container := tree_with_revisions container revs; rl_flipped := flipped.1; rl_flipped_link := flipped_link;
          rl_anchor_link := anchor_link; rl_links := links; rl_note := flipped.2 |}.

(** *** The attestation document *)

Definition p_of (doc : Value) (p_key : string) : result string Value :=
  ok_or (json_get (json_index doc "revisions") p_key) ("P " +:+ p_key +:+ " is not in the attestation document").

Definition remove_p (doc : Value) (p_key : string) : result string Value :=
  let? _ := p_of doc p_key in
  let? _ := ok_or (json_object (json_index doc "revisions")) "document has no revisions object" in
  Ok (json_set doc "revisions" (json_remove (json_index doc "revisions") p_key)).

Definition alter_signature (p : Value) : result string (Value * string) :=
  let? sig := ok_or (json_as_str (json_index (json_index p "signature") "signature")) "P has no signature hex" in
  let? first := ok_or (h ← strip_prefix "0x" sig; get_to 2 h) "P's signature is not 0x-prefixed hex" in
  let? byte := ok_or (from_str_radix16 first) "invalid digit found in string" in
  let byte := Z.lxor byte 1 in
  let new_sig := "0x" +:+ hex_encode [byte_of_Z byte] +:+ get_from 4 sig in
  let note := "signature " +:+ default sig (get_to 10 sig) +:+ ".. -> " +:+
              default new_sig (get_to 10 new_sig) +:+ ".." in
  Ok (json_set p "signature" (json_set (json_index p "signature") "signature" (json_string new_sig)), note).

Definition alter_p_key_kept (doc : Value) (p_key : string) : result string (Value * string) :=
  let? p0 := p_of doc p_key in
  let? '(p, note) := alter_signature p0 in
  Ok (json_set doc "revisions" (json_set (json_index doc "revisions") p_key p), note).

Record RekeyedP := { rk_doc : Value; rk_key : RevisionLink; rk_note : string }.

Definition rekey_bad_signature (doc : Value) (p_key : string) : result string RekeyedP :=
  let? p0 := p_of doc p_key in
  let? '(p, note) := alter_signature p0 in
  let? revision := map_err (fun e => "altered P is no revision: " +:+ e) (rev_from_value p) in
  let? key := link_of revision in
  let? out := remove_p doc p_key in
  Ok {| rk_doc := json_set out "revisions" (json_set (json_index out "revisions") (link_to_string key) p);
        rk_key := key; rk_note := note |}.

Definition only_p (doc : Value) (p_key : string) : result string Value :=
  let? p := p_of doc p_key in
  Ok (json_set doc "revisions" (json_object_of [(p_key, p)])).

(** ** What a flip changes *)

Lemma flip_low_involutive b : flip_low (flip_low b) = b.
Proof. by destruct b. Qed.
Lemma flip_low_ne b : flip_low b <> b.
Proof. by destruct b. Qed.

Lemma flip_last_length l : length (flip_last l) = length l.
Proof. induction l as [|b [|c l] IH]; [done|done|]. exact (f_equal S IH). Qed.
Lemma flip_last_involutive l : flip_last (flip_last l) = l.
Proof.
  induction l as [|b [|c l] IH]; [done|cbn; by rewrite flip_low_involutive|].
  change (flip_last (b :: c :: l)) with (b :: flip_last (c :: l)).
  destruct (flip_last (c :: l)) as [|d l'] eqn:Hf; [by apply (f_equal length) in Hf; rewrite flip_last_length in Hf|].
  change (flip_last (b :: d :: l')) with (b :: flip_last (d :: l')). by rewrite IH.
Qed.
Lemma flip_last_ne l : l <> [] -> flip_last l <> l.
Proof.
  induction l as [|b [|c l] IH]; [done|intros _ [= He]; by apply flip_low_ne in He|].
  intros _ He. injection He as He. by apply IH.
Qed.
Lemma flip_last_but i l : (S i < length l)%nat -> flip_last l !! i = l !! i.
Proof.
  revert i; induction l as [|b [|c l] IH]; intros i Hi; cbn in Hi; [lia|lia|].
  destruct i as [|i]; [done|]. apply (IH i). cbn. lia.
Qed.

(** The flipped token has the issued one's length, differs from it in its last
    byte alone, and a second flip gives the issued one back. *)
Theorem flip_tsa_token_flips t t' note :
  flip_tsa_token t = Ok (t', note) ->
  exists v der,
    rev_to_value t = Ok v /\
    json_as_str (json_index (json_index v "payloads") "transaction_hash") = Some (b64_encode der) /\
    rev_from_value (json_set v "payloads" (json_set (json_index v "payloads") "transaction_hash"
      (json_string (b64_encode (flip_last der))))) = Ok t' /\
    flip_last der <> der /\ flip_last (flip_last der) = der /\
    length (flip_last der) = length der /\ forall i, (S i < length der)%nat -> flip_last der !! i = der !! i.
Proof.
  unfold flip_tsa_token. intros (v & Hv & Hr)%result_bind_ok.
  apply result_bind_ok in Hr as (b64 & Hb%ok_or_ok & Hr). apply result_bind_ok in Hr as (der & Hd%map_err_ok & Hr).
  destruct (last der) as [old|] eqn:Hl; [|done]. destruct (decide _) as [|He]; [done|].
  apply result_bind_ok in Hr as (rev & Hrev & [= -> _]). exists v, der.
  assert (b64_encode der = b64) as <- by (destruct (decide (b64_encode der = b64)); [done|by destruct He]).
  split_and!; [done|done|done|apply flip_last_ne; by intros ->|apply flip_last_involutive|apply flip_last_length|].
  intros i. apply flip_last_but.
Qed.

(** *** The revisions of the relinked container *)

Definition entry_at (k : RevisionLink) (m : list (RevisionLink * AnyRevision)) : option AnyRevision :=
  snd <$> List.find (fun e => bool_decide (e.1 = k)) m.

Lemma entry_at_app k m m' : entry_at k (m ++ m') = match entry_at k m with Some x => Some x | None => entry_at k m' end.
Proof.
  unfold entry_at. induction m as [|[k' x] m IH]; [done|]. cbn. case_bool_decide; [done|]. exact IH.
Qed.

Lemma entry_at_filter k (f : RevisionLink -> bool) m :
  entry_at k (List.filter (fun e => f e.1) m) = if f k then entry_at k m else None.
Proof.
  unfold entry_at. induction m as [|[k' x] m IH]; cbn; [by destruct (f k)|].
  destruct (f k') eqn:Hf; cbn; case_bool_decide as Hk; cbn in Hk; subst; rewrite ?Hf; try done; rewrite IH; by destruct (f k).
Qed.

Lemma entry_at_remove k k' m : entry_at k (btree_remove k' m) = if decide (k = k') then None else entry_at k m.
Proof.
  etransitivity; [exact (entry_at_filter k (fun x => negb (bool_decide (x = k'))) m)|]. cbv beta.
  destruct (decide (k = k')) as [->|Hne]; [by rewrite bool_decide_eq_true_2|by rewrite bool_decide_eq_false_2].
Qed.

Lemma entry_at_insert k k' x m : entry_at k (btree_insert k' x m) = if decide (k = k') then Some x else entry_at k m.
Proof.
  unfold btree_insert. rewrite entry_at_app.
  pose proof (entry_at_filter k (fun y => link_leb y k') (btree_remove k' m)) as Hle.
  pose proof (entry_at_filter k (fun y => negb (link_leb y k')) (btree_remove k' m)) as Hgt. cbv beta in Hle, Hgt.
  rewrite Hle. rewrite entry_at_remove in Hgt |- *.
  assert (forall l, entry_at k ((k', x) :: l) = if decide (k = k') then Some x else entry_at k l) as Hcons.
  { intros l. unfold entry_at. cbn. destruct (decide (k = k')) as [->|Hne];
      [by rewrite bool_decide_eq_true_2|by rewrite bool_decide_eq_false_2]. }
  rewrite Hcons, Hgt. destruct (decide (k = k')); [by destruct (link_leb k k')|].
  destruct (link_leb k k'); cbn; by destruct (entry_at k m).
Qed.

(** A tree keeps the revisions it is given. *)
Class TreeLaws := tree_keeps t revs : tree_revisions (tree_with_revisions t revs) = revs.
Context `{!TreeLaws}.

(** The relinked container is the container but for T and A: T' and A' stand in
    their place, A' over the head and both tokens. *)
Theorem relinked_revisions container anchor head t_tsa t_evm r :
  relink_flipped_token container anchor head t_tsa t_evm = Ok r ->
  exists t note method a,
    tree_get container t_tsa = Some t /\ flip_tsa_token t = Ok (rl_flipped r, note) /\
    link_of (rl_flipped r) = Ok (rl_flipped_link r) /\ rl_links r = sort2 t_evm (rl_flipped_link r) /\
    anchor_calculate_link (anchor_new head method (rl_links r)) = Ok (rl_anchor_link r) /\
    anchor_populate_leaves (anchor_new head method (rl_links r)) = Ok a /\
    forall k, tree_get (rl_container r) k =
      if decide (k = rl_anchor_link r) then Some (any_anchor a)
      else if decide (k = rl_flipped_link r) then Some (rl_flipped r)
      else if decide (k = anchor) then None
      else if decide (k = t_tsa) then None
      else tree_get container k.
Proof.
  unfold relink_flipped_token. intros (a_rev & Ha & Hr)%result_bind_ok.
  destruct (negb (is_anchor a_rev)); [done|]. destruct (decide _); [done|].
  apply result_bind_ok in Hr as (a_json & _ & Hr). apply result_bind_ok in Hr as (method & _ & Hr).
  apply result_bind_ok in Hr as (t & Ht%ok_or_ok & Hr). apply result_bind_ok in Hr as ([flipped note] & Hf & Hr).
  apply result_bind_ok in Hr as (flink & Hfl & Hr). cbv zeta in Hr. apply result_bind_ok in Hr as (alink & Hal & Hr).
  apply result_bind_ok in Hr as (a & Hpop & [= <-]).
  exists t, note, method, a. cbn. split_and!; try done. intros k. unfold tree_get at 1. rewrite tree_keeps.
  change (snd <$> List.find ?f ?l) with (entry_at k l). rewrite !entry_at_insert, !entry_at_remove. done.
Qed.
End tamper.
