(* ===== verification/RunDir.v ===== *)
(** * The run directory
    ([crates/aqua-timestamp-e2e/src/seal/run_dir.rs])

    The files of a run, what a replay needs of them before any step, and the
    state the steps work from. *)

From S2P Require Import Prelude External Utf8 Client HarnessPoll HarnessWitness HarnessStore SealSdk.
Open Scope string_scope.
Open Scope list_scope.
Open Scope Z_scope.

(** ** The files *)

Definition RUN_JSON : Path := ["run.json"].
Definition AQUA_IDENTITY : Path := ["aqua-identity.json"].
Definition SET_FOLDER : Path := ["set-folder.json"].
Definition LEAVES : Path := ["leaves.json"].
Definition FETCH_STATUS : Path := ["fetch-status.json"].
Definition CONTAINER_1 : Path := ["container-1.json"].
Definition ATTESTATIONS_1 : Path := ["attestations-1.json"].
Definition CONTAINER_2 : Path := ["container-2.json"].
Definition ATTESTATIONS_2 : Path := ["attestations-2.json"].

Definition MEMBERS : Z := 3.
(** [1..=MEMBERS], and [1..=2]. *)
Definition members_range : list Z := [1; 2; 3].
Definition seals_range : list Z := [1; 2].

Definition WITNESS_FILES : list (Path * string * WitnessMethod) :=
  [(["s1-evm.json"], "s1_evm", WEvm); (["s1-qtsa.json"], "s1_qtsa", WQtsa); (["s2-qtsa.json"], "s2_qtsa", WQtsa)].

Definition num (n : Z) : string := pretty.pretty n.
Definition prepared_file (seal : Z) : Path := ["prepared-seal-" +:+ num seal +:+ ".json"].
Definition nonces_file (seal : Z) : Path := ["nonces-" +:+ num seal +:+ ".json"].
Definition member_tree_file (member : Z) : Path := ["members"; "m" +:+ num member; "tree.json"].
Definition member_name (member : Z) : string := "m" +:+ num member +:+ ".txt".
Definition member_body_file (member : Z) : Path := ["members"; "m" +:+ num member; "files"; member_name member].
Definition receipt_file (seal member : Z) : Path := ["receipts-" +:+ num seal; "m" +:+ num member +:+ ".json"].
Definition epochs_file (epoch : u64) : Path := ["epochs-" +:+ num epoch +:+ ".json"].
Definition epoch_file (epoch : u64) (method : WitnessMethod) : Path :=
  ["epoch-" +:+ num epoch +:+ "-" +:+ method_str method +:+ ".json"].

Record RunDirError := { rde_dir : Path; rde_file : Path; rde_problem : string }.

(** [impl Display for RunDirError]. *)
Definition run_dir_error_text (e : RunDirError) : string :=
  "run directory " +:+ file_text (rde_dir e) +:+ ": file " +:+ file_text (rde_file e) +:+ ": " +:+ rde_problem e.

Definition named (dir file : Path) (problem : string) : RunDirError :=
  {| rde_dir := dir; rde_file := file; rde_problem := problem |}.

(** [for x in l { f(x)?; }]. *)
Fixpoint each {E A} (f : A -> result E unit) (l : list A) : result E unit :=
  match l with [] => Ok tt | x :: l' => let? _ := f x in each f l' end.

Lemma each_ok {E A} (f : A -> result E unit) l : each f l = Ok tt <-> Forall (fun x => f x = Ok tt) l.
Proof.
  induction l as [|x l IH]; cbn; [by split|]. rewrite Forall_cons, <- IH.
  destruct (f x) as [[]|e]; cbn; naive_solver.
Qed.

Lemma each_err {E A} (f : A -> result E unit) l e : each f l = Err e -> exists x, x ∈ l /\ f x = Err e.
Proof.
  induction l as [|x l IH]; cbn; [done|]. destruct (f x) as [[]|e'] eqn:Hx; cbn.
  - intros (y & Hy & ?)%IH. exists y. split; [by right|done].
  - intros [= ->]. exists x. split; [by left|done].
Qed.

Definition map_ok {A B} (f : A -> B) {E} (r : result E A) : result E B := let? a := r in Ok (f a).

Section reading.
Context `{HexCrate, SealSdk, !ClientCrates, !HarnessCrates}.
Context (dir : Path) (fs : Fs).

(** [std::fs::read_to_string], a missing file told apart. *)
Definition text_of (file : Path) : result RunDirError string :=
  match fs_read (dir ++ file) fs with
  | Ok b =>
      if valid_utf8 (of_bytes b) then Ok (of_bytes b)
      else Err (named dir file "unreadable: stream did not contain valid UTF-8")
  | Err ReadNotFound => Err (named dir file "missing")
  | Err (ReadOther e) => Err (named dir file ("unreadable: " +:+ e))
  end.

Definition malformed {A} (file : Path) (r : result string A) : result RunDirError A :=
  map_err (fun e => named dir file ("malformed: " +:+ e)) r.

(** [typed::<T>], with [T]'s deserialiser. *)
Definition typed {T} (from_str : string -> result string T) (file : Path) : result RunDirError T :=
  let? t := text_of file in malformed file (from_str t).

Definition hex_digest (d : Hash32) : string := "0x" +:+ hex_encode (arr d).

Definition digest_from_hex (s : string) : result string Hash32 :=
  let? b := map_err (fun e => "hex: " +:+ hex_error_text e) (hex_decode (trim_start_matches "0x" s)) in
  ok_or (try_array 32 b) ("expected 32 bytes, got " +:+ num (Z.of_nat (length b))).

Definition strings_from_str (s : string) : result string (list string) :=
  let? v := json_from_str s in strings_from_value v.

Definition nonces (seal : Z) : result RunDirError (list Hash32) :=
  let file := nonces_file seal in
  let? raw := typed strings_from_str file in
  if negb (Z.of_nat (length raw) =? MEMBERS)
  then Err (named dir file ("malformed: " +:+ num (Z.of_nat (length raw)) +:+ " nonces, expected " +:+ num MEMBERS))
  else collect (fun s => malformed file (digest_from_hex s)) raw.

Definition epoch_of (meta : Value) : result RunDirError u64 :=
  ok_or (json_as_u64 (json_index meta "epoch_id")) (named dir RUN_JSON "malformed: no numeric epoch_id").

(** [path.is_file()]. *)
Definition is_file (file : Path) : bool := 
  match fs_files fs !! (dir ++ file) with
  | None => false
  | Some (Err IsDirectory) => false
  | Some _ => true
  end.

Definition FETCH_KEYS : list string := ["s1_evm"; "s1_qtsa"; "s2_qtsa"; "epoch_evm"; "epoch_qtsa"; "epochs"].

Definition require_string (file : Path) (v : Value) (key : string) : result RunDirError unit :=
  map_ok (fun _ => tt)
    (ok_or (json_as_str (json_index v key)) (named dir file ("malformed: no string " +:+ key))).

Definition unit_of {E A} (r : result E A) : result E unit := map_ok (fun _ => tt) r.

Definition verify_complete : result RunDirError unit :=
  let? meta := typed json_from_str RUN_JSON in
  let? epoch := epoch_of meta in
  let? _ := each (require_string RUN_JSON meta) ["s1"; "s2"] in
  let? identity := typed json_from_str AQUA_IDENTITY in
  let? _ := require_string AQUA_IDENTITY identity "server_did" in
  let? _ := typed tree_from_str SET_FOLDER in
  let? _ := each (fun member =>
              let? _ := typed tree_from_str (member_tree_file member) in
              let body := member_body_file member in
              if is_file body then Ok tt else Err (named dir body "missing")) members_range in
  let? _ := each (fun seal =>
              let? _ := nonces seal in unit_of (typed prepared_from_str (prepared_file seal))) seals_range in
  let? _ := each (fun w : Path * string * WitnessMethod =>
              let '(file, _, method) := w in
              let? text := text_of file in
              unit_of (malformed file (map_err witness_error_display (parse_witness method text)))) WITNESS_FILES in
  let? _ := each (fun ca : Path * Path =>
              let '(container, attestations) := ca in
              let? _ := typed tree_from_str container in
              unit_of (typed attestations_parse attestations))
              [(CONTAINER_1, ATTESTATIONS_1); (CONTAINER_2, ATTESTATIONS_2)] in
  let? _ := each (fun seal =>
              each (fun member => unit_of (typed receipt_parse (receipt_file seal member))) members_range)
              seals_range in
  let? status := typed json_from_str FETCH_STATUS in
  let? _ := each (fun key =>
              unit_of (ok_or (json_get status key) (named dir FETCH_STATUS ("malformed: no " +:+ key)))) FETCH_KEYS in
  let epochs_name := epochs_file epoch in
  let? epochs := typed json_from_str epochs_name in
  let? _ := ok_or (json_array (json_index epochs "epochs")) (named dir epochs_name "malformed: no epochs array") in
  each (fun method =>
    let name := epoch_file epoch method in
    let? body := typed json_from_str name in
    unit_of (ok_or (json_object (json_index body "revisions")) (named dir name "malformed: no revisions object")))
    [WEvm; WQtsa].

(** ** The state of a run *)

Definition genesis_of (t : Tree) : result string RevisionLink :=
  match List.filter (fun e => bool_decide (rev_previous e.2 = None)) (tree_revisions t) with
  | [one] => Ok one.1
  | g => Err ("expected exactly one genesis in the Folder tree, found " +:+ num (Z.of_nat (length g)))
  end.

Definition MemberFiles : Type := (string * Tree * bytes)%type.

Definition load_member_files : result RunDirError (list MemberFiles) :=
  collect (fun i =>
    let? tree := typed tree_from_str (member_tree_file i) in
    let file := member_body_file i in
    let? b := map_err (fun e => named dir file ("unreadable: " +:+ read_error_text e)) (fs_read (dir ++ file) fs) in
    Ok (member_name i, tree, b)) members_range.

(** [n]: the number of the blocking call. *)
Definition admit_members (n : nat) (aq : Aquafier) (members : list MemberFiles) : result string (list MemberTree) :=
  collect (fun m : MemberFiles =>
    let '(name, tree, b) := m in
    map_err (fun e => name +:+ ": member tree not admitted: " +:+ e) (member_verify n aq tree name b)) members.

Definition tips_of (members : list MemberTree) : result string (list RevisionLink) :=
  collect (fun m => ok_or (last (member_spine m)) "member has no spine") members.

Definition leaves_of (tips : list RevisionLink) (nonces : list Hash32) : result string (list Hash32) :=
  collect (fun tn : RevisionLink * Hash32 =>
    map_err (fun e => "shielded_leaf: " +:+ sdk_error_text e) (shielded_leaf tn.1 tn.2)) (zip tips nonces).

Record RunState := {
  rs_meta : Value;
  rs_server_did : string;
  rs_did : string;
  rs_set : RevisionLink;
  rs_members : list MemberFiles;
  rs_tips : list RevisionLink;
  rs_nonces : list Hash32 * list Hash32;
  rs_leaves : list Hash32 * list Hash32;
  rs_heads : SealHead * SealHead;
}.

(** An [anyhow] error: a file's, or another's text. *)
Inductive LoadError := AtFile (e : RunDirError) | Other (text : string).

Definition at_file {A} (r : result RunDirError A) : result LoadError A := map_err AtFile r.
Definition other {A} (r : result string A) : result LoadError A := map_err Other r.

(** One prepared seal: its signer, and that [run.json] names its digest. *)
Definition check_prepared (meta : Value) (seal : Z) (key : string) : result LoadError string :=
  let file := prepared_file seal in
  let? prepared := at_file (typed prepared_from_str file) in
  let? signer := at_file (malformed file (prepared_signer prepared)) in
  let? digest := at_file (malformed file (prepared_submit_digest prepared)) in
  if decide (json_as_str (json_index meta key) = Some (hex_digest digest)) then Ok signer
  else Err (AtFile (named dir RUN_JSON
              (key +:+ " is " +:+ default "absent" (json_as_str (json_index meta key)) +:+ ", " +:+ file_text file +:+
               " submits " +:+ hex_digest digest))).

Definition RunState_load (n : nat) (aq : Aquafier) : result LoadError RunState :=
  let? meta := at_file (typed json_from_str RUN_JSON) in
  let? identity := at_file (typed json_from_str AQUA_IDENTITY) in
  let? server_did := at_file (ok_or (json_as_str (json_index identity "server_did"))
                       (named dir AQUA_IDENTITY "malformed: no string server_did")) in
  let? folder := at_file (typed tree_from_str SET_FOLDER) in
  let? set := at_file (map_err (named dir SET_FOLDER) (genesis_of folder)) in
  let? members := at_file load_member_files in
  let? admitted := other (admit_members n aq members) in
  let? tips := other (tips_of admitted) in
  let? nonces1 := at_file (nonces 1) in
  let? nonces2 := at_file (nonces 2) in
  let? leaves1 := other (leaves_of tips nonces1) in
  let? leaves2 := other (leaves_of tips nonces2) in
  let? head1 := other (map_err (fun e => "head: " +:+ e) (head_from_leaves set leaves1)) in
  let? head2 := other (map_err (fun e => "head: " +:+ e) (head_from_leaves set leaves2)) in
  let? signer1 := check_prepared meta 1 "s1" in
  let? signer2 := check_prepared meta 2 "s2" in
  if decide (signer1 <> signer2)
  then Err (AtFile (named dir (prepared_file 2)
              ("the prepared seals name different signers: " +:+ debug ({[signer1; signer2]} : gset string))))
  else
    Ok {| rs_meta := meta; rs_server_did := server_did; rs_did := signer1; rs_set := set; rs_members := members;
          rs_tips := tips; rs_nonces := (nonces1, nonces2); rs_leaves := (leaves1, leaves2);
          rs_heads := (head1, head2) |}.

(** ** What is there *)

(** [file] holds a text that reads as [t]. *)
Definition held {T} (from_str : string -> result string T) (file : Path) (t : T) : Prop :=
  exists b, fs_read (dir ++ file) fs = Ok b /\ valid_utf8 (of_bytes b) = true /\ from_str (of_bytes b) = Ok t.

Lemma typed_ok {T} (from_str : string -> result string T) file t :
  typed from_str file = Ok t <-> held from_str file t.
Proof.
  unfold typed, held, text_of, malformed. destruct (fs_read (dir ++ file) fs) as [b|[|e]]; cbn [result_bind];
    [|split; [done|by intros (? & ? & _)]..].
  destruct (valid_utf8 (of_bytes b)) eqn:Hu; cbn [result_bind].
  - rewrite map_err_ok. split; [intros ?; by exists b|]. by intros (? & [= <-] & _ & ?).
  - split; [done|]. intros (? & [= <-] & ? & _). congruence.
Qed.

Lemma held_inj {T} (from_str : string -> result string T) file t t' :
  held from_str file t -> held from_str file t' -> t = t'.
Proof. rewrite <- !typed_ok. congruence. Qed.

Lemma unit_of_ok {E A} (r : result E A) : unit_of r = Ok tt <-> exists a, r = Ok a.
Proof. destruct r; cbn; naive_solver. Qed.

(** Three digests, one a line. *)
Definition nonces_held (seal : Z) (ns : list Hash32) : Prop :=
  exists raw, held strings_from_str (nonces_file seal) raw /\ length raw = 3%nat /\
    Forall2 (fun s n => digest_from_hex s = Ok n) raw ns.

Lemma nonces_ok seal ns : nonces seal = Ok ns <-> nonces_held seal ns.
Proof.
  unfold nonces, nonces_held. rewrite result_bind_ok. apply exist_proper. intros raw. rewrite typed_ok.
  apply and_iff_compat_l. unfold MEMBERS. destruct (Z.eqb_spec (Z.of_nat (length raw)) 3) as [Hl|Hl]; cbn [negb].
  - rewrite collect_ok.
    assert (forall s n, malformed (nonces_file seal) (digest_from_hex s) = Ok n <-> digest_from_hex s = Ok n) as Hm.
    { intros s n. unfold malformed. apply map_err_ok. }
    split; [intros Hf; split; [lia|]|intros [_ Hf]];
      (eapply Forall2_impl; [exact Hf|]); intros s n; apply Hm.
  - split; [done|]. intros [? _]. lia.
Qed.

(** What a replay reads: every file there and well formed, [run.json] naming
    the epoch whose bodies they are. *)
Definition complete : Prop :=
  exists meta epoch,
    held json_from_str RUN_JSON meta /\ json_as_u64 (json_index meta "epoch_id") = Some epoch /\
    (forall key, key ∈ ["s1"; "s2"] -> is_Some (json_as_str (json_index meta key))) /\
    (exists identity, held json_from_str AQUA_IDENTITY identity /\
       is_Some (json_as_str (json_index identity "server_did"))) /\
    (exists folder, held tree_from_str SET_FOLDER folder) /\
    (forall m, m ∈ members_range ->
       (exists t, held tree_from_str (member_tree_file m) t) /\ is_file (member_body_file m) = true) /\
    (forall seal, seal ∈ seals_range ->
       (exists ns, nonces_held seal ns) /\ exists p, held prepared_from_str (prepared_file seal) p) /\
    (forall file key method, (file, key, method) ∈ WITNESS_FILES ->
       exists f, held (fun text => map_err witness_error_display (parse_witness method text)) file f) /\
    (forall c a, (c, a) ∈ [(CONTAINER_1, ATTESTATIONS_1); (CONTAINER_2, ATTESTATIONS_2)] ->
       (exists t, held tree_from_str c t) /\ exists x, held attestations_parse a x) /\
    (forall seal m, seal ∈ seals_range -> m ∈ members_range -> exists r, held receipt_parse (receipt_file seal m) r) /\
    (exists status, held json_from_str FETCH_STATUS status /\
       forall key, key ∈ FETCH_KEYS -> is_Some (json_get status key)) /\
    (exists epochs, held json_from_str (epochs_file epoch) epochs /\ is_Some (json_array (json_index epochs "epochs"))) /\
    (forall method, method ∈ [WEvm; WQtsa] ->
       exists body, held json_from_str (epoch_file epoch method) body /\
         is_Some (json_object (json_index body "revisions"))).

Lemma each_forall {E A} (f : A -> result E unit) (P : A -> Prop) l :
  (forall x, x ∈ l -> f x = Ok tt <-> P x) -> each f l = Ok tt <-> forall x, x ∈ l -> P x.
Proof. intros Hf. rewrite each_ok, Forall_forall. split; intros Hall x Hx; by apply Hf, Hall. Qed.

Lemma bind_unit {E} (r k : result E unit) : result_bind r (fun _ => k) = Ok tt <-> r = Ok tt /\ k = Ok tt.
Proof. destruct r as [[]|]; cbn; naive_solver. Qed.

Lemma require_string_ok file v key :
  require_string file v key = Ok tt <-> is_Some (json_as_str (json_index v key)).
Proof. unfold require_string. destruct (json_as_str _); cbn; [by split|]. split; [done|by intros []]. Qed.

Lemma ok_or_some {E A} (o : option A) (e : E) : (exists a, ok_or o e = Ok a) <-> is_Some o.
Proof. destruct o; cbn; unfold is_Some; naive_solver. Qed.

(** *** The checks one by one *)

Lemma members_check :
  each (fun member =>
    let? _ := typed tree_from_str (member_tree_file member) in
    let body := member_body_file member in
    if is_file body then Ok tt else Err (named dir body "missing")) members_range = Ok tt <->
  forall m, m ∈ members_range ->
    (exists t, held tree_from_str (member_tree_file m) t) /\ is_file (member_body_file m) = true.
Proof.
  apply each_forall. intros m _. cbv zeta. rewrite result_bind_ok. setoid_rewrite typed_ok.
  destruct (is_file (member_body_file m)); naive_solver.
Qed.

Lemma seals_check :
  each (fun seal => let? _ := nonces seal in unit_of (typed prepared_from_str (prepared_file seal))) seals_range = Ok tt <->
  forall seal, seal ∈ seals_range ->
    (exists ns, nonces_held seal ns) /\ exists p, held prepared_from_str (prepared_file seal) p.
Proof.
  apply each_forall. intros seal _. rewrite result_bind_ok. setoid_rewrite unit_of_ok. setoid_rewrite nonces_ok.
  setoid_rewrite typed_ok. naive_solver.
Qed.

Lemma witness_check method file :
  (let? text := text_of file in unit_of (malformed file (map_err witness_error_display (parse_witness method text)))) = Ok tt <->
  exists f, held (fun text => map_err witness_error_display (parse_witness method text)) file f.
Proof.
  setoid_rewrite <- typed_ok. unfold typed. rewrite result_bind_ok. setoid_rewrite unit_of_ok.
  setoid_rewrite result_bind_ok. naive_solver.
Qed.

Lemma witnesses_check :
  each (fun w : Path * string * WitnessMethod =>
    let '(file, _, method) := w in
    let? text := text_of file in
    unit_of (malformed file (map_err witness_error_display (parse_witness method text)))) WITNESS_FILES = Ok tt <->
  forall file key method, (file, key, method) ∈ WITNESS_FILES ->
    exists f, held (fun text => map_err witness_error_display (parse_witness method text)) file f.
Proof.
  rewrite (each_forall _ (fun w => exists f, held (fun text => map_err witness_error_display (parse_witness w.2 text)) w.1.1 f)).
  - split; [intros Hall file key method Hin; exact (Hall _ Hin)|]. intros Hall [[file key] method] Hin.
    by eapply Hall.
  - intros [[file key] method] _. apply witness_check.
Qed.

Lemma containers_check :
  each (fun ca : Path * Path =>
    let '(container, attestations) := ca in
    let? _ := typed tree_from_str container in
    unit_of (typed attestations_parse attestations))
    [(CONTAINER_1, ATTESTATIONS_1); (CONTAINER_2, ATTESTATIONS_2)] = Ok tt <->
  forall c a, (c, a) ∈ [(CONTAINER_1, ATTESTATIONS_1); (CONTAINER_2, ATTESTATIONS_2)] ->
    (exists t, held tree_from_str c t) /\ exists x, held attestations_parse a x.
Proof.
  rewrite (each_forall _ (fun ca => (exists t, held tree_from_str ca.1 t) /\ exists x, held attestations_parse ca.2 x)).
  - split; [intros Hall c a Hin; exact (Hall _ Hin)|intros Hall [c a] Hin; by apply Hall].
  - intros [c a] _. rewrite result_bind_ok. setoid_rewrite unit_of_ok. setoid_rewrite typed_ok. naive_solver.
Qed.

Lemma receipts_check :
  each (fun seal => each (fun member => unit_of (typed receipt_parse (receipt_file seal member))) members_range)
    seals_range = Ok tt <->
  forall seal m, seal ∈ seals_range -> m ∈ members_range -> exists r, held receipt_parse (receipt_file seal m) r.
Proof.
  rewrite (each_forall _ (fun seal => forall m, m ∈ members_range -> exists r, held receipt_parse (receipt_file seal m) r)).
  - split; intros Hall; intros; by apply Hall.
  - intros seal _. apply each_forall. intros m _. rewrite unit_of_ok. by setoid_rewrite typed_ok.
Qed.

Lemma epoch_bodies_check epoch :
  each (fun method =>
    let name := epoch_file epoch method in
    let? body := typed json_from_str name in
    unit_of (ok_or (json_object (json_index body "revisions")) (named dir name "malformed: no revisions object")))
    [WEvm; WQtsa] = Ok tt <->
  forall method, method ∈ [WEvm; WQtsa] ->
    exists body, held json_from_str (epoch_file epoch method) body /\
      is_Some (json_object (json_index body "revisions")).
Proof.
  apply each_forall. intros m _. cbv zeta. rewrite result_bind_ok. apply exist_proper. intros body.
  rewrite typed_ok, unit_of_ok, ok_or_some. done.
Qed.

Lemma strings_check file v keys :
  each (require_string file v) keys = Ok tt <->
  forall key, key ∈ keys -> is_Some (json_as_str (json_index v key)).
Proof. apply each_forall. intros key _. apply require_string_ok. Qed.

Lemma status_check status :
  each (fun key => unit_of (ok_or (json_get status key) (named dir FETCH_STATUS ("malformed: no " +:+ key)))) FETCH_KEYS
    = Ok tt <-> forall key, key ∈ FETCH_KEYS -> is_Some (json_get status key).
Proof. apply each_forall. intros key _. by rewrite unit_of_ok, ok_or_some. Qed.

(** Exactly the complete directories are let through. *)
Theorem verify_complete_spec : verify_complete = Ok tt <-> complete.
Proof.
  unfold verify_complete, complete, epoch_of. split.
  - intros Hv. apply result_bind_ok in Hv as (meta & Hm%typed_ok & Hv).
    apply result_bind_ok in Hv as (epoch & He%ok_or_ok & Hv). exists meta, epoch.
    apply bind_unit in Hv as [Hkeys Hv].
    apply result_bind_ok in Hv as (identity & Hi%typed_ok & Hv). apply bind_unit in Hv as [Hid%require_string_ok Hv].
    apply result_bind_ok in Hv as (folder & Hf%typed_ok & Hv).
    apply bind_unit in Hv as [Hmem Hv]. apply bind_unit in Hv as [Hseals Hv].
    apply bind_unit in Hv as [Hwit Hv]. apply bind_unit in Hv as [Hcon Hv].
    apply bind_unit in Hv as [Hrec Hv].
    apply result_bind_ok in Hv as (status & Hst%typed_ok & Hv). apply bind_unit in Hv as [Hkey Hv].
    cbv zeta in Hv. apply result_bind_ok in Hv as (epochs & Hep%typed_ok & Hv).
    apply result_bind_ok in Hv as (arr & Harr%ok_or_ok & Hv).
    split_and!; [exact Hm|exact He|exact (proj1 (strings_check _ _ _) Hkeys)|by exists identity|by exists folder
      |exact (proj1 members_check Hmem)|exact (proj1 seals_check Hseals)|exact (proj1 witnesses_check Hwit)
      |exact (proj1 containers_check Hcon)|exact (proj1 receipts_check Hrec)| | |exact (proj1 (epoch_bodies_check _) Hv)].
    + exists status. split; [exact Hst|exact (proj1 (status_check _) Hkey)].
    + exists epochs. split; [exact Hep|by exists arr].
  - intros (meta & epoch & Hm & He & Hkeys & (identity & Hi & Hid) & (folder & Hf) & Hmem & Hseals & Hwit & Hcon &
      Hrec & (status & Hst & Hkey) & (epochs & Hep & arr & Harr) & Hbod).
    apply result_bind_ok. exists meta. split; [by apply typed_ok|].
    apply result_bind_ok. exists epoch. split; [by apply ok_or_ok|].
    apply bind_unit. split; [exact (proj2 (strings_check _ _ _) Hkeys)|].
    apply result_bind_ok. exists identity. split; [by apply typed_ok|].
    apply bind_unit. split; [by apply require_string_ok|].
    apply result_bind_ok. exists folder. split; [by apply typed_ok|].
    apply bind_unit. split; [exact (proj2 members_check Hmem)|]. apply bind_unit. split; [exact (proj2 seals_check Hseals)|].
    apply bind_unit. split; [exact (proj2 witnesses_check Hwit)|]. apply bind_unit. split; [exact (proj2 containers_check Hcon)|].
    apply bind_unit. split; [exact (proj2 receipts_check Hrec)|].
    apply result_bind_ok. exists status. split; [by apply typed_ok|].
    apply bind_unit. split; [exact (proj2 (status_check _) Hkey)|]. cbv zeta.
    apply result_bind_ok. exists epochs. split; [by apply typed_ok|].
    apply result_bind_ok. exists arr. split; [by apply ok_or_ok|]. exact (proj2 (epoch_bodies_check _) Hbod).
Qed.

(** ** Loading after the check *)

(** What loading may still say of a file: a verdict on what the file holds, or
    that a member's body cannot be read; never that one is missing or does not
    parse. *)
Inductive verdict_on : RunDirError -> Prop :=
| verdict_genesis folder p :
    held tree_from_str SET_FOLDER folder -> genesis_of folder = Err p -> verdict_on (named dir SET_FOLDER p)
| verdict_body m e :
    m ∈ members_range -> is_file (member_body_file m) = true -> fs_read (dir ++ member_body_file m) fs = Err (ReadOther e) ->
    verdict_on (named dir (member_body_file m) ("unreadable: " +:+ e))
| verdict_signer seal prepared p :
    held prepared_from_str (prepared_file seal) prepared -> prepared_signer prepared = Err p ->
    verdict_on (named dir (prepared_file seal) ("malformed: " +:+ p))
| verdict_digest seal prepared p :
    held prepared_from_str (prepared_file seal) prepared -> prepared_submit_digest prepared = Err p ->
    verdict_on (named dir (prepared_file seal) ("malformed: " +:+ p))
| verdict_mismatch seal key meta prepared digest p :
    held json_from_str RUN_JSON meta -> held prepared_from_str (prepared_file seal) prepared ->
    prepared_submit_digest prepared = Ok digest -> json_as_str (json_index meta key) <> Some (hex_digest digest) ->
    verdict_on (named dir RUN_JSON p)
| verdict_signers prepared1 prepared2 s1 s2 p :
    held prepared_from_str (prepared_file 1) prepared1 -> prepared_signer prepared1 = Ok s1 ->
    held prepared_from_str (prepared_file 2) prepared2 -> prepared_signer prepared2 = Ok s2 -> s1 <> s2 ->
    verdict_on (named dir (prepared_file 2) p).

Lemma at_file_err {A B} (r : result RunDirError A) (k : A -> result LoadError B) e :
  result_bind (at_file r) k = Err e ->
  (exists e', r = Err e' /\ e = AtFile e') \/ exists a, r = Ok a /\ k a = Err e.
Proof. destruct r; cbn; naive_solver. Qed.

Lemma other_err {A B} (r : result string A) (k : A -> result LoadError B) e :
  result_bind (other r) k = Err (AtFile e) -> exists a, r = Ok a /\ k a = Err (AtFile e).
Proof. destruct r; cbn; naive_solver. Qed.

(** A file that is held loads. *)
Lemma at_file_held {T B} (from_str : string -> result string T) file t (k : T -> result LoadError B) :
  held from_str file t -> result_bind (at_file (typed from_str file)) k = k t.
Proof. intros Ht%typed_ok. by rewrite Ht. Qed.

Lemma load_members_verdict e :
  (forall m, m ∈ members_range ->
     (exists t, held tree_from_str (member_tree_file m) t) /\ is_file (member_body_file m) = true) ->
  load_member_files = Err e -> verdict_on e.
Proof.
  intros Hm. unfold load_member_files. assert (forall l, l ⊆ members_range -> forall e,
    collect (fun i =>
      let? tree := typed tree_from_str (member_tree_file i) in
      let? b := map_err (fun e => named dir (member_body_file i) ("unreadable: " +:+ read_error_text e))
                  (fs_read (dir ++ member_body_file i) fs) in
      Ok (member_name i, tree, b)) l = Err e -> verdict_on e) as Hall; [|by apply Hall].
  intros l. induction l as [|m l IH]; intros Hl e'; cbn [collect]; [done|].
  destruct (Hm m) as [[t Ht%typed_ok] Hbody]; [apply Hl; set_solver|]. rewrite Ht. cbn [result_bind].
  destruct (fs_read (dir ++ member_body_file m) fs) as [b|re] eqn:Hb; cbn [map_err result_bind].
  - destruct (collect _ l) as [ys|e2] eqn:Hc; cbn [result_bind]; [done|]. intros [= <-].
    by apply (IH ltac:(set_solver)).
  - intros [= <-]. destruct re as [|e2].
    + unfold is_file, fs_read in *. by destruct (fs_files fs !! _) as [[|[]]|].
    + cbn [read_error_text]. apply verdict_body; [apply Hl; set_solver|done|done].
Qed.

Lemma check_prepared_verdict meta seal key e prepared :
  held json_from_str RUN_JSON meta -> held prepared_from_str (prepared_file seal) prepared ->
  check_prepared meta seal key = Err (AtFile e) -> verdict_on e.
Proof.
  intros Hmeta Hp. unfold check_prepared. rewrite (at_file_held _ _ _ _ Hp).
  intros [(e' & Hs & [= <-])|(signer & Hs & Hk)]%at_file_err.
  { unfold malformed in Hs. destruct (prepared_signer prepared) eqn:Hsig; [done|]. injection Hs as <-.
    by eapply verdict_signer. }
  apply at_file_err in Hk as [(e' & Hd & [= <-])|(digest & Hd & Hk)].
  { unfold malformed in Hd. destruct (prepared_submit_digest prepared) eqn:Hdig; [done|]. injection Hd as <-.
    by eapply verdict_digest. }
  destruct (decide _) as [|Hne]; [done|]. injection Hk as <-.
  apply map_err_ok in Hd. by eapply verdict_mismatch.
Qed.

Lemma check_prepared_ok meta seal key signer :
  check_prepared meta seal key = Ok signer ->
  exists prepared digest, held prepared_from_str (prepared_file seal) prepared /\
    prepared_signer prepared = Ok signer /\ prepared_submit_digest prepared = Ok digest /\
    json_as_str (json_index meta key) = Some (hex_digest digest).
Proof.
  unfold check_prepared. intros (prepared & Hp%map_err_ok%typed_ok & Hk)%result_bind_ok.
  apply result_bind_ok in Hk as (signer' & Hs%map_err_ok & Hk). apply map_err_ok in Hs.
  apply result_bind_ok in Hk as (digest & Hd%map_err_ok & Hk). apply map_err_ok in Hd.
  destruct (decide _) as [He|]; [|done]. injection Hk as ->. by exists prepared, digest.
Qed.

(** After the completeness check of a run directory, loading it fails at no
    file that is missing or malformed: only a verdict on what a file holds, or a
    member's body that cannot be read, stops it. *)
Theorem load_after_complete n aq e :
  verify_complete = Ok tt -> RunState_load n aq = Err (AtFile e) -> verdict_on e.
Proof.
  intros Hv. apply verify_complete_spec in Hv as (meta & epoch & Hm & _ & _ & (identity & Hi & sd & Hid) & (folder & Hf) &
    Hmem & Hseals & _).
  assert (exists ns, nonces 1 = Ok ns) as [ns1 Hn1].
  { destruct (Hseals 1) as [[ns Hns] _]; [set_solver|]. exists ns. by apply nonces_ok. }
  assert (exists ns, nonces 2 = Ok ns) as [ns2 Hn2].
  { destruct (Hseals 2) as [[ns Hns] _]; [set_solver|]. exists ns. by apply nonces_ok. }
  destruct (Hseals 1) as [_ [p1 Hp1]]; [set_solver|]. destruct (Hseals 2) as [_ [p2 Hp2]]; [set_solver|].
  unfold RunState_load. rewrite (at_file_held _ _ _ _ Hm), (at_file_held _ _ _ _ Hi). cbv beta.
  rewrite Hid. cbn [ok_or at_file map_err result_bind]. rewrite (at_file_held _ _ _ _ Hf).
  intros [(e' & Hg & [= <-])|(set & Hg & Hk)]%at_file_err.
  { destruct (genesis_of folder) eqn:Hge; [done|]. injection Hg as <-. by eapply verdict_genesis. }
  apply at_file_err in Hk as [(e' & Hl & [= <-])|(members & Hl & Hk)]; [by apply load_members_verdict|].
  apply other_err in Hk as (admitted & _ & Hk). apply other_err in Hk as (tips & _ & Hk).
  rewrite Hn1, Hn2 in Hk. cbn [at_file map_err result_bind] in Hk.
  apply other_err in Hk as (l1 & _ & Hk). apply other_err in Hk as (l2 & _ & Hk).
  apply other_err in Hk as (h1 & _ & Hk). apply other_err in Hk as (h2 & _ & Hk).
  destruct (check_prepared meta 1 "s1") as [s1|] eqn:Hc1; cbn [result_bind] in Hk;
    [|injection Hk as ->; by apply (check_prepared_verdict _ _ _ _ _ Hm Hp1) in Hc1].
  destruct (check_prepared meta 2 "s2") as [s2|] eqn:Hc2; cbn [result_bind] in Hk;
    [|injection Hk as ->; by apply (check_prepared_verdict _ _ _ _ _ Hm Hp2) in Hc2].
  destruct (decide (s1 <> s2)) as [Hne|]; [|done]. injection Hk as <-.
  apply check_prepared_ok in Hc1 as (q1 & d1 & Hq1 & Hs1 & _). apply check_prepared_ok in Hc2 as (q2 & d2 & Hq2 & Hs2 & _).
  by eapply verdict_signers.
Qed.
End reading.
