(* ===== verification/SealAct.v ===== *)
(** * Acting in a step
    ([crates/aqua-timestamp-e2e/src/seal/steps.rs])

    A step reads and writes the run's store, reads the chain, draws random
    bytes, waits, and keeps its log: a state monad with an error, the error an
    [anyhow] text.  Then what the steps share.  A blocking task that panics is
    left out. *)

From S2P Require Import Prelude External Client HarnessPoll HarnessWitness HarnessStore SealSdk RunDir.
Open Scope string_scope.
Open Scope list_scope.
Open Scope Z_scope.

(** What a step touches: the disk, the clock, how often it read the chain and
    drew from the OS. *)
Record World := { w_fs : Fs; w_now : Duration; w_reads : nat; w_draws : nat }.

(** The clock as a text, the OS's random bytes, how long a chain read takes. *)
Class SealEnv := {
  utc : Duration -> string;
  os_rng : nat -> Hash32;
  read_time : nat -> nat;
}.

Definition Act (A : Type) : Type := World * StepLog -> World * StepLog * result string A.

Definition ret {A} (a : A) : Act A := fun s => (s, Ok a).
Definition act_bind {A B} (m : Act A) (k : A -> Act B) : Act B := fun s =>
  let '(s', r) := m s in match r with Ok a => k a s' | Err e => (s', Err e) end.
(** [r?]. *)
Definition lift {A} (r : result string A) : Act A := fun s => (s, r).
Definition bail {A} (e : string) : Act A := lift (Err e).

Notation "'let!' x ':=' m 'in' k" := (act_bind m (fun x => k))
  (at level 10, x name, m at level 100, k at level 200) : rust_scope.
Notation "'let!' ' p ':=' m 'in' k" := (act_bind m (fun p => k))
  (at level 10, p strict pattern, m at level 100, k at level 200) : rust_scope.

Definition say (text : string) : Act unit := fun '(w, log) => (w, l text log, Ok tt).
Definition assert_ (ok : bool) (what falsifier : string) : Act bool := fun '(w, log) =>
  let '(log, b) := check ok what falsifier log in (w, log, Ok b).
(** [log.check(..);] *)
Definition require (ok : bool) (what falsifier : string) : Act unit :=
  let! _ := assert_ ok what falsifier in ret tt.

Definition set_fs (fs : Fs) (w : World) : World :=
  {| w_fs := fs; w_now := w_now w; w_reads := w_reads w; w_draws := w_draws w |}.
Definition on_fs {A} (f : Fs -> Fs * result string A) : Act A := fun '(w, log) =>
  let '(fs, r) := f (w_fs w) in (set_fs fs w, log, r).

Definition read_m (s : Store) (file : Path) : Act string := fun '(w, log) => (w, log, read s file (w_fs w)).
Definition read_bytes_m (s : Store) (file : Path) : Act bytes := fun '(w, log) => (w, log, read_bytes s file (w_fs w)).
Definition artifact_m (s : Store) (file : Path) (text : string) : Act unit := on_fs (artifact s file (as_bytes text)).
Definition derived_m (s : Store) (file : Path) (text falsifier : string) : Act unit := fun '(w, log) =>
  let '(log, fs, r) := derived s file (as_bytes text) falsifier log (w_fs w) in (set_fs fs w, log, r).
Definition list_m (s : Store) (sub : Path) : Act (list string) := fun '(w, log) => (w, log, list_dir s sub (w_fs w)).
Definition ensure_dir_m (s : Store) (sub : Path) : Act unit := on_fs (ensure_dir s sub).

(** The last statement's error is looked at, not raised. *)
Definition try {A} (m : Act A) : Act (result string A) := fun s => let '(s', r) := m s in (s', Ok r).

Fixpoint for_each {A} (f : A -> Act unit) (l : list A) : Act unit :=
  match l with [] => ret tt | x :: l' => let! _ := f x in for_each f l' end.
Fixpoint fold_act {A B} (f : B -> A -> Act B) (b : B) (l : list A) : Act B :=
  match l with [] => ret b | x :: l' => let! b' := f b x in fold_act f b' l' end.

Section env.
Context `{SealEnv}.

(** A call that reads the chain, and takes its time. *)
Definition reading_chain {A} (f : nat -> A) : Act A := fun '(w, log) =>
  ({| w_fs := w_fs w; w_now := w_now w + Z.of_nat (read_time (w_reads w)); w_reads := S (w_reads w);
      w_draws := w_draws w |}, log, Ok (f (w_reads w))).
Definition clock : Act Duration := fun '(w, log) => (w, log, Ok (w_now w)).
Definition sleep (d : Duration) : Act unit := fun '(w, log) =>
  ({| w_fs := w_fs w; w_now := w_now w + d; w_reads := w_reads w; w_draws := w_draws w |}, log, Ok tt).
Definition draw : Act Hash32 := fun '(w, log) =>
  ({| w_fs := w_fs w; w_now := w_now w; w_reads := w_reads w; w_draws := S (w_draws w) |}, log, Ok (os_rng (w_draws w))).
End env.

(** ** What an action leaves alone *)

(** The write directory and the run directory are apart. *)
Definition apart (st : Store) : Prop :=
  forall d, write_dir st = Some d -> ~ d `prefix_of` st_run st /\ ~ st_run st `prefix_of` d.

(** The disk holds the run directory's files as [fs0] does. *)
Definition same_run (st : Store) (fs0 fs : Fs) : Prop :=
  forall file, fs_files fs !! (st_run st ++ file) = fs_files fs0 !! (st_run st ++ file).

(** The action never takes a failure back, and writes only where the store
    writes: nothing when it writes nowhere. *)
Record tame {A} (st : Store) (m : Act A) : Prop := {
  tame_keeps w log w' log' r : m (w, log) = (w', log', r) -> passed log' = true -> passed log = true;
  tame_spares w log w' log' r : m (w, log) = (w', log', r) -> apart st -> same_run st (w_fs w) (w_fs w');
  tame_silent w log w' log' r : m (w, log) = (w', log', r) -> write_dir st = None -> w_fs w' = w_fs w;
}.

Create HintDb act.

Lemma same_run_refl st fs : same_run st fs fs.
Proof. by intros file. Qed.
Lemma same_run_trans st a b c : same_run st a b -> same_run st b c -> same_run st a c.
Proof. intros Hab Hbc file. by rewrite Hbc, Hab. Qed.
#[export] Hint Resolve same_run_refl : act.

Lemma prefix_apart (a b p : Path) : a `prefix_of` p -> b `prefix_of` p -> a `prefix_of` b \/ b `prefix_of` a.
Proof. apply prefix_weak_total. Qed.

Lemma artifact_same_run st file data fs : apart st -> same_run st fs (artifact st file data fs).1.
Proof.
  intros Hap q. apply artifact_below. intros d Hd Hp. destruct (Hap d Hd) as [Hn1 Hn2].
  destruct (prefix_apart d (st_run st) (st_run st ++ q)) as [?|?]; [done|by apply prefix_app_r|done..].
Qed.

(** *** The statements *)

Section tame.
Context (st : Store).

(** A statement that leaves log and disk. *)
Lemma tame_pure {A} (m : Act A) :
  (forall w log w' log' r, m (w, log) = (w', log', r) -> w_fs w' = w_fs w /\ passed log' = passed log) -> tame st m.
Proof. intros Hm. split; intros w log w' log' r [Hf Hp]%Hm; [congruence| |done]. rewrite Hf. auto with act. Qed.

Lemma tame_ret {A} (a : A) : tame st (ret a).
Proof. apply tame_pure. by intros w log w' log' r [= <- <- <-]. Qed.
Lemma tame_lift {A} (r : result string A) : tame st (lift r).
Proof. apply tame_pure. by intros w log w' log' r' [= <- <- <-]. Qed.
Lemma tame_say t : tame st (say t).
Proof. apply tame_pure. by intros w log w' log' r [= <- <- <-]. Qed.
Lemma tame_read s file : tame st (read_m s file).
Proof. apply tame_pure. by intros w log w' log' r [= <- <- <-]. Qed.
Lemma tame_read_bytes s file : tame st (read_bytes_m s file).
Proof. apply tame_pure. by intros w log w' log' r [= <- <- <-]. Qed.
Lemma tame_list s sub : tame st (list_m s sub).
Proof. apply tame_pure. by intros w log w' log' r [= <- <- <-]. Qed.
Lemma tame_clock : tame st clock.
Proof. apply tame_pure. by intros w log w' log' r [= <- <- <-]. Qed.
Lemma tame_sleep d : tame st (sleep d).
Proof. apply tame_pure. by intros w log w' log' r [= <- <- <-]. Qed.
Lemma tame_chain `{SealEnv} {A} (f : nat -> A) : tame st (reading_chain f).
Proof. apply tame_pure. by intros w log w' log' r [= <- <- <-]. Qed.
Lemma tame_draw `{SealEnv} : tame st draw.
Proof. apply tame_pure. by intros w log w' log' r [= <- <- <-]. Qed.

Lemma tame_assert b t f : tame st (assert_ b t f).
Proof.
  split; intros w log w' log' r; unfold assert_; destruct (check_passed b t f log) as [Hp _];
    destruct (check b t f log) as [log1 b1]; intros [= <- <- <-]; cbn in *; [|by auto with act|done].
  rewrite Hp. by intros [? _]%andb_true_iff.
Qed.

Lemma tame_bind {A B} (m : Act A) (k : A -> Act B) : tame st m -> (forall a, tame st (k a)) -> tame st (act_bind m k).
Proof.
  intros Hm Hk. split; intros w log w' log' r; unfold act_bind; destruct (m (w, log)) as [[w1 log1] [a|e]] eqn:He.
  - intros Hr Hp. exact (tame_keeps _ _ Hm _ _ _ _ _ He (tame_keeps _ _ (Hk a) _ _ _ _ _ Hr Hp)).
  - intros [= <- <- <-]. exact (tame_keeps _ _ Hm _ _ _ _ _ He).
  - intros Hr Hap. eapply same_run_trans;
      [exact (tame_spares _ _ Hm _ _ _ _ _ He Hap)|exact (tame_spares _ _ (Hk a) _ _ _ _ _ Hr Hap)].
  - intros [= <- <- <-]. exact (tame_spares _ _ Hm _ _ _ _ _ He).
  - intros Hr Hd. rewrite (tame_silent _ _ (Hk a) _ _ _ _ _ Hr Hd). exact (tame_silent _ _ Hm _ _ _ _ _ He Hd).
  - intros [= <- <- <-]. exact (tame_silent _ _ Hm _ _ _ _ _ He).
Qed.

Lemma tame_try {A} (m : Act A) : tame st m -> tame st (try m).
Proof.
  intros Hm. split; intros w log w' log' r; unfold try; destruct (m (w, log)) as [[w1 log1] r1] eqn:He;
    intros [= <- <- <-]; [by eapply tame_keeps|by eapply tame_spares|by eapply tame_silent].
Qed.

Lemma tame_artifact file text : tame st (artifact_m st file text).
Proof.
  split; intros w log w' log' r; unfold artifact_m, on_fs;
    destruct (artifact st file (as_bytes text) (w_fs w)) as [fs r1] eqn:He; intros [= <- <- <-]; [done|..].
  - intros Hap. cbn. pose proof (artifact_same_run st file (as_bytes text) (w_fs w) Hap) as Hs. by rewrite He in Hs.
  - intros Hd. cbn. unfold artifact in He. rewrite Hd in He. by injection He as <- <-.
Qed.
Lemma tame_ensure_dir sub : tame st (ensure_dir_m st sub).
Proof.
  split; intros w log w' log' r; unfold ensure_dir_m, on_fs;
    pose proof (ensure_dir_files st sub (w_fs w)) as Hf;
    destruct (ensure_dir st sub (w_fs w)) as [fs r1] eqn:He; intros [= <- <- <-]; [done|..].
  - intros _ file. cbn in *. by rewrite Hf.
  - intros Hd. cbn. unfold ensure_dir in He. rewrite Hd in He. by injection He as <- <-.
Qed.

Lemma derived_passed s file data f log fs :
  passed (derived s file data f log fs).1.1 = true ->
  passed log = true /\ (forall out, st_mode s = Replay out -> fs_read (st_run s ++ file) fs = Ok data).
Proof.
  intros Hp. destruct (st_mode s) as [|out] eqn:Hm; [|apply (derived_replay s out) in Hp; naive_solver].
  unfold derived in Hp. destruct (artifact s file data fs). cbn [fst] in Hp. unfold compare_persisted in Hp.
  rewrite Hm in Hp. done.
Qed.
Lemma tame_derived file t f : tame st (derived_m st file t f).
Proof.
  split; intros w log w' log' r; unfold derived_m.
  - pose proof (derived_passed st file (as_bytes t) f log (w_fs w)) as Hp.
    destruct (derived st file (as_bytes t) f log (w_fs w)) as [[log1 fs1] r1]. intros [= <- <- <-].
    intros Hl. by apply Hp in Hl as [? _].
  - unfold derived. destruct (artifact st file (as_bytes t) (w_fs w)) as [fs r1] eqn:He. intros [= <- <- <-].
    intros Hap. cbn. pose proof (artifact_same_run st file (as_bytes t) (w_fs w) Hap) as Hs. by rewrite He in Hs.
  - unfold derived. destruct (artifact st file (as_bytes t) (w_fs w)) as [fs r1] eqn:He. intros [= <- <- <-].
    intros Hd. cbn. unfold artifact in He. rewrite Hd in He. by injection He as <- <-.
Qed.
End tame.
#[export] Hint Resolve tame_ret tame_lift tame_say tame_read tame_read_bytes tame_list tame_clock tame_sleep tame_chain
  tame_draw tame_assert tame_try tame_artifact tame_ensure_dir tame_derived : act.

Lemma tame_require st b t f : tame st (require b t f).
Proof. unfold require. apply tame_bind; intros; auto with act. Qed.
Lemma tame_bail {A} st e : tame st (bail (A := A) e).
Proof. apply tame_lift. Qed.
Lemma tame_for_each {A} st (f : A -> Act unit) l : (forall x, tame st (f x)) -> tame st (for_each f l).
Proof. intros Hf. induction l as [|x l IH]; cbn; [auto with act|]. apply tame_bind; auto. Qed.
Lemma tame_fold_act {A B} st (f : B -> A -> Act B) b l : (forall b x, tame st (f b x)) -> tame st (fold_act f b l).
Proof. intros Hf. revert b. induction l as [|x l IH]; intros b; cbn; [auto with act|]. apply tame_bind; auto. Qed.
#[export] Hint Resolve tame_require tame_bail : act.

(** Through an action's code. *)
Ltac tame :=
  repeat first
    [ apply tame_bind; [|intros] | apply tame_for_each; intros | apply tame_fold_act; intros
    | apply tame_try | solve [auto with act] | progress cbv zeta | case_match ].

(** ** Succeeding *)

(** The action ends with a value and a log that passes. *)
Definition succeeds {A} (m : Act A) (s : World * StepLog) (a : A) (s' : World * StepLog) : Prop :=
  m s = (s', Ok a) /\ passed s'.2 = true.

Section succeeds.
Context (st : Store) (fs0 : Fs).

(** The run directory as it was. *)
Abbreviation sees s := (same_run st fs0 (w_fs s.1)).

Lemma same_run_read fs file : same_run st fs0 fs -> fs_read (st_run st ++ file) fs = fs_read (st_run st ++ file) fs0.
Proof. intros Hs. unfold fs_read. by rewrite Hs. Qed.

Lemma succeeds_sees {A} (m : Act A) s a s' : apart st -> tame st m -> sees s -> succeeds m s a s' -> sees s'.
Proof.
  destruct s as [w log], s' as [w' log']. intros Hap Hm Hs [He _]. eapply same_run_trans; [exact Hs|].
  exact (tame_spares _ _ Hm _ _ _ _ _ He Hap).
Qed.

Lemma succeeds_bind {A B} (m : Act A) (k : A -> Act B) s b s' :
  apart st -> tame st m -> (forall a, tame st (k a)) -> sees s -> succeeds (act_bind m k) s b s' ->
  exists a s1, succeeds m s a s1 /\ sees s1 /\ succeeds (k a) s1 b s'.
Proof.
  intros Hap Hm Hk Hs [He Hp]. unfold act_bind in He. destruct (m s) as [[w1 log1] [a|e]] eqn:Hms; [|done].
  assert (succeeds m s a (w1, log1)) as Hsm.
  { split; [done|]. cbn. destruct s' as [w' log']. exact (tame_keeps _ _ (Hk a) _ _ _ _ _ He Hp). }
  exists a, (w1, log1). split; [done|]. split; [by eapply succeeds_sees|by split].
Qed.

Lemma succeeds_ret {A} (a : A) s b s' : succeeds (ret a) s b s' -> b = a.
Proof. by intros [[= _ ->] _]. Qed.
Lemma succeeds_lift {A} (r : result string A) s b s' : succeeds (lift r) s b s' -> r = Ok b.
Proof. by intros [[= _ ->] _]. Qed.
Lemma succeeds_assert ok t f s b s' : succeeds (assert_ ok t f) s b s' -> ok = true /\ b = true.
Proof.
  destruct s as [w log], s' as [w' log']. intros [Hm Hp]. unfold assert_ in Hm.
  destruct (check_passed ok t f log) as [Hc Hb]. destruct (check ok t f log) as [log1 b1].
  injection Hm as <- <- <-. cbn in *. rewrite Hc in Hp. apply andb_true_iff in Hp as [_ ->]. done.
Qed.
Lemma succeeds_require ok t f s b s' : succeeds (require ok t f) s b s' -> ok = true.
Proof.
  destruct s as [w log], s' as [w' log']. intros [Hm Hp]. unfold require, act_bind, assert_ in Hm.
  destruct (check_passed ok t f log) as [Hc Hb]. destruct (check ok t f log) as [log1 b1].
  injection Hm as <- <- <-. cbn in *. rewrite Hc in Hp. by apply andb_true_iff in Hp as [_ ->].
Qed.
Lemma succeeds_try {A} (m : Act A) s r s' : succeeds (try m) s r s' -> forall a, r = Ok a -> succeeds m s a s'.
Proof. intros [Hm Hp] a ->. unfold try in Hm. destruct (m s) as [s1 r1] eqn:He. by injection Hm as -> ->. Qed.
Lemma succeeds_read file s b s' :
  sees s -> succeeds (read_m st file) s b s' -> read st file fs0 = Ok b.
Proof.
  destruct s as [w log]. intros Hs [[= <- Hr] _]. unfold read, read_bytes in *. cbn in Hs.
  by rewrite (same_run_read _ _ Hs) in Hr.
Qed.
Lemma succeeds_read_bytes file s b s' :
  sees s -> succeeds (read_bytes_m st file) s b s' -> fs_read (st_run st ++ file) fs0 = Ok b.
Proof.
  destruct s as [w log]. intros Hs [[= <- Hr] _]. unfold read_bytes in Hr. cbn in Hs.
  rewrite (same_run_read _ _ Hs) in Hr. by apply map_err_ok in Hr.
Qed.
Lemma succeeds_derived file t f s b s' out :
  sees s -> st_mode st = Replay out -> succeeds (derived_m st file t f) s b s' ->
  fs_read (st_run st ++ file) fs0 = Ok (as_bytes t).
Proof.
  destruct s as [w log], s' as [w' log']. intros Hs Hm [He Hp]. unfold derived_m in He.
  pose proof (derived_passed st file (as_bytes t) f log (w_fs w)) as Hd.
  destruct (derived st file (as_bytes t) f log (w_fs w)) as [[log1 fs1] r1]. injection He as <- <- ->.
  rewrite <- (same_run_read _ _ Hs). by eapply (Hd Hp).
Qed.
Lemma succeeds_chain `{SealEnv} {A} (f : nat -> A) s b s' : succeeds (reading_chain f) s b s' -> exists n, b = f n.
Proof. destruct s as [w log]. intros [[= _ <-] _]. by eexists. Qed.
Lemma succeeds_for_each {A} (f : A -> Act unit) (P : A -> Prop) l s b s' :
  apart st -> (forall x, tame st (f x)) -> (forall x s b s', sees s -> succeeds (f x) s b s' -> P x) ->
  sees s -> succeeds (for_each f l) s b s' -> Forall P l.
Proof.
  intros Hap Hk HP. revert s; induction l as [|x l IH]; intros s Hs; cbn; [constructor|]. intros Hf.
  apply succeeds_bind in Hf as (a & s1 & Ha & Hs1 & Hr); [|done|done|intros; by apply tame_for_each|done].
  constructor; eauto.
Qed.
End succeeds.
