(* ===== verification/SealSteps.v ===== *)
(** * What the steps of a seal run share
    ([crates/aqua-timestamp-e2e/src/seal/steps.rs])

    Reading served witnesses and containers, logging a reading, the package of
    a seal, and the evaluator retried within its budget. *)

From S2P Require Import Prelude External Client HarnessPoll HarnessWitness HarnessStore SealSdk SealTamper RunDir SealAct.
Open Scope string_scope.
Open Scope list_scope.
Open Scope Z_scope.

Definition is_ascii_digit (c : Ascii.ascii) : bool :=
  let n := Ascii.N_of_ascii c in (48 <=? n)%N && (n <=? 57)%N.

Definition without_chain_head (provenance : string) : string :=
  match rsplit_at " confirmations " provenance with
  | Some (before, rest) =>
      if forallb is_ascii_digit (String.list_ascii_of_string rest) then before else provenance
  | None => provenance
  end.

(** [debug.split([' ', '{', '(']).next()]. *)
Fixpoint first_word (s : string) : string :=
  match s with
  | EmptyString => EmptyString
  | String c s' =>
      if bool_decide (String c EmptyString ∈ [" "; "{"; "("]) then EmptyString else String c (first_word s')
  end.

Definition RETRY_PAUSE : Duration := nanos 60.
Definition OWN_LEAVES : u64 := 2.
Definition GATE_6A_SDK_TEST : string := "sp2_e8_one_shot_and_two_step_byte_identical".

Section steps.
Context `{HexCrate, SealSdk, !ClientCrates, !HarnessCrates, !SealEnv}.

Record Ctx := {
  cx_store : Store;
  cx_reader : Reader;
  cx_state : RunState;
  cx_header : list string;
  cx_expect_server_did : option string;
  cx_finality_budget : Duration;
}.

(** ** Shared *)

Record ServedPair := { sp_fetched : Fetched; sp_object : AnyRevision; sp_signature : AnyRevision }.

Definition pair_of (fetched : Fetched) : result string ServedPair :=
  let revision key :=
    map_err (fun e => "served revision " +:+ key +:+ ": " +:+ e)
      (rev_from_value (json_index (json_index (fe_tree fetched) "revisions") key)) in
  let? object := revision (fe_object_key fetched) in
  let? signature := revision (fe_signature_key fetched) in
  Ok {| sp_fetched := fetched; sp_object := object; sp_signature := signature |}.

Definition load_pair (store : Store) (file : Path) (method : WitnessMethod) : Act ServedPair :=
  let! body := read_m store file in
  let! fetched := lift (map_err (fun e => file_text file +:+ ": " +:+ witness_error_display e) (parse_witness method body)) in
  lift (pair_of fetched).

(** (A slice that ends inside a character, a panic, is left out.) *)
Definition shorten_token (payloads : Value) : Value :=
  match json_as_str (json_index payloads "transaction_hash") with
  | Some tx =>
      if (100 <? String.length tx)%nat
      then json_set payloads "transaction_hash"
             (json_string (String.substring 0 60 tx +:+ "... (" +:+ num (Z.of_nat (String.length tx)) +:+ " chars)"))
      else payloads
  | None => payloads
  end.

Definition NOT_THE_LINK : string := "anchor missing (served key is not the SDK link)".

Definition served_witness (key : string) (method : WitnessMethod) (body : string) : Act (option SealWitness) :=
  match parse_served method body with
  | Err e => let! _ := require false (key +:+ ": " +:+ witness_error_display e) "anchor missing" in ret None
  | Ok fetched =>
      let stub := detect_stub method (fe_payloads fetched) in
      let! ok := assert_ (bool_decide (stub = None))
                   (key +:+ ": detect_stub on the served payload = " +:+ debug stub) "stub" in
      if negb ok then ret None
      else
        let! pair := lift (pair_of fetched) in
        let! _ := say (key +:+ ": T " +:+ fe_object_key fetched +:+ " payloads " +:+
                       json_to_string (shorten_token (fe_payloads fetched))) in
        let! sig_text := lift (rev_to_string (sp_signature pair)) in
        let! _ := say (key +:+ ": P " +:+ fe_signature_key fetched +:+ " " +:+ sig_text) in
        let! t_link := lift (link_of (sp_object pair)) in
        let! p_link := lift (link_of (sp_signature pair)) in
        let! t_ok := assert_ (bool_decide (link_to_string t_link = fe_object_key fetched))
                       (key +:+ ": served key of T equals SDK link " +:+ link_to_string t_link) NOT_THE_LINK in
        let! p_ok := assert_ (bool_decide (link_to_string p_link = fe_signature_key fetched))
                       (key +:+ ": served key of P equals SDK link " +:+ link_to_string p_link) NOT_THE_LINK in
        ret (if t_ok && p_ok
             then Some {| sw_object := sp_object pair; sw_signature := Some (sp_signature pair) |} else None)
  end.

Definition fetch_status (ctx : Ctx) (key : string) : Act Value :=
  let! s := try (read_m (cx_store ctx) FETCH_STATUS) in
  ret (default json_null (s ← ok s; v ← ok (json_from_str s); Some (json_index v key))).

(** [v["k"] == 200]. *)
Definition is_200 (v : Value) : bool := bool_decide (json_as_u64 v = Some 200).

Definition load_prepared (ctx : Ctx) (seal : Z) : Act PreparedSeal :=
  let! s := read_m (cx_store ctx) (prepared_file seal) in lift (prepared_from_str s).

Definition load_container (ctx : Ctx) : Act Tree :=
  let! s := read_m (cx_store ctx) CONTAINER_1 in lift (tree_from_str s).

Definition receipts_for (anchor : RevisionLink) (head : SealHead) (leaves : list Hash32) (tips : list RevisionLink)
    (nonces : list Hash32) : result string (list SealReceipt) :=
  collect (fun itn : nat * (RevisionLink * Hash32) =>
    map_err (fun e => "receipt " +:+ num (Z.of_nat itn.1) +:+ ": " +:+ e)
      (receipt_issue anchor head leaves (Z.of_nat itn.1) itn.2.1 itn.2.2)) (enumerate (zip tips nonces)).

(** [verify]: an unknown outcome is left to the SDK. *)
Definition verify (reader : Reader) (container : Tree) (input : WitnessInput) : Act SealReading :=
  reading_chain (fun n => verify_seal_container n (re_aq reader) container input (catalogue (re_policy reader))).

(** The members' admissions are one read. *)
Definition members (ctx : Ctx) : Act (list MemberTree) :=
  let! r := reading_chain (fun n => admit_members n (re_aq (cx_reader ctx)) (rs_members (cx_state ctx))) in lift r.

(** A seal reading's parts but for the confirmation counts. *)
Definition stable_acceptance (a : Acceptance) : Acceptance :=
  {| ac_witnesses := map (fun w => {| wr_witness := wr_witness w; wr_descriptor := wr_descriptor w;
                                      wr_admission := wr_admission w; wr_timestamp := wr_timestamp w;
                                      wr_provenance := without_chain_head <$> wr_provenance w |}) (ac_witnesses a);
     ac_findings := ac_findings a |}.

Definition stable (v : VerifiedSeal) : string :=
  String.concat " "
    [debug (seal_status v); seal_signed_head v; link_to_string (seal_genesis v); link_to_string (seal_head_link v);
     link_to_string (seal_signature v); seal_signer v; debug (seal_witnesses v); link_to_string (seal_anchor v);
     seal_sdk_text v; debug (stable_acceptance (seal_acceptance v)); seal_sealer_signature v; debug (seal_time v);
     seal_sdk_errors v; display (seal_identity_verified v)].

Definition log_seal (ctx : Ctx) (label : string) (v : VerifiedSeal) : Act unit :=
  let line text := say ("[" +:+ label +:+ "] " +:+ text) in
  let! _ := line ("SDK status = " +:+ debug (seal_status v)) in
  let! _ := line ("anchor A = " +:+ link_to_string (seal_anchor v) +:+ ", head H = " +:+
                  link_to_string (seal_head_link v) +:+ ", signature S = " +:+ link_to_string (seal_signature v) +:+
                  ", genesis G = " +:+ link_to_string (seal_genesis v)) in
  let! _ := line ("signer = " +:+ seal_signer v) in
  let! _ := line ("signed_head = " +:+ seal_signed_head v) in
  let! _ := line ("witnesses (T links) = " +:+ debug (seal_witnesses v)) in
  let! _ := line ("sealer_signature = " +:+ seal_sealer_signature v) in
  let! _ := line ("witness_acceptance = " +:+ debug (seal_acceptance v)) in
  let! _ := line ("witness findings = " +:+ debug (ac_findings (seal_acceptance v))) in
  let! _ := line ("time = " +:+ debug (seal_time v)) in
  let! _ := line ("sdk outcome = " +:+ seal_sdk_text v +:+ "; sdk errors = " +:+ seal_sdk_errors v) in
  let! _ := line ("sdk tsa_tokens = " +:+ seal_sdk_tsa_tokens v) in
  let! _ := line ("sdk evm_anchors = " +:+ seal_sdk_evm_anchors v) in
  let! _ := line ("identity_verified = " +:+ display (seal_identity_verified v)) in
  let! r := try (artifact_m (cx_store ctx) ["debug"; label +:+ "-seal.txt"] (debug_pretty v +:+ nl)) in
  match r with Ok _ => ret tt | Err e => line ("debug form not written: " +:+ e) end.

Definition log_verdict (label : string) (v : FullSetVerdict) : Act unit :=
  let line text := say ("[" +:+ label +:+ "] " +:+ text) in
  let! _ := line ("full_set_check: set_headline = " +:+ display (fv_set_headline v) +:+ ", completeness = " +:+
                  display (fv_completeness v) +:+ ", integrity = " +:+ display (fv_integrity v) +:+
                  ", non_suppression = " +:+ display (fv_non_suppression v)) in
  let! _ := for_each (fun f => line ("finding " +:+ fi_code f +:+ " " +:+ debug (fi_args f))) (fv_findings v) in
  if decide (fv_findings v = []) then line "findings: none" else ret tt.

Definition log_attestations (label : string) (r : SealAttestationsReading) : Act unit :=
  say ("[" +:+ label +:+ "] read_seal_attestations = " +:+ debug r).

Definition package_of (reading : SealReading) (members : list MemberTree) (receipts : list SealReceipt) : FullSetPackage :=
  match into_seal reading with
  | Ok seal => full_set_package (Some (seal_anchor seal)) [seal] [] members receipts
  | Err rej => full_set_package (rejected_id rej) [] [rej] members receipts
  end.

Definition reading_of (r : SealAttestationsReading) (t : RevisionLink) : option (list AttestationVerdict) :=
  (fun w => map at_verdict (wt_attestations w)) <$>
    List.find (fun w => bool_decide (wt_witness w = t)) (sr_witnesses r).

Definition admission_of (v : VerifiedSeal) (t : RevisionLink) : option WitnessAdmission :=
  wr_admission <$> List.find (fun w => bool_decide (wr_witness w = t)) (ac_witnesses (seal_acceptance v)).

(** *** The evaluator, retried *)

Record Evaluation := {
  ev_prepared : PreparedSeal;
  ev_head : SealHead;
  ev_did : string;
  ev_witnesses : list SealWitness;
  ev_requirement : WitnessRequirement;
  ev_budget : Duration;
}.

Definition retryable (refusal : WitnessRefusal) : bool :=
  match refusal with
  | EvmAnchorNotFinal => true
  | EvmAnchorNotVerified verdict => bool_decide (verdict = "not_evaluable: host_unavailable")
  | _ => false
  end.

Definition evaluate (reader : Reader) (e : Evaluation) : Act (result WitnessRefusal AcceptedWitnesses) :=
  reading_chain (fun n => evaluate_seal_witnesses n (re_aq reader) (ev_prepared e) (ev_head e) (ev_did e)
                            (ev_witnesses e) (ev_requirement e)).

(** [None]: out of fuel. *)
Fixpoint evaluate_loop (fuel : nat) (attempt : Z) (deadline : Duration) (reader : Reader) (e : Evaluation)
    : Act (option (result WitnessRefusal AcceptedWitnesses)) :=
  match fuel with
  | O => ret None
  | S fuel' =>
      let attempt := attempt + 1 in
      let! res := evaluate reader e in
      let! now := clock in
      match res with
      | Err refusal =>
          if retryable refusal && (now <? deadline) then
            let pause := Z.min RETRY_PAUSE (deadline - now) in
            let! _ := say ("evaluate attempt " +:+ num attempt +:+ " at " +:+ utc now +:+ ": " +:+ display refusal +:+
                           " (retryable); retry in " +:+ debug pause) in
            let! _ := sleep pause in
            evaluate_loop fuel' attempt deadline reader e
          else
            let! _ := say ("evaluate attempt " +:+ num attempt +:+ " at " +:+ utc now +:+ ": Err(" +:+ debug refusal +:+
                           ")") in
            ret (Some res)
      | Ok _ =>
          let! _ := say ("evaluate attempt " +:+ num attempt +:+ " at " +:+ utc now +:+ ": Ok") in ret (Some res)
      end
  end.

(** A retry for each minute of the budget, the last one at the deadline. *)
Definition evaluate_fuel (budget : Duration) : nat := Z.to_nat (budget / RETRY_PAUSE) + 3.

Definition evaluate_with_retry (reader : Reader) (e : Evaluation) : Act (result WitnessRefusal AcceptedWitnesses) :=
  let! now := clock in
  let! r := evaluate_loop (evaluate_fuel (ev_budget e)) 0 (now + ev_budget e) reader e in
  match r with Some res => ret res | None => bail "out of fuel" end.
End steps.
