(* ===== verification/SealRun.v ===== *)
(** * The seven steps
    ([crates/aqua-timestamp-e2e/src/seal]: [steps.rs], [replay.rs])

    Each step on the persisted data alone, with the assertions of the source in
    their order; the run of the steps; the replay. *)

From S2P Require Import Prelude External Client HarnessPoll HarnessWitness HarnessStore SealSdk SealTamper RunDir SealAct SealSteps.
Open Scope string_scope.
Open Scope list_scope.
Open Scope Z_scope.

Section run.
Context `{HexCrate, SealSdk, !ClientCrates, !HarnessCrates, !SealEnv}.

Definition leaves1 (st : RunState) : list Hash32 := (rs_leaves st).1.
Definition head1 (st : RunState) : SealHead := (rs_heads st).1.
Definition quoted (s : string) : string := debug s.

(** An inner step's error is a failed assertion. *)
Definition guarded (what : string) (m : Act unit) : Act unit :=
  let! r := try m in
  match r with Ok _ => ret tt | Err e => require false (what +:+ ": " +:+ e) "harness error" end.

(** ** Step 1 *)

(** One of step 1's two fetches. *)
Definition step1_witness (ctx : Ctx) (found : list SealWitness) (fkm : Path * string * WitnessMethod)
    : Act (list SealWitness) :=
  let '(file, key, method) := fkm in
  let! fetch := fetch_status ctx key in
  let! _ := say ("fetch " +:+ key +:+ ": " +:+ json_to_string fetch) in
  let! ok := assert_ (is_200 (json_index fetch "status")) (key +:+ " served with HTTP 200") "anchor missing" in
  if negb ok then ret found
  else
    let! body := read_m (cx_store ctx) file in
    let! w := served_witness key method body in
    ret (match w with Some w => found ++ [w] | None => found end).

(** What step 1 asks of the accepted witnesses, then the container. *)
Definition step1_finish (ctx : Ctx) (prepared : PreparedSeal) (accepted : AcceptedWitnesses) : Act unit :=
  let st := cx_state ctx in
  let! _ := say "evaluate_seal_witnesses returned Ok" in
  let! _ := say ("accepted anchor = " +:+ link_to_string (accepted_anchor accepted) +:+ "; witnesses = " +:+
                 debug (accepted_witnesses accepted)) in
  let n_accepted := length (accepted_witnesses accepted) in
  let! _ := require (n_accepted =? 2)%nat
              ("accepted.witnesses().len() == 2 (got " +:+ num (Z.of_nat n_accepted) +:+ ")") "anchor missing" in
  let kinds : gset AnchorKind := list_to_set (map aw_kind (accepted_witnesses accepted)) in
  let! _ := require (bool_decide (kinds = {[KindEvm; KindTsa]}))
              ("kinds = " +:+ debug kinds) "anchor missing" in
  let! _ := for_each (fun w =>
              require (bool_decide (aw_attester w = Some (rs_server_did st)))
                (debug (aw_kind w) +:+ " witness " +:+ num (aw_timestamp w) +:+ " attester = " +:+
                 debug (aw_attester w) +:+ " (server_did " +:+ rs_server_did st +:+ ")")
                "refusal (attester)") (accepted_witnesses accepted) in
  let! '(container, attestations) := lift (map_err (fun e => "finish_seal: " +:+ e) (finish_seal prepared accepted)) in
  let n := length (tree_revisions container) in
  let! _ := require (n =? 6)%nat
              ("container has " +:+ num (Z.of_nat n) +:+ " revisions (G, H, S, T x2, A expected 6)")
              "refusal (container shape)" in
  let! container_text := lift (tree_to_string container) in
  let! attestations_text := lift (attestations_to_canonical_json attestations) in
  let! _ := artifact_m (cx_store ctx) CONTAINER_1 container_text in
  let! _ := artifact_m (cx_store ctx) ATTESTATIONS_1 attestations_text in
  let! _ := say ("persisted " +:+ file_text CONTAINER_1 +:+ " (" +:+
                 num (Z.of_nat (String.length container_text)) +:+ " bytes) and " +:+ file_text ATTESTATIONS_1 +:+ " (" +:+
                 num (Z.of_nat (String.length attestations_text)) +:+ " bytes)") in
  for_each (fun kr : RevisionLink * AnyRevision =>
    let! v := lift (rev_to_value kr.2) in
    say ("container-1 revision " +:+ link_to_string kr.1 +:+ " " +:+ json_to_string (json_index v "revision_type")))
    (tree_revisions container).

Definition step1_inner (ctx : Ctx) : Act unit :=
  let st := cx_state ctx in
  let! _ := say ("run.json = " +:+ json_to_string (rs_meta st)) in
  let! _ := say ("set (Folder genesis) = " +:+ link_to_string (rs_set st)) in
  let! _ := for_each (fun itl : nat * (RevisionLink * Hash32) =>
              say ("member m" +:+ num (Z.of_nat itl.1 + 1) +:+ " tip (spine().last()) = " +:+
                   link_to_string itl.2.1 +:+ "; seal-1 leaf = " +:+ hex_digest itl.2.2))
              (enumerate (zip (rs_tips st) (leaves1 st))) in
  let! _ := say ("head1 = " +:+ debug (head1 st) +:+ " root " +:+ hex_digest (head_root (head1 st))) in
  let! req_text := lift (requirement_to_string open_witness) in
  let! _ := say ("requirement (serde) = " +:+ req_text) in
  let! witnesses := fold_act (step1_witness ctx) []
                      [(["s1-evm.json"], "s1_evm", WEvm); (["s1-qtsa.json"], "s1_qtsa", WQtsa)] in
  if negb (length witnesses =? 2)%nat then say "not evaluated: a witness is missing"
  else
    let! prepared := load_prepared ctx 1 in
    let! _ := say "prepared seal 1 re-read from prepared-seal-1.json (the stored two-step)" in
    let! prepared_head := lift (prepared_head prepared) in
    let! _ := require (bool_decide (prepared_head = head1 st))
                "prepared-seal-1 head equals SealHead::from_leaves(set, leaves1)" "refusal (prepared state)" in
    let submitter := default "" (json_as_str (json_index (json_index (rs_meta st) "post_body") "submitter_did")) in
    let! _ := require (bool_decide (submitter = rs_did st))
                ("the server's submitter_did " +:+ quoted submitter +:+ " is S's signer " +:+ rs_did st)
                "refusal (prepared state)" in
    let! res := evaluate_with_retry (cx_reader ctx)
                  {| ev_prepared := prepared; ev_head := head1 st; ev_did := rs_did st; ev_witnesses := witnesses;
                     ev_requirement := open_witness; ev_budget := cx_finality_budget ctx |} in
    match res with
    | Err r =>
        require false ("evaluate_seal_witnesses refused: " +:+ display r +:+ " (" +:+ debug r +:+ ")")
          ("refusal " +:+ first_word (debug r))
    | Ok accepted => step1_finish ctx prepared accepted
    end.

Definition step1 (ctx : Ctx) : Act unit := guarded "harness error" (step1_inner ctx).

(** ** Step 2 *)

Record Step2Out := { s2_seal : VerifiedSeal; s2_stable : string }.

(** The receipts of a seal, re-derived: the [i]-th under its file. *)
Definition derive_receipts (ctx : Ctx) (seal : Z) (falsifier : string) (receipts : list SealReceipt) : Act unit :=
  for_each (fun ir : nat * SealReceipt =>
    derived_m (cx_store ctx) (receipt_file seal (Z.of_nat ir.1 + 1)) (receipt_to_json_string ir.2 +:+ nl) falsifier)
    (enumerate receipts).

Definition is_pass (d : DimensionState) : bool := bool_decide (d = Pass).

(** The attestations under one set of pins. *)
Definition step2_attestations (ctx : Ctx) (seal : VerifiedSeal) (doc : string)
    (bp : AttestationBasis * gset string) : Act unit :=
  let '(basis, pins) := bp in
  let st := cx_state ctx in
  let policy := re_policy (cx_reader ctx) in
  let r := read_seal_attestations seal (Some doc) pins in
  let! _ := log_attestations ("P2 pins " +:+ debug pins) r in
  let! _ := require (length (sr_witnesses r) =? 2)%nat
              ("attestation reading has 2 witnesses (pins " +:+ debug pins +:+ ")") "no attester" in
  let! _ := for_each (fun w =>
              require (bool_decide (map at_verdict (wt_attestations w) =
                                    [AttVerified (rs_server_did st) (rp_sealer_signature_type policy) basis]))
                ("witness " +:+ link_to_string (wt_witness w) +:+ ": one attestation Verified{attester " +:+
                 rs_server_did st +:+ ", " +:+ rp_sealer_signature_type policy +:+ ", basis " +:+ debug basis +:+ "}")
                "no attester") (sr_witnesses r) in
  require (bool_decide (sr_unmatched r = []) && bool_decide (sr_findings r = []) && bool_decide (sr_rejected r = None))
    "unmatched empty, findings empty, rejected None" "no attester".

(** The verdicts of the container's reading and of the full-set check. *)
Definition step2_verdicts (ctx : Ctx) (seal : VerifiedSeal) (v : FullSetVerdict) : Act unit :=
  let policy := re_policy (cx_reader ctx) in
  let! _ := require (bool_decide (seal_status seal = StatusVerified))
              ("seal.status() == Verified (got " +:+ debug (seal_status seal) +:+ ")") "partially_verified" in
  let! _ := require (sealer_signature_is_admitted seal)
              ("sealer_signature().is_admitted() (catalogue kind " +:+ catalogue_kind (catalogue policy) +:+ ")")
              "partially_verified" in
  let wa := ac_witnesses (seal_acceptance seal) in
  let admitted := length (List.filter (fun w => bool_decide (wr_admission w = Admitted_)) wa) in
  let! _ := require ((length wa =? 2)%nat && (admitted =? 2)%nat)
              ("witness_acceptance().witnesses: " +:+ num (Z.of_nat (length wa)) +:+ " readings, " +:+
               num (Z.of_nat admitted) +:+ " Admitted (want 2 and 2)") "partially_verified" in
  let! _ := for_each (fun w =>
              say ("witness " +:+ link_to_string (wr_witness w) +:+ " descriptor " +:+ wr_descriptor w +:+
                   " admission " +:+ debug (wr_admission w) +:+ " timestamp " +:+ num (wr_timestamp w) +:+
                   " provenance " +:+ debug (wr_provenance w))) wa in
  let time_ok := match ti_accepted (seal_time seal) with Some ws => (length ws =? 2)%nat | None => false end in
  let! _ := require time_ok ("time is SealTime::Accepted with 2 witnesses (" +:+ debug (seal_time seal) +:+ ")")
              "partially_verified" in
  let! _ := require (bool_decide (fv_set_headline v = HeadlineVerified))
              ("set_headline == verified (got " +:+ display (fv_set_headline v) +:+ ")") "partially_verified" in
  let! _ := require (is_pass (fv_completeness v) && is_pass (fv_integrity v) && is_pass (fv_non_suppression v))
              "completeness, integrity, non_suppression all pass" "partially_verified" in
  let extra := existsb (fun f => bool_decide (fi_code f = "seal_extra_revisions")) (fv_findings v) in
  require (negb extra) "no seal_extra_revisions finding" "seal_extra_revisions".

Definition step2_inner (ctx : Ctx) : Act (option Step2Out) :=
  let st := cx_state ctx in
  let policy := re_policy (cx_reader ctx) in
  let! _ := say ("reader policy = " +:+ describe policy "P2" true (rs_server_did st)) in
  let! _ := say ("catalogue kind = " +:+ catalogue_kind (catalogue policy) +:+ ", source = " +:+
                 catalogue_source (catalogue policy)) in
  let! c := try (load_container ctx) in
  match c with
  | Err e =>
      let! _ := require false (file_text CONTAINER_1 +:+ " exists (from step 1): " +:+ e)
                  "partially_verified (no container from step 1)" in
      ret None
  | Ok container =>
      let! reading := verify (cx_reader ctx) container (dual policy) in
      let! admitted_members := members ctx in
      match reading_seal reading, reading_rejected reading with
      | Some seal, _ =>
          let! _ := log_seal ctx "step2-P2" seal in
          let! receipts := lift (receipts_for (seal_anchor seal) (head1 st) (leaves1 st) (rs_tips st) (rs_nonces st).1) in
          let! _ := derive_receipts ctx 1 "partially_verified (receipt differs)" receipts in
          let v := full_set_check (package_of reading admitted_members receipts) in
          let! _ := log_verdict "P2" v in
          let! _ := step2_verdicts ctx seal v in
          let! doc := read_m (cx_store ctx) ATTESTATIONS_1 in
          let! _ := for_each (step2_attestations ctx seal doc) [(Unpinned, ∅); (Pinned, {[rs_server_did st]})] in
          let! _ :=
            match cx_expect_server_did ctx with
            | Some want =>
                require (bool_decide (rs_server_did st = want))
                  ("server_did from /.well-known/aqua-identity = " +:+ rs_server_did st +:+
                   " equals --expect-server-did " +:+ want) "no attester"
            | None =>
                say ("server_did from /.well-known/aqua-identity = " +:+ rs_server_did st +:+
                     ", no --expect-server-did given")
            end in
          ret (Some {| s2_seal := seal; s2_stable := stable seal |})
      | None, Some r =>
          let! _ := require false ("container read as a seal (rejected: " +:+ display r +:+ ")") "partially_verified" in
          let v := full_set_check (package_of reading admitted_members []) in
          let! _ := log_verdict "P2" v in
          ret None
      | None, None => bail "unknown SealReading variant"
      end
  end.

Definition step2 (ctx : Ctx) : Act (option Step2Out) :=
  let! r := try (step2_inner ctx) in
  match r with
  | Ok out => ret out
  | Err e => let! _ := require false ("harness error: " +:+ e) "harness error" in ret None
  end.

(** ** Step 3 *)

Definition is_not_admitted (a : option WitnessAdmission) : bool :=
  match a with Some (NotAdmitted _) => true | _ => false end.

Definition step3_inner (ctx : Ctx) : Act unit :=
  let st := cx_state ctx in
  let policy := re_policy (cx_reader ctx) in
  let! _ := say ("reader policy = " +:+ describe policy "P3" false (rs_server_did st)) in
  let! c := try (load_container ctx) in
  match c with
  | Err e =>
      require false (file_text CONTAINER_1 +:+ " exists (from step 1): " +:+ e)
        "below verified (no container from step 1)"
  | Ok container =>
      let! t_qtsa := load_pair (cx_store ctx) ["s1-qtsa.json"] WQtsa in
      let! t_evm := load_pair (cx_store ctx) ["s1-evm.json"] WEvm in
      let! reading := verify (cx_reader ctx) container (tsa_only policy) in
      let! admitted_members := members ctx in
      match reading_seal reading with
      | None => require false "container read as a seal" "below verified"
      | Some seal =>
          let! _ := log_seal ctx "step3-P3" seal in
          let! receipts := lift (receipts_for (seal_anchor seal) (head1 st) (leaves1 st) (rs_tips st) (rs_nonces st).1) in
          let v := full_set_check (package_of reading admitted_members receipts) in
          let! _ := log_verdict "P3" v in
          let! _ := require (bool_decide (seal_status seal = StatusVerified))
                      ("seal.status() == Verified (got " +:+ debug (seal_status seal) +:+ ")") "below verified" in
          let! tq := lift (link_parse (fe_object_key (sp_fetched t_qtsa))) in
          let! te := lift (link_parse (fe_object_key (sp_fetched t_evm))) in
          let adm_q := admission_of seal tq in
          let adm_e := admission_of seal te in
          let! _ := require (bool_decide (adm_q = Some Admitted_))
                      ("TSA witness " +:+ link_to_string tq +:+ " Admitted (got " +:+ debug adm_q +:+ ")") "below verified" in
          let! _ := require (is_not_admitted adm_e)
                      ("EVM witness " +:+ link_to_string te +:+ " NotAdmitted (got " +:+ debug adm_e +:+ ")")
                      "below verified" in
          let findings := ac_findings (seal_acceptance seal) in
          let listed := existsb (fun x => bool_decide (head x = Some "trust_input_not_admitted")) findings in
          let! _ := require listed ("finding trust_input_not_admitted listed in the witness findings " +:+ debug findings)
                      "below verified" in
          let in_set := existsb (fun x => bool_decide (fi_code x = "trust_input_not_admitted")) (fv_findings v) in
          let! _ := say ("trust_input_not_admitted also in full_set findings: " +:+ display in_set) in
          require (bool_decide (fv_set_headline v = HeadlineVerified))
            ("set_headline == verified (got " +:+ display (fv_set_headline v) +:+ ")") "below verified"
      end
  end.

Definition step3 (ctx : Ctx) : Act unit := guarded "harness error" (step3_inner ctx).

(** ** Step 4 *)

Definition NOT_ONE : string := "seal 2 not exactly one qTSA T".
Definition DIFFERS : string := "seal 2 differs from the persisted run".

(** Seal 2 built from its one witness, and read back. *)
Definition step4a_built (ctx : Ctx) (prepared : PreparedSeal) (accepted : AcceptedWitnesses) : Act unit :=
  let st := cx_state ctx in
  let policy := re_policy (cx_reader ctx) in
  let kinds := map aw_kind (accepted_witnesses accepted) in
  let! _ := say ("seal 2 accepted witnesses = " +:+ debug (accepted_witnesses accepted)) in
  let! _ := require (bool_decide (kinds = [KindTsa]))
              ("seal 2 accepted kinds = " +:+ debug kinds +:+ " (exactly one, Tsa)") NOT_ONE in
  let! '(container, attestations) := lift (map_err (fun e => "finish_seal: " +:+ e) (finish_seal prepared accepted)) in
  let n := length (tree_revisions container) in
  let! _ := require (n =? 5)%nat
              ("container 2 has " +:+ num (Z.of_nat n) +:+ " revisions (G, H, S, T, A expected 5)") NOT_ONE in
  let! container_text := lift (tree_to_string container) in
  let! _ := derived_m (cx_store ctx) CONTAINER_2 container_text DIFFERS in
  let! attestations_text := lift (attestations_to_canonical_json attestations) in
  let! _ := derived_m (cx_store ctx) ATTESTATIONS_2 attestations_text DIFFERS in
  let! reading := verify (cx_reader ctx) container (tsa_only policy) in
  let! admitted_members := members ctx in
  match reading_seal reading with
  | None => require false "container 2 read as a seal" "seal 2 below verified"
  | Some seal =>
      let! _ := log_seal ctx "step4a-P3" seal in
      let! _ := require (length (seal_witnesses seal) =? 1)%nat
                  ("seal 2 links exactly one T (" +:+ debug (seal_witnesses seal) +:+ ")") NOT_ONE in
      let! receipts := lift (receipts_for (seal_anchor seal) (rs_heads st).2 (rs_leaves st).2 (rs_tips st) (rs_nonces st).2) in
      let! _ := derive_receipts ctx 2 DIFFERS receipts in
      let v := full_set_check (package_of reading admitted_members receipts) in
      let! _ := log_verdict "seal2 P3" v in
      let! _ := require (bool_decide (seal_status seal = StatusVerified))
                  ("seal 2 status == Verified (got " +:+ debug (seal_status seal) +:+ ")") "seal 2 below verified" in
      require (bool_decide (fv_set_headline v = HeadlineVerified))
        ("seal 2 set_headline == verified (got " +:+ display (fv_set_headline v) +:+ ")") "seal 2 below verified"
  end.

Definition step4a (ctx : Ctx) : Act unit :=
  let st := cx_state ctx in
  let policy := re_policy (cx_reader ctx) in
  let! _ := say "--- 4a: seal 2, qTSA only" in
  let req := without_evm open_witness in
  let! req_text := lift (requirement_to_string req) in
  let! _ := say ("requirement (serde) = " +:+ req_text) in
  let! _ := say ("reader policy = " +:+ describe policy "P3" false (rs_server_did st)) in
  let! fetch := fetch_status ctx "s2_qtsa" in
  let! _ := say ("fetch s2_qtsa: " +:+ json_to_string fetch) in
  let! p := try (load_pair (cx_store ctx) ["s2-qtsa.json"] WQtsa) in
  match p with
  | Err e => require false ("s2 qTSA witness: " +:+ e) "seal 2 not built (witness missing)"
  | Ok served =>
      let! _ := say ("s2_qtsa: T " +:+ fe_object_key (sp_fetched served) +:+ " P " +:+
                     fe_signature_key (sp_fetched served)) in
      let! prepared := load_prepared ctx 2 in
      let! res := evaluate_with_retry (cx_reader ctx)
                    {| ev_prepared := prepared; ev_head := (rs_heads st).2; ev_did := rs_did st;
                       ev_witnesses := [{| sw_object := sp_object served; sw_signature := Some (sp_signature served) |}];
                       ev_requirement := req; ev_budget := 0 |} in
      match res with
      | Err r =>
          require false ("seal 2 evaluate refused: " +:+ display r +:+ " (" +:+ debug r +:+ ")")
            "seal 2 not built (refusal)"
      | Ok accepted => step4a_built ctx prepared accepted
      end
  end.

Definition STEP4B_FALS : string := "a seal without T is written".
Definition in_quotes (s : string) : string :=
  let q := String (Ascii.ascii_of_nat 34) EmptyString in q +:+ s +:+ q.
Definition EMPTY_REQUIREMENT : string :=
  "{" +:+ String.concat "," (map (fun kv : string * string => in_quotes kv.1 +:+ ":" +:+ kv.2)
    [("kinds", "[]"); ("tsa_minimum", in_quotes "none"); ("attestation", in_quotes "if_present")]) +:+ "}".

(** Fresh leaves over the tips, for the probe with no provider. *)
Fixpoint fresh_leaves (tips : list RevisionLink) : Act (list Hash32) :=
  match tips with
  | [] => ret []
  | t :: tips' =>
      let! n := draw in
      let! leaf := lift (map_err sdk_error_text (shielded_leaf t n)) in
      let! leaves := fresh_leaves tips' in
      ret (leaf :: leaves)
  end.

Definition step4b (ctx : Ctx) : Act unit :=
  let st := cx_state ctx in
  let aq := re_aq (cx_reader ctx) in
  let req := without_evm open_witness in
  let! _ := say "--- 4b: refusal probes (a container file is written under step4b/ only on Ok)" in
  let! _ := ensure_dir_m (cx_store ctx) ["step4b"] in
  let p1 := requirement_kinds [] IfPresent in
  let! _ := say ("probe 1 WitnessRequirement::kinds([], IfPresent) = " +:+ debug p1) in
  let! _ := require (match p1 with Err SealNoWitness => true | _ => false end)
              "probe 1 is Err(SealError::NoWitness)" STEP4B_FALS in
  let p2 := requirement_from_str EMPTY_REQUIREMENT in
  let! _ := say ("probe 2 serde " +:+ EMPTY_REQUIREMENT +:+ " = " +:+ debug p2) in
  let! _ := require (negb (is_ok p2)) "probe 2 serde form refused" STEP4B_FALS in
  let! prepared := load_prepared ctx 2 in
  let! p3 := reading_chain (fun n => evaluate_seal_witnesses n aq prepared (rs_heads st).2 (rs_did st) [] req) in
  let! _ := say ("probe 3 evaluate_seal_witnesses(.., &[], open_witness().without_evm()) = " +:+
                 match p3 with Ok _ => "Ok(..)" | Err e => "Err(" +:+ debug e +:+ ")" end) in
  let! _ := require (match p3 with Err RefusedNoWitness => true | _ => false end)
              "probe 3 is Err(WitnessRefusal::NoWitness)" STEP4B_FALS in
  let! leaves := fresh_leaves (rs_tips st) in
  let! head2b := lift (head_from_leaves (rs_set st) leaves) in
  let! throwaway := draw in
  let! p4 := reading_chain (fun n => build_seal_container n aq head2b (secp256k1_key throwaway) req) in
  let! _ :=
    match p4 with
    | Ok (container, _) =>
        let! text := lift (tree_to_string container) in
        let! _ := artifact_m (cx_store ctx) ["step4b"; "container-probe4.json"] text in
        say "probe 4 build_seal_container returned Ok: container written to step4b/container-probe4.json"
    | Err e =>
        say ("probe 4 build_seal_container(.., providers [], open_witness().without_evm()) = Err(" +:+ debug e +:+ ")")
    end in
  let! _ := require (match p4 with Err (Refused RefusedNoWitness) => true | _ => false end)
              "probe 4 is Err(SealError::Refused(NoWitness))" STEP4B_FALS in
  let! files := list_m (cx_store ctx) ["step4b"] in
  require (bool_decide (files = [])) ("step4b/ holds no container (" +:+ debug files +:+ ")") STEP4B_FALS.

Definition step4 (ctx : Ctx) : Act unit :=
  let! _ := guarded "harness error (4a)" (step4a ctx) in guarded "harness error (4b)" (step4b ctx).
End run.
