(* ===== verification/SealReplay.v ===== *)
(** * Tampering, the rebuild, the epoch's listing; the run and the replay
    ([crates/aqua-timestamp-e2e/src/seal]: [steps.rs], [replay.rs])

    Steps 5 to 7, the run of the steps with their logs written as they end,
    and the replay of a persisted run. *)

From S2P Require Import Prelude External Client HarnessPoll HarnessWitness HarnessStore SealSdk SealTamper RunDir SealAct SealSteps SealRun.
Open Scope string_scope.
Open Scope list_scope.
Open Scope Z_scope.

(** *** How much of an epoch is seen *)

Inductive PairCoverage := Full (pairs : u64) | Partial (pairs leaf_count : u64).

Definition pair_coverage (visible_pairs own_leaves leaf_count : u64) : result string PairCoverage :=
  let want := 2 * own_leaves in
  if negb (visible_pairs =? want) then
    Err (num visible_pairs +:+ " witness pairs visible, 2 x " +:+ num own_leaves +:+ " own leaves = " +:+ num want +:+
         " expected")
  else if leaf_count <? own_leaves then
    Err ("epoch lists leaf_count " +:+ num leaf_count +:+ ", fewer than the " +:+ num own_leaves +:+ " own leaves")
  else if leaf_count =? own_leaves then Ok (Full visible_pairs)
  else Ok (Partial visible_pairs leaf_count).

Section replay.
Context `{HexCrate, SealSdk, !ClientCrates, !HarnessCrates, !SealEnv}.

(** ** Step 5 *)

Definition STEP5A_FALS : string := "Q16 default: a reading is verified or pass, or a dimension is fail".

Definition finding_is (code : string) (args : list string) (f : Finding) : bool :=
  bool_decide (fi_code f = code) && bool_decide (fi_args f = args).

(** What the tampered container must read as. *)
Definition step5a_verdicts (ctx : Ctx) (seal : VerifiedSeal) (v : FullSetVerdict) (a2_link t2_link : RevisionLink) : Act unit :=
  let st := cx_state ctx in
  let adm := admission_of seal t2_link in
  let failed_ok := match adm with Some (Failed r) => negb (bool_decide (r = "")) | _ => false end in
  let! _ := require failed_ok
              ("TSA witness T' reads WitnessAdmission::Failed(reason) with a non-empty reason (got " +:+ debug adm +:+ ")")
              "witness not Failed with a reason" in
  let! _ := require (bool_decide (seal_status seal = StatusNotChecked))
              ("per-seal status NotChecked (got " +:+ debug (seal_status seal) +:+ ")") STEP5A_FALS in
  let! _ := require (bool_decide (fv_integrity v = NotChecked))
              ("set integrity not_checked (got " +:+ display (fv_integrity v) +:+ ")") STEP5A_FALS in
  let! _ := require (existsb (finding_is "seal_witness_failed" [link_to_string a2_link; link_to_string t2_link])
                       (fv_findings v))
              ("finding seal_witness_failed(" +:+ link_to_string a2_link +:+ ", " +:+ link_to_string t2_link +:+ ")")
              STEP5A_FALS in
  let ho := handover_is_pass seal (rs_did st) in
  let! _ := say ("handover_check_seal(seal', " +:+ rs_did st +:+ ") = " +:+ debug ho) in
  let! _ := require (negb ho) "hand-over not pass" STEP5A_FALS in
  let! _ := require (bool_decide (fv_set_headline v = PartiallyVerified))
              ("set_headline == partially_verified (got " +:+ display (fv_set_headline v) +:+ ")") STEP5A_FALS in
  let! _ := require (negb (bool_decide (fv_completeness v = Fail_)) && negb (bool_decide (fv_non_suppression v = Fail_)))
              ("completeness (" +:+ display (fv_completeness v) +:+ ") and non_suppression (" +:+
               display (fv_non_suppression v) +:+ ") not fail") STEP5A_FALS in
  require (negb (bool_decide (seal_status seal = StatusVerified)) &&
           negb (bool_decide (fv_set_headline v = HeadlineVerified))) "not verified" "verified".

(** The token flipped in place, under its old key. *)
Definition step5a2 (ctx : Ctx) (c1 : Tree) (tq : RevisionLink) (t2 : AnyRevision) (a_key : RevisionLink) : Act unit :=
  let st := cx_state ctx in
  let policy := re_policy (cx_reader ctx) in
  let! _ := say "--- 5a2 (record): in-place flip under the old key, A unchanged" in
  let c5b := tree_with_revisions c1 (btree_insert tq t2 (tree_revisions c1)) in
  let! text := lift (tree_to_string c5b) in
  let! _ := artifact_m (cx_store ctx) ["container-5a2.json"] text in
  let! r2 := verify (cx_reader ctx) c5b (dual policy) in
  let! admitted_members := members ctx in
  let st2 := reading_status r2 in
  let! _ := say ("5a2 reading: " +:+
              match reading_seal r2, reading_rejected r2 with
              | Some s, _ => "seal, status " +:+ debug (seal_status s) +:+ ", acceptance " +:+ debug (seal_acceptance s)
              | None, Some r => "rejected: " +:+ display r
              | None, None => "unknown SealReading variant"
              end) in
  let! receipts := lift (receipts_for a_key (head1 st) (leaves1 st) (rs_tips st) (rs_nonces st).1) in
  let v2 := full_set_check (package_of r2 admitted_members receipts) in
  let! _ := log_verdict "5a2 P2" v2 in
  require (negb (bool_decide (st2 = StatusVerified)) && negb (bool_decide (fv_set_headline v2 = HeadlineVerified)))
    ("5a2 not verified (status " +:+ debug st2 +:+ ", headline " +:+ display (fv_set_headline v2) +:+ ")") "verified".

Definition step5a (ctx : Ctx) (s2 : option Step2Out) : Act unit :=
  let st := cx_state ctx in
  let policy := re_policy (cx_reader ctx) in
  let! _ := say "--- 5a: relinked qTSA tamper, read with P2" in
  let! _ := say ("reader policy = " +:+ describe policy "P2" true (rs_server_did st)) in
  let! c := try (load_container ctx) in
  match c, s2 with
  | Err e, _ =>
      require false (file_text CONTAINER_1 +:+ " exists (from step 1): " +:+ e) "verified (no container from step 1)"
  | Ok _, None =>
      require false "step 2 seal reading available (it names A and H)" "verified (no seal reading from step 2)"
  | Ok c1, Some s2 =>
      let a_key := seal_anchor (s2_seal s2) in
      let head_link := seal_head_link (s2_seal s2) in
      let! qtsa := load_pair (cx_store ctx) ["s1-qtsa.json"] WQtsa in
      let! tq := lift (link_parse (fe_object_key (sp_fetched qtsa))) in
      let! evm := load_pair (cx_store ctx) ["s1-evm.json"] WEvm in
      let! te := lift (link_parse (fe_object_key (sp_fetched evm))) in
      let! relinked := lift (relink_flipped_token c1 a_key head_link tq te) in
      let t2_link := rl_flipped_link relinked in
      let a2_link := rl_anchor_link relinked in
      let c5 := rl_container relinked in
      let! _ := say ("flip: " +:+ rl_note relinked) in
      let! _ := say ("T " +:+ link_to_string tq +:+ " -> T' " +:+ link_to_string t2_link +:+
                     " (SDK global_calculate_hash)") in
      let! _ := say ("A " +:+ link_to_string a_key +:+ " -> A' " +:+ link_to_string a2_link +:+ " = Anchor::new(H " +:+
                     link_to_string head_link +:+ ", A's method, sorted " +:+ debug (rl_links relinked) +:+
                     "), calculate_link then populate_leaves") in
      let! text := lift (tree_to_string c5) in
      let! _ := artifact_m (cx_store ctx) ["container-5a.json"] text in
      let! _ := say ("container' = G, H, S, T_evm, T', A' (" +:+ num (Z.of_nat (length (tree_revisions c5))) +:+
                     " revisions), written as container-5a.json") in
      let! reading := verify (cx_reader ctx) c5 (dual policy) in
      let! admitted_members := members ctx in
      let! _ :=
        match reading_seal reading, reading_rejected reading with
        | None, Some r => say ("container' rejected: " +:+ display r)
        | _, _ => ret tt
        end in
      let! receipts := lift (receipts_for a2_link (head1 st) (leaves1 st) (rs_tips st) (rs_nonces st).1) in
      let v := full_set_check (package_of reading admitted_members receipts) in
      let! _ := log_verdict "5a P2" v in
      match reading_seal reading with
      | None => require false "container' read as a seal (needed for the witness reading)" STEP5A_FALS
      | Some seal =>
          let! _ := log_seal ctx "step5a-P2" seal in
          let! _ := step5a_verdicts ctx seal v a2_link t2_link in
          step5a2 ctx c1 tq (rl_flipped relinked) a_key
      end
  end.

Definition names_did (s : string) : bool := contains "did:" s.

Definition rekeyed_reading_ok (r : SealAttestationsReading) (t new_key : RevisionLink) : result string string :=
  match List.find (fun w => bool_decide (wt_witness w = t)) (sr_witnesses r) with
  | None => Err ("no reading for witness " +:+ link_to_string t)
  | Some witness =>
      match wt_attestations witness with
      | [one] =>
          if decide (at_attestation one <> new_key)
          then Err ("read P " +:+ link_to_string (at_attestation one) +:+ " is not the re-keyed " +:+ link_to_string new_key)
          else
            match at_verdict one with
            | AttVerified attester _ _ => Err ("Verified with attester " +:+ attester)
            | Unverifiable cause =>
                if decide (cause = "not_addressed") then Err "stopped at addressing: the signature check did not run"
                else if names_did cause then Err ("a DID in the cause: " +:+ cause)
                else if negb (starts_with "signature_invalid" cause)
                then Err ("the signature check did not run: " +:+ cause)
                else if names_did (debug witness) then Err ("a DID in the witness reading: " +:+ debug witness)
                else Ok cause
            end
      | _ => Err ("expected one attestation over " +:+ link_to_string t +:+ ", got " +:+ debug (wt_attestations witness))
      end
  end.

Definition STEP5B_FALS : string :=
  "an attester DID is reported for a removed or altered P, or the seal reading changes".

(** The documents of 5b. *)
Record Tampered := {
  td_removed : string;
  td_altered : string;
  td_alone : string;
  td_rekeyed : string;
  td_rekeyed_alone : string;
  td_key : RevisionLink;
}.

(** The five readings under one set of pins. *)
Definition step5b_pins (seal : VerifiedSeal) (tq : RevisionLink) (d : Tampered) (pins : gset string) : Act unit :=
  let shown := debug pins in
  let r := read_seal_attestations seal (Some (td_removed d)) pins in
  let! _ := log_attestations ("removed, pins " +:+ shown) r in
  let q := reading_of r tq in
  let! _ := require (match q with Some v => bool_decide (v = []) | None => true end)
              ("removed: qTSA witness has no attestation and no attester (got " +:+ debug q +:+ ")") STEP5B_FALS in
  let r := read_seal_attestations seal (Some (td_altered d)) pins in
  let! _ := log_attestations ("altered, pins " +:+ shown) r in
  let q := default [] (reading_of r tq) in
  let wq := default "" (debug <$> List.find (fun w => bool_decide (wt_witness w = tq)) (sr_witnesses r)) in
  let ok := match q with [Unverifiable cause] => negb (names_did cause) | _ => false end && negb (names_did wq) in
  let! _ := require ok
              ("altered: qTSA witness reads Unverifiable{cause} with no did: in the cause or its reading (got " +:+
               debug q +:+ ")") STEP5B_FALS in
  let elsewhere := debug (sr_unmatched r) +:+ " " +:+ debug (sr_findings r) in
  let! _ := require (negb (names_did elsewhere)) "altered: no did: in unmatched or findings" STEP5B_FALS in
  let r := read_seal_attestations seal (Some (td_alone d)) pins in
  let! _ := log_attestations ("altered alone, pins " +:+ shown) r in
  let q := default [] (reading_of r tq) in
  let ok := match q with [Unverifiable _] => true | _ => false end && negb (names_did (debug r)) in
  let! _ := require ok "altered alone: Unverifiable and no did: anywhere in the reading" STEP5B_FALS in
  let r := read_seal_attestations seal (Some (td_rekeyed d)) pins in
  let! _ := log_attestations ("re-keyed, pins " +:+ shown) r in
  let verdict := rekeyed_reading_ok r tq (td_key d) in
  let! _ := require (is_ok verdict)
              ("re-keyed: addressed P with a bad signature is not Verified, the SDK ran the signature check, no attester (" +:+
               debug verdict +:+ ")") STEP5B_FALS in
  let r := read_seal_attestations seal (Some (td_rekeyed_alone d)) pins in
  let! _ := log_attestations ("re-keyed alone, pins " +:+ shown) r in
  let verdict := rekeyed_reading_ok r tq (td_key d) in
  require (is_ok verdict && negb (names_did (debug r)))
    ("re-keyed alone: no did: anywhere in the reading (" +:+ debug verdict +:+ ")") STEP5B_FALS.

(** The altered documents, each written. *)
Definition step5b_documents (ctx : Ctx) (doc : Value) (tq : RevisionLink) (pq : string) : Act Tampered :=
  let write name text := artifact_m (cx_store ctx) [name] text in
  let! removed := lift (remove_p doc pq) in
  let removed_s := json_to_string removed in
  let! _ := write "attestations-5b-removed.json" removed_s in
  let! '(altered, note) := lift (alter_p_key_kept doc pq) in
  let altered_s := json_to_string altered in
  let! _ := write "attestations-5b-altered.json" altered_s in
  let! alone := lift (only_p altered pq) in
  let alone_s := json_to_string alone in
  let! _ := write "attestations-5b-altered-alone.json" alone_s in
  let! _ := say ("qTSA T " +:+ link_to_string tq +:+ ", its P " +:+ pq +:+ "; " +:+ note) in
  let! rekeyed := lift (rekey_bad_signature doc pq) in
  let rekeyed_s := json_to_string (rk_doc rekeyed) in
  let! _ := write "attestations-5b-rekeyed.json" rekeyed_s in
  let rekeyed_key := link_to_string (rk_key rekeyed) in
  let! rekeyed_alone := lift (only_p (rk_doc rekeyed) rekeyed_key) in
  let rekeyed_alone_s := json_to_string rekeyed_alone in
  let! _ := write "attestations-5b-rekeyed-alone.json" rekeyed_alone_s in
  let! _ := say ("re-keyed variant: " +:+ rk_note rekeyed +:+ ", P " +:+ pq +:+ " -> P' " +:+ rekeyed_key +:+
                 " (SDK link of the altered P)") in
  ret {| td_removed := removed_s; td_altered := altered_s; td_alone := alone_s; td_rekeyed := rekeyed_s;
         td_rekeyed_alone := rekeyed_alone_s; td_key := rk_key rekeyed |}.

Definition step5b (ctx : Ctx) (s2 : option Step2Out) : Act unit :=
  let st := cx_state ctx in
  let! _ := say "--- 5b: attestation document of seal 1, qTSA P removed / altered (Q16 default)" in
  match s2 with
  | None => require false "step 2 seal reading available" STEP5B_FALS
  | Some s2 =>
      let! text := read_m (cx_store ctx) ATTESTATIONS_1 in
      let! doc := lift (json_from_str text) in
      let! qtsa := load_pair (cx_store ctx) ["s1-qtsa.json"] WQtsa in
      let! tq := lift (link_parse (fe_object_key (sp_fetched qtsa))) in
      let pq := fe_signature_key (sp_fetched qtsa) in
      if bool_decide (json_get (json_index doc "revisions") pq = None)
      then require false ("qTSA P " +:+ pq +:+ " is in " +:+ file_text ATTESTATIONS_1) STEP5B_FALS
      else
        let! d := step5b_documents ctx doc tq pq in
        let! _ := for_each (step5b_pins (s2_seal s2) tq d) [∅; {[rs_server_did st]}] in
        let! c1 := load_container ctx in
        let! reading := verify (cx_reader ctx) c1 (dual (re_policy (cx_reader ctx))) in
        match into_seal reading with
        | Ok again =>
            let eq := bool_decide (stable again = s2_stable s2) in
            let! _ := require eq
              "a fresh P2 read of container 1 is byte-equal to step 2 (stable form): the seal reading did not change"
              STEP5B_FALS in
            if eq then ret tt
            else let! _ := say ("step 2 stable: " +:+ s2_stable s2) in say ("fresh stable : " +:+ stable again)
        | Err r => require false ("fresh P2 read of container 1 is a seal (rejected: " +:+ display r +:+ ")") STEP5B_FALS
        end
  end.

Definition step5 (ctx : Ctx) (s2 : option Step2Out) : Act unit :=
  let! _ := guarded "harness error (5a)" (step5a ctx s2) in guarded "harness error (5b)" (step5b ctx s2).

(** ** Step 6 *)

Definition STEP6_FALS : string := "any byte differs".

Definition step6_inner (ctx : Ctx) : Act unit :=
  let st := cx_state ctx in
  let! _ := say ("--- 6a: gate 6a is the SDK's own test " +:+ GATE_6A_SDK_TEST +:+
                 ", run once at the pinned SDK tag; this crate does not copy it") in
  let! _ := say "--- 6b: complete_seal (the one-shot tail) on the persisted prepared state and witnesses vs step 1's stored two-step output" in
  let! c1 := try (read_bytes_m (cx_store ctx) CONTAINER_1) in
  let! a1 := try (read_bytes_m (cx_store ctx) ATTESTATIONS_1) in
  match c1, a1 with
  | Ok c1, Ok a1 =>
      let! evm := load_pair (cx_store ctx) ["s1-evm.json"] WEvm in
      let! qtsa := load_pair (cx_store ctx) ["s1-qtsa.json"] WQtsa in
      let witness p := {| sw_object := sp_object p; sw_signature := Some (sp_signature p) |} in
      let! prepared := load_prepared ctx 1 in
      let! out := reading_chain (fun n => complete_seal n (re_aq (cx_reader ctx)) prepared (head1 st) (rs_did st)
                                            [witness evm; witness qtsa] open_witness) in
      match out with
      | Err e => require false ("complete_seal returned Ok (got " +:+ debug e +:+ ")") STEP6_FALS
      | Ok (container, attestations) =>
          let! c6 := lift (tree_to_string container) in
          let! a6 := lift (attestations_to_canonical_json attestations) in
          let! _ := artifact_m (cx_store ctx) ["container-6b.json"] c6 in
          let! _ := artifact_m (cx_store ctx) ["attestations-6b.json"] a6 in
          let! _ := require (bool_decide (as_bytes c6 = c1))
                      ("container bytes equal (" +:+ num (Z.of_nat (String.length c6)) +:+ " vs " +:+
                       num (Z.of_nat (length c1)) +:+ " bytes)") STEP6_FALS in
          require (bool_decide (as_bytes a6 = a1))
            ("attestation document bytes equal (" +:+ num (Z.of_nat (String.length a6)) +:+ " vs " +:+
             num (Z.of_nat (length a1)) +:+ " bytes)") STEP6_FALS
      end
  | _, _ => require false "step 1 output present" STEP6_FALS
  end.

Definition step6 (ctx : Ctx) : Act unit := guarded "harness error" (step6_inner ctx).

(** ** Step 7 *)

Definition STEP7_FALS : string := "a stub served".

(** One revision of a listing with its payload. *)
Definition step7_payload (m : WitnessMethod) (epoch : u64) (root_txt : string) (epoch_root : Hash32) (k : string) (p : Value)
    : Act unit :=
  let! _ := say (method_str m +:+ " T " +:+ k +:+ ": " +:+ json_to_string (shorten_token p)) in
  let stub := detect_stub m p in
  let! _ := require (bool_decide (stub = None)) (method_str m +:+ " T " +:+ k +:+ ": detect_stub = " +:+ debug stub) STEP7_FALS in
  let mr := default "" (json_as_str (json_index p "merkle_root")) in
  require (match parse_batch_root mr with Ok r => bool_decide (r = epoch_root) | Err _ => false end)
    (method_str m +:+ " T " +:+ k +:+ ": payload merkle_root " +:+ mr +:+ " names epoch " +:+ num epoch +:+ "'s root " +:+
     root_txt +:+ " (SDK parse_batch_root vs parse_batch_digest, bytes compared)") STEP7_FALS.

(** The pairs of one method: the revisions with payloads. *)
Definition with_payloads (revisions : list (string * Value)) : list (string * Value) :=
  omap (fun kr : string * Value => p ← json_get kr.2 "payloads"; Some (kr.1, p)) revisions.

Definition step7_method (ctx : Ctx) (epoch : u64) (root_txt : string) (epoch_root : Hash32) (pairs : u64) (m : WitnessMethod)
    : Act u64 :=
  let key := "epoch_" +:+ method_str m in
  let! fetch := fetch_status ctx key in
  let! _ := say ("GET /trees?epoch=" +:+ num epoch +:+ "&method=" +:+ method_str m +:+ ": " +:+ json_to_string fetch) in
  let! _ := require (is_200 (json_index fetch "status")) (key +:+ ": HTTP 200 (not 410 / not verifiable)") STEP7_FALS in
  let! text := read_m (cx_store ctx) (epoch_file epoch m) in
  let! body := lift (json_from_str text) in
  let revisions := default [] (json_object (json_index body "revisions")) in
  let payloads := with_payloads revisions in
  let! _ := for_each (fun kp : string * Value => step7_payload m epoch root_txt epoch_root kp.1 kp.2) payloads in
  let method_pairs := Z.of_nat (length payloads) in
  let! _ := require (method_pairs =? OWN_LEAVES)
              (method_str m +:+ " witness pairs read = " +:+ num method_pairs +:+ ", " +:+ num OWN_LEAVES +:+
               " own leaves expected") STEP7_FALS in
  ret (pairs + method_pairs).

Definition step7_inner (ctx : Ctx) : Act unit :=
  let meta := rs_meta (cx_state ctx) in
  let! epoch := lift (ok_or (json_as_u64 (json_index meta "epoch_id")) "no epoch_id") in
  let! _ := say ("epoch N = " +:+ num epoch) in
  let! _ := say "The identity reads only its own witnesses of epoch N (other DIDs get 403 by design). All leaves of an epoch share one anchor outcome per method, so the own pairs show the epoch's EVM tx and TSA token; reading other DIDs' witnesses needs operator access." in
  let accepted := json_as_u64 (json_index (json_index meta "post_body") "accepted") in
  let! _ := require (bool_decide (accepted = Some OWN_LEAVES))
              ("the server accepted " +:+ debug accepted +:+ " leaves of this run (" +:+ num OWN_LEAVES +:+ " submitted)")
              STEP7_FALS in
  let! fetch := fetch_status ctx "epochs" in
  let! _ := say ("GET /v1/epochs?from=" +:+ num epoch +:+ "&limit=1: " +:+ json_to_string fetch) in
  let! text := read_m (cx_store ctx) (epochs_file epoch) in
  let! epochs := lift (json_from_str text) in
  let! _ := say ("body: " +:+ json_to_string epochs) in
  let item := a ← json_array (json_index epochs "epochs");
              List.find (fun e => bool_decide (json_as_u64 (json_index e "id") = Some epoch)) a in
  match item with
  | None => require false ("/v1/epochs lists epoch " +:+ num epoch) STEP7_FALS
  | Some item =>
      let root_txt := default "" (json_as_str (json_index item "merkle_root")) in
      let! epoch_root := lift (map_err (fun e => "epoch merkle_root " +:+ root_txt +:+ ": " +:+ sdk_error_text e)
                                 (parse_batch_digest root_txt)) in
      let! _ := say ("epoch " +:+ num epoch +:+ " merkle_root = " +:+ root_txt +:+ " (leaf_count " +:+
                     json_to_string (json_index item "leaf_count") +:+ ")") in
      let! pairs := fold_act (step7_method ctx epoch root_txt epoch_root) 0 [WEvm; WQtsa] in
      match json_as_u64 (json_index item "leaf_count") with
      | None => require false ("epoch " +:+ num epoch +:+ " lists a leaf_count") STEP7_FALS
      | Some leaf_count =>
          match pair_coverage pairs OWN_LEAVES leaf_count with
          | Ok (Full pairs) =>
              say (num pairs +:+ " witness pairs read = 2 x leaf_count " +:+ num leaf_count +:+ ": full coverage of epoch " +:+
                   num epoch)
          | Ok (Partial pairs leaf_count) =>
              let! _ := say (num pairs +:+ " witness pairs read = 2 x " +:+ num OWN_LEAVES +:+ " own leaves") in
              say ("partial coverage of epoch " +:+ num epoch +:+ ": " +:+ num pairs +:+ " own pairs visible, leaf_count " +:+
                   num leaf_count +:+ "; other DIDs' witnesses are not readable by this identity")
          | Err why => require false why STEP7_FALS
          end
      end
  end.

Definition step7 (ctx : Ctx) : Act unit := guarded "harness error" (step7_inner ctx).

(** ** The run *)

Inductive Steps := AllSteps | FromPersisted.

(** One step on a fresh log; the world goes on.  A step itself never errs. *)
Definition run_step {A} (n : Z) (title : string) (ctx : Ctx) (m : Act A) (w : World) : World * StepLog * option A :=
  let '(w', log, r) := m (w, StepLog_new (utc (w_now w)) n title (cx_header ctx)) in (w', log, ok r).

Definition TITLE_1 : string := "seal a Folder of three members through the aggregator (prepare, submit S, pull both witnesses, evaluate, finish)".
Definition TITLE_2 : string := "verify the container and the full-set check under the pinned reader policy P2".
Definition TITLE_3 : string := "the same container under a reader policy that admits qTSA only (P3)".
Definition TITLE_4 : string := "seal the Folder with EVM opted out (qTSA only); a build with no timestamp is refused".
Definition TITLE_5 : string := "tamper: one byte of the qTSA token changed (relinked); the attestation P removed or altered (Q16 default)".
Definition TITLE_6 : string := "one-shot and two-step builds give byte-identical containers for the same inputs".
Definition TITLE_7 : string := "no stub witness in the test leaf's epoch on the aggregator".

(** [keep]: the step's log goes to the write directory as the step ends. *)
Definition keep (ctx : Ctx) (closing : string) (log : StepLog) (w : World) : World * result string unit :=
  match write_dir (cx_store ctx) with
  | None => (w, Ok tt)
  | Some dir => let '(fs, r) := log_write log dir closing (w_fs w) in (set_fs fs w, r)
  end.

(** The steps in order; the logs so far when one could not be written. *)
Fixpoint run_steps (ctx : Ctx) (closing : string) (steps : list (Z * string * Act unit)) (logs : list StepLog) (w : World)
    : World * result string (list StepLog) :=
  match steps with
  | [] => (w, Ok logs)
  | (n, title, m) :: steps' =>
      let '(w, log, _) := run_step n title ctx m w in
      let '(w, r) := keep ctx closing log w in
      match r with Ok _ => run_steps ctx closing steps' (logs ++ [log]) w | Err e => (w, Err e) end
  end.

Definition run (ctx : Ctx) (which : Steps) (closing : string) (w : World) : World * result string (list StepLog) :=
  let first := match which with AllSteps => [(1, TITLE_1, step1 ctx)] | FromPersisted => [] end in
  let '(w, r) := run_steps ctx closing first [] w in
  match r with
  | Err e => (w, Err e)
  | Ok logs =>
      let '(w, log2, s2) := run_step 2 TITLE_2 ctx (step2 ctx) w in
      let '(w, r) := keep ctx closing log2 w in
      match r with
      | Err e => (w, Err e)
      | Ok _ =>
          run_steps ctx closing
            [(3, TITLE_3, step3 ctx); (4, TITLE_4, step4 ctx); (5, TITLE_5, step5 ctx (mjoin s2));
             (6, TITLE_6, step6 ctx); (7, TITLE_7, step7 ctx)] (logs ++ [log2]) w
      end
  end.

(** ** [replay.rs] *)

Record ReplayConfig := {
  rc_run_dir : Path;
  rc_out : option Path;
  rc_reader : Reader;
  rc_expect_server_did : string;
}.

(** [report.passed()]. *)
Definition replay_passed (logs : list StepLog) : bool := all_passed logs.

(** The admission of the members was one blocking call. *)
Definition after_call (w : World) : World :=
  {| w_fs := w_fs w; w_now := w_now w + Z.of_nat (read_time (w_reads w)); w_reads := S (w_reads w); w_draws := w_draws w |}.

(** The steps' context, with the log's header. *)
Definition replay_ctx (cfg : ReplayConfig) (state : RunState) (rev : string) : Ctx :=
  let header :=
    ["# mode = replay of " +:+ file_text (rc_run_dir cfg) +:+ ": no key, no session, nothing sent to the aggregator; reads are the persisted bodies and the EVM host's chain reads";
     "# SDK rev of this binary (Cargo.lock) = " +:+ rev;
     "# SDK rev of the run (run.json) = " +:+ json_to_string (json_index (rs_meta state) "sdk_rev");
     "# server /version recorded by the run: " +:+ json_to_string (json_index (rs_meta state) "server_version_before")] in
  {| cx_store := {| st_run := rc_run_dir cfg; st_mode := Replay (rc_out cfg) |}; cx_reader := rc_reader cfg;
     cx_state := state; cx_header := header;
     cx_expect_server_did := Some (rc_expect_server_did cfg); cx_finality_budget := 0 |}.

Definition load_error_text (e : LoadError) : string :=
  match e with AtFile e => run_dir_error_text e | Other t => t end.

(** [guard]: [ensure_outside] on the two directories; [sdk]: [sdk_rev]. *)
Definition run_replay (guard : Path -> Path -> result string unit) (sdk : result string string) (cfg : ReplayConfig) (w : World)
    : World * result string (list StepLog) :=
  let run_dir := rc_run_dir cfg in
  let checked :=
    let? _ := match rc_out cfg with Some out => guard out run_dir | None => Ok tt end in
    let? _ := map_err run_dir_error_text (verify_complete run_dir (w_fs w)) in
    let? state := map_err load_error_text
                    (RunState_load run_dir (w_fs w) (w_reads w) (re_aq (rc_reader cfg))) in
    let? rev := sdk in Ok (state, rev) in
  match checked with
  | Err e => (w, Err e)
  | Ok (state, rev) => run (replay_ctx cfg state rev) FromPersisted "replay" (after_call w)
  end.
End replay.
