(* ===== verification/SealProofs.v ===== *)
(** * What a passed replay shows
    ([crates/aqua-timestamp-e2e/src/seal]: [steps.rs], [replay.rs])

    Every action of the steps leaves the run directory alone and takes no
    failure back; the retried evaluation ends within its budget; and what each
    step has shown when it passed. *)

From S2P Require Import Prelude External Client HarnessPoll HarnessWitness HarnessStore SealSdk SealTamper RunDir SealAct SealSteps SealRun SealReplay.
Open Scope string_scope.
Open Scope list_scope.
Open Scope Z_scope.

Section tame.
Context `{HexCrate, SealSdk, !ClientCrates, !HarnessCrates, !SealEnv}.
Context (ctx : Ctx).
Abbreviation st := (cx_store ctx).

Lemma tame_load_pair file m : tame st (load_pair st file m).
Proof. unfold load_pair. tame. Qed.
Lemma tame_served_witness k m b : tame st (served_witness k m b).
Proof. unfold served_witness. tame. Qed.
Lemma tame_fetch_status k : tame st (fetch_status ctx k).
Proof. unfold fetch_status. tame. Qed.
Lemma tame_load_prepared n : tame st (load_prepared ctx n).
Proof. unfold load_prepared. tame. Qed.
Lemma tame_load_container : tame st (load_container ctx).
Proof. unfold load_container. tame. Qed.
Lemma tame_verify c i : tame st (verify (cx_reader ctx) c i).
Proof. unfold verify. tame. Qed.
Lemma tame_members : tame st (members ctx).
Proof. unfold members. tame. Qed.
Lemma tame_log_seal label v : tame st (log_seal ctx label v).
Proof. unfold log_seal. tame. Qed.
Lemma tame_log_verdict label v : tame st (log_verdict label v).
Proof. unfold log_verdict. tame. Qed.
Lemma tame_log_attestations label v : tame st (log_attestations label v).
Proof. unfold log_attestations. tame. Qed.
Lemma tame_evaluate e : tame st (evaluate (cx_reader ctx) e).
Proof. unfold evaluate. tame. Qed.
Hint Resolve tame_load_pair tame_served_witness tame_fetch_status tame_load_prepared tame_load_container tame_verify
  tame_members tame_log_seal tame_log_verdict tame_log_attestations tame_evaluate : act.

Lemma tame_evaluate_loop fuel a d e : tame st (evaluate_loop fuel a d (cx_reader ctx) e).
Proof. revert a. induction fuel as [|fuel IH]; intros a; cbn [evaluate_loop]; tame. Qed.
Hint Resolve tame_evaluate_loop : act.
Lemma tame_evaluate_with_retry e : tame st (evaluate_with_retry (cx_reader ctx) e).
Proof. unfold evaluate_with_retry. tame. Qed.
Lemma tame_guarded w m : tame st m -> tame st (guarded w m).
Proof. intros Hm. unfold guarded. tame. Qed.
Lemma tame_derive_receipts n f rs : tame st (derive_receipts ctx n f rs).
Proof. unfold derive_receipts. tame. Qed.
Lemma tame_fresh_leaves ts : tame st (fresh_leaves ts).
Proof. induction ts as [|t ts IH]; cbn [fresh_leaves]; tame. Qed.
Hint Resolve tame_evaluate_with_retry tame_guarded tame_derive_receipts tame_fresh_leaves : act.

Lemma tame_step1_witness found x : tame st (step1_witness ctx found x).
Proof. unfold step1_witness. tame. Qed.
Lemma tame_step1_finish p a : tame st (step1_finish ctx p a).
Proof. unfold step1_finish. tame. Qed.
Hint Resolve tame_step1_witness tame_step1_finish : act.
Lemma tame_step1 : tame st (step1 ctx).
Proof. apply tame_guarded. unfold step1_inner. tame. Qed.

Lemma tame_step2_attestations seal doc x : tame st (step2_attestations ctx seal doc x).
Proof. unfold step2_attestations. tame. Qed.
Lemma tame_step2_verdicts seal v : tame st (step2_verdicts ctx seal v).
Proof. unfold step2_verdicts. tame. Qed.
Hint Resolve tame_step2_attestations tame_step2_verdicts : act.
Lemma tame_step2_inner : tame st (step2_inner ctx).
Proof. unfold step2_inner. tame. Qed.
Lemma tame_step2 : tame st (step2 ctx).
Proof. unfold step2. apply tame_bind; [apply tame_try, tame_step2_inner|]. intros. tame. Qed.

Lemma tame_step3_inner : tame st (step3_inner ctx).
Proof. unfold step3_inner. tame. Qed.
Lemma tame_step4a_built p a : tame st (step4a_built ctx p a).
Proof. unfold step4a_built. tame. Qed.
Hint Resolve tame_step4a_built tame_step3_inner : act.
Lemma tame_step4a : tame st (step4a ctx).
Proof. unfold step4a. tame. Qed.
Lemma tame_step4b : tame st (step4b ctx).
Proof. unfold step4b. tame. Qed.
Hint Resolve tame_step4a tame_step4b : act.

Lemma tame_step5a_verdicts seal v a t : tame st (step5a_verdicts ctx seal v a t).
Proof. unfold step5a_verdicts. tame. Qed.
Lemma tame_step5a2 c t x k : tame st (step5a2 ctx c t x k).
Proof. unfold step5a2. tame. Qed.
Hint Resolve tame_step5a_verdicts tame_step5a2 : act.
Lemma tame_step5a s2 : tame st (step5a ctx s2).
Proof. unfold step5a. tame. Qed.
Lemma tame_step5b_pins seal t d p : tame st (step5b_pins seal t d p).
Proof. unfold step5b_pins. tame. Qed.
Lemma tame_step5b_documents d t p : tame st (step5b_documents ctx d t p).
Proof. unfold step5b_documents. tame. Qed.
Hint Resolve tame_step5b_pins tame_step5b_documents : act.
Lemma tame_step5b s2 : tame st (step5b ctx s2).
Proof. unfold step5b. tame. Qed.
Lemma tame_step6_inner : tame st (step6_inner ctx).
Proof. unfold step6_inner. tame. Qed.
Lemma tame_step7_payload m e r er k p : tame st (step7_payload m e r er k p).
Proof. unfold step7_payload. tame. Qed.
Hint Resolve tame_step7_payload : act.
Lemma tame_step7_method e r er n m : tame st (step7_method ctx e r er n m).
Proof. unfold step7_method. tame. Qed.
Hint Resolve tame_step7_method : act.
Lemma tame_step7_inner : tame st (step7_inner ctx).
Proof. unfold step7_inner. tame. Qed.
End tame.
#[export] Hint Resolve tame_load_pair tame_served_witness tame_fetch_status tame_load_prepared tame_load_container tame_verify
  tame_members tame_log_seal tame_log_verdict tame_log_attestations tame_evaluate tame_evaluate_loop
  tame_evaluate_with_retry tame_guarded tame_derive_receipts tame_fresh_leaves tame_step1_witness tame_step1_finish
  tame_step2_attestations tame_step2_verdicts tame_step3_inner tame_step4a_built tame_step4a tame_step4b
  tame_step5a_verdicts tame_step5a2 tame_step5b_pins tame_step5b_documents tame_step7_payload tame_step7_method : act.

(** ** The retried evaluation *)

Section evaluation.
Context `{HexCrate, SealSdk, !ClientCrates, !HarnessCrates, !SealEnv}.

(** How a retried evaluation may end: an answer of the evaluator that no retry
    could change, or one given at the deadline or after it. *)
Definition evaluated (reader : Reader) (e : Evaluation) (deadline : Duration) (res : result WitnessRefusal AcceptedWitnesses)
    (w : World) : Prop :=
  (exists n, res = evaluate_seal_witnesses n (re_aq reader) (ev_prepared e) (ev_head e) (ev_did e) (ev_witnesses e)
                     (ev_requirement e)) /\
  forall refusal, res = Err refusal -> retryable refusal = true -> deadline <= w_now w.

Lemma evaluate_loop_ends fuel attempt deadline reader e w log :
  (0 < fuel)%nat -> deadline - w_now w <= RETRY_PAUSE * (Z.of_nat fuel - 1) ->
  exists w' log' res, evaluate_loop fuel attempt deadline reader e (w, log) = (w', log', Ok (Some res)) /\
    sl_fails log' = sl_fails log /\ w_fs w' = w_fs w /\ evaluated reader e deadline res w' /\
    w_now w <= w_now w'.
Proof.
  revert attempt w log. induction fuel as [|fuel IH]; intros attempt w log Hf Hd; [lia|]. cbn [evaluate_loop].
  unfold act_bind at 1, evaluate, reading_chain, act_bind at 1, clock.
  set (w1 := {| w_fs := w_fs w |}). cbn beta iota.
  assert (w_now w <= w_now w1) as Hn by (cbn; lia).
  destruct (evaluate_seal_witnesses _ _ _ _ _ _ _) as [a|refusal] eqn:He.
  - eexists _, _, _. split; [reflexivity|]. split_and!; [done..| |done]. split; [by eexists|done].
  - destruct (retryable refusal && (w_now w1 <? deadline)) eqn:Hr.
    + apply andb_true_iff in Hr as [_ Hlt%Z.ltb_lt].
      unfold act_bind, say, sleep. cbn beta iota.
      set (w2 := {| w_fs := w_fs w1 |}).
      assert (w_now w2 = w_now w1 + Z.min RETRY_PAUSE (deadline - w_now w1)) as Hw2 by done.
      assert (RETRY_PAUSE = 60000000000) as Hp by done.
      destruct fuel as [|fuel]; [lia|].
      edestruct (IH (attempt + 1) w2) as (w' & log' & res & -> & Hl & Hfs & Hev & Hn'); [lia|lia|].
      eexists _, _, _. split; [reflexivity|]. split_and!; [by rewrite Hl|by rewrite Hfs|done|lia].
    + eexists _, _, _. split; [reflexivity|]. split_and!; [done..| |done]. split; [by eexists|].
      intros r [= <-] Hre. rewrite Hre in Hr. apply Z.ltb_ge in Hr. done.
Qed.

(** A retried evaluation ends, with an answer of the evaluator: one that no
    retry changes, or the one it gave when the budget was spent. *)
Theorem evaluate_with_retry_ends reader e w log :
  exists w' log' res, evaluate_with_retry reader e (w, log) = (w', log', Ok res) /\
    sl_fails log' = sl_fails log /\ w_fs w' = w_fs w /\ evaluated reader e (w_now w + ev_budget e) res w'.
Proof.
  unfold evaluate_with_retry. unfold act_bind at 1, clock. cbn beta iota. unfold act_bind.
  destruct (evaluate_loop_ends (evaluate_fuel (ev_budget e)) 0 (w_now w + ev_budget e) reader e w log)
    as (w' & log' & res & -> & Hl & Hf & Hev & _).
  - unfold evaluate_fuel. lia.
  - unfold evaluate_fuel. assert (RETRY_PAUSE = 60000000000) as -> by done.
    pose proof (Z.div_mod (ev_budget e) 60000000000). pose proof (Z.mod_pos_bound (ev_budget e) 60000000000). lia.
  - by exists w', log', res.
Qed.
End evaluation.

(** ** What the steps have shown *)

Section shows.
Context `{HexCrate, SealSdk, !ClientCrates, !HarnessCrates, !SealEnv}.
Context (ctx : Ctx) (fs0 : Fs).
Abbreviation st := (cx_store ctx).
Abbreviation state := (cx_state ctx).
Abbreviation aq := (re_aq (cx_reader ctx)).
Abbreviation policy := (re_policy (cx_reader ctx)).

(** The persisted bodies, read. *)
Definition pair_held (file : Path) (method : WitnessMethod) (p : ServedPair) : Prop :=
  exists text, read st file fs0 = Ok text /\ parse_witness method text = Ok (sp_fetched p) /\
    pair_of (sp_fetched p) = Ok p.
Definition container_held (c : Tree) : Prop :=
  exists text, read st CONTAINER_1 fs0 = Ok text /\ tree_from_str text = Ok c.
Definition prepared_held (seal : Z) (p : PreparedSeal) : Prop :=
  exists text, read st (prepared_file seal) fs0 = Ok text /\ prepared_from_str text = Ok p.
(** The persisted bytes of [file] are the text's. *)
Definition reproduced (file : Path) (text : string) : Prop := fs_read (st_run st ++ file) fs0 = Ok (as_bytes text).
Definition reads_as (c : Tree) (input : WitnessInput) (reading : SealReading) : Prop :=
  exists n, reading = verify_seal_container n aq c input (catalogue policy).

(** The full-set check of a reading with the members the SDK admits. *)
Definition set_verdict (reading : SealReading) (receipts : list SealReceipt) (v : FullSetVerdict) : Prop :=
  exists n admitted, admit_members n aq (rs_members state) = Ok admitted /\
    v = full_set_check (package_of reading admitted receipts).

Definition receipts1 (anchor : RevisionLink) : result string (list SealReceipt) :=
  receipts_for anchor (head1 state) (leaves1 state) (rs_tips state) (rs_nonces state).1.
Definition receipts2 (anchor : RevisionLink) : result string (list SealReceipt) :=
  receipts_for anchor (rs_heads state).2 (rs_leaves state).2 (rs_tips state) (rs_nonces state).2.

Definition receipts_reproduced (seal : Z) (receipts : list SealReceipt) : Prop :=
  forall i r, receipts !! i = Some r ->
    reproduced (receipt_file seal (Z.of_nat i + 1)) (receipt_to_json_string r +:+ nl).

(** One witness of the attestation reading: the server attests it. *)
Definition attested_by_server (basis : AttestationBasis) (w : WitnessAttestations) : Prop :=
  map at_verdict (wt_attestations w) = [AttVerified (rs_server_did state) (rp_sealer_signature_type policy) basis].

(** Both witnesses attested by the server and nothing besides. *)
Definition attestations_hold (seal : VerifiedSeal) (doc : string) (bp : AttestationBasis * gset string) : Prop :=
  let r := read_seal_attestations seal (Some doc) bp.2 in
  length (sr_witnesses r) = 2%nat /\ Forall (attested_by_server bp.1) (sr_witnesses r) /\
  sr_unmatched r = [] /\ sr_findings r = [] /\ sr_rejected r = None.

Definition seal_holds (seal : VerifiedSeal) (v : FullSetVerdict) : Prop :=
  seal_status seal = StatusVerified /\ sealer_signature_is_admitted seal = true /\
  length (ac_witnesses (seal_acceptance seal)) = 2%nat /\
  Forall (fun w => wr_admission w = Admitted_) (ac_witnesses (seal_acceptance seal)) /\
  (exists ws, ti_accepted (seal_time seal) = Some ws /\ length ws = 2%nat) /\
  fv_set_headline v = HeadlineVerified /\
  fv_completeness v = Pass /\ fv_integrity v = Pass /\ fv_non_suppression v = Pass.

(** Step 2: the persisted container reads as a verified seal under the pinned
    dual policy, its receipts reproduce, the whole set is verified, and the
    server attests both witnesses, pinned or not. *)
Definition step2_shows (o : Step2Out) : Prop :=
  exists container reading receipts v doc,
    container_held container /\ reads_as container (dual policy) reading /\ reading_seal reading = Some (s2_seal o) /\
    s2_stable o = stable (s2_seal o) /\
    receipts1 (seal_anchor (s2_seal o)) = Ok receipts /\ receipts_reproduced 1 receipts /\
    set_verdict reading receipts v /\ seal_holds (s2_seal o) v /\
    read st ATTESTATIONS_1 fs0 = Ok doc /\
    attestations_hold (s2_seal o) doc (Unpinned, ∅) /\
    attestations_hold (s2_seal o) doc (Pinned, {[rs_server_did state]}) /\
    forall want, cx_expect_server_did ctx = Some want -> rs_server_did state = want.

(** Step 3: for a reader of qualified timestamps only, the same container is
    verified on its TSA witness alone. *)
Definition step3_shows : Prop :=
  exists container reading seal pq pe tq te receipts v,
    container_held container /\ reads_as container (tsa_only policy) reading /\ reading_seal reading = Some seal /\
    pair_held ["s1-qtsa.json"] WQtsa pq /\ pair_held ["s1-evm.json"] WEvm pe /\
    link_parse (fe_object_key (sp_fetched pq)) = Ok tq /\ link_parse (fe_object_key (sp_fetched pe)) = Ok te /\
    seal_status seal = StatusVerified /\ admission_of seal tq = Some Admitted_ /\
    (exists reason, admission_of seal te = Some (NotAdmitted reason)) /\
    receipts1 (seal_anchor seal) = Ok receipts /\ set_verdict reading receipts v /\ fv_set_headline v = HeadlineVerified.

(** Step 4: seal 2, built again from the persisted witness alone, is the
    persisted one byte for byte and verified; without a witness nothing is
    built. *)
Definition step4_shows : Prop :=
  (exists p prepared accepted container attestations ct at_ reading seal receipts v n,
     pair_held ["s2-qtsa.json"] WQtsa p /\ prepared_held 2 prepared /\
     evaluate_seal_witnesses n aq prepared (rs_heads state).2 (rs_did state)
       [{| sw_object := sp_object p; sw_signature := Some (sp_signature p) |}] (without_evm open_witness) = Ok accepted /\
     map aw_kind (accepted_witnesses accepted) = [KindTsa] /\ finish_seal prepared accepted = Ok (container, attestations) /\
     tree_to_string container = Ok ct /\ reproduced CONTAINER_2 ct /\
     attestations_to_canonical_json attestations = Ok at_ /\ reproduced ATTESTATIONS_2 at_ /\
     reads_as container (tsa_only policy) reading /\ reading_seal reading = Some seal /\
     length (seal_witnesses seal) = 1%nat /\ receipts2 (seal_anchor seal) = Ok receipts /\
     receipts_reproduced 2 receipts /\ set_verdict reading receipts v /\
     seal_status seal = StatusVerified /\ fv_set_headline v = HeadlineVerified) /\
  requirement_kinds [] IfPresent = Err SealNoWitness /\
  (exists prepared n, prepared_held 2 prepared /\
     evaluate_seal_witnesses n aq prepared (rs_heads state).2 (rs_did state) [] (without_evm open_witness) =
       Err RefusedNoWitness) /\
  exists leaves head signer n, head_from_leaves (rs_set state) leaves = Ok head /\
    build_seal_container n aq head signer (without_evm open_witness) = Err (Refused RefusedNoWitness).

(** Step 5: with one byte of the token changed, relinked or in place, the
    container is not verified; a document whose P is gone or altered names no
    attester; the seal reads as it did. *)
Definition step5_shows (o : Step2Out) : Prop :=
  (exists c1 pq pe tq te relinked reading seal receipts v,
     container_held c1 /\ pair_held ["s1-qtsa.json"] WQtsa pq /\ pair_held ["s1-evm.json"] WEvm pe /\
     link_parse (fe_object_key (sp_fetched pq)) = Ok tq /\ link_parse (fe_object_key (sp_fetched pe)) = Ok te /\
     relink_flipped_token c1 (seal_anchor (s2_seal o)) (seal_head_link (s2_seal o)) tq te = Ok relinked /\
     reads_as (rl_container relinked) (dual policy) reading /\ reading_seal reading = Some seal /\
     receipts1 (rl_anchor_link relinked) = Ok receipts /\ set_verdict reading receipts v /\
     (exists reason, admission_of seal (rl_flipped_link relinked) = Some (Failed reason) /\ reason <> "") /\
     seal_status seal = StatusNotChecked /\ fv_integrity v = NotChecked /\
     handover_is_pass seal (rs_did state) = false /\ fv_set_headline v = PartiallyVerified /\
     exists reading2 receipts2 v2,
       reads_as (tree_with_revisions c1 (btree_insert tq (rl_flipped relinked) (tree_revisions c1))) (dual policy) reading2 /\
       receipts1 (seal_anchor (s2_seal o)) = Ok receipts2 /\ set_verdict reading2 receipts2 v2 /\
       reading_status reading2 <> StatusVerified /\ fv_set_headline v2 <> HeadlineVerified) /\
  exists text doc pq tq removed altered alone rekeyed rekeyed_alone c1 reading again,
    read st ATTESTATIONS_1 fs0 = Ok text /\ json_from_str text = Ok doc /\
    pair_held ["s1-qtsa.json"] WQtsa pq /\ link_parse (fe_object_key (sp_fetched pq)) = Ok tq /\
    let key := fe_signature_key (sp_fetched pq) in
    remove_p doc key = Ok removed /\ alter_p_key_kept doc key = Ok altered /\ only_p altered.1 key = Ok alone /\
    rekey_bad_signature doc key = Ok rekeyed /\ only_p (rk_doc rekeyed) (link_to_string (rk_key rekeyed)) = Ok rekeyed_alone /\
    (forall pins, pins ∈ [∅; {[rs_server_did state]}] ->
       let reading_ d := read_seal_attestations (s2_seal o) (Some (json_to_string d)) pins in
       (reading_of (reading_ removed) tq = None \/ reading_of (reading_ removed) tq = Some []) /\
       (exists cause, reading_of (reading_ altered.1) tq = Some [Unverifiable cause] /\ names_did cause = false) /\
       (exists cause, reading_of (reading_ alone) tq = Some [Unverifiable cause]) /\
       names_did (debug (reading_ alone)) = false /\
       (exists cause, rekeyed_reading_ok (reading_ (rk_doc rekeyed)) tq (rk_key rekeyed) = Ok cause) /\
       (exists cause, rekeyed_reading_ok (reading_ rekeyed_alone) tq (rk_key rekeyed) = Ok cause) /\
       names_did (debug (reading_ rekeyed_alone)) = false) /\
    container_held c1 /\ reads_as c1 (dual policy) reading /\ into_seal reading = Ok again /\ stable again = s2_stable o.

(** Step 6: the one-shot build gives the persisted container and attestations
    byte for byte. *)
Definition step6_shows : Prop :=
  exists evm qtsa prepared n container attestations c6 a6,
    pair_held ["s1-evm.json"] WEvm evm /\ pair_held ["s1-qtsa.json"] WQtsa qtsa /\ prepared_held 1 prepared /\
    complete_seal n aq prepared (head1 state) (rs_did state)
      [{| sw_object := sp_object evm; sw_signature := Some (sp_signature evm) |};
       {| sw_object := sp_object qtsa; sw_signature := Some (sp_signature qtsa) |}] open_witness =
      Ok (container, attestations) /\
    tree_to_string container = Ok c6 /\ reproduced CONTAINER_1 c6 /\
    attestations_to_canonical_json attestations = Ok a6 /\ reproduced ATTESTATIONS_1 a6.

(** One payload of a listing: no stub, and under the epoch's root. *)
Definition payload_shows (m : WitnessMethod) (epoch_root : Hash32) (p : Value) : Prop :=
  detect_stub m p = None /\ parse_batch_root (default "" (json_as_str (json_index p "merkle_root"))) = Ok epoch_root.

(** Step 7: the epoch's listings hold the run's two witnesses per method, each
    no stub and under the root the server lists for the epoch. *)
Definition step7_shows : Prop :=
  exists epoch etext epochs items item epoch_root leaf_count,
    json_as_u64 (json_index (rs_meta state) "epoch_id") = Some epoch /\
    json_as_u64 (json_index (json_index (rs_meta state) "post_body") "accepted") = Some OWN_LEAVES /\
    read st (epochs_file epoch) fs0 = Ok etext /\ json_from_str etext = Ok epochs /\
    json_array (json_index epochs "epochs") = Some items /\ item ∈ items /\
    json_as_u64 (json_index item "id") = Some epoch /\
    parse_batch_digest (default "" (json_as_str (json_index item "merkle_root"))) = Ok epoch_root /\
    json_as_u64 (json_index item "leaf_count") = Some leaf_count /\ OWN_LEAVES <= leaf_count /\
    forall m, m ∈ [WEvm; WQtsa] ->
      exists text body, read st (epoch_file epoch m) fs0 = Ok text /\ json_from_str text = Ok body /\
        let payloads := with_payloads (default [] (json_object (json_index body "revisions"))) in
        length payloads = 2%nat /\ Forall (fun kp => payload_shows m epoch_root kp.2) payloads.
End shows.
