(* ===== verification/SealShows.v ===== *)
(** * The steps' proofs
    ([crates/aqua-timestamp-e2e/src/seal/steps.rs])

    In a replay whose write directory is apart from the run: a step that
    passed has shown what [SealProofs] says of it. *)

From S2P Require Import Prelude External Client HarnessPoll HarnessWitness HarnessStore SealSdk SealTamper RunDir SealAct SealSteps SealRun SealReplay SealProofs.
Open Scope string_scope.
Open Scope list_scope.
Open Scope Z_scope.

Section shows.
Context `{HexCrate, SealSdk, !ClientCrates, !HarnessCrates, !SealEnv}.
Context (ctx : Ctx) (fs0 : Fs) (out : option Path).
Hypothesis Hap : apart (cx_store ctx).
Hypothesis Hreplay : st_mode (cx_store ctx) = Replay out.
Abbreviation st := (cx_store ctx).
Abbreviation state := (cx_state ctx).
Abbreviation sees s := (same_run (cx_store ctx) fs0 (w_fs s.1)).

(** The next statement of [Hr]. *)
Ltac act_step Hr x :=
  eapply (succeeds_bind st fs0) in Hr; [|exact Hap|solve [tame]|intros; solve [tame]|eassumption];
  let s1 := fresh "s" in let Hx := fresh "H" x in let Hs := fresh "Hs" in
  destruct Hr as (x & s1 & Hx & Hs & Hr); cbv beta in Hr.
Ltac act_skip Hr := let u := fresh "u" in act_step Hr u; match goal with Hx : succeeds _ _ u _ |- _ => clear Hx end; try clear u.
Ltac act_require Hr Hok :=
  let u := fresh "u" in act_step Hr u;
  match goal with Hx : succeeds _ _ u _ |- _ => apply succeeds_require in Hx; rename Hx into Hok end; try clear u.

Lemma load_pair_shows file m s p s' : sees s -> succeeds (load_pair st file m) s p s' -> pair_held ctx fs0 file m p.
Proof.
  intros Hs Hr. unfold load_pair in Hr. act_step Hr body. act_step Hr f.
  apply (succeeds_read st fs0) in Hbody; [|done]. apply succeeds_lift, map_err_ok in Hf. apply succeeds_lift in Hr.
  exists body. assert (sp_fetched p = f) as ->; [|done].
  unfold pair_of in Hr. apply result_bind_ok in Hr as (o & _ & Hr). apply result_bind_ok in Hr as (g & _ & Hr).
  by injection Hr as <-.
Qed.

Lemma load_container_shows s c s' : sees s -> succeeds (load_container ctx) s c s' -> container_held ctx fs0 c.
Proof.
  intros Hs Hr. unfold load_container in Hr. act_step Hr text. apply (succeeds_read st fs0) in Htext; [|done].
  apply succeeds_lift in Hr. by exists text.
Qed.

Lemma load_prepared_shows n s p s' : sees s -> succeeds (load_prepared ctx n) s p s' -> prepared_held ctx fs0 n p.
Proof.
  intros Hs Hr. unfold load_prepared in Hr. act_step Hr text. apply (succeeds_read st fs0) in Htext; [|done].
  apply succeeds_lift in Hr. by exists text.
Qed.

Lemma verify_shows c i s r s' : succeeds (verify (cx_reader ctx) c i) s r s' -> reads_as ctx c i r.
Proof. apply succeeds_chain. Qed.

Lemma members_shows s ms s' :
  sees s -> succeeds (members ctx) s ms s' -> exists n, admit_members n (re_aq (cx_reader ctx)) (rs_members state) = Ok ms.
Proof.
  intros Hs Hr. unfold members in Hr. act_step Hr r. apply succeeds_chain in Hr0 as [n ->].
  apply succeeds_lift in Hr. by exists n.
Qed.

Lemma derive_receipts_shows n f rs s u s' :
  sees s -> succeeds (derive_receipts ctx n f rs) s u s' -> receipts_reproduced ctx fs0 n rs.
Proof.
  intros Hs Hr. unfold derive_receipts in Hr.
  eapply (succeeds_for_each st fs0 _ (fun ir : nat * SealReceipt => reproduced ctx fs0 (receipt_file n (Z.of_nat ir.1 + 1))
    (receipt_to_json_string ir.2 +:+ nl))) in Hr; [|exact Hap|intros; tame| |exact Hs].
  - intros i r Hi. rewrite Forall_forall in Hr. apply (Hr (i, r)).
    apply list_elem_of_lookup. exists i. by apply enumerate_lookup.
  - intros x s0 b s1 Hs0 Hx. eapply (succeeds_derived st fs0) in Hx; [exact Hx|exact Hs0|exact Hreplay].
Qed.

Lemma guarded_shows what m s u s' :
  tame st m -> sees s -> succeeds (guarded what m) s u s' -> exists s1, succeeds m s tt s1.
Proof.
  intros Hm Hs Hr. unfold guarded in Hr. act_step Hr r. destruct r as [[]|e].
  - exists s0. by eapply succeeds_try.
  - by apply succeeds_require in Hr.
Qed.

Lemma read_m_shows file s b s' : sees s -> succeeds (read_m st file) s b s' -> read st file fs0 = Ok b.
Proof. apply succeeds_read. Qed.

(** *** Step 2 *)

Lemma filter_all {A} (f : A -> bool) l : length (List.filter f l) = length l -> Forall (fun x => f x = true) l.
Proof.
  induction l as [|x l IH]; cbn; [constructor|]. destruct (f x) eqn:Hf; cbn; intros Hl.
  - constructor; [done|]. apply IH. lia.
  - pose proof (List.filter_length_le f l). lia.
Qed.

Lemma step2_verdicts_shows seal v s u s' :
  sees s -> succeeds (step2_verdicts ctx seal v) s u s' -> seal_holds seal v.
Proof.
  intros Hs Hr. unfold step2_verdicts in Hr. cbv zeta in Hr. act_require Hr Hstatus. act_require Hr Hadm.
  act_require Hr Hlen. act_skip Hr. act_require Hr Htime. act_require Hr Hhead. act_require Hr Hdim.
  apply bool_decide_eq_true in Hstatus, Hhead. unfold is_pass in Hdim.
  apply andb_true_iff in Hlen as [Hl%Nat.eqb_eq Ha%Nat.eqb_eq].
  apply andb_true_iff in Hdim as [[Hc%bool_decide_eq_true Hi%bool_decide_eq_true]%andb_true_iff Hn%bool_decide_eq_true].
  unfold seal_holds. split_and!; try done.
  - rewrite <- Hl in Ha. apply filter_all in Ha. eapply Forall_impl; [exact Ha|]. intros w. apply bool_decide_eq_true_1.
  - destruct (ti_accepted (seal_time seal)) as [ws|]; [|done]. exists ws. by apply Nat.eqb_eq in Htime.
Qed.

Lemma step2_attestations_shows seal doc bp s u s' :
  sees s -> succeeds (step2_attestations ctx seal doc bp) s u s' -> attestations_hold ctx seal doc bp.
Proof.
  intros Hs Hr. destruct bp as [basis pins]. unfold step2_attestations in Hr. cbv zeta in Hr. act_skip Hr.
  act_require Hr Hlen. act_step Hr r. apply succeeds_require in Hr.
  apply andb_true_iff in Hr as [[Hu%bool_decide_eq_true Hf%bool_decide_eq_true]%andb_true_iff Hj%bool_decide_eq_true].
  unfold attestations_hold. cbn [fst snd]. split_and!; try done; [by apply Nat.eqb_eq|].
  eapply (succeeds_for_each st fs0 _ (attested_by_server ctx basis)) in Hr0; [exact Hr0|exact Hap|intros; tame| |done].
  intros w sa b sb _ Hw. apply succeeds_require in Hw. by apply bool_decide_eq_true in Hw.
Qed.

Lemma step2_passed s r s' : sees s -> succeeds (step2 ctx) s r s' -> exists o, r = Some o /\ step2_shows ctx fs0 o.
Proof.
  intros Hs Hr. unfold step2 in Hr. pose proof (tame_step2_inner ctx). act_step Hr i. rename Hi into Hr0.
  destruct i as [i|e]; [|act_require Hr Hf; done].
  apply succeeds_ret in Hr as ->. eapply succeeds_try in Hr0; [|reflexivity].
  unfold step2_inner in Hr0. cbv zeta in Hr0. act_skip Hr0. act_skip Hr0. act_step Hr0 c. destruct c as [container|e].
  2: { act_require Hr0 Hf. done. }
  eapply succeeds_try in Hc; [|reflexivity]. apply load_container_shows in Hc; [|done].
  act_step Hr0 reading. act_step Hr0 ms. apply members_shows in Hms as [n Hms]; [|done].
  destruct (reading_seal reading) as [seal|] eqn:Hseal.
  2: { destruct (reading_rejected reading) as [rej|]; [|by apply succeeds_lift in Hr0]. act_require Hr0 Hf. done. }
  act_skip Hr0. act_step Hr0 receipts. apply succeeds_lift in Hreceipts. act_step Hr0 d.
  apply derive_receipts_shows in Hd; [|done]. act_skip Hr0. act_step Hr0 x.
  apply step2_verdicts_shows in Hx; [|done]. act_step Hr0 doc. apply read_m_shows in Hdoc; [|done].
  act_step Hr0 a. eapply (succeeds_for_each st fs0 _ (attestations_hold ctx seal doc)) in Ha;
    [|exact Hap|intros; tame|intros ????; apply step2_attestations_shows|done].
  inversion Ha as [|? ? Ha1 Ha']; subst. inversion Ha' as [|? ? Ha2 _]; subst.
  act_step Hr0 z. apply succeeds_ret in Hr0. subst i. eexists. split; [reflexivity|]. unfold step2_shows. cbn [s2_seal s2_stable].
  exists container, reading, receipts, (full_set_check (package_of reading ms receipts)), doc.
  split_and!; try done; [by eapply verify_shows|by exists n, ms|].
  intros want Hw. rewrite Hw in Hz. apply succeeds_require in Hz. by apply bool_decide_eq_true in Hz.
Qed.

(** *** Step 3 *)

Lemma step3_passed s u s' : sees s -> succeeds (step3 ctx) s u s' -> step3_shows ctx fs0.
Proof.
  intros Hs Hr. apply guarded_shows in Hr as [s1 Hr]; [|apply tame_step3_inner|done]. unfold step3_inner in Hr.
  cbv zeta in Hr. act_skip Hr. act_step Hr c. destruct c as [container|e]; [|by apply succeeds_require in Hr].
  eapply succeeds_try in Hc; [|reflexivity]. apply load_container_shows in Hc; [|done].
  act_step Hr pq. apply load_pair_shows in Hpq; [|done]. act_step Hr pe. apply load_pair_shows in Hpe; [|done].
  act_step Hr reading. act_step Hr ms. apply members_shows in Hms as [n Hms]; [|done].
  destruct (reading_seal reading) as [seal|] eqn:Hseal; [|by apply succeeds_require in Hr].
  act_skip Hr. act_step Hr receipts. apply succeeds_lift in Hreceipts. act_skip Hr. act_require Hr Hstatus.
  act_step Hr tq. apply succeeds_lift in Htq. act_step Hr te. apply succeeds_lift in Hte.
  act_require Hr Hq. act_require Hr He. act_require Hr Hl. act_skip Hr. apply succeeds_require in Hr.
  apply bool_decide_eq_true in Hstatus, Hq, Hr.
  exists container, reading, seal, pq, pe, tq, te, receipts, (full_set_check (package_of reading ms receipts)).
  split_and!; try done; [by eapply verify_shows| |by exists n, ms].
  destruct (admission_of seal te) as [[]|]; try done. by eexists.
Qed.

(** *** Step 4 *)

Lemma evaluate_shows e s res s' :
  succeeds (evaluate_with_retry (cx_reader ctx) e) s res s' ->
  exists n, res = evaluate_seal_witnesses n (re_aq (cx_reader ctx)) (ev_prepared e) (ev_head e) (ev_did e)
                    (ev_witnesses e) (ev_requirement e).
Proof.
  destruct s as [w log]. intros [He _].
  destruct (evaluate_with_retry_ends (cx_reader ctx) e w log) as (w' & log' & res' & He' & _ & _ & [[n Hn] _]).
  rewrite He' in He. injection He as _ <-. by exists n.
Qed.

(** What seal 2's build shows. *)
Definition built_shows (prepared : PreparedSeal) (accepted : AcceptedWitnesses) : Prop :=
  exists container attestations ct at_ reading seal receipts v,
    map aw_kind (accepted_witnesses accepted) = [KindTsa] /\ finish_seal prepared accepted = Ok (container, attestations) /\
    tree_to_string container = Ok ct /\ reproduced ctx fs0 CONTAINER_2 ct /\
    attestations_to_canonical_json attestations = Ok at_ /\ reproduced ctx fs0 ATTESTATIONS_2 at_ /\
    reads_as ctx container (tsa_only (re_policy (cx_reader ctx))) reading /\ reading_seal reading = Some seal /\
    length (seal_witnesses seal) = 1%nat /\ receipts2 ctx (seal_anchor seal) = Ok receipts /\
    receipts_reproduced ctx fs0 2 receipts /\ set_verdict ctx reading receipts v /\
    seal_status seal = StatusVerified /\ fv_set_headline v = HeadlineVerified.

Lemma step4a_built_shows prepared accepted s u s' :
  sees s -> succeeds (step4a_built ctx prepared accepted) s u s' -> built_shows prepared accepted.
Proof.
  intros Hs Hr. unfold step4a_built in Hr. cbv zeta in Hr. act_skip Hr. act_require Hr Hkinds. act_step Hr ca.
  destruct ca as [container attestations]. apply succeeds_lift, map_err_ok in Hca. act_skip Hr.
  act_step Hr ct. apply succeeds_lift in Hct. act_step Hr d1.
  eapply (succeeds_derived st fs0) in Hd1; [|done|exact Hreplay].
  act_step Hr at_. apply succeeds_lift in Hat_. act_step Hr d2.
  eapply (succeeds_derived st fs0) in Hd2; [|done|exact Hreplay].
  act_step Hr reading. act_step Hr ms. apply members_shows in Hms as [n Hms]; [|done].
  destruct (reading_seal reading) as [seal|] eqn:Hseal; [|by apply succeeds_require in Hr].
  act_skip Hr. act_require Hr Hone. act_step Hr receipts. apply succeeds_lift in Hreceipts.
  act_step Hr d3. apply derive_receipts_shows in Hd3; [|done]. act_skip Hr. act_require Hr Hstatus.
  apply succeeds_require in Hr. apply bool_decide_eq_true in Hkinds, Hstatus, Hr. apply Nat.eqb_eq in Hone.
  exists container, attestations, ct, at_, reading, seal, receipts, (full_set_check (package_of reading ms receipts)).
  split_and!; try done; [by eapply verify_shows|by exists n, ms].
Qed.

Lemma step4a_passed s u s' :
  sees s -> succeeds (step4a ctx) s u s' ->
  exists p prepared accepted n,
    pair_held ctx fs0 ["s2-qtsa.json"] WQtsa p /\ prepared_held ctx fs0 2 prepared /\
    evaluate_seal_witnesses n (re_aq (cx_reader ctx)) prepared (rs_heads state).2 (rs_did state)
      [{| sw_object := sp_object p; sw_signature := Some (sp_signature p) |}] (without_evm open_witness) = Ok accepted /\
    built_shows prepared accepted.
Proof.
  intros Hs Hr. unfold step4a in Hr. cbv zeta in Hr. act_skip Hr. act_skip Hr. act_skip Hr. act_skip Hr. act_skip Hr.
  act_skip Hr. act_step Hr p. destruct p as [p|e]; [|by apply succeeds_require in Hr].
  eapply succeeds_try in Hp; [|reflexivity]. apply load_pair_shows in Hp; [|done]. act_skip Hr.
  act_step Hr prepared. apply load_prepared_shows in Hprepared; [|done]. act_step Hr res.
  apply evaluate_shows in Hres as [n Hres]. destruct res as [accepted|e]; [|by apply succeeds_require in Hr].
  apply step4a_built_shows in Hr; [|done]. by exists p, prepared, accepted, n.
Qed.

Lemma step4b_passed s u s' :
  sees s -> succeeds (step4b ctx) s u s' ->
  requirement_kinds [] IfPresent = Err SealNoWitness /\
  (exists prepared n, prepared_held ctx fs0 2 prepared /\
     evaluate_seal_witnesses n (re_aq (cx_reader ctx)) prepared (rs_heads state).2 (rs_did state) []
       (without_evm open_witness) = Err RefusedNoWitness) /\
  exists leaves head signer n, head_from_leaves (rs_set state) leaves = Ok head /\
    build_seal_container n (re_aq (cx_reader ctx)) head signer (without_evm open_witness) = Err (Refused RefusedNoWitness).
Proof.
  intros Hs Hr. unfold step4b in Hr. cbv zeta in Hr. act_skip Hr. act_skip Hr. act_skip Hr. act_require Hr Hp1.
  act_skip Hr. act_require Hr Hp2. act_step Hr prepared. apply load_prepared_shows in Hprepared; [|done].
  act_step Hr p3. apply succeeds_chain in Hp3 as [n Hp3]. act_skip Hr. act_require Hr Hok3. act_step Hr leaves.
  act_step Hr h2b. apply succeeds_lift in Hh2b. act_step Hr key. act_step Hr p4. apply succeeds_chain in Hp4 as [n' Hp4].
  act_skip Hr. act_require Hr Hok4. split_and!.
  - by destruct (requirement_kinds [] IfPresent) as [|[]].
  - exists prepared, n. split; [done|]. rewrite <- Hp3. by destruct p3 as [|[]].
  - exists leaves, h2b, (secp256k1_key key), n'. split; [done|]. rewrite <- Hp4. by destruct p4 as [|[|[]|]].
Qed.

Lemma step4_passed s u s' : sees s -> succeeds (step4 ctx) s u s' -> step4_shows ctx fs0.
Proof.
  intros Hs Hr. unfold step4 in Hr. pose proof (tame_step4a ctx). pose proof (tame_step4b ctx). act_step Hr a.
  apply guarded_shows in Ha as [s1 Ha]; [|done..]. apply guarded_shows in Hr as [s2 Hb]; [|done..].
  apply step4a_passed in Ha as (p & prepared & accepted & n & Hp & Hpr & He & Hbuilt); [|done].
  apply step4b_passed in Hb; [|done]. split; [|done].
  destruct Hbuilt as (container & attestations & ct & at_ & reading & seal & receipts & v & Hbuilt).
  exists p, prepared, accepted, container, attestations, ct, at_, reading, seal, receipts, v, n. tauto.
Qed.

(** *** Step 6 *)

Lemma step6_passed s u s' : sees s -> succeeds (step6 ctx) s u s' -> step6_shows ctx fs0.
Proof.
  intros Hs Hr. apply guarded_shows in Hr as [s1 Hr]; [|apply tame_step6_inner|done]. unfold step6_inner in Hr.
  act_skip Hr. act_skip Hr. act_step Hr c1. act_step Hr a1.
  destruct c1 as [c1|]; [|by apply succeeds_require in Hr]. destruct a1 as [a1|]; [|by apply succeeds_require in Hr].
  eapply succeeds_try in Hc1, Ha1; [|reflexivity..].
  apply (succeeds_read_bytes st fs0) in Hc1; [|done]. apply (succeeds_read_bytes st fs0) in Ha1; [|done].
  act_step Hr evm. apply load_pair_shows in Hevm; [|done]. act_step Hr qtsa. apply load_pair_shows in Hqtsa; [|done].
  act_step Hr prepared. apply load_prepared_shows in Hprepared; [|done]. act_step Hr built.
  apply succeeds_chain in Hbuilt as [n Hbuilt].
  destruct built as [[container attestations]|e]; [|by apply succeeds_require in Hr].
  act_step Hr c6. apply succeeds_lift in Hc6. act_step Hr a6. apply succeeds_lift in Ha6. act_skip Hr. act_skip Hr.
  act_require Hr Heqc. apply succeeds_require in Hr. apply bool_decide_eq_true in Heqc, Hr. subst c1 a1.
  by exists evm, qtsa, prepared, n, container, attestations, c6, a6.
Qed.

(** *** Step 7 *)

Lemma step7_method_shows epoch root_txt epoch_root n m s r s' :
  sees s -> succeeds (step7_method ctx epoch root_txt epoch_root n m) s r s' ->
  r = n + 2 /\
  exists text body, read st (epoch_file epoch m) fs0 = Ok text /\ json_from_str text = Ok body /\
    let payloads := with_payloads (default [] (json_object (json_index body "revisions"))) in
    length payloads = 2%nat /\ Forall (fun kp => payload_shows m epoch_root kp.2) payloads.
Proof.
  intros Hs Hr. unfold step7_method in Hr. cbv zeta in Hr. act_skip Hr. act_skip Hr. act_skip Hr.
  act_step Hr text. apply read_m_shows in Htext; [|done]. act_step Hr body. apply succeeds_lift in Hbody.
  act_step Hr ps. act_require Hr Hlen. apply succeeds_ret in Hr as ->. apply Z.eqb_eq in Hlen. unfold OWN_LEAVES in Hlen.
  split; [lia|]. exists text, body. cbv zeta. split_and!; [done|done|lia|].
  eapply (succeeds_for_each st fs0 _ (fun kp => payload_shows m epoch_root kp.2)) in Hps;
    [exact Hps|exact Hap|intros; tame| |done].
  intros [k p] sa b sb Hsa Hp. unfold step7_payload in Hp. cbv zeta in Hp. act_skip Hp. act_require Hp Hstub.
  apply succeeds_require in Hp. apply bool_decide_eq_true in Hstub. split; [done|]. cbn [snd].
  destruct (parse_batch_root _) as [root|]; [|done]. by apply bool_decide_eq_true in Hp as ->.
Qed.

(** The pairs are the run's, and the epoch holds at least its leaves. *)
Lemma pair_coverage_ok visible own count c :
  pair_coverage visible own count = Ok c ->
  visible = 2 * own /\ own <= count /\
  match c with Full p => p = visible /\ count = own | Partial p n => p = visible /\ n = count /\ own < count end.
Proof.
  unfold pair_coverage. destruct (Z.eqb_spec visible (2 * own)) as [->|]; [|done]. cbn [negb].
  destruct (Z.ltb_spec count own) as [|Hc]; [done|]. destruct (Z.eqb_spec count own) as [->|]; intros [= <-];
    split_and!; try done; lia.
Qed.

Lemma step7_passed s u s' : sees s -> succeeds (step7 ctx) s u s' -> step7_shows ctx fs0.
Proof.
  intros Hs Hr. apply guarded_shows in Hr as [s1 Hr]; [|apply tame_step7_inner|done]. unfold step7_inner in Hr.
  cbv zeta in Hr. act_step Hr epoch. apply succeeds_lift, ok_or_ok in Hepoch. act_skip Hr. act_skip Hr.
  act_require Hr Hacc. apply bool_decide_eq_true in Hacc. act_skip Hr. act_skip Hr.
  act_step Hr etext. apply read_m_shows in Hetext; [|done]. act_step Hr epochs. apply succeeds_lift in Hepochs. act_skip Hr.
  destruct (json_array (json_index epochs "epochs")) as [items|] eqn:Hitems; cbn [mbind option_bind] in Hr;
    [|by apply succeeds_require in Hr].
  destruct (List.find _ items) as [item|] eqn:Hfind; [|by apply succeeds_require in Hr].
  apply find_some in Hfind as [Hin%list_elem_of_In Hid%bool_decide_eq_true].
  act_step Hr root. apply succeeds_lift, map_err_ok in Hroot. act_skip Hr. act_step Hr pairs.
  destruct (json_as_u64 (json_index item "leaf_count")) as [count|] eqn:Hcount; [|by apply succeeds_require in Hr].
  cbn [fold_act] in Hpairs. act_step Hpairs n1. apply step7_method_shows in Hn1 as [-> He]; [|done].
  act_step Hpairs n2. apply step7_method_shows in Hn2 as [-> Hq]; [|done]. apply succeeds_ret in Hpairs as ->.
  destruct (pair_coverage _ _ count) as [c|why] eqn:Hc; [|by apply succeeds_require in Hr].
  apply pair_coverage_ok in Hc as (_ & Hle & _).
  exists epoch, etext, epochs, items, item, root, count. split_and!; try done.
  intros m [->| ->%list_elem_of_singleton]%elem_of_cons; [exact He|exact Hq].
Qed.

(** *** Step 5 *)

Lemma step5a2_shows c1 tq t2 a_key s u s' :
  sees s -> succeeds (step5a2 ctx c1 tq t2 a_key) s u s' ->
  exists reading receipts v,
    reads_as ctx (tree_with_revisions c1 (btree_insert tq t2 (tree_revisions c1))) (dual (re_policy (cx_reader ctx))) reading /\
    receipts1 ctx a_key = Ok receipts /\ set_verdict ctx reading receipts v /\
    reading_status reading <> StatusVerified /\ fv_set_headline v <> HeadlineVerified.
Proof.
  intros Hs Hr. unfold step5a2 in Hr. cbv zeta in Hr. act_skip Hr. act_step Hr text. act_skip Hr. act_step Hr reading.
  act_step Hr ms. apply members_shows in Hms as [n Hms]; [|done]. act_skip Hr. act_step Hr receipts.
  apply succeeds_lift in Hreceipts. act_skip Hr. apply succeeds_require in Hr.
  apply andb_true_iff in Hr as [Ha%negb_true_iff%bool_decide_eq_false Hb%negb_true_iff%bool_decide_eq_false].
  exists reading, receipts, (full_set_check (package_of reading ms receipts)).
  split_and!; try done; [by eapply verify_shows|by exists n, ms].
Qed.

Lemma step5a_verdicts_shows seal v a2 t2 s u s' :
  sees s -> succeeds (step5a_verdicts ctx seal v a2 t2) s u s' ->
  (exists reason, admission_of seal t2 = Some (Failed reason) /\ reason <> "") /\
  seal_status seal = StatusNotChecked /\ fv_integrity v = NotChecked /\
  handover_is_pass seal (rs_did state) = false /\ fv_set_headline v = PartiallyVerified.
Proof.
  intros Hs Hr. unfold step5a_verdicts in Hr. cbv zeta in Hr. act_require Hr Hfailed. act_require Hr Hstatus.
  act_require Hr Hint. act_require Hr Hfind. act_skip Hr. act_require Hr Hho. act_require Hr Hhead. clear Hr.
  apply bool_decide_eq_true in Hstatus, Hint, Hhead. apply negb_true_iff in Hho. split_and!; try done.
  destruct (admission_of seal t2) as [[]|]; try done.
  apply negb_true_iff, bool_decide_eq_false in Hfailed. by eexists.
Qed.

Definition token_tamper_shows (o : Step2Out) : Prop :=
  exists c1 pq pe tq te relinked reading seal receipts v,
    container_held ctx fs0 c1 /\ pair_held ctx fs0 ["s1-qtsa.json"] WQtsa pq /\ pair_held ctx fs0 ["s1-evm.json"] WEvm pe /\
    link_parse (fe_object_key (sp_fetched pq)) = Ok tq /\ link_parse (fe_object_key (sp_fetched pe)) = Ok te /\
    relink_flipped_token c1 (seal_anchor (s2_seal o)) (seal_head_link (s2_seal o)) tq te = Ok relinked /\
    reads_as ctx (rl_container relinked) (dual (re_policy (cx_reader ctx))) reading /\ reading_seal reading = Some seal /\
    receipts1 ctx (rl_anchor_link relinked) = Ok receipts /\ set_verdict ctx reading receipts v /\
    (exists reason, admission_of seal (rl_flipped_link relinked) = Some (Failed reason) /\ reason <> "") /\
    seal_status seal = StatusNotChecked /\ fv_integrity v = NotChecked /\
    handover_is_pass seal (rs_did state) = false /\ fv_set_headline v = PartiallyVerified /\
    exists reading2 receipts2 v2,
      reads_as ctx (tree_with_revisions c1 (btree_insert tq (rl_flipped relinked) (tree_revisions c1)))
        (dual (re_policy (cx_reader ctx))) reading2 /\
      receipts1 ctx (seal_anchor (s2_seal o)) = Ok receipts2 /\ set_verdict ctx reading2 receipts2 v2 /\
      reading_status reading2 <> StatusVerified /\ fv_set_headline v2 <> HeadlineVerified.

Lemma step5a_passed o s u s' : sees s -> succeeds (step5a ctx (Some o)) s u s' -> token_tamper_shows o.
Proof.
  intros Hs Hr. unfold step5a in Hr. cbv zeta in Hr. act_skip Hr. act_skip Hr. act_step Hr c.
  destruct c as [c1|e]; [|by apply succeeds_require in Hr]. eapply succeeds_try in Hc; [|reflexivity].
  apply load_container_shows in Hc; [|done]. act_step Hr pq. apply load_pair_shows in Hpq; [|done].
  act_step Hr tq. apply succeeds_lift in Htq. act_step Hr pe. apply load_pair_shows in Hpe; [|done].
  act_step Hr te. apply succeeds_lift in Hte. act_step Hr relinked. apply succeeds_lift in Hrelinked.
  act_skip Hr. act_skip Hr. act_skip Hr. act_step Hr text. act_skip Hr. act_skip Hr. act_step Hr reading.
  act_step Hr ms. apply members_shows in Hms as [n Hms]; [|done]. act_skip Hr. act_step Hr receipts.
  apply succeeds_lift in Hreceipts. act_skip Hr. destruct (reading_seal reading) as [seal|] eqn:Hseal;
    [|by apply succeeds_require in Hr].
  act_skip Hr. act_step Hr w. apply step5a_verdicts_shows in Hw as (Hf & Hst & Hi & Hho & Hh); [|done].
  apply step5a2_shows in Hr; [|done].
  exists c1, pq, pe, tq, te, relinked, reading, seal, receipts, (full_set_check (package_of reading ms receipts)).
  split_and!; try done; [by eapply verify_shows|by exists n, ms].
Qed.

(** What the readings of the altered documents show, under one set of pins. *)
Definition pins_show (seal : VerifiedSeal) (tq : RevisionLink) (d : Tampered) (pins : gset string) : Prop :=
  let reading_ text := read_seal_attestations seal (Some text) pins in
  (reading_of (reading_ (td_removed d)) tq = None \/ reading_of (reading_ (td_removed d)) tq = Some []) /\
  (exists cause, reading_of (reading_ (td_altered d)) tq = Some [Unverifiable cause] /\ names_did cause = false) /\
  (exists cause, reading_of (reading_ (td_alone d)) tq = Some [Unverifiable cause]) /\
  names_did (debug (reading_ (td_alone d))) = false /\
  (exists cause, rekeyed_reading_ok (reading_ (td_rekeyed d)) tq (td_key d) = Ok cause) /\
  (exists cause, rekeyed_reading_ok (reading_ (td_rekeyed_alone d)) tq (td_key d) = Ok cause) /\
  names_did (debug (reading_ (td_rekeyed_alone d))) = false.

Lemma one_unverifiable (o : option (list AttestationVerdict)) (f : string -> bool) :
  match default [] o with [Unverifiable cause] => f cause | _ => false end = true ->
  exists cause, o = Some [Unverifiable cause] /\ f cause = true.
Proof. destruct o as [[|[] []]|]; try done. intros Hf. by eexists. Qed.

Lemma step5b_pins_shows seal tq d pins s u s' :
  sees s -> succeeds (step5b_pins seal tq d pins) s u s' -> pins_show seal tq d pins.
Proof.
  intros Hs Hr. unfold step5b_pins in Hr. cbv zeta in Hr. act_skip Hr. act_require Hr Hrem. act_skip Hr.
  act_require Hr Halt. act_require Hr Helse. act_skip Hr. act_require Hr Halone. act_skip Hr. act_require Hr Hre.
  act_skip Hr. apply succeeds_require in Hr. unfold pins_show. cbv zeta.
  apply andb_true_iff in Halt as [Halt _], Halone as [Halone Hdid%negb_true_iff], Hr as [Hra Hdid2%negb_true_iff].
  apply one_unverifiable in Halt as (cause & Halt & Hc%negb_true_iff).
  apply (one_unverifiable _ (fun _ => true)) in Halone as (cause2 & Halone & _).
  split_and!; try done; [|by exists cause|by exists cause2| |].
  - destruct (reading_of _ tq) as [q|]; [right|by left]. by apply bool_decide_eq_true in Hrem as ->.
  - destruct (rekeyed_reading_ok _ tq (td_key d)) as [c|] in Hre |- *; [by exists c|done].
  - destruct (rekeyed_reading_ok _ tq (td_key d)) as [c|] in Hra |- *; [by exists c|done].
Qed.

(** The documents are the tampering's. *)
Definition documents_of (doc : Value) (key : string) (d : Tampered) : Prop :=
  exists removed altered alone rekeyed rekeyed_alone,
    remove_p doc key = Ok removed /\ alter_p_key_kept doc key = Ok altered /\ only_p altered.1 key = Ok alone /\
    rekey_bad_signature doc key = Ok rekeyed /\ only_p (rk_doc rekeyed) (link_to_string (rk_key rekeyed)) = Ok rekeyed_alone /\
    d = {| td_removed := json_to_string removed; td_altered := json_to_string altered.1; td_alone := json_to_string alone;
           td_rekeyed := json_to_string (rk_doc rekeyed); td_rekeyed_alone := json_to_string rekeyed_alone;
           td_key := rk_key rekeyed |}.

Lemma step5b_documents_shows doc tq key s d s' :
  sees s -> succeeds (step5b_documents ctx doc tq key) s d s' -> documents_of doc key d.
Proof.
  intros Hs Hr. unfold step5b_documents in Hr. cbv zeta in Hr. act_step Hr removed. apply succeeds_lift in Hremoved.
  act_skip Hr. act_step Hr altered. apply succeeds_lift in Haltered. destruct altered as [altered note]. act_skip Hr.
  act_step Hr alone. apply succeeds_lift in Halone. act_skip Hr. act_skip Hr. act_step Hr rekeyed.
  apply succeeds_lift in Hrekeyed. act_skip Hr. act_step Hr rekeyed_alone. apply succeeds_lift in Hrekeyed_alone.
  act_skip Hr. act_skip Hr. apply succeeds_ret in Hr as ->.
  by exists removed, (altered, note), alone, rekeyed, rekeyed_alone.
Qed.

Lemma step5b_passed o s u s' :
  sees s -> succeeds (step5b ctx (Some o)) s u s' ->
  exists text doc pq tq d c1 reading again,
    read st ATTESTATIONS_1 fs0 = Ok text /\ json_from_str text = Ok doc /\
    pair_held ctx fs0 ["s1-qtsa.json"] WQtsa pq /\ link_parse (fe_object_key (sp_fetched pq)) = Ok tq /\
    documents_of doc (fe_signature_key (sp_fetched pq)) d /\
    (forall pins, pins ∈ [∅; {[rs_server_did state]}] -> pins_show (s2_seal o) tq d pins) /\
    container_held ctx fs0 c1 /\ reads_as ctx c1 (dual (re_policy (cx_reader ctx))) reading /\
    into_seal reading = Ok again /\ stable again = s2_stable o.
Proof.
  intros Hs Hr. unfold step5b in Hr. cbv zeta in Hr. act_skip Hr. act_step Hr text. apply read_m_shows in Htext; [|done].
  act_step Hr doc. apply succeeds_lift in Hdoc. act_step Hr pq. apply load_pair_shows in Hpq; [|done].
  act_step Hr tq. apply succeeds_lift in Htq. destruct (bool_decide _) in Hr; [by apply succeeds_require in Hr|].
  act_step Hr d. apply step5b_documents_shows in Hd; [|done]. act_step Hr p.
  eapply (succeeds_for_each st fs0 _ (pins_show (s2_seal o) tq d)) in Hp;
    [|exact Hap|intros; tame|intros ????; apply step5b_pins_shows|done].
  act_step Hr c1. apply load_container_shows in Hc1; [|done]. act_step Hr reading.
  destruct (into_seal reading) as [again|rej] eqn:Hseal; [|by apply succeeds_require in Hr].
  act_require Hr Heq. apply bool_decide_eq_true in Heq.
  exists text, doc, pq, tq, d, c1, reading, again. split_and!; try done; [|by eapply verify_shows].
  by apply Forall_forall.
Qed.

Lemma step5_passed o s u s' : sees s -> succeeds (step5 ctx (Some o)) s u s' -> step5_shows ctx fs0 o.
Proof.
  intros Hs Hr. unfold step5 in Hr. pose proof (tame_step5a ctx (Some o)). pose proof (tame_step5b ctx (Some o)).
  act_step Hr a. apply guarded_shows in Ha as [s1 Ha]; [|done..]. apply guarded_shows in Hr as [s2 Hb]; [|done..].
  apply step5a_passed in Ha; [|done].
  apply step5b_passed in Hb as (text & doc & pq & tq & d & c1 & reading & again & Ht & Hdoc & Hpq & Htq &
    (removed & altered & alone & rekeyed & rekeyed_alone & Hd) & Hpins & Hc & Hread & Hinto & Hst); [|done].
  split; [exact Ha|].
  exists text, doc, pq, tq, removed, altered, alone, rekeyed, rekeyed_alone, c1, reading, again.
  destruct Hd as (? & ? & ? & ? & ? & ->). cbv zeta. split_and!; done.
Qed.
End shows.
