(* ===== verification/ReplayTheorems.v ===== *)
(** * The replay of a run
    ([crates/aqua-timestamp-e2e/src/seal/replay.rs])

    A replay leaves the persisted run as it is, writes nothing anywhere without
    [--out], and when it passes has shown every step's claim on the persisted
    bytes alone. *)

From S2P Require Import Prelude External Client HarnessPoll HarnessWitness HarnessStore HarnessPath SealSdk SealTamper RunDir SealAct SealSteps SealRun SealReplay SealProofs SealShows.
Open Scope string_scope.
Open Scope list_scope.
Open Scope Z_scope.

(** An action that always ends with a value. *)
Definition total {A} (m : Act A) : Prop := forall s, exists s' a, m s = (s', Ok a).

Section replay.
Context `{HexCrate, SealSdk, !ClientCrates, !HarnessCrates, !SealEnv}.

Lemma guarded_total what m : total (guarded what m).
Proof.
  intros s. unfold guarded, act_bind, try. destruct (m s) as [[w log] [a|e]]; [by eexists _, _|].
  unfold require, act_bind, assert_. destruct (check _ _ _ log) as [log1 b]. by eexists _, _.
Qed.

Lemma total_bind {A B} (m : Act A) (k : A -> Act B) : total m -> (forall a, total (k a)) -> total (act_bind m k).
Proof. intros Hm Hk s. unfold act_bind. destruct (Hm s) as (s1 & a & ->). apply Hk. Qed.

Lemma step2_total ctx : total (step2 ctx).
Proof.
  intros s. unfold step2, act_bind at 1, try. destruct (step2_inner ctx s) as [[w log] [a|e]]; [by eexists _, _|].
  unfold require, act_bind, assert_. destruct (check _ _ _ log) as [log1 b]. by eexists _, _.
Qed.

Lemma StepLog_new_passed u n t h : passed (StepLog_new u n t h) = true.
Proof. done. Qed.

Section ctx.
Context (ctx : Ctx) (closing : string).
Abbreviation st := (cx_store ctx).

(** What a step does besides its log. *)
Definition effect_free (fs fs' : Fs) : Prop :=
  (apart st -> same_run st fs fs') /\ (write_dir st = None -> fs' = fs).

Lemma effect_free_trans a b c : effect_free a b -> effect_free b c -> effect_free a c.
Proof.
  intros [Ha Hb] [Hc Hd]. split; [intros Hap; eapply same_run_trans; by auto|]. intros Hn. rewrite Hd, Hb; done.
Qed.

Lemma tame_effect {A} (m : Act A) w log w' log' r : tame st m -> m (w, log) = (w', log', r) -> effect_free (w_fs w) (w_fs w').
Proof. intros Hm He. split; intros ?; [by eapply tame_spares|by eapply tame_silent]. Qed.

Lemma keep_effect log w w' r : keep ctx closing log w = (w', r) -> effect_free (w_fs w) (w_fs w').
Proof.
  unfold keep. destruct (write_dir st) as [d|] eqn:Hd.
  - destruct (log_write log d closing (w_fs w)) as [fs r1] eqn:He. intros [= <- <-].
    split; [|congruence]. intros Hap q. cbn. destruct (Hap d Hd) as [Hn1 Hn2]. unfold log_write in He.
    pose proof (write_file_other (d ++ ["step-" +:+ pretty.pretty (sl_n log) +:+ ".log"])
      (as_bytes (log_text log closing)) (w_fs w) (st_run st ++ q)) as Hw. rewrite He in Hw. apply Hw. intros Hq.
    destruct (prefix_apart d (st_run st) (st_run st ++ q)) as [?|?]; [|by apply prefix_app_r|done..].
    rewrite Hq. by apply prefix_app_r.
  - intros [= <- <-]. split; intros; [apply same_run_refl|done].
Qed.

Lemma run_step_effect {A} n title (m : Act A) w w' log o :
  tame st m -> run_step n title ctx m w = (w', log, o) -> effect_free (w_fs w) (w_fs w').
Proof.
  intros Hm. unfold run_step. destruct (m _) as [[w1 log1] r] eqn:He. intros [= <- <- <-]. by eapply tame_effect.
Qed.

(** A step whose log passed has succeeded. *)
Lemma run_step_shows {A} n title (m : Act A) w w' log o :
  total m -> run_step n title ctx m w = (w', log, o) -> passed log = true ->
  exists a log0, o = Some a /\ succeeds m (w, log0) a (w', log).
Proof.
  intros Ht. unfold run_step. destruct (Ht (w, StepLog_new (utc (w_now w)) n title (cx_header ctx))) as ([w1 log1] & a & He).
  rewrite He. intros [= <- <- <-] Hp. exists a. eexists. split; [done|]. by split.
Qed.

Lemma run_steps_effect steps logs w w' r :
  Forall (fun x : Z * string * Act unit => tame st x.2) steps ->
  run_steps ctx closing steps logs w = (w', r) -> effect_free (w_fs w) (w_fs w').
Proof.
  revert logs w. induction steps as [|[[n t] m] steps IH]; intros logs w; cbn [run_steps].
  { intros _ [= <- <-]. split; intros; [apply same_run_refl|done]. }
  intros [Hm Hs]%Forall_cons. destruct (run_step n t ctx m w) as [[w1 log] o] eqn:Hr. cbn in Hm.
  destruct (keep ctx closing log w1) as [w2 r2] eqn:Hk.
  pose proof (run_step_effect _ _ _ _ _ _ _ Hm Hr) as H1e. pose proof (keep_effect _ _ _ _ Hk) as H2e.
  destruct r2 as [|e].
  - intros He%IH; [|done]. eapply effect_free_trans; [exact H1e|]. by eapply effect_free_trans.
  - intros [= <- <-]. by eapply effect_free_trans.
Qed.

(** The steps in order, each from a disk that holds the run as before. *)
Lemma run_steps_shows fs0 steps logs w w' logs' :
  apart st -> same_run st fs0 (w_fs w) ->
  Forall (fun x : Z * string * Act unit => tame st x.2 /\ total x.2) steps ->
  run_steps ctx closing steps logs w = (w', Ok logs') -> forallb passed logs' = true ->
  forallb passed logs = true /\ length logs' = (length logs + length steps)%nat /\
  Forall (fun x : Z * string * Act unit => exists s s', same_run st fs0 (w_fs s.1) /\ succeeds x.2 s tt s') steps.
Proof.
  intros Hap. revert logs w. induction steps as [|[[n t] m] steps IH]; intros logs w Hs; cbn [run_steps].
  { intros _ [= <- <-] Hp. split_and!; [done|cbn; lia|constructor]. }
  intros [[Hm Ht] Hall]%Forall_cons. destruct (run_step n t ctx m w) as [[w1 log] o] eqn:Hr. cbn in Hm, Ht.
  destruct (keep ctx closing log w1) as [w2 r2] eqn:Hk.
  pose proof (run_step_effect _ _ _ _ _ _ _ Hm Hr) as [H1e _]. pose proof (keep_effect _ _ _ _ Hk) as [H2e _].
  destruct r2 as [|e]; [|done]. intros He Hp.
  apply IH in He as (Hlogs & Hlen & Hrest); [|eapply same_run_trans; [exact Hs|eapply same_run_trans; eauto]|done|done].
  rewrite forallb_app in Hlogs. apply andb_true_iff in Hlogs as [Hlogs Hlog]. cbn in Hlog. rewrite andb_true_r in Hlog.
  split_and!; [done|rewrite Hlen, length_app; cbn; lia|]. constructor; [|done].
  destruct (run_step_shows _ _ _ _ _ _ _ Ht Hr Hlog) as ([] & log0 & _ & Hsuc). by exists (w, log0), (w1, log).
Qed.
End ctx.

Lemma later_steps ctx o :
  Forall (fun x : Z * string * Act unit => tame (cx_store ctx) x.2 /\ total x.2)
    [(3, TITLE_3, step3 ctx); (4, TITLE_4, step4 ctx); (5, TITLE_5, step5 ctx o); (6, TITLE_6, step6 ctx); (7, TITLE_7, step7 ctx)].
Proof.
  pose proof (tame_step4a ctx). pose proof (tame_step4b ctx). pose proof (tame_step5a ctx o). pose proof (tame_step5b ctx o).
  pose proof (tame_step6_inner ctx). pose proof (tame_step7_inner ctx).
  repeat (apply Forall_cons_2;
    [cbn [snd]; unfold step3, step4, step5, step6, step7; split;
       [tame|repeat first [apply guarded_total|apply total_bind; [|intros]]]|]).
  constructor.
Qed.

Lemma run_effect ctx closing w w' r :
  run ctx FromPersisted closing w = (w', r) -> effect_free ctx (w_fs w) (w_fs w').
Proof.
  unfold run. change (run_steps ctx closing [] [] w) with (w, @Ok string (list StepLog) []). cbv beta iota. destruct (run_step 2 TITLE_2 ctx (step2 ctx) w) as [[w1 log] s2] eqn:Hr.
  destruct (keep ctx closing log w1) as [w2 r2] eqn:Hk.
  pose proof (run_step_effect _ _ _ _ _ _ _ _ (tame_step2 ctx) Hr) as H1e. pose proof (keep_effect _ _ _ _ _ _ Hk) as H2e.
  destruct r2 as [|e]; [|intros [= <- <-]; by eapply effect_free_trans].
  intros He. apply run_steps_effect in He.
  - eapply effect_free_trans; [exact H1e|]. by eapply effect_free_trans.
  - eapply Forall_impl; [apply later_steps|]. by intros x [? _].
Qed.

Lemma run_shows ctx closing out w w' logs :
  apart (cx_store ctx) -> st_mode (cx_store ctx) = Replay out ->
  run ctx FromPersisted closing w = (w', Ok logs) -> forallb passed logs = true ->
  length logs = 6%nat /\
  exists o, step2_shows ctx (w_fs w) o /\ step3_shows ctx (w_fs w) /\ step4_shows ctx (w_fs w) /\
    step5_shows ctx (w_fs w) o /\ step6_shows ctx (w_fs w) /\ step7_shows ctx (w_fs w).
Proof.
  intros Hap Hm. unfold run. change (run_steps ctx closing [] [] w) with (w, @Ok string (list StepLog) []). cbv beta iota. destruct (run_step 2 TITLE_2 ctx (step2 ctx) w) as [[w1 log] s2] eqn:Hr.
  destruct (keep ctx closing log w1) as [w2 r2] eqn:Hk.
  pose proof (run_step_effect _ _ _ _ _ _ _ _ (tame_step2 ctx) Hr) as [H1e _].
  pose proof (keep_effect _ _ _ _ _ _ Hk) as [H2e _]. destruct r2 as [|e]; [|done].
  intros He Hp. apply (run_steps_shows ctx closing (w_fs w)) in He as (Hlog & Hlen & Hall);
    [|done|eapply same_run_trans; eauto|apply later_steps|done].
  cbn in Hlog, Hlen. rewrite andb_true_r in Hlog. split; [done|].
  destruct (run_step_shows _ _ _ _ _ _ _ _ (step2_total ctx) Hr Hlog) as (o2 & log0 & -> & Hs2).
  apply (step2_passed ctx (w_fs w) out) in Hs2 as (o & -> & Hs2); [|done|done|apply same_run_refl].
  cbn [mjoin option_join] in Hall.
  apply Forall_cons in Hall as [(s3 & s3' & Hs3 & Hp3) Hall]. apply Forall_cons in Hall as [(s4 & s4' & Hs4 & Hp4) Hall].
  apply Forall_cons in Hall as [(s5 & s5' & Hs5 & Hp5) Hall]. apply Forall_cons in Hall as [(s6 & s6' & Hs6 & Hp6) Hall].
  apply Forall_cons in Hall as [(s7 & s7' & Hs7 & Hp7) _]. cbn [snd] in *.
  exists o. split_and!;
    [done|exact (step3_passed _ _ Hap _ _ _ Hs3 Hp3)|exact (step4_passed _ _ _ Hap Hm _ _ _ Hs4 Hp4)
    |exact (step5_passed _ _ Hap _ _ _ _ Hs5 Hp5)|exact (step6_passed _ _ Hap _ _ _ Hs6 Hp6)
    |exact (step7_passed _ _ Hap _ _ _ Hs7 Hp7)].
Qed.

(** [--out] and the run directory, neither in the other. *)
Definition out_apart (cfg : ReplayConfig) : Prop :=
  forall out, rc_out cfg = Some out -> ~ out `prefix_of` rc_run_dir cfg /\ ~ rc_run_dir cfg `prefix_of` out.

Lemma replay_run guard sdk cfg w :
  (exists e, run_replay guard sdk cfg w = (w, Err e)) \/
  exists state rev, verify_complete (rc_run_dir cfg) (w_fs w) = Ok tt /\
    RunState_load (rc_run_dir cfg) (w_fs w) (w_reads w) (re_aq (rc_reader cfg)) = Ok state /\
    run_replay guard sdk cfg w = run (replay_ctx cfg state rev) FromPersisted "replay" (after_call w).
Proof.
  unfold run_replay. destruct (match rc_out cfg with Some out => guard out (rc_run_dir cfg) | None => Ok tt end) as [u|e];
    cbn [result_bind]; [|left; by eexists].
  destruct (verify_complete (rc_run_dir cfg) (w_fs w)) as [[]|e]; cbn [result_bind map_err]; [|left; by eexists].
  destruct (RunState_load _ _ _ _) as [state|e]; cbn [result_bind map_err]; [|left; by eexists].
  destruct sdk as [rev|e]; cbn [result_bind]; [|left; by eexists]. right. by exists state, rev.
Qed.

(** However it ends, a replay leaves every file of the run as it was, and
    without [--out] the whole disk. *)
Theorem replay_keeps_run guard sdk cfg w w' r :
  run_replay guard sdk cfg w = (w', r) ->
  (out_apart cfg -> forall file, fs_files (w_fs w') !! (rc_run_dir cfg ++ file) = fs_files (w_fs w) !! (rc_run_dir cfg ++ file)) /\
  (rc_out cfg = None -> w_fs w' = w_fs w).
Proof.
  intros He. destruct (replay_run guard sdk cfg w) as [[e Hr]|(state & rev & _ & _ & Hr)]; rewrite Hr in He.
  { by injection He as <- <-. }
  apply run_effect in He as [Ha Hs]. split; [|exact Hs]. intros Hout. exact (Ha Hout).
Qed.

(** C22. A replay that passes ran its six steps, on a complete run directory, and
    each has shown its claim on the bytes the directory held at the start. *)
Theorem replay_passed_shows guard sdk cfg w w' logs :
  out_apart cfg -> run_replay guard sdk cfg w = (w', Ok logs) -> replay_passed logs = true ->
  complete (rc_run_dir cfg) (w_fs w) /\ length logs = 6%nat /\
  exists state rev o, let ctx := replay_ctx cfg state rev in
    RunState_load (rc_run_dir cfg) (w_fs w) (w_reads w) (re_aq (rc_reader cfg)) = Ok state /\
    step2_shows ctx (w_fs w) o /\ step3_shows ctx (w_fs w) /\ step4_shows ctx (w_fs w) /\
    step5_shows ctx (w_fs w) o /\ step6_shows ctx (w_fs w) /\ step7_shows ctx (w_fs w).
Proof.
  intros Hout He Hp. destruct (replay_run guard sdk cfg w) as [[e Hr]|(state & rev & Hv & Hl & Hr)]; rewrite Hr in He.
  { done. }
  unfold replay_passed, all_passed in Hp. apply andb_true_iff in Hp as [_ Hp].
  apply (run_shows _ _ (rc_out cfg)) in He as [Hlen (o & Hshows)]; [|exact Hout|done|done].
  split; [by apply verify_complete_spec|]. split; [done|]. by exists state, rev, o.
Qed.
End replay.
