(* ===== verification/HarnessIdentity.v ===== *)
(** * The keys and the standing identity of the harness
    ([crates/aqua-timestamp-e2e/src]: [identity.rs], [flow.rs], [target.rs])

    A client's key and what it signs; the one identity a remote run signs in
    with, on a disk of directories, files and links with their modes.  A run of
    the file system may fail at each write.  A link in the middle of a path is
    left out, and the process may read what it owns. *)

From S2P Require Import Prelude External Utf8 Text Client HarnessWitness HarnessStore SealSdk RunDir SealAct.
Open Scope string_scope.
Open Scope list_scope.
Open Scope Z_scope.

(** ** The crates *)

Class KeyCrates := {
  (** [Url::parse]'s scheme and host, and [IpAddr]'s loopback test. *)
  url_parse : string -> result string (string * option string);
  ip_is_loopback : string -> bool;
  (** [k256]: a key from its bytes, a signature of a digest with its recovery
      id; the SDK's DID and address of a key; [sha3]. *)
  secp_from_slice : Hash32 -> result string unit;
  secp_sign_prehash : Hash32 -> Hash32 -> result string (array 64 * Z);
  secp_did : Hash32 -> result string (string * Address20);
  keccak256 : bytes -> Hash32;
  (** [ed25519_dalek] and [p256], a fresh key from a draw of the OS. *)
  Ed25519Key : Type;
  ed25519_generate : Hash32 -> Ed25519Key;
  ed25519_public : Ed25519Key -> Hash32;
  ed25519_sign : Ed25519Key -> bytes -> array 64;
  P256Key : Type;
  p256_random : Hash32 -> P256Key;
  p256_public : P256Key -> bytes;
  p256_sign : P256Key -> bytes -> array 64;
}.

(** ** [target.rs] *)

(** [s.trim_end_matches(p)] of one character. *)
Definition strip_suffix1 (p s : string) : string :=
  match rsplit_at p s with Some (before, EmptyString) => before | _ => s end.

Section keys.
Context `{HexCrate, KeyCrates}.

(** A bracket is trimmed where there is one, as the URL parser writes at most
    one. *)
Definition is_loopback (base_url : string) : bool :=
  match url_parse base_url with
  | Ok (_, Some host) =>
      eq_ignore_ascii_case host "localhost" || ip_is_loopback (strip_suffix1 "]" (strip_prefix_or "[" host))
  | _ => false
  end.

(** ** [flow.rs]: the keys *)

Inductive SignatureMethod := Secp256k1Eip191 | Ed25519 | P256.

Definition label (m : SignatureMethod) : string :=
  match m with Secp256k1Eip191 => "secp256k1+eip191" | Ed25519 => "ed25519" | P256 => "p256" end.

Inductive KeyMaterial :=
| KSecp256k1 (private_key : Hash32)
| KEd25519 (signing_key : Ed25519Key)
| KP256 (signing_key : P256Key).

Record ClientKey := {
  ck_did : string;
  ck_display_identifier : string;
  ck_method : SignatureMethod;
  ck_secret : KeyMaterial;
}.

Definition from_secp256k1_bytes (private_key : Hash32) : result string ClientKey :=
  let? _ := map_err (fun e => "invalid secp256k1 key: " +:+ e) (secp_from_slice private_key) in
  let? '(did, addr) := map_err (fun e => "derive_did_pkh: " +:+ e) (secp_did private_key) in
  Ok {| ck_did := did; ck_display_identifier := eip55 keccak256 addr; ck_method := Secp256k1Eip191;
        ck_secret := KSecp256k1 private_key |}.

(** [ClientKey::random] on one draw. *)
Definition random (method : SignatureMethod) (draw : Hash32) : result string ClientKey :=
  match method with
  | Secp256k1Eip191 =>
      let? _ := map_err (fun e => "random k256 signing key: " +:+ e) (secp_from_slice draw) in
      let? '(did, addr) := map_err (fun e => "derive_did_pkh: " +:+ e) (secp_did draw) in
      Ok {| ck_did := did; ck_display_identifier := eip55 keccak256 addr; ck_method := method;
            ck_secret := KSecp256k1 draw |}
  | Ed25519 =>
      let signing_key := ed25519_generate draw in
      let pubkey_hex := hex_encode (arr (ed25519_public signing_key)) in
      Ok {| ck_did := "did:pkh:ed25519:0x" +:+ pubkey_hex; ck_display_identifier := "0x" +:+ pubkey_hex;
            ck_method := method; ck_secret := KEd25519 signing_key |}
  | P256 =>
      let signing_key := p256_random draw in
      let pubkey_hex := hex_encode (p256_public signing_key) in
      Ok {| ck_did := "did:pkh:p256:0x" +:+ pubkey_hex; ck_display_identifier := "0x" +:+ pubkey_hex;
            ck_method := method; ck_secret := KP256 signing_key |}
  end.

(** The prefix of a personal message: its length in bytes. *)
Definition eip191_prefix (message : string) : string :=
  String (Ascii.ascii_of_nat 25) EmptyString +:+ "Ethereum Signed Message:" +:+ nl +:+
  num (Z.of_nat (String.length message)).

(** [r || s || v], the recovery id of [v] as a byte. *)
Definition eip191_personal_sign (message : string) (private_key : Hash32) : result string bytes :=
  let? _ := map_err (fun e => "k256 SigningKey: " +:+ e) (secp_from_slice private_key) in
  let prehash := keccak256 (as_bytes (eip191_prefix message) ++ as_bytes message) in
  let? '(sig, rec_id) := map_err (fun e => "sign_prehash: " +:+ e) (secp_sign_prehash private_key prehash) in
  Ok (arr sig ++ [byte_of_Z (rec_id + 27)]).

Definition sign_challenge (key : ClientKey) (message : string) : result string string :=
  match ck_secret key with
  | KSecp256k1 private_key =>
      let? b := eip191_personal_sign message private_key in Ok ("0x" +:+ hex_encode b)
  | KEd25519 signing_key => Ok ("0x" +:+ hex_encode (arr (ed25519_sign signing_key (as_bytes message))))
  | KP256 signing_key => Ok ("0x" +:+ hex_encode (arr (p256_sign signing_key (as_bytes message))))
  end.
End keys.

(** ** The disk *)

Inductive Entry := EDir (mode : Z) | EFile (mode : Z) (content : result string bytes) | ELink (target : Path).
Abbreviation Disk := (gmap Path Entry).

(** [symlink_metadata]: the entry itself; a link has every bit. *)
Definition mode_of (e : Entry) : Z := match e with EDir m | EFile m _ => m | ELink _ => 511 end.
Definition lstat (d : Disk) (p : Path) : option Entry := d !! p.

(** [metadata]: links followed, at most as often as Linux does. *)
Fixpoint follow (fuel : nat) (d : Disk) (p : Path) : option Entry :=
  match d !! p with
  | Some (ELink t) => match fuel with O => None | S f => follow f d t end
  | e => e
  end.
Definition stat (d : Disk) (p : Path) : option Entry := follow 40 d p.
Definition exists_ (d : Disk) (p : Path) : bool := bool_decide (is_Some (stat d p)).

Definition read_to_string (d : Disk) (p : Path) : result string string :=
  match stat d p with
  | Some (EFile _ (Ok b)) => if valid_utf8 (of_bytes b) then Ok (of_bytes b) else Err "stream did not contain valid UTF-8"
  | Some (EFile _ (Err e)) => Err e
  | Some _ => Err "Is a directory"
  | None => Err "No such file or directory"
  end.

(** The disk, the writes to come, the OS's draws, the clock, the process's
    umask. *)
Record IdState := {
  id_disk : Disk;
  id_faults : list (option WriteFault);
  id_draws : nat;
  id_now : Duration;
  id_umask : Z;
}.
Definition with_disk (d : Disk) (s : IdState) : IdState :=
  {| id_disk := d; id_faults := tail (id_faults s); id_draws := id_draws s; id_now := id_now s; id_umask := id_umask s |}.
Definition with_draws (n : nat) (s : IdState) : IdState :=
  {| id_disk := id_disk s; id_faults := id_faults s; id_draws := n; id_now := id_now s; id_umask := id_umask s |}.

(** The mode a created entry gets. *)
Definition created_mode (s : IdState) (mode : Z) : Z := Z.land mode (Z.lnot (id_umask s)).

(** [format!("{mode:o}")] of a mode. *)
Definition octal (m : Z) : string := num (m / 64 * 100 + (m / 8) mod 8 * 10 + m mod 8).

Definition require_private (d : Disk) (p : Path) (what : string) : result string unit :=
  match lstat d p with
  | None => Err ("stat " +:+ file_text p +:+ ": No such file or directory")
  | Some e =>
      let mode := Z.land (mode_of e) 511 in
      if decide (Z.land mode 63 <> 0) then
        Err (what +:+ " " +:+ file_text p +:+ " has mode " +:+ octal mode +:+
             ": readable or writable by group or others; refusing to use it " +:+
             "(fix with chmod, the key is never rotated or rewritten by the test)")
      else Ok tt
  end.

(** [create_new]: whatever is there, a dangling link too, stops it. *)
Definition write_new (path : Path) (data : bytes) (s : IdState) : IdState * result string unit :=
  let failed d e := (with_disk d s, Err ("create " +:+ file_text path +:+ " (create_new, never overwrites): " +:+ e)) in
  match id_faults s with
  | Some (AtOpen e) :: _ => failed (id_disk s) e
  | fault =>
      match lstat (id_disk s) path, stat (id_disk s) (removelast path) with
      | Some _, _ => failed (id_disk s) "File exists"
      | None, Some (EDir _) =>
          let file b := <[path := EFile (created_mode s 384) (Ok b)]> (id_disk s) in
          match fault with
          | Some (AtWrite n e) :: _ => (with_disk (file (take n data)) s, Err ("write " +:+ file_text path +:+ ": " +:+ e))
          | _ => (with_disk (file data) s, Ok tt)
          end
      | None, _ => failed (id_disk s) "No such file or directory"
      end
  end.

(** [DirBuilder] with its missing parents: the path's prefixes in turn. *)
Fixpoint create_dirs (prefixes : list Path) (s : IdState) : IdState * result string unit :=
  match prefixes with
  | [] => (s, Ok tt)
  | p :: prefixes' =>
      match stat (id_disk s) p, lstat (id_disk s) p with
      | Some (EDir _), _ => create_dirs prefixes' s
      | None, None =>
          match id_faults s with
          | Some (AtOpen e) :: _ | Some (AtWrite _ e) :: _ => (with_disk (id_disk s) s, Err e)
          | _ => create_dirs prefixes' (with_disk (<[p := EDir (created_mode s 448)]> (id_disk s)) s)
          end
      | _, _ => (s, Err "File exists")
      end
  end.
Definition prefixes_of (p : Path) : list Path := map (fun n => take n p) (seq 1 (length p)).

(** ** [identity.rs] *)

Definition ALIAS : string := "openwitness-seal-e2e".
Definition KEY_FILE : string := "secp256k1.key".
Definition RECORD_FILE : string := "identity.json".
Definition KEY_TYPE : string := "secp256k1".

Record IdentityRecord := { ir_alias : string; ir_did : string; ir_key_type : string; ir_created_at : string }.

Record StandingIdentity := { si_record : IdentityRecord; si_created : bool; si_key : Hash32 }.

Class PrettyCrate `{JsonCrate} := to_string_pretty : Value -> string.

Section identity.
Context `{HexCrate, SealSdk, !ClientCrates, !SealEnv, !KeyCrates, !PrettyCrate}.

Definition client_key (id : StandingIdentity) : result string ClientKey := from_secp256k1_bytes (si_key id).
Definition signing_credentials (id : StandingIdentity) : SigningCredentials := secp256k1_key (si_key id).

(** The record's serialiser and deserialiser. *)
Definition record_to_value (r : IdentityRecord) : Value :=
  json_object_of [("alias", json_string (ir_alias r)); ("did", json_string (ir_did r));
                  ("key_type", json_string (ir_key_type r)); ("created_at", json_string (ir_created_at r))].
Definition record_from_value (v : Value) : result string IdentityRecord :=
  let? alias := str_member v "alias" in
  let? did := str_member v "did" in
  let? key_type := str_member v "key_type" in
  let? created_at := str_member v "created_at" in
  Ok {| ir_alias := alias; ir_did := did; ir_key_type := key_type; ir_created_at := created_at |}.

Definition is_regular (e : Entry) : bool := match e with EFile _ _ => true | _ => false end.
Definition is_directory (e : Entry) : bool := match e with EDir _ => true | _ => false end.

Definition read_key (d : Disk) (path : Path) : result string Hash32 :=
  let? meta := ok_or (lstat d path) ("stat " +:+ file_text path +:+ ": No such file or directory") in
  if negb (is_regular meta) then Err (file_text path +:+ " is not a regular file")
  else
    let? _ := require_private d path "key file" in
    let? text := map_err (fun e => "read " +:+ file_text path +:+ ": " +:+ e) (read_to_string d path) in
    let? b := map_err (fun e => "key file is not hex: " +:+ hex_error_text e) (hex_decode (trim text)) in
    ok_or (try_array 32 b) ("key file holds " +:+ num (Z.of_nat (length b)) +:+ " bytes, expected 32").

Definition missing (what : string) (path : Path) : string :=
  "no standing identity: " +:+ what +:+ " " +:+ file_text path +:+ " is missing. A non-loopback --base-url loads the " +:+
  "standing identity and never creates one, so that a typo in a path cannot mint a second identity on a remote. " +:+
  "Point --identity-dir at the existing directory; only a loopback --base-url may create an identity. " +:+
  "Nothing was written.".

Definition load_existing (d : Disk) (dir : Path) : result string StandingIdentity :=
  let key_path := dir ++ [KEY_FILE] in
  let record_path := dir ++ [RECORD_FILE] in
  let? dmeta := ok_or (lstat d dir) (missing "directory" dir) in
  let? _ := ok_or (lstat d key_path) (missing "key file" key_path) in
  if negb (is_directory dmeta) then Err (file_text dir +:+ " is not a directory")
  else
    let? _ := require_private d dir "state directory" in
    let? key := read_key d key_path in
    let? client := map_err (fun e => "derive DID from the key file: " +:+ e) (from_secp256k1_bytes key) in
    if negb (exists_ d record_path) then
      Err (file_text key_path +:+ " exists but " +:+ file_text record_path +:+
           " does not: refusing to guess the record (restore it or move the key aside by hand)")
    else
      let? _ := require_private d record_path "identity record" in
      let? text := map_err (fun e => "read " +:+ file_text record_path +:+ ": " +:+ e) (read_to_string d record_path) in
      let? record := map_err (fun e => "parse " +:+ file_text record_path +:+ ": " +:+ e)
                       (let? v := json_from_str text in record_from_value v) in
      if decide (ir_did record <> ck_did client) then
        Err (file_text record_path +:+ " names " +:+ ir_did record +:+ " but the key derives " +:+ ck_did client +:+
             ": refusing to continue")
      else if decide (ir_alias record <> ALIAS) then
        Err (file_text record_path +:+ " has alias " +:+ debug (ir_alias record) +:+ ", expected " +:+ debug ALIAS +:+
             ": this is not the e2e's identity directory")
      else Ok {| si_record := record; si_created := false; si_key := key |}.

(** The loop over the draws: the first key the curve takes, and the next draw's
    number.  [None]: out of fuel. *)
Fixpoint first_key (fuel : nat) (n : nat) : option (Hash32 * ClientKey * nat) :=
  match fuel with
  | O => None
  | S fuel' =>
      match from_secp256k1_bytes (os_rng n) with
      | Ok c => Some (os_rng n, c, S n)
      | Err _ => first_key fuel' (S n)
      end
  end.

(** A new key and its record, the key first. *)
Definition create_identity (fuel : nat) (dir : Path) (s : IdState) : IdState * result string StandingIdentity :=
  match first_key fuel (id_draws s) with
  | None => (s, Err "out of fuel")
  | Some (key, client, n) =>
      let s := with_draws n s in
      let record := {| ir_alias := ALIAS; ir_did := ck_did client; ir_key_type := KEY_TYPE;
                       ir_created_at := utc (id_now s) |} in
      let '(s, r) := write_new (dir ++ [KEY_FILE]) (as_bytes (hex_encode (arr key) +:+ nl)) s in
      match r with
      | Err e => (s, Err e)
      | Ok _ =>
          let '(s, r) := write_new (dir ++ [RECORD_FILE]) (as_bytes (to_string_pretty (record_to_value record))) s in
          match r with
          | Err e => (s, Err e)
          | Ok _ => (s, Ok {| si_record := record; si_created := true; si_key := key |})
          end
      end
  end.

Definition load_or_create (fuel : nat) (dir : Path) (s : IdState) : IdState * result string StandingIdentity :=
  let '(s, made) := if exists_ (id_disk s) dir then (s, Ok tt)
                    else let '(s, r) := create_dirs (prefixes_of dir) s in
                         (s, map_err (fun e => "create " +:+ file_text dir +:+ ": " +:+ e) r) in
  let checked :=
    let? _ := made in
    let? dmeta := ok_or (lstat (id_disk s) dir) ("stat " +:+ file_text dir +:+ ": No such file or directory") in
    if negb (is_directory dmeta) then Err (file_text dir +:+ " is not a directory")
    else require_private (id_disk s) dir "state directory" in
  let key_path := dir ++ [KEY_FILE] in
  let record_path := dir ++ [RECORD_FILE] in
  match checked with
  | Err e => (s, Err e)
  | Ok _ =>
      if exists_ (id_disk s) key_path then (s, load_existing (id_disk s) dir)
      else if exists_ (id_disk s) record_path then
        (s, Err (file_text record_path +:+ " exists but " +:+ file_text key_path +:+
                 " does not: refusing to create a second identity beside an existing record"))
      else create_identity fuel dir s
  end.

Definition for_base_url (fuel : nat) (base_url : string) (dir : Path) (s : IdState)
    : IdState * result string StandingIdentity :=
  if is_loopback base_url then load_or_create fuel dir s else (s, load_existing (id_disk s) dir).
End identity.

(** ** Private modes *)

Definition private (m : Z) : Prop := Z.land (Z.land m 511) 63 = 0.

Lemma created_private s mode : Z.land mode 63 = 0 -> private (created_mode s mode).
Proof.
  intros Hm. unfold private, created_mode. rewrite <- !Z.land_assoc, (Z.land_comm 511), !Z.land_assoc.
  rewrite <- (Z.land_assoc mode), (Z.land_comm _ 63), Z.land_assoc, Hm. by rewrite !Z.land_0_l.
Qed.

Lemma require_private_ok d p what : require_private d p what = Ok tt <-> exists e, d !! p = Some e /\ private (mode_of e).
Proof.
  unfold require_private, lstat, private. destruct (d !! p) as [e|]; [|split; [done|by intros (? & ? & _)]].
  destruct (decide _) as [Hn|Hn]; split; [done|by intros (? & [= <-] & ?)| |done].
  intros _. exists e. split; [done|]. by apply dec_stable.
Qed.

(** ** What creating changes *)

Lemma insert_new_keeps (d : Disk) p e : d !! p = None -> d ⊆ <[p := e]> d.
Proof. apply insert_subseteq. Qed.

Lemma write_new_spec p data s s' r :
  write_new p data s = (s', r) ->
  id_disk s ⊆ id_disk s' /\ id_umask s' = id_umask s /\ (forall q, q <> p -> id_disk s' !! q = id_disk s !! q) /\
  (is_Some (id_disk s !! p) -> id_disk s' = id_disk s) /\
  (r = Ok tt -> id_disk s !! p = None /\ id_disk s' !! p = Some (EFile (created_mode s 384) (Ok data))).
Proof.
  unfold write_new, lstat. intros Hr.
  assert (forall e, (with_disk (id_disk s) s, Err e) = (s', r) ->
    id_disk s ⊆ id_disk s' /\ id_umask s' = id_umask s /\ (forall q, q <> p -> id_disk s' !! q = id_disk s !! q) /\
    (is_Some (id_disk s !! p) -> id_disk s' = id_disk s) /\
    (r = Ok tt -> id_disk s !! p = None /\ id_disk s' !! p = Some (EFile (created_mode s 384) (Ok data)))) as Hfail.
  { by intros e [= <- <-]. }
  assert (forall b r0, id_disk s !! p = None -> (r0 = Ok tt -> b = data) ->
    (with_disk (<[p := EFile (created_mode s 384) (Ok b)]> (id_disk s)) s, r0) = (s', r) ->
    id_disk s ⊆ id_disk s' /\ id_umask s' = id_umask s /\ (forall q, q <> p -> id_disk s' !! q = id_disk s !! q) /\
    (is_Some (id_disk s !! p) -> id_disk s' = id_disk s) /\
    (r = Ok tt -> id_disk s !! p = None /\ id_disk s' !! p = Some (EFile (created_mode s 384) (Ok data)))) as Hput.
  { intros b r0 Hnone Hb [= <- <-]. cbn. split_and!; [by apply insert_new_keeps|done| | |].
    - intros q Hq. by rewrite lookup_insert_ne.
    - rewrite Hnone. by intros [].
    - intros Hr0. split; [done|]. by rewrite lookup_insert_eq, (Hb Hr0). }
  destruct (id_faults s) as [|[[e|n e]|] fl]; [|by eapply Hfail|..];
    (destruct (id_disk s !! p) as [x|] eqn:Hp; [by eapply Hfail|]);
    (destruct (stat _ _) as [[]|]; [|by eapply Hfail..]); by eapply Hput in Hr.
Qed.

Lemma create_dirs_spec ps s s' r :
  create_dirs ps s = (s', r) ->
  id_disk s ⊆ id_disk s' /\ id_umask s' = id_umask s /\ (forall q, q ∉ ps -> id_disk s' !! q = id_disk s !! q).
Proof.
  revert s; induction ps as [|p ps IH]; intros s; cbn [create_dirs]; [by intros [= <- <-]|].
  unfold lstat.
  assert (create_dirs ps s = (s', r) -> id_disk s ⊆ id_disk s' /\ id_umask s' = id_umask s /\
    (forall q, q ∉ p :: ps -> id_disk s' !! q = id_disk s !! q)) as Hgo.
  { intros (? & ? & Hq)%IH. split_and!; [done..|]. intros q Hn. apply Hq. set_solver. }
  destruct (stat (id_disk s) p) as [[]|]; [by apply Hgo|by intros [= <- <-]..|].
  destruct (id_disk s !! p) as [x|] eqn:Hp; [by intros [= <- <-]|].
  assert (create_dirs ps (with_disk (<[p := EDir (created_mode s 448)]> (id_disk s)) s) = (s', r) ->
    id_disk s ⊆ id_disk s' /\ id_umask s' = id_umask s /\
    (forall q, q ∉ p :: ps -> id_disk s' !! q = id_disk s !! q)) as Hput.
  { intros (Hk & Hu & Hq)%IH. cbn in *. split_and!; [|done|].
    - etransitivity; [by apply insert_new_keeps|exact Hk].
    - intros q Hn. rewrite Hq by set_solver. rewrite lookup_insert_ne; [done|set_solver]. }
  destruct (id_faults s) as [|[[e|n e]|] fl]; [by apply Hput|by intros [= <- <-]..|by apply Hput].
Qed.

Lemma prefixes_below (dir : Path) n : dir ++ [n] ∉ prefixes_of dir.
Proof.
  unfold prefixes_of. intros (k & Hk & _)%list_elem_of_fmap. apply (f_equal length) in Hk.
  rewrite length_app, length_take in Hk. cbn in Hk. lia.
Qed.

(** ** What a loaded identity rests on *)

(** [serde_json] and the hex of a key. *)
Class RecordLaws `{SealSdk, !ClientCrates, !PrettyCrate} := {
  pretty_reads v : json_from_str (to_string_pretty v) = Ok v;
  pretty_utf8 v : valid_utf8 (to_string_pretty v) = true;
  object_get fs k :
    NoDup (map fst fs) -> json_get (json_object_of fs) k = snd <$> List.find (fun kv => bool_decide (kv.1 = k)) fs;
  string_read s : json_as_str (json_string s) = Some s;
}.

Section theorems.
Context `{HexLaws, SealSdk, !ClientCrates, !SealEnv, !KeyCrates, !PrettyCrate, !RecordLaws}.

(** On the disk: a private directory, a private file with the key, a private
    file with the record, which names the DID of the key and the alias. *)
Definition identity_held (d : Disk) (dir : Path) (id : StandingIdentity) : Prop :=
  (exists m, d !! dir = Some (EDir m) /\ private m) /\
  (exists m b, d !! (dir ++ [KEY_FILE]) = Some (EFile m (Ok b)) /\ private m /\ valid_utf8 (of_bytes b) = true /\
     hex_decode (trim (of_bytes b)) = Ok (arr (si_key id))) /\
  (exists m b v, d !! (dir ++ [RECORD_FILE]) = Some (EFile m (Ok b)) /\ private m /\ valid_utf8 (of_bytes b) = true /\
     json_from_str (of_bytes b) = Ok v /\ record_from_value v = Ok (si_record id)) /\
  (exists ck, client_key id = Ok ck /\ ck_did ck = ir_did (si_record id)) /\
  ir_alias (si_record id) = ALIAS.

Definition loaded (id : StandingIdentity) : StandingIdentity :=
  {| si_record := si_record id; si_created := false; si_key := si_key id |}.

Lemma stat_file d p m c : d !! p = Some (EFile m c) -> stat d p = Some (EFile m c).
Proof. unfold stat. cbn. by intros ->. Qed.

Lemma read_private d p e text :
  d !! p = Some e -> private (mode_of e) -> read_to_string d p = Ok text ->
  exists m b, e = EFile m (Ok b) /\ text = of_bytes b /\ valid_utf8 (of_bytes b) = true.
Proof.
  intros He Hp. unfold read_to_string, stat. cbn. rewrite He. destruct e as [m|m [b|err]|t]; [done| |done|done].
  destruct (valid_utf8 _) eqn:Hv; [|done]. intros [= <-]. by exists m, b.
Qed.
Lemma read_file d p m b : d !! p = Some (EFile m (Ok b)) -> valid_utf8 (of_bytes b) = true -> read_to_string d p = Ok (of_bytes b).
Proof. intros Hp Hv. unfold read_to_string. rewrite (stat_file _ _ _ _ Hp). by rewrite Hv. Qed.

Lemma read_key_ok d p key :
  read_key d p = Ok key <->
  exists m b, d !! p = Some (EFile m (Ok b)) /\ private m /\ valid_utf8 (of_bytes b) = true /\
    hex_decode (trim (of_bytes b)) = Ok (arr key).
Proof.
  unfold read_key, lstat. split.
  - intros (e & He%ok_or_ok & Hr)%result_bind_ok. destruct (negb (is_regular e)); [done|].
    apply result_bind_ok in Hr as ([] & Hpr & Hr). apply result_bind_ok in Hr as (text & Ht%map_err_ok & Hr).
    apply result_bind_ok in Hr as (kb & Hk%map_err_ok & Hr%ok_or_ok). apply try_array_Some in Hr as ->.
    apply require_private_ok in Hpr as (e' & He' & Hpr). assert (e' = e) as -> by congruence.
    destruct (read_private d p e text) as (m & b & -> & -> & Hv); [done..|]. by exists m, b.
  - intros (m & b & He & Hp & Hv & Hk). rewrite He. cbn [ok_or result_bind is_regular negb].
    assert (require_private d p "key file" = Ok tt) as -> by (apply require_private_ok; by eexists). cbn [result_bind].
    rewrite (read_file _ _ _ _ He Hv). cbn [map_err result_bind]. rewrite Hk. cbn [map_err result_bind].
    by rewrite try_array_arr.
Qed.

(** Loading, in full: exactly what is held, unaltered. *)
Lemma load_existing_spec d dir id :
  load_existing d dir = Ok id <-> si_created id = false /\ identity_held d dir id.
Proof.
  unfold load_existing, identity_held, lstat. split.
  - intros (dm & Hdm%ok_or_ok & Hr)%result_bind_ok. apply result_bind_ok in Hr as (km & _ & Hr).
    destruct dm as [m| |]; [|done..]. cbn [is_directory negb] in Hr.
    apply result_bind_ok in Hr as ([] & Hpr%require_private_ok & Hr). destruct Hpr as (e & He & Hpr).
    assert (e = EDir m) as -> by congruence.
    apply result_bind_ok in Hr as (key & Hkey%read_key_ok & Hr). apply result_bind_ok in Hr as (ck & Hck%map_err_ok & Hr).
    destruct (negb (exists_ _ _)); [done|]. apply result_bind_ok in Hr as ([] & Hpr2%require_private_ok & Hr).
    destruct Hpr2 as (re & Hre & Hpr2). apply result_bind_ok in Hr as (text & Ht%map_err_ok & Hr).
    apply result_bind_ok in Hr as (rec & Hrec%map_err_ok & Hr). apply result_bind_ok in Hrec as (v & Hv & Hrec).
    destruct (decide _) as [|Hdid]; [done|]. destruct (decide _) as [|Hal]; [done|]. injection Hr as <-.
    apply dec_stable in Hdid, Hal. destruct (read_private _ _ _ _ Hre Hpr2 Ht) as (rm & rb & -> & -> & Hu).
    cbn. split; [done|]. split_and!; [by exists m|done| |by exists ck|done]. by exists rm, rb, v.
  - intros (Hc & (m & Hdir & Hp) & Hkey & (rm & rb & v & Hre & Hrp & Hu & Hv & Hrec) & (ck & Hck & Hdid) & Hal).
    rewrite Hdir. cbn [ok_or result_bind]. destruct Hkey as (km & kb & Hk & Hkp & Hku & Hkh). rewrite Hk.
    cbn [ok_or result_bind is_directory negb].
    assert (require_private d dir "state directory" = Ok tt) as -> by (apply require_private_ok; by eexists).
    cbn [result_bind]. assert (read_key d (dir ++ [KEY_FILE]) = Ok (si_key id)) as -> by (apply read_key_ok; by exists km, kb).
    cbn [result_bind]. unfold client_key in Hck. rewrite Hck. cbn [map_err result_bind].
    assert (exists_ d (dir ++ [RECORD_FILE]) = true) as ->.
    { unfold exists_. rewrite (stat_file _ _ _ _ Hre). by apply bool_decide_eq_true_2. }
    cbn [negb].
    assert (require_private d (dir ++ [RECORD_FILE]) "identity record" = Ok tt) as ->
      by (apply require_private_ok; by eexists).
    cbn [result_bind]. rewrite (read_file _ _ _ _ Hre Hu). cbn [map_err result_bind]. rewrite Hv. cbn [result_bind].
    rewrite Hrec. cbn [map_err result_bind]. rewrite decide_False by congruence. rewrite decide_False by congruence.
    destruct id. cbn in *. by subst.
Qed.

(** *** Creating *)

Lemma record_reads r : record_from_value (record_to_value r) = Ok r.
Proof.
  unfold record_from_value, record_to_value, str_member, member.
  rewrite !object_get by (apply (bool_decide_unpack _); vm_compute; exact I). cbn [List.find map fst].
  repeat (case_bool_decide; try done). cbn. rewrite !string_read. by destruct r.
Qed.

Lemma first_key_ok fuel n key c m : first_key fuel n = Some (key, c, m) -> from_secp256k1_bytes key = Ok c.
Proof.
  revert n; induction fuel as [|fuel IH]; intros n; [done|]. cbn [first_key].
  destruct (from_secp256k1_bytes (os_rng n)) as [c'|] eqn:Hc; [by intros [= <- <- <-]|apply IH].
Qed.

(** The loop ends once the curve takes a draw. *)
Lemma first_key_ends fuel n k c :
  from_secp256k1_bytes (os_rng (n + k)) = Ok c -> (k < fuel)%nat -> is_Some (first_key fuel n).
Proof.
  revert n k; induction fuel as [|fuel IH]; intros n k Hk Hlt; [lia|]. cbn [first_key].
  destruct (from_secp256k1_bytes (os_rng n)) eqn:Hn; [by eexists|]. destruct k as [|k]; [by rewrite Nat.add_0_r in Hk; congruence|].
  apply (IH (S n) k); [by rewrite Nat.add_succ_comm|lia].
Qed.

Lemma hex_plain b : forallb plain (as_bytes (hex_encode b)) = true.
Proof.
  pose proof (hex_encode_digits b) as Hd. induction (hex_encode b) as [|c s IH]; [done|].
  inversion Hd as [|? ? Hc Hs]; subst. change (plain (Ascii.byte_of_ascii c) && forallb plain (as_bytes s) = true).
  rewrite (IH Hs), andb_true_r. clear -Hc. apply Is_true_true in Hc. destruct c as [[] [] [] [] [] [] [] []]; vm_compute in Hc |- *; congruence.
Qed.

Lemma plain_utf8 fuel l l' :
  forallb plain l = true -> (forall f, utf8_valid_fuel f l' = true) -> utf8_valid_fuel fuel (l ++ l') = true.
Proof.
  intros Hl Hl'. revert fuel Hl; induction l as [|b l IH]; intros fuel; [done|]. intros [Hb Hl]%andb_true_iff.
  destruct fuel as [|fuel]; [done|]. cbn. unfold plain in Hb. apply andb_true_iff in Hb as [Hb _]. unfold utf8_chunk.
  rewrite Hb. cbn. by apply IH.
Qed.

(** The key file's text. *)
Lemma key_text (key : Hash32) :
  let b := as_bytes (hex_encode (arr key) +:+ nl) in
  valid_utf8 (of_bytes b) = true /\ hex_decode (trim (of_bytes b)) = Ok (arr key).
Proof.
  cbv zeta. rewrite of_bytes_as_bytes. split.
  - unfold valid_utf8. rewrite as_bytes_app. apply plain_utf8; [apply hex_plain|]. by intros [|[]].
  - rewrite trim_line, hex_decode_encode; [done| |apply hex_plain].
    intros He. apply (f_equal String.length) in He. rewrite hex_encode_length, arr_length in He. done.
Qed.

Lemma create_identity_spec fuel dir s s' r :
  create_identity fuel dir s = (s', r) ->
  id_disk s ⊆ id_disk s' /\ id_umask s' = id_umask s /\
  (is_Some (id_disk s !! (dir ++ [KEY_FILE])) -> id_disk s' = id_disk s) /\
  (forall id, r = Ok id -> (exists m, id_disk s !! dir = Some (EDir m) /\ private m) ->
     si_created id = true /\ id_disk s !! (dir ++ [KEY_FILE]) = None /\ id_disk s !! (dir ++ [RECORD_FILE]) = None /\
     identity_held (id_disk s') dir id).
Proof.
  unfold create_identity. destruct (first_key _ _) as [[[key client] n]|] eqn:Hf; [|by intros [= <- <-]].
  apply first_key_ok in Hf. destruct (write_new (dir ++ [KEY_FILE]) _ _) as [s1 r1] eqn:Hwk.
  apply write_new_spec in Hwk as (Hs1 & Hu1 & Ho1 & He1 & Hr1). cbn [id_disk with_draws id_umask] in *.
  destruct r1 as [[]|e]; [|intros [= <- <-]; split_and!; [done..|by intros id [=]]].
  destruct (Hr1 eq_refl) as [Hnone1 Hput1].
  destruct (write_new (dir ++ [RECORD_FILE]) _ _) as [s2 r2] eqn:Hwr.
  apply write_new_spec in Hwr as (Hs2 & Hu2 & Ho2 & He2 & Hr2).
  assert (dir ++ [KEY_FILE] <> dir ++ [RECORD_FILE]) as Hne by (by intros ?%app_inv_head).
  assert (is_Some (id_disk s !! (dir ++ [KEY_FILE])) -> id_disk s2 = id_disk s) as Hk by (rewrite Hnone1; by intros []).
  destruct r2 as [[]|e]; intros [= <- <-];
    (split_and!; [by etransitivity|congruence|done|]); [|by intros id [=]].
  intros id [= <-] (m & Hm & Hp). destruct (Hr2 eq_refl) as [Hnone2 Hput2]. cbn.
  split_and!; [done|done|by rewrite <- (Ho1 _ (not_eq_sym Hne))|].
  split_and!; cbn.
  - exists m. split; [|done]. eapply lookup_weaken; [eapply lookup_weaken; [exact Hm|done]|done].
  - destruct (key_text key) as [Hu Hh]. eexists _, _. rewrite (Ho2 _ Hne), Hput1.
    split_and!; [reflexivity|by apply created_private|exact Hu|exact Hh].
  - eexists _, _, _. rewrite Hput2. split_and!; [reflexivity|by apply created_private|..|apply record_reads];
      rewrite of_bytes_as_bytes; [apply pretty_utf8|apply pretty_reads].
  - exists client. by split.
  - done.
Qed.

(** Every entry has its directory. *)
Definition parents (d : Disk) : Prop :=
  forall p n e, d !! (p ++ [n]) = Some e -> exists m, d !! p = Some (EDir m).

Lemma for_base_url_spec fuel base_url dir s s' r :
  parents (id_disk s) -> for_base_url fuel base_url dir s = (s', r) ->
  id_disk s ⊆ id_disk s' /\
  (is_loopback base_url = false \/ is_Some (id_disk s !! (dir ++ [KEY_FILE])) -> id_disk s' = id_disk s) /\
  forall id, r = Ok id ->
    identity_held (id_disk s') dir id /\
    (si_created id = true ->
       id_disk s !! (dir ++ [KEY_FILE]) = None /\ id_disk s !! (dir ++ [RECORD_FILE]) = None).
Proof.
  intros Hpar. unfold for_base_url. destruct (is_loopback base_url); cycle 1.
  { intros [= <- <-]. split_and!; [done|done|]. intros id [Hc Hh]%load_existing_spec. split; [done|congruence]. }
  unfold load_or_create.
  set (made := if exists_ (id_disk s) dir then _ else _). destruct made as [s1 r1] eqn:Hmade.
  assert (id_disk s ⊆ id_disk s1 /\ id_disk s1 !! (dir ++ [KEY_FILE]) = id_disk s !! (dir ++ [KEY_FILE]) /\
    id_disk s1 !! (dir ++ [RECORD_FILE]) = id_disk s !! (dir ++ [RECORD_FILE]) /\
    (is_Some (id_disk s !! (dir ++ [KEY_FILE])) -> s1 = s)) as (Hs1 & Hk1 & Hr1 & Hsame).
  { subst made. destruct (exists_ (id_disk s) dir) eqn:Hex; [by injection Hmade as <- <-|].
    destruct (create_dirs _ _) as [s2 r2] eqn:Hcd. injection Hmade as <- _.
    apply create_dirs_spec in Hcd as (Hs & _ & Ho). rewrite !Ho by apply prefixes_below. split_and!; [done..|].
    intros [e (m & Hm)%Hpar]. unfold exists_, stat in Hex. cbn in Hex. rewrite Hm in Hex.
    by rewrite bool_decide_eq_true_2 in Hex by by eexists. }
  clear made Hmade. match goal with |- context [match ?c with Ok _ => _ | Err _ => _ end] => destruct c as [[]|e] eqn:Hck end; cycle 1.
  { intros [= <- <-]. split_and!; [done| |by intros id [=]]. intros [?|Hk]; [done|]. by rewrite (Hsame Hk). }
  apply result_bind_ok in Hck as ([] & _ & Hck). apply result_bind_ok in Hck as (dm & Hdm%ok_or_ok & Hck).
  destruct dm as [m| |]; [|done..]. cbn [is_directory negb] in Hck. apply require_private_ok in Hck as (e & He & Hp).
  unfold lstat in Hdm. assert (e = EDir m) as -> by congruence.
  destruct (exists_ (id_disk s1) (dir ++ [KEY_FILE])) eqn:Hkey.
  { intros [= <- <-]. split_and!; [done|intros [?|Hk]; [done|]; by rewrite (Hsame Hk)|].
    intros id [Hc Hh]%load_existing_spec. split; [done|congruence]. }
  destruct (exists_ (id_disk s1) (dir ++ [RECORD_FILE])) eqn:Hrec.
  { intros [= <- <-]. split_and!; [done|intros [?|Hk]; [done|]; by rewrite (Hsame Hk)|by intros id [=]]. }
  intros (Hs2 & _ & Hk2 & Hid)%create_identity_spec. split_and!; [by etransitivity| |].
  - intros [?|Hk]; [done|]. rewrite Hk2 by (by rewrite Hk1). by rewrite (Hsame Hk).
  - intros id Hr. destruct (Hid id Hr) as (_ & Hn1 & Hn2 & Hh); [by exists m|]. split; [done|]. intros _.
    by rewrite <- Hk1, <- Hr1.
Qed.

(** C26. Whatever the target and whatever fails, the loader of the standing
    identity replaces nothing on the disk; off loopback, or where a key file is
    there, it writes nothing at all; an identity is new only where there was no
    key and no record; and the one it answers is on the disk, private, its
    record naming the alias and the DID of its key. *)
Theorem identity_never_replaced fuel base_url dir s s' r :
  parents (id_disk s) -> for_base_url fuel base_url dir s = (s', r) ->
  id_disk s ⊆ id_disk s' /\
  (is_loopback base_url = false \/ is_Some (id_disk s !! (dir ++ [KEY_FILE])) -> id_disk s' = id_disk s) /\
  forall id, r = Ok id ->
    identity_held (id_disk s') dir id /\
    (si_created id = true ->
       id_disk s !! (dir ++ [KEY_FILE]) = None /\ id_disk s !! (dir ++ [RECORD_FILE]) = None).
Proof. apply for_base_url_spec. Qed.

(** C27. An identity, once loaded or created, is what every later run loads,
    whatever its target, and later runs write nothing. *)
Theorem identity_reloads fuel base_url dir s s' id fuel' base_url' later :
  parents (id_disk s) -> for_base_url fuel base_url dir s = (s', Ok id) -> id_disk later = id_disk s' ->
  for_base_url fuel' base_url' dir later = (later, Ok (loaded id)).
Proof.
  intros Hpar Hs Hl.
  assert (identity_held (id_disk later) dir id) as Hheld.
  { rewrite Hl. apply for_base_url_spec in Hs as (_ & _ & Hid); [|done]. by apply Hid. }
  assert (load_existing (id_disk later) dir = Ok (loaded id)) as Hload.
  { apply load_existing_spec. split; [done|]. exact Hheld. }
  unfold for_base_url. destruct (is_loopback base_url'); [|by rewrite Hload].
  destruct Hheld as ((m & Hdir & Hp) & (km & kb & Hk & _) & _). unfold load_or_create.
  assert (forall p e, id_disk later !! p = Some e -> (forall t, e <> ELink t) -> exists_ (id_disk later) p = true) as Hex.
  { intros p e Hpe He. unfold exists_, stat. cbn. rewrite Hpe. destruct e; [by apply bool_decide_eq_true_2..|by destruct (He target)]. }
  rewrite (Hex dir _ Hdir) by done. cbn [result_bind]. unfold lstat at 1. rewrite Hdir. cbn [ok_or result_bind is_directory negb].
  assert (require_private (id_disk later) dir "state directory" = Ok tt) as -> by (apply require_private_ok; by eexists).
  by rewrite (Hex _ _ Hk), Hload.
Qed.
End theorems.
