(* ===== verification/SealLive.v ===== *)
(** * The live part of a seal run
    ([crates/aqua-timestamp-e2e/src]: [seal/live.rs], [flow.rs], [target.rs])

    The guards before the first POST, the state built and persisted before
    anything leaves the machine, the run's POSTs, the bodies pulled.  What is
    sent is kept with the disk it was sent over; the polled reads are those of
    [HarnessPoll] on the attempts they get, each a request.  Printing is left
    out. *)

From S2P Require Import Prelude External Utf8 Client ClientIdentity KnownServers Config HarnessPoll HarnessWitness HarnessStore SealSdk RunDir SealAct SealSteps SealRun SealReplay HarnessIdentity.
Open Scope string_scope.
Open Scope list_scope.
Open Scope Z_scope.

(** ** The network *)

Record Request := { rq_post : bool; rq_url : string; rq_bearer : option string; rq_body : option string }.

(** A request with the disk it was sent over. *)
Record Sent := { se_request : Request; se_disk : Files }.

(** An answer: the status, the [Date] header, the body or the error of reading
    it. *)
Record Response := { rp_status : Z; rp_date : option string; rp_text : result string string }.

Record Net := { n_world : World; n_sent : list Sent }.

Definition Live (A : Type) : Type := Net -> Net * result string A.

Definition pure {A} (a : A) : Live A := fun n => (n, Ok a).
Definition from {A} (r : result string A) : Live A := fun n => (n, r).
Definition live_bind {A B} (m : Live A) (k : A -> Live B) : Live B := fun n =>
  let '(n', r) := m n in match r with Ok a => k a n' | Err e => (n', Err e) end.
Notation "'net!' x ':=' m 'in' k" := (live_bind m (fun x => k))
  (at level 10, x name, m at level 100, k at level 200) : rust_scope.
Notation "'net!' ' p ':=' m 'in' k" := (live_bind m (fun p => k))
  (at level 10, p strict pattern, m at level 100, k at level 200) : rust_scope.
Definition attempt {A} (m : Live A) : Live (result string A) := fun n => let '(n', r) := m n in (n', Ok r).

Fixpoint live_each {A} (f : A -> Live unit) (l : list A) : Live unit :=
  match l with [] => pure tt | x :: l' => net! _ := f x in live_each f l' end.
Fixpoint live_map {A B} (f : A -> Live B) (l : list A) : Live (list B) :=
  match l with [] => pure [] | x :: l' => net! y := f x in net! ys := live_map f l' in pure (y :: ys) end.

Definition on_world {A} (f : World -> World * result string A) : Live A := fun n =>
  let '(w, r) := f (n_world n) in ({| n_world := w; n_sent := n_sent n |}, r).
Definition look {A} (f : World -> A) : Live A := fun n => (n, Ok (f (n_world n))).

(** [write_file] of a text. *)
Definition write (path : Path) (text : string) : Live unit :=
  on_world (fun w => let '(fs, r) := write_file path (as_bytes text) (w_fs w) in (set_fs fs w, r)).

(** A directory operation: it may fail, and leaves the files. *)
Definition dir_op (what : string) (path : Path) : Live unit :=
  on_world (fun w =>
    let fs := w_fs w in
    match fs_faults fs with
    | Some (AtOpen e) :: _ | Some (AtWrite _ e) :: _ =>
        (set_fs (with_files (fs_files fs) fs) w, Err (what +:+ " " +:+ file_text path +:+ ": " +:+ e))
    | _ => (set_fs (with_files (fs_files fs) fs) w, Ok tt)
    end).

(** ** The crates of the live part *)

Class LiveEnv `{SealSdk, !SealEnv, !KeyCrates, !PrettyCrate} := {
  (** What the server answers the n-th request. *)
  reply : nat -> Request -> result string Response;
  (** The attempts the polled reads get. *)
  seal_rounds : list (Duration * list Attempt);
  served_rounds : string -> WitnessMethod -> list (list Attempt);
  read_attempts : string -> list Attempt;
  (** How long a polled wait lasts. *)
  poll_time : string -> nat;
  (** [chrono]. *)
  parse_from_rfc2822 : string -> result string Z;
  to_rfc2822 : Duration -> string;
  run_id_of : Duration -> string;
  status_text : Z -> string;
  (** The SDK's builders. *)
  create_folder : Aquafier -> string -> result string Tree;
  create_minimal_genesis : Aquafier -> string -> bytes -> result string Tree;
  sign_aqua_tree : Aquafier -> Tree -> RevisionLink -> SigningCredentials -> result string Tree;
  prepare_seal : nat -> Aquafier -> SealHead -> SigningCredentials -> result string PreparedSeal;
}.

Section live.
Context `{HexCrate, SealSdk, !ClientCrates, !HarnessCrates, !SealEnv, !KeyCrates, !PrettyCrate, !LiveEnv}.

Definition send (rq : Request) : Live Response := fun n =>
  let sent := n_sent n in
  ({| n_world := n_world n; n_sent := sent ++ [{| se_request := rq; se_disk := fs_files (w_fs (n_world n)) |}] |},
   map_err (fun e => (if rq_post rq then "POST " else "GET ") +:+ rq_url rq +:+ ": " +:+ e) (reply (length sent) rq)).

Definition http_get (url : string) (bearer : option string) : Live Response :=
  send {| rq_post := false; rq_url := url; rq_bearer := bearer; rq_body := None |}.
Definition http_post (url : string) (bearer : option string) (body : Value) : Live Response :=
  send {| rq_post := true; rq_url := url; rq_bearer := bearer; rq_body := Some (json_to_string body) |}.

(** [resp.text().await.unwrap_or_default()]. *)
Definition text_or_default (r : Response) : string := match rp_text r with Ok t => t | Err _ => "" end.

(** ** [flow.rs] *)

Definition json_body (what : string) (r : Response) : result string Value :=
  map_err (fun e => what +:+ ": " +:+ e) (let? t := rp_text r in json_from_str t).

Definition mint_bearer (base_url : string) (key : ClientKey) : Live string :=
  net! resp := http_get (base_url +:+ "/auth/challenge?did=" +:+ ck_did key) None in
  if negb (is_success (rp_status resp)) then
    from (Err ("GET /auth/challenge: HTTP " +:+ status_text (rp_status resp) +:+ " body=" +:+ text_or_default resp))
  else
    net! body := from (json_body "challenge json" resp) in
    net! message := from (ok_or (json_get body "message" ≫= json_as_str) "challenge response missing `message`") in
    net! nonce := from (ok_or (json_get body "nonce" ≫= json_as_str) "challenge response missing `nonce`") in
    net! signature := from (sign_challenge key message) in
    let payload := json_object_of [("did", json_string (ck_did key)); ("nonce", json_string nonce);
                                   ("signature", json_string signature)] in
    net! resp := http_post (base_url +:+ "/auth/session") None payload in
    if negb (is_success (rp_status resp)) then
      from (Err ("POST /auth/session: HTTP " +:+ status_text (rp_status resp) +:+ " body=" +:+ text_or_default resp))
    else
      net! body := from (json_body "session json" resp) in
      from (ok_or (json_get body "token" ≫= json_as_str) "session response missing `token`").

(** ** [live.rs]: the guards *)

Definition MAX_CLOCK_AHEAD_SECS : Z := 60.

Record SealConfig := {
  sc_base_url : string;
  sc_run_dir : Path;
  sc_identity_dir : Path;
  sc_reader : Reader;
  sc_expect_version : option string;
  sc_expect_server_did : option string;
  sc_seal_grace : Duration;
  sc_witness_grace : Duration;
  sc_poll_interval : Duration;
  sc_finality_budget : Duration;
}.

Definition served_revision (body : string) : result string string :=
  let? v := map_err (fun e => "/version is not JSON: " +:+ e) (json_from_str body) in
  ok_or (json_as_str (json_index v "revision")) ("/version has no string `revision`: " +:+ body).

Definition check_expected_version (before : string) (expect : option string) : result string unit :=
  match expect with
  | None => Ok tt
  | Some want =>
      let? got := served_revision before in
      if decide (got <> want)
      then Err ("/version serves " +:+ got +:+ ", --expect-version wants " +:+ want +:+ ": nothing was posted")
      else Ok tt
  end.

Definition require_server_did_pin (base_url : string) (pin : option string) : result string unit :=
  if bool_decide (pin = None) && negb (is_loopback base_url)
  then Err ("--expect-server-did is required on a non-loopback --base-url: " +:+ base_url +:+ " was not contacted")
  else Ok tt.

Definition check_expected_server_did (identity_body : string) (expect : option string) : result string unit :=
  match expect with
  | None => Ok tt
  | Some want =>
      let? identity := map_err (fun e => "aqua-identity json: " +:+ e) (json_from_str identity_body) in
      let got := default "" (json_as_str (json_index identity "server_did")) in
      if decide (got <> want)
      then Err ("/.well-known/aqua-identity serves " +:+ got +:+ ", --expect-server-did wants " +:+ want +:+
                ": nothing was posted")
      else Ok tt
  end.

Definition check_version_unchanged (before after : string) : result string unit :=
  if decide (before = after) then Ok tt
  else Err ("/version moved during the run: before " +:+ before +:+ ", after " +:+ after).

Record Preflight := { pf_version : string; pf_identity_body : string; pf_lines : list string }.

(** [text_of]. *)
Definition text_at (url : string) : Live (Z * string) :=
  net! resp := http_get url None in pure (rp_status resp, text_or_default resp).

(** The clock in seconds. *)
Definition seconds (d : Duration) : Z := d / 1000000000.

Definition preflight (base_url : string) : Live Preflight :=
  net! '(status, version) := text_at (base_url +:+ "/version") in
  let lines := ["GET /version -> HTTP " +:+ num status +:+ " " +:+ version] in
  net! _ := from (served_revision version) in
  net! health := http_get (base_url +:+ "/health") None in
  let body := text_or_default health in
  let lines := lines ++ ["GET /health -> HTTP " +:+ num (rp_status health) +:+ " " +:+ body] in
  if decide (rp_status health <> 200) then
    from (Err ("GET /health: HTTP " +:+ num (rp_status health) +:+ " " +:+ body))
  else
    net! date := from (ok_or (rp_date health) "no Date header on /health") in
    net! local := look w_now in
    net! server := from (map_err (fun e => "Date header: " +:+ e) (parse_from_rfc2822 date)) in
    let ahead := seconds local - server in
    let lines := lines ++ ["clock: server Date " +:+ date +:+ ", local " +:+ to_rfc2822 local +:+
                           ", local minus server = " +:+ num ahead +:+ " s (stops above " +:+
                           num MAX_CLOCK_AHEAD_SECS +:+ ")"] in
    if MAX_CLOCK_AHEAD_SECS <? ahead then from (Err ("local clock ahead of the server by " +:+ num ahead +:+ " s"))
    else
      net! '(status, identity_body) := text_at (base_url +:+ "/.well-known/aqua-identity") in
      if decide (status <> 200) then from (Err ("GET /.well-known/aqua-identity: HTTP " +:+ num status))
      else
        let lines := lines ++ ["GET /.well-known/aqua-identity -> " +:+ identity_body] in
        net! identity := from (map_err (fun e => "aqua-identity json: " +:+ e) (json_from_str identity_body)) in
        if bool_decide (json_as_str (json_index identity "server_did") = None)
        then from (Err "/.well-known/aqua-identity has no string server_did")
        else pure {| pf_version := version; pf_identity_body := identity_body; pf_lines := lines |}.

(** ** The local state *)

Definition pretty_text (v : Value) : string := to_string_pretty v +:+ nl.

(** A call that reads the chain. *)
Definition blocking_call {A} (f : nat -> result string A) : Live A :=
  on_world (fun w => (after_call w, f (w_reads w))).
Definition os_random : Live Hash32 :=
  on_world (fun w => ({| w_fs := w_fs w; w_now := w_now w; w_reads := w_reads w; w_draws := S (w_draws w) |},
                      Ok (os_rng (w_draws w)))).

Definition build_member (run : Path) (reader : Reader) (identity : StandingIdentity) (run_id : string) (i : Z) : Live unit :=
  let name := member_name i in
  let body := "openwitness-seal-e2e member " +:+ num i +:+ " " +:+ run_id in
  net! genesis := from (map_err (fun e => "member genesis: " +:+ e)
                          (create_minimal_genesis (re_aq reader) name (as_bytes body))) in
  net! link := from (ok_or (fst <$> head (tree_revisions genesis)) "empty member genesis") in
  net! signed := from (map_err (fun e => "sign member: " +:+ e)
                         (sign_aqua_tree (re_aq reader) genesis link (signing_credentials identity))) in
  net! text := from (tree_to_pretty signed) in
  net! _ := write (run ++ member_tree_file i) (text +:+ nl) in
  write (run ++ member_body_file i) body.

(** One seal's nonces, drawn and written. *)
Definition build_nonces (run : Path) (seal : Z) : Live (list Hash32) :=
  net! set := live_map (fun _ : Z => os_random) members_range in
  net! _ := write (run ++ nonces_file seal) (pretty_text (json_array_of (map (fun n => json_string (hex_digest n)) set))) in
  pure set.

(** One prepared seal over its nonces, written; and its leaves. *)
Definition build_seal (run : Path) (reader : Reader) (identity : StandingIdentity) (set : RevisionLink)
    (tips : list RevisionLink) (seal : Z) (nonces : list Hash32) : Live (PreparedSeal * list Hash32) :=
  net! leaves := from (leaves_of tips nonces) in
  net! head := from (head_from_leaves set leaves) in
  net! p := blocking_call (fun n => map_err (fun e => "prepare_seal: " +:+ e)
                             (prepare_seal n (re_aq reader) head (signing_credentials identity))) in
  net! signer := from (prepared_signer p) in
  if decide (signer <> ir_did (si_record identity)) then
    from (Err ("prepared.signer() " +:+ signer +:+ " differs from identity.json " +:+ ir_did (si_record identity)))
  else
    net! text := from (prepared_to_pretty p) in
    net! _ := write (run ++ prepared_file seal) (text +:+ nl) in
    pure (p, leaves).

Definition build_local_state (run : Path) (reader : Reader) (identity : StandingIdentity) (run_id : string)
    : Live (PreparedSeal * PreparedSeal) :=
  net! folder := from (map_err (fun e => "create_object Folder: " +:+ e)
                         (create_folder (re_aq reader) ("openwitness-seal-e2e " +:+ run_id))) in
  net! folder_text := from (tree_to_pretty folder) in
  net! _ := write (run ++ SET_FOLDER) (folder_text +:+ nl) in
  net! _ := live_each (build_member run reader identity run_id) members_range in
  net! nonces1 := build_nonces run 1 in
  net! nonces2 := build_nonces run 2 in
  net! members := fun n => from (map_err run_dir_error_text (load_member_files run (w_fs (n_world n)))) n in
  net! admitted := blocking_call (fun n => admit_members n (re_aq reader) members) in
  net! tips := from (tips_of admitted) in
  net! set := from (genesis_of folder) in
  net! '(p1, leaves1) := build_seal run reader identity set tips 1 nonces1 in
  net! '(p2, leaves2) := build_seal run reader identity set tips 2 nonces2 in
  let shown leaves := json_array_of (map (fun d => json_string (hex_digest d)) leaves) in
  net! _ := write (run ++ LEAVES) (pretty_text (json_object_of [("seal_1", shown leaves1); ("seal_2", shown leaves2)])) in
  pure (p1, p2).

(** ** Submitting and pulling *)

(** [run.json] as far as it is known: a later field is put on top. *)
Definition write_run_json (run : Path) (meta : Value) : Live unit := write (run ++ RUN_JSON) (pretty_text meta).

Definition run_meta (run_id base_url s1 s2 submitted_at version sdk : string) : Value :=
  json_object_of
    [("run_id", json_string run_id); ("base_url", json_string base_url); ("s1", json_string s1); ("s2", json_string s2);
     ("submitted_at", json_string submitted_at); ("post_status", json_null);
     ("server_version_before", json_string version); ("sdk_rev", json_string sdk)].

(** The time a polled wait takes. *)
Definition passes (what : string) : Live unit := on_world (fun w =>
  ({| w_fs := w_fs w; w_now := w_now w + Z.of_nat (poll_time what); w_reads := w_reads w; w_draws := w_draws w |}, Ok tt)).

(** The requests of a polled read, all over the disk it starts on. *)
Definition polled (count : nat) (url : string) (bearer : option string) : Live unit := fun n =>
  let rq := {| rq_post := false; rq_url := url; rq_bearer := bearer; rq_body := None |} in
  ({| n_world := n_world n;
      n_sent := n_sent n ++ replicate count {| se_request := rq; se_disk := fs_files (w_fs (n_world n)) |} |}, Ok tt).

(** The wait and the polled reads, on the attempts they get. *)
Definition schedule_epoch (body : string) : result string u64 :=
  let? v := json_from_str body in Ok (default 0 (json_get v "last_sealed_epoch_id" ≫= json_as_u64)).
Definition wait_sealed (base_url : string) (epoch_id : u64) (deadline interval : Duration) : Live unit :=
  let budget := {| pb_deadline := deadline; pb_interval := interval |} in
  net! _ := polled (seal_requests status_text budget schedule_epoch epoch_id seal_rounds)
              (base_url +:+ "/v1/schedule") None in
  net! _ := passes "seal" in
  from (default (Err "the attempts ended") (wait_for_seal status_text budget schedule_epoch epoch_id seal_rounds)).
Definition fetch_witness_body (budget : PollBudget) (leaf : string) (method : WitnessMethod)
    : result WitnessError (Z * string) :=
  default (Err (Unreachable method "the attempts ended"))
    (fetch_served status_text budget pending_detail method None (served_rounds leaf method)).
Definition witness_requests (base_url bearer : string) (budget : PollBudget) (leaf : string) (method : WitnessMethod)
    : Live unit :=
  polled (fetch_requests status_text budget (served_rounds leaf method))
    (base_url +:+ "/trees/by-leaf/" +:+ leaf +:+ "?method=" +:+ method_str method) (Some bearer).

Definition fetched_entry (status : Z) (at_ : string) : Value :=
  json_object_of [("status", json_number status); ("at", json_string at_)].
Definition failed_entry (error at_ : string) : Value :=
  json_object_of [("status", json_null); ("error", json_string error); ("at", json_string at_)].

Definition pull_witness (run : Path) (budget : PollBudget) (leaf : string) (kfm : string * Path * WitnessMethod)
    : Live (string * Value) :=
  let '(key, file, method) := kfm in
  match fetch_witness_body budget leaf method with
  | Ok (status, body) =>
      net! _ := write (run ++ file) body in
      net! now := look w_now in pure (key, fetched_entry status (utc now))
  | Err e => net! now := look w_now in pure (key, failed_entry (witness_error_display e) (utc now))
  end.

Definition read_epoch_body (bearer : string) (run : Path) (budget : PollBudget) (kfu : string * Path * string)
    : Live (string * Value) :=
  let '(key, file, url) := kfu in
  net! _ := polled (attempts_made status_text budget (read_attempts url)) url (Some bearer) in
  net! _ := passes key in
  match get_retrying status_text budget 1 (read_attempts url) with
  | Some {| rd_answer := Ok (status, body) |} =>
      net! _ := write (run ++ file) body in
      net! now := look w_now in pure (key, fetched_entry status (utc now))
  | Some {| rd_answer := Err last |} => net! now := look w_now in pure (key, failed_entry last (utc now))
  | None => net! now := look w_now in pure (key, failed_entry "the attempts ended" (utc now))
  end.

Definition read_epoch_bodies (base_url bearer : string) (epoch_id : u64) (run : Path) (budget : PollBudget)
    : Live (list (string * Value)) :=
  let listing method :=
    ("epoch_" +:+ method_str method, epoch_file epoch_id method,
     base_url +:+ "/trees?epoch=" +:+ num epoch_id +:+ "&method=" +:+ method_str method) in
  live_map (read_epoch_body bearer run budget)
    [listing WEvm; listing WQtsa;
     ("epochs", epochs_file epoch_id, base_url +:+ "/v1/epochs?from=" +:+ num epoch_id +:+ "&limit=1")].

Definition after_close (closes_at : u64) (now grace : Duration) : Duration :=
  now + nanos (sat_sub closes_at (Z.max (seconds now) 0)) + grace.

(** From the server's answer to the leaves on.  The three fetches run side by
    side; their requests are kept one fetch after the other. *)
Definition wait_and_pull (cfg : SealConfig) (bearer s1 s2 : string) (epoch_id closes_at : u64) : Live unit :=
  let run := sc_run_dir cfg in
  let interval := sc_poll_interval cfg in
  net! now := look w_now in
  net! _ := wait_sealed (sc_base_url cfg) epoch_id (after_close closes_at now (sc_seal_grace cfg)) interval in
  net! now := look w_now in
  let budget := {| pb_deadline := after_close closes_at now (sc_witness_grace cfg); pb_interval := interval |} in
  let asks := witness_requests (sc_base_url cfg) bearer budget in
  net! _ := asks s1 WEvm in
  net! _ := asks s1 WQtsa in
  net! _ := asks s2 WQtsa in
  net! _ := passes "witnesses" in
  net! f1 := pull_witness run budget s1 ("s1_evm", ["s1-evm.json"], WEvm) in
  net! f2 := pull_witness run budget s1 ("s1_qtsa", ["s1-qtsa.json"], WQtsa) in
  net! f3 := pull_witness run budget s2 ("s2_qtsa", ["s2-qtsa.json"], WQtsa) in
  net! reads := read_epoch_bodies (sc_base_url cfg) bearer epoch_id run budget in
  write (run ++ FETCH_STATUS) (pretty_text (json_object_of ([f1; f2; f3] ++ reads))).

(** [drive]: the epoch's close driven in process, its effect the server's. *)
Definition submit_and_pull (cfg : SealConfig) (identity : StandingIdentity) (run_id sdk : string) (pre : Preflight)
    (prepared : PreparedSeal * PreparedSeal) : Live unit :=
  let base_url := sc_base_url cfg in
  let run := sc_run_dir cfg in
  net! d1 := from (prepared_submit_digest prepared.1) in
  net! d2 := from (prepared_submit_digest prepared.2) in
  let s1 := hex_digest d1 in
  let s2 := hex_digest d2 in
  net! key := from (client_key identity) in
  net! bearer := mint_bearer base_url key in
  net! now := look w_now in
  let meta := run_meta run_id base_url s1 s2 (utc now) (pf_version pre) sdk in
  net! _ := write_run_json run meta in
  net! resp := http_post (base_url +:+ "/v1/leaves") (Some bearer)
                 (json_object_of [("leaves", json_array_of [json_string s1; json_string s2])]) in
  let status := rp_status resp in
  let body := text_or_default resp in
  let meta := json_set (json_set meta "post_status" (json_number status)) "post_body" (json_string body) in
  net! _ := write_run_json run meta in
  if decide (status <> 202) then from (Err ("POST /v1/leaves: expected 202, got " +:+ num status +:+ " " +:+ body))
  else
    net! posted := from (map_err (fun e => "leaves response json: " +:+ e) (json_from_str body)) in
    net! epoch_id := from (ok_or (json_as_u64 (json_index posted "epoch_id")) "leaves response has no epoch_id") in
    net! closes_at := from (ok_or (json_as_u64 (json_index posted "epoch_closes_at"))
                              "leaves response has no epoch_closes_at") in
    let meta := json_set (json_set (json_set meta "post_body" posted) "epoch_id" (json_number epoch_id))
                  "epoch_closes_at" (json_number closes_at) in
    net! _ := write_run_json run meta in
    wait_and_pull cfg bearer s1 s2 epoch_id closes_at.

(** ** The run *)

Record SealReport := {
  sr_logs : list StepLog;
  sr_run_dir : Path;
  sr_version_before : string;
  sr_version_after : string;
}.

Definition report_passed (r : SealReport) : bool := all_passed (sr_logs r).

Definition live_header (cfg : SealConfig) (identity : StandingIdentity) (sdk : string) (pre : Preflight) : list string :=
  ["# SDK rev (Cargo.lock) = " +:+ sdk;
   "# server /version before the run: " +:+ pf_version pre;
   "# identity = " +:+ ir_did (si_record identity) +:+ " (alias " +:+ ir_alias (si_record identity) +:+ ", created_at " +:+
     ir_created_at (si_record identity) +:+ ")";
   "# run directory = " +:+ file_text (sc_run_dir cfg)] ++
  map (fun l => "# preflight: " +:+ l) (pf_lines pre).

(** The end of the run: the version again, the logs with it, [run.json]. *)
Definition finish_run (cfg : SealConfig) (pre : Preflight) (logs : list StepLog) : Live SealReport :=
  let run := sc_run_dir cfg in
  net! after := attempt (text_at (sc_base_url cfg +:+ "/version")) in
  let version_after := match after with Ok (_, body) => body | Err e => "unreachable: " +:+ e end in
  let moved := check_version_unchanged (pf_version pre) version_after in
  let closing := "server /version after the run: " +:+ version_after in
  let logs := map (fun log => match moved with
                              | Ok _ => log
                              | Err why => (check false why "server redeployed during the run" log).1
                              end) logs in
  net! _ := live_each (fun log =>
              on_world (fun w => let '(fs, r) := log_write log run closing (w_fs w) in (set_fs fs w, r))) logs in
  net! text := fun n => from (read {| st_run := run; st_mode := Persist |} RUN_JSON (w_fs (n_world n))) n in
  net! meta := from (json_from_str text) in
  net! _ := write_run_json run (json_set meta "server_version_after" (json_string version_after)) in
  pure {| sr_logs := logs; sr_run_dir := run; sr_version_before := pf_version pre; sr_version_after := version_after |}.

(** [guard]: [check_run_dir]; [sdk]: [sdk_rev]. *)
Definition run_seal (guard : Path -> Path -> result string unit) (sdk : result string string) (cfg : SealConfig)
    (identity : StandingIdentity) : Live SealReport :=
  let run := sc_run_dir cfg in
  net! _ := from (require_server_did_pin (sc_base_url cfg) (sc_expect_server_did cfg)) in
  net! _ := from (guard run (sc_identity_dir cfg)) in
  net! sdk := from sdk in
  net! pre := preflight (sc_base_url cfg) in
  net! _ := from (check_expected_version (pf_version pre) (sc_expect_version cfg)) in
  net! _ := from (check_expected_server_did (pf_identity_body pre) (sc_expect_server_did cfg)) in
  net! _ := dir_op "mkdir" run in
  net! _ := dir_op "chmod 0700" run in
  net! _ := write (run ++ AQUA_IDENTITY) (pf_identity_body pre) in
  net! now := look w_now in
  let run_id := run_id_of now in
  net! prepared := build_local_state run (sc_reader cfg) identity run_id in
  net! _ := submit_and_pull cfg identity run_id sdk pre prepared in
  net! state := on_world (fun w => (after_call w, map_err load_error_text
                            (RunState_load run (w_fs w) (w_reads w) (re_aq (sc_reader cfg))))) in
  let ctx := {| cx_store := {| st_run := run; st_mode := Persist |}; cx_reader := sc_reader cfg; cx_state := state;
                cx_header := live_header cfg identity sdk pre; cx_expect_server_did := sc_expect_server_did cfg;
                cx_finality_budget := sc_finality_budget cfg |} in
  net! logs := on_world (SealReplay.run ctx AllSteps
                 "server /version after the run: pending, written at the end of the run") in
  finish_run cfg pre logs.
End live.
