(* ===== verification/LiveTheorems.v ===== *)
(** * What a live run posts
    ([crates/aqua-timestamp-e2e/src/seal/live.rs])

    Nothing is posted before every guard has passed and the two prepared seals
    are on disk; the leaves go out once, over a disk whose record names them. *)

From S2P Require Import Prelude External Utf8 Client ClientIdentity KnownServers Config HarnessPoll HarnessWitness HarnessStore SealSdk RunDir SealAct SealSteps SealRun SealReplay HarnessIdentity SealLive.
Open Scope string_scope.
Open Scope list_scope.
Open Scope Z_scope.

Definition posts (l : list Sent) : list Sent := List.filter (fun s => rq_post (se_request s)) l.

Lemma posts_app a b : posts (a ++ b) = posts a ++ posts b.
Proof. apply List.filter_app. Qed.

(** An action that posts nothing. *)
Definition quiet {A} (m : Live A) : Prop :=
  forall n n' r, m n = (n', r) -> posts (n_sent n') = posts (n_sent n).
(** One that leaves the disk. *)
Definition still {A} (m : Live A) : Prop :=
  forall n n' r, m n = (n', r) -> fs_files (w_fs (n_world n')) = fs_files (w_fs (n_world n)).

Create HintDb live.

Lemma live_bind_inv {A B} (m : Live A) (k : A -> Live B) n n' r :
  live_bind m k n = (n', r) ->
  (exists e, m n = (n', Err e) /\ r = Err e) \/ exists a n1, m n = (n1, Ok a) /\ k a n1 = (n', r).
Proof. unfold live_bind. destruct (m n) as [n1 [a|e]]; [|intros [= <- <-]]; eauto 8. Qed.

Lemma quiet_pure {A} (a : A) : quiet (pure a).
Proof. by intros n n' r [= <- <-]. Qed.
Lemma quiet_from {A} (r : result string A) : quiet (from r).
Proof. by intros n n' r' [= <- <-]. Qed.
Lemma quiet_look {A} (f : World -> A) : quiet (look f).
Proof. by intros n n' r' [= <- <-]. Qed.
Lemma quiet_reader {A} (f : Net -> result string A) : quiet (fun n => from (f n) n).
Proof. by intros n n' r' [= <- <-]. Qed.
Lemma quiet_on_world {A} (f : World -> World * result string A) : quiet (on_world f).
Proof. intros n n' r. unfold on_world. destruct (f (n_world n)). by intros [= <- <-]. Qed.
Lemma quiet_bind {A B} (m : Live A) (k : A -> Live B) : quiet m -> (forall a, quiet (k a)) -> quiet (live_bind m k).
Proof.
  intros Hm Hk n n' r [(e & He & _)|(a & n1 & He & Hr)]%live_bind_inv; [by eapply Hm|].
  by rewrite (Hk a _ _ _ Hr), (Hm _ _ _ He).
Qed.
Lemma quiet_each {A} (f : A -> Live unit) l : (forall x, quiet (f x)) -> quiet (live_each f l).
Proof. intros Hf. induction l; cbn; [apply quiet_pure|]. by apply quiet_bind. Qed.
Lemma quiet_map {A B} (f : A -> Live B) l : (forall x, quiet (f x)) -> quiet (live_map f l).
Proof.
  intros Hf. induction l; cbn; [apply quiet_pure|]. apply quiet_bind; [done|]. intros. apply quiet_bind; [done|].
  intros. apply quiet_pure.
Qed.
Lemma quiet_attempt {A} (m : Live A) : quiet m -> quiet (attempt m).
Proof. intros Hm n n' r. unfold attempt. destruct (m n) as [n1 r1] eqn:He. intros [= <- <-]. by eapply Hm. Qed.
#[export] Hint Resolve quiet_pure quiet_from quiet_look quiet_reader quiet_on_world quiet_attempt : live.

Lemma quiet_write path t : quiet (write path t).
Proof. apply quiet_on_world. Qed.
Lemma quiet_dir_op what path : quiet (dir_op what path).
Proof. apply quiet_on_world. Qed.
#[export] Hint Resolve quiet_write quiet_dir_op : live.

(** What a write leaves: the file, when it succeeds; the others anyway. *)
Lemma write_ok path t n n' :
  write path t n = (n', Ok tt) ->
  fs_files (w_fs (n_world n')) = <[path := Ok (as_bytes t)]> (fs_files (w_fs (n_world n))).
Proof.
  unfold write, on_world. pose proof (write_file_ok path (as_bytes t) (w_fs (n_world n))) as Hw.
  destruct (write_file path (as_bytes t) (w_fs (n_world n))) as [fs r]. intros [= <- ->]. by apply Hw.
Qed.
Lemma write_other path t n n' r q :
  write path t n = (n', r) -> q <> path ->
  fs_files (w_fs (n_world n')) !! q = fs_files (w_fs (n_world n)) !! q.
Proof.
  unfold write, on_world. intros He Hq. pose proof (write_file_other path (as_bytes t) (w_fs (n_world n)) q Hq) as Hw.
  destruct (write_file path (as_bytes t) (w_fs (n_world n))) as [fs r1]. by injection He as <- <-.
Qed.

(** The next statement of [Hr], and the case that it fails. *)
Ltac net_step Hr x n1 Hx :=
  apply live_bind_inv in Hr; destruct Hr as [(? & Hx & Hr)|(x & n1 & Hx & Hr)]; cbv beta in *.

Section posts.
Context `{HexCrate, SealSdk, !ClientCrates, !HarnessCrates, !SealEnv, !KeyCrates, !PrettyCrate, !LiveEnv}.

Lemma quiet_get url b : quiet (http_get url b).
Proof.
  intros n n' r. unfold http_get, send. intros [= <- <-]. cbn [n_sent]. rewrite posts_app. cbn. by rewrite app_nil_r.
Qed.
Hint Resolve quiet_get : live.

Ltac quiet :=
  repeat first
    [ apply quiet_bind; [|intros] | apply quiet_each; intros | apply quiet_map; intros
    | solve [auto with live] | progress cbv zeta | case_match ].

Lemma quiet_text_at url : quiet (text_at url).
Proof. unfold text_at. quiet. Qed.
Hint Resolve quiet_text_at : live.
Lemma quiet_preflight b : quiet (preflight b).
Proof. unfold preflight. quiet. Qed.
Lemma quiet_blocking {A} (f : nat -> result string A) : quiet (blocking_call f).
Proof. apply quiet_on_world. Qed.
Lemma quiet_random : quiet os_random.
Proof. apply quiet_on_world. Qed.
Hint Resolve quiet_preflight quiet_blocking quiet_random : live.
Lemma quiet_build_member run re id rid i : quiet (build_member run re id rid i).
Proof. unfold build_member. quiet. Qed.
Lemma quiet_build_nonces run s : quiet (build_nonces run s).
Proof. unfold build_nonces. quiet. Qed.
Lemma quiet_build_seal run re id set tips s ns : quiet (build_seal run re id set tips s ns).
Proof. unfold build_seal. quiet. Qed.
Hint Resolve quiet_build_member quiet_build_nonces quiet_build_seal : live.
Lemma quiet_build_local_state run re id rid : quiet (build_local_state run re id rid).
Proof. unfold build_local_state. quiet. Qed.
Lemma quiet_run_json run m : quiet (write_run_json run m).
Proof. apply quiet_write. Qed.
Lemma quiet_passes what : quiet (passes what).
Proof. apply quiet_on_world. Qed.
Lemma quiet_polled k url b : quiet (polled k url b).
Proof.
  intros n n' r [= <- <-]. cbn [n_sent]. rewrite posts_app. rewrite <- (app_nil_r (posts (n_sent n))) at 2. f_equal.
  induction k; [done|]. exact IHk.
Qed.
Hint Resolve quiet_passes quiet_polled : live.
Lemma quiet_requests u tok b leaf m : quiet (witness_requests u tok b leaf m).
Proof. apply quiet_polled. Qed.
Hint Resolve quiet_requests : live.
Lemma quiet_pull run b leaf x : quiet (pull_witness run b leaf x).
Proof. unfold pull_witness. quiet. Qed.
Lemma quiet_epoch_body tok run b x : quiet (read_epoch_body tok run b x).
Proof. unfold read_epoch_body. quiet. Qed.
Lemma quiet_wait_sealed u e d i : quiet (wait_sealed u e d i).
Proof. unfold wait_sealed. quiet. Qed.
Hint Resolve quiet_run_json quiet_pull quiet_epoch_body quiet_wait_sealed : live.
Lemma quiet_wait_and_pull cfg tok s1 s2 e c : quiet (wait_and_pull cfg tok s1 s2 e c).
Proof. unfold wait_and_pull, read_epoch_bodies. quiet. Qed.
Lemma quiet_finish cfg pre logs : quiet (finish_run cfg pre logs).
Proof. unfold finish_run. quiet. Qed.
Hint Resolve quiet_build_local_state quiet_wait_and_pull quiet_finish : live.

(** ** The disk *)

Lemma still_get url b : still (http_get url b).
Proof. by intros n n' r [= <- <-]. Qed.
Lemma still_post url b v : still (http_post url b v).
Proof. by intros n n' r [= <- <-]. Qed.
Lemma still_from {A} (r : result string A) : still (from r).
Proof. by intros n n' r' [= <- <-]. Qed.
Lemma still_bind {A B} (m : Live A) (k : A -> Live B) : still m -> (forall a, still (k a)) -> still (live_bind m k).
Proof.
  intros Hm Hk n n' r [(e & He & _)|(a & n1 & He & Hr)]%live_bind_inv; [by eapply Hm|].
  by rewrite (Hk a _ _ _ Hr), (Hm _ _ _ He).
Qed.
Lemma still_mint base id : still (mint_bearer base id).
Proof.
  unfold mint_bearer. repeat first [apply still_bind; [|intros]|apply still_get|apply still_post|apply still_from
    |progress cbv zeta|case_match].
Qed.

(** Seal [k], as it was prepared, is on disk. *)
Definition prepared_on_disk (run : Path) (files : Files) (k : Z) (p : PreparedSeal) : Prop :=
  exists text, prepared_to_pretty p = Ok text /\ files !! (run ++ prepared_file k) = Some (Ok (as_bytes (text +:+ nl))).

Lemma build_seal_on_disk run re id set tips k ns n n' p leaves :
  build_seal run re id set tips k ns n = (n', Ok (p, leaves)) ->
  prepared_on_disk run (fs_files (w_fs (n_world n'))) k p /\
  forall q, q <> run ++ prepared_file k -> fs_files (w_fs (n_world n')) !! q = fs_files (w_fs (n_world n)) !! q.
Proof.
  unfold build_seal. intros Hr. net_step Hr ls na Ha; [done|]. injection Ha as <- Ha. net_step Hr hd_ nb Hb; [done|].
  injection Hb as <- Hb. net_step Hr q nc Hc; [done|]. net_step Hr sg nd Hd; [done|]. injection Hd as <- Hd.
  destruct (decide _); [done|]. net_step Hr text ne He; [done|]. injection He as <- He.
  net_step Hr u nf_ Hf; [done|]. destruct u. injection Hr as <- <- <-.
  unfold blocking_call, on_world in Hc. injection Hc as <- _. split.
  - apply write_ok in Hf. exists text. split; [done|]. by rewrite Hf, lookup_insert_eq.
  - intros x Hx. by eapply (write_other _ _ _ _ _ x) in Hf.
Qed.

Lemma run_files_differ (run : Path) (a b : Path) : a <> b -> run ++ a <> run ++ b.
Proof. intros Hab ?%app_inv_head. done. Qed.

Lemma build_local_state_on_disk run re id rid n n' p1 p2 :
  build_local_state run re id rid n = (n', Ok (p1, p2)) ->
  prepared_on_disk run (fs_files (w_fs (n_world n'))) 1 p1 /\ prepared_on_disk run (fs_files (w_fs (n_world n'))) 2 p2.
Proof.
  unfold build_local_state. intros Hr. net_step Hr a na Ha; [done|]. net_step Hr b nb Hb; [done|].
  net_step Hr c nc Hc; [done|]. net_step Hr d nd Hd; [done|]. net_step Hr ns1 ne He; [done|].
  net_step Hr ns2 nf_ Hf; [done|]. net_step Hr ms ng Hg; [done|]. net_step Hr ad nh Hh; [done|].
  net_step Hr tips ni Hi; [done|]. net_step Hr set nj Hj; [done|].
  net_step Hr q1 nk Hk; [done|]. destruct q1 as [q1 l1]. net_step Hr q2 nl_ Hl; [done|]. destruct q2 as [q2 l2].
  net_step Hr u nm Hm; [done|]. injection Hr as <- <- <-.
  apply build_seal_on_disk in Hk as [(t1 & Ht1 & Hk) _]. apply build_seal_on_disk in Hl as [(t2 & Ht2 & Hl) Hother].
  split; [exists t1|exists t2]; (split; [done|]);
    rewrite (write_other _ _ _ _ _ _ Hm) by (by apply run_files_differ); [|done].
  by rewrite Hother by (by apply run_files_differ).
Qed.

(** ** The session and the leaves *)

Definition is_session_post (cfg : SealConfig) (s : Sent) : Prop :=
  rq_post (se_request s) = true /\ rq_url (se_request s) = sc_base_url cfg +:+ "/auth/session".

(** The leaves' POST: both digests, over a disk that holds both prepared seals
    and a [run.json] that names the digests. *)
Definition is_leaves_post (cfg : SealConfig) (s : Sent) : Prop :=
  rq_post (se_request s) = true /\ rq_url (se_request s) = sc_base_url cfg +:+ "/v1/leaves" /\
  exists p1 p2 d1 d2 run_id at_ version sdk,
    prepared_on_disk (sc_run_dir cfg) (se_disk s) 1 p1 /\ prepared_on_disk (sc_run_dir cfg) (se_disk s) 2 p2 /\
    prepared_submit_digest p1 = Ok d1 /\ prepared_submit_digest p2 = Ok d2 /\
    rq_body (se_request s) =
      Some (json_to_string (json_object_of [("leaves", json_array_of [json_string (hex_digest d1); json_string (hex_digest d2)])])) /\
    se_disk s !! (sc_run_dir cfg ++ RUN_JSON) =
      Some (Ok (as_bytes (pretty_text (run_meta run_id (sc_base_url cfg) (hex_digest d1) (hex_digest d2) at_ version sdk)))).

Lemma mint_posts cfg id n n' r :
  mint_bearer (sc_base_url cfg) id n = (n', r) ->
  match r with
  | Ok _ => exists s, posts (n_sent n') = posts (n_sent n) ++ [s] /\ is_session_post cfg s
  | Err _ => posts (n_sent n') = posts (n_sent n) \/
             exists s, posts (n_sent n') = posts (n_sent n) ++ [s] /\ is_session_post cfg s
  end.
Proof.
  unfold mint_bearer. intros Hr. net_step Hr resp na Ha; [subst r; left; by eapply quiet_get|]. apply quiet_get in Ha.
  rewrite <- Ha. clear Ha.
  destruct (negb _); [injection Hr as <- <-; by left|].
  net_step Hr body nb Hb; [subst r; injection Hb as <- _; by left|]. injection Hb as <- _.
  net_step Hr msg nc Hc; [subst r; injection Hc as <- _; by left|]. injection Hc as <- _.
  net_step Hr nonce nd Hd; [subst r; injection Hd as <- _; by left|]. injection Hd as <- _.
  net_step Hr sgn ne He; [subst r; injection He as <- _; by left|]. injection He as <- _.
  cbv zeta in Hr. set (payload := json_object_of _) in Hr.
  assert (forall b nf_ rf, http_post (sc_base_url cfg +:+ "/auth/session") b payload na = (nf_, rf) ->
    exists s, posts (n_sent nf_) = posts (n_sent na) ++ [s] /\ is_session_post cfg s) as Hpost.
  { intros b nf_ rf [= <- <-]. eexists. cbn [n_sent]. rewrite posts_app. split; [reflexivity|]. by split. }
  net_step Hr resp2 nf_ Hf; [subst r; right; by eapply Hpost|]. apply Hpost in Hf as (s & Hs & Hsess).
  assert (n_sent n' = n_sent nf_) as ->; [|destruct r; [|right]; by exists s].
  destruct (negb _); [by injection Hr as <- _|]. net_step Hr b3 ng Hg; injection Hg as <- _; [done|].
  by injection Hr as <- _.
Qed.

(** Submitting that does not get to its end may post nothing, or the session
    alone; otherwise it posts the session and then the leaves. *)
Definition submitted (cfg : SealConfig) (before after : list Sent) (ended : bool) : Prop :=
  (ended = false /\ posts after = posts before) \/
  (ended = false /\ exists s, posts after = posts before ++ [s] /\ is_session_post cfg s) \/
  exists s t, posts after = posts before ++ [s; t] /\ is_session_post cfg s /\ is_leaves_post cfg t.

Lemma submitted_both cfg before after b s t :
  posts after = posts before ++ [s; t] -> is_session_post cfg s -> is_leaves_post cfg t -> submitted cfg before after b.
Proof. intros. right; right. by exists s, t. Qed.
Lemma submitted_quiet cfg before after after' b b' :
  submitted cfg before after b -> posts after' = posts after -> (b' = true -> b = true) -> submitted cfg before after' b'.
Proof.
  unfold submitted. intros Hs -> Hb. destruct b'; [rewrite (Hb eq_refl) in Hs; intuition congruence|].
  destruct Hs as [[_ Hs]|[[_ Hs]|Hs]]; auto.
Qed.

Lemma submitted_from before before' cfg after b :
  posts before = posts before' -> submitted cfg before after b -> submitted cfg before' after b.
Proof. unfold submitted. by intros ->. Qed.

Lemma submit_posts cfg id rid sdk pre p n n' r :
  prepared_on_disk (sc_run_dir cfg) (fs_files (w_fs (n_world n))) 1 p.1 ->
  prepared_on_disk (sc_run_dir cfg) (fs_files (w_fs (n_world n))) 2 p.2 ->
  submit_and_pull cfg id rid sdk pre p n = (n', r) -> submitted cfg (n_sent n) (n_sent n') (is_ok r).
Proof.
  intros Hd1 Hd2 Hr. unfold submit_and_pull in Hr. cbv zeta in Hr.
  net_step Hr d1 na Ha; [injection Ha as <- _; subst r; by left|]. injection Ha as <- Ha.
  net_step Hr d2 nb Hb; [injection Hb as <- _; subst r; by left|]. injection Hb as <- Hb.
  net_step Hr u nc Hc; [injection Hc as <- _; subst r; by left|]. injection Hc as <- Hc.
  net_step Hr bearer nd Hd.
  { subst r. apply mint_posts in Hd as [Hd|(s & Hs & Hsess)]; [by left|right; left; eauto]. }
  pose proof (still_mint _ _ _ _ _ Hd) as Hdisk. apply mint_posts in Hd as (s & Hs & Hsess).
  net_step Hr now ne He; [done|]. injection He as <- He.
  net_step Hr v nf_ Hf; pose proof (quiet_run_json _ _ _ _ _ Hf) as Hq; [subst r; right; left; rewrite Hq; eauto|].
  destruct v. pose proof (write_ok _ _ _ _ Hf) as Hw. rewrite Hdisk in Hw.
  set (body := json_object_of [("leaves", _)]) in Hr.
  assert (forall b ng rg, http_post (sc_base_url cfg +:+ "/v1/leaves") b body nf_ = (ng, rg) ->
    exists t, posts (n_sent ng) = posts (n_sent n) ++ [s; t] /\ is_leaves_post cfg t) as Hpost.
  { intros b ng rg [= <- <-]. eexists. cbn [n_sent]. rewrite posts_app, Hq, Hs. cbn. rewrite <- app_assoc.
    split; [reflexivity|]. split; [done|]. split; [done|].
    destruct Hd1 as (t1 & Ht1 & Hd1), Hd2 as (t2 & Ht2 & Hd2).
    exists p.1, p.2, d1, d2. do 4 eexists. cbn [se_disk]. rewrite Hw. split_and!; try done.
    - exists t1. split; [done|]. rewrite lookup_insert_ne; [done|by apply run_files_differ].
    - exists t2. split; [done|]. rewrite lookup_insert_ne; [done|by apply run_files_differ].
    - by rewrite lookup_insert_eq. }
  net_step Hr resp ng Hg; apply Hpost in Hg as (t & Hg & Ht); [by eapply submitted_both|].
  eapply submitted_both; [|done..]. rewrite <- Hg.
  clear - Hr. match type of Hr with ?m ng = _ => assert (quiet m) as Hquiet end.
  { quiet. }
  by eapply Hquiet.
Qed.

(** ** The guards *)

Definition get_of (cfg : SealConfig) (path : string) : Request :=
  {| rq_post := false; rq_url := sc_base_url cfg +:+ path; rq_bearer := None; rq_body := None |}.

(** What the server answered before anything else was asked passes the guards:
    the pin is there or the server is local, the version and the DID served are
    the expected ones, the local clock is not ahead of the server's. *)
Definition guards_passed (guard : Path -> Path -> result string unit) (cfg : SealConfig) (n : Net) : Prop :=
  require_server_did_pin (sc_base_url cfg) (sc_expect_server_did cfg) = Ok tt /\
  guard (sc_run_dir cfg) (sc_identity_dir cfg) = Ok tt /\
  exists version health identity date server, let k := length (n_sent n) in
    reply k (get_of cfg "/version") = Ok version /\
    reply (S k) (get_of cfg "/health") = Ok health /\
    reply (S (S k)) (get_of cfg "/.well-known/aqua-identity") = Ok identity /\
    check_expected_version (text_or_default version) (sc_expect_version cfg) = Ok tt /\
    rp_status health = 200 /\ rp_date health = Some date /\ parse_from_rfc2822 date = Ok server /\
    seconds (w_now (n_world n)) - server <= MAX_CLOCK_AHEAD_SECS /\
    rp_status identity = 200 /\
    check_expected_server_did (text_or_default identity) (sc_expect_server_did cfg) = Ok tt.

(** A GET that is answered: the answer, and what it leaves. *)
Lemma http_get_ok url b n n' resp :
  http_get url b n = (n', Ok resp) ->
  reply (length (n_sent n)) {| rq_post := false; rq_url := url; rq_bearer := b; rq_body := None |} = Ok resp /\
  length (n_sent n') = S (length (n_sent n)) /\ n_world n' = n_world n.
Proof.
  unfold http_get, send. cbv zeta. intros He. injection He as <- He. apply map_err_ok in He.
  cbn [n_sent n_world]. rewrite length_app. cbn. split; [done|]. split; [lia|done].
Qed.
Lemma text_at_ok url n n' status body :
  text_at url n = (n', Ok (status, body)) ->
  exists resp,
    reply (length (n_sent n)) {| rq_post := false; rq_url := url; rq_bearer := None; rq_body := None |} = Ok resp /\
    status = rp_status resp /\ body = text_or_default resp /\
    length (n_sent n') = S (length (n_sent n)) /\ n_world n' = n_world n.
Proof.
  unfold text_at. intros Hr. net_step Hr resp na Ha; [done|]. injection Hr as <- <- <-.
  apply http_get_ok in Ha as (Hreply & Hlen & Hw). by exists resp.
Qed.

Lemma preflight_ok cfg n n' pre :
  preflight (sc_base_url cfg) n = (n', Ok pre) ->
  exists version health identity date server, let k := length (n_sent n) in
    reply k (get_of cfg "/version") = Ok version /\ reply (S k) (get_of cfg "/health") = Ok health /\
    reply (S (S k)) (get_of cfg "/.well-known/aqua-identity") = Ok identity /\
    pf_version pre = text_or_default version /\ pf_identity_body pre = text_or_default identity /\
    rp_status health = 200 /\ rp_date health = Some date /\ parse_from_rfc2822 date = Ok server /\
    seconds (w_now (n_world n)) - server <= MAX_CLOCK_AHEAD_SECS /\ rp_status identity = 200.
Proof.
  unfold preflight. cbv zeta. intros Hr. net_step Hr sv na Ha; [done|]. destruct sv as [st1 body1].
  apply text_at_ok in Ha as (version & Hv & -> & -> & Hlen1 & Hw1). net_step Hr u nb Hb; [done|]. injection Hb as <- _.
  net_step Hr hea nc Hc; [done|]. apply http_get_ok in Hc as (Hh & Hlen2 & Hw2). rewrite Hlen1 in Hh, Hlen2.
  destruct (decide _) as [|Hst]; [done|]. net_step Hr date_ nd Hd; [done|]. injection Hd as <- Hd.
  net_step Hr local ne He; [done|]. injection He as <- <-. net_step Hr srv nf_ Hf; [done|]. injection Hf as <- Hf.
  apply map_err_ok in Hf. destruct (_ <? _) eqn:Hahead in Hr; [done|]. net_step Hr si ng Hg; [done|].
  destruct si as [st3 body3]. apply text_at_ok in Hg as (identity & Hi & -> & -> & _ & _). rewrite Hlen2 in Hi.
  destruct (decide _) as [|Hst3] in Hr; [done|]. net_step Hr doc nh Hh_; [done|]. destruct (bool_decide _) in Hr; [done|].
  injection Hr as <- <-. exists version, hea, identity, date_, srv. cbn [pf_version pf_identity_body].
  rewrite Hw2, Hw1 in Hahead.
  split_and!; try done; [by apply dec_stable| |by apply Z.ltb_ge in Hahead|by apply dec_stable].
  by destruct (rp_date hea); [injection Hd as ->|].
Qed.

(** C23. Whatever the server answers and the disk does, a live run posts at most
    the session and then the leaves; it posts nothing unless every guard passed,
    and the leaves go out over a disk that holds both prepared seals and the
    record naming their digests. *)
Theorem run_seal_posts guard sdk cfg id n n' r :
  run_seal guard sdk cfg id n = (n', r) ->
  (is_ok r = false /\ posts (n_sent n') = posts (n_sent n)) \/
  (guards_passed guard cfg n /\ submitted cfg (n_sent n) (n_sent n') (is_ok r)).
Proof.
  unfold run_seal. cbv zeta. intros Hr.
  net_step Hr u na Ha; [injection Ha as <- _; subst r; by left|]. injection Ha as <- Ha. destruct u.
  net_step Hr u nb Hb; [injection Hb as <- _; subst r; by left|]. injection Hb as <- Hb. destruct u.
  net_step Hr sdk_ nc Hc; [injection Hc as <- _; subst r; by left|]. injection Hc as <- Hc.
  net_step Hr pre nd Hd; pose proof (quiet_preflight _ _ _ _ Hd) as Hq; [subst r; by left|].
  apply preflight_ok in Hd as (ver & hea & ide & date & srv & Hver & Hhea & Hide & Hpv & Hpi & Hrest).
  net_step Hr u ne He; [injection He as <- _; subst r; by left|]. injection He as <- He. destruct u.
  net_step Hr u nf_ Hf; [injection Hf as <- _; subst r; by left|]. injection Hf as <- Hf. destruct u.
  assert (guards_passed guard cfg n) as Hguards.
  { split; [done|]. split; [done|]. exists ver, hea, ide, date, srv. rewrite <- Hpv, <- Hpi. cbv zeta.
    destruct Hrest as (? & ? & ? & ? & ?). by split_and!. }
  clear Hrest.
  net_step Hr u ng Hg; apply quiet_dir_op in Hg; [subst r; left; split; [done|congruence]|].
  net_step Hr u' nh Hh; apply quiet_dir_op in Hh; [subst r; left; split; [done|congruence]|].
  net_step Hr u'' ni Hi; apply quiet_write in Hi; [subst r; left; split; [done|congruence]|].
  net_step Hr now nj Hj; [done|]. injection Hj as <- Hj.
  net_step Hr prep nk Hk; pose proof (quiet_build_local_state _ _ _ _ _ _ _ Hk) as Hl;
    [subst r; left; split; [done|congruence]|].
  destruct prep as [p1 p2]. apply build_local_state_on_disk in Hk as [Hd1 Hd2]. right. split; [done|].
  apply (submitted_from (n_sent nk)); [congruence|].
  net_step Hr v nm Hm; pose proof (submit_posts _ _ _ _ _ (p1, p2) _ _ _ Hd1 Hd2 Hm) as Hs; [by subst r|].
  eapply submitted_quiet; [exact Hs| |done].
  clear - Hr. match type of Hr with ?m nm = _ => assert (quiet m) as Hquiet end.
  { quiet. }
  by eapply Hquiet.
Qed.
End posts.
