(* ===== verification/HarnessFlow.v ===== *)
(** * The full flow of the harness
    ([crates/aqua-timestamp-e2e/src]: [flow.rs], [witness.rs], [seal/mod.rs])

    A leaf from a fresh client tree, both witnesses fetched, merged into the
    tree and judged by the SDK's verifier; the two refusals the server owes.
    The printed checklist is left out; polled reads as in [SealLive]. *)

From S2P Require Import Prelude External Client Config KnownServers HarnessPoll HarnessWitness HarnessStore SealSdk RunDir SealAct SealRun HarnessIdentity SealLive.
Open Scope string_scope.
Open Scope list_scope.
Open Scope Z_scope.

(** ** The SDK's verifier *)

Record VError := { ve_revision_hash : string; ve_code : string; ve_message : string }.
Record VLog := { vl_type : string; vl_log : string }.

(** What the source reads of a result; the anchors' and the tokens' entries by
    their [{:?}]. *)
Record VerificationResult := {
  vr_errors : list VError;
  vr_logs : list VLog;
  vr_evm_anchors : list (string * string);
  vr_tsa_tokens : list (string * string);
  vr_is_verified : bool;
  vr_outcome : string;
}.

Class FlowEnv `{SealSdk, !ClientCrates} := {
  create_genesis : string -> bytes -> result string Tree;
  tree_to_value : Tree -> result string Value;
  tree_of_value : Value -> result string Tree;
  verify_tree_sync : nat -> WebHost -> BlockchainHost -> Tree -> string * bytes -> result string VerificationResult;
  json_pointer : Value -> string -> option Value;
  (** [EthBlockchainHost] with an endpoint, [TsaWebHost]. *)
  eth_host : u64 -> string -> BlockchainHost;
  tsa_web_host : WebHost;
}.

Definition lookup_key {A} (k : string) (l : list (string * A)) : option A :=
  snd <$> List.find (fun kv : string * A => bool_decide (kv.1 = k)) l.

Section flow.
Context `{HexCrate, SealSdk, !ClientCrates, !HarnessCrates, !SealEnv, !KeyCrates, !PrettyCrate, !LiveEnv, !FlowEnv, EvmChains}.

(** ** [witness.rs] *)

Record ReaderHosts := { rh_blockchain : BlockchainHost; rh_web : WebHost; rh_tsa_facts_expected : bool }.
Record ClientTree := { ct_tree : Value; ct_file : string * bytes; ct_leaf_hex : string }.

(** The keys no revision names as its previous one. *)
Definition tree_tips (revisions : list (string * Value)) : list string :=
  let previous := omap (fun kr : string * Value => json_as_str (json_index kr.2 "previous_revision")) revisions in
  List.filter (fun k => negb (bool_decide (k ∈ previous))) (map fst revisions).

(** The last 32 bytes of a link. *)
Definition link_digest (link : RevisionLink) : option bytes :=
  let b := link_as_ref link in
  let d := drop (length b - 32) b in if decide (length d = 32%nat) then Some d else None.

(** [nonce]: the OS's 16 bytes. *)
Definition new_client_tree (tag : string) (nonce : bytes) : result string ClientTree :=
  let name := tag +:+ ".txt" in
  let content := as_bytes ("openwitness-seal-e2e " +:+ tag +:+ " " +:+ hex_encode nonce) in
  let? tree := map_err (fun e => "client genesis: " +:+ e) (create_genesis name content) in
  let? tree := map_err (fun e => "client tree json: " +:+ e) (tree_to_value tree) in
  let? revisions := ok_or (json_object (json_index tree "revisions")) "client tree has no revisions" in
  match tree_tips revisions with
  | [tip] =>
      let? link := map_err (fun e => "tip link: " +:+ e) (link_parse tip) in
      let? digest := ok_or (link_digest link) "tip link is shorter than 32 bytes" in
      Ok {| ct_tree := tree; ct_file := (name, content); ct_leaf_hex := "0x" +:+ hex_encode digest |}
  | tips => Err ("a linear client tree has one tip, found " +:+ num (Z.of_nat (length tips)))
  end.

(** [tree[map][k] = v] for each entry. *)
Definition put_all (map : string) (entries : list (string * Value)) (tree : Value) : Value :=
  fold_left (fun t kv => json_set t map (json_set (json_index t map) kv.1 kv.2)) entries tree.

Fixpoint merge_witnesses (witnesses : list Fetched) (tree : Value) : result string Value :=
  match witnesses with
  | [] => Ok tree
  | w :: witnesses' =>
      match json_get (fe_tree w) "revisions" ≫= json_object, json_get (fe_tree w) "file_index" ≫= json_object with
      | Some revs, Some index => merge_witnesses witnesses' (put_all "file_index" index (put_all "revisions" revs tree))
      | _, _ => Err (method_str (fe_method w) +:+ " witness has no revisions/file_index")
      end
  end.

Definition merged (client : ClientTree) (witnesses : list Fetched) : result string Tree :=
  let? tree := merge_witnesses witnesses (ct_tree client) in
  map_err (fun e => "merged client tree parses: " +:+ e) (tree_of_value tree).

Definition errors_of (r : VerificationResult) (revision : string) : list string :=
  map (fun e => ve_code e +:+ ": " +:+ ve_message e)
    (List.filter (fun e => bool_decide (ve_revision_hash e = revision)) (vr_errors r)).
Definition error_logs (r : VerificationResult) : list string :=
  map vl_log (List.filter (fun x => contains "Error" (vl_type x)) (vr_logs r)).

Record MethodVerdict := {
  mv_method : WitnessMethod;
  mv_merkle_root_hex : string;
  mv_timestamp_revision : string;
  mv_signature_revision : string;
  mv_anchor_verdict : string;
}.

(** The anchor's verdict as a text, or why there is none. *)
Definition anchor_verdict (r : VerificationResult) (tsa_facts_expected : bool) (w : Fetched) : result string string :=
  match fe_method w with
  | WEvm =>
      let v := lookup_key (fe_object_key w) (vr_evm_anchors r) in
      match v with
      | Some t =>
          if starts_with "Verified" t then Ok ("Some(" +:+ t +:+ ")")
          else Err ("evm anchor verdict for the timestamp revision is not Verified: Some(" +:+ t +:+ ")")
      | None => Err "evm anchor verdict for the timestamp revision is not Verified: None"
      end
  | WQtsa =>
      match lookup_key (fe_object_key w) (vr_tsa_tokens r) with
      | Some token => Ok ("token admitted: " +:+ token)
      | None =>
          if tsa_facts_expected
          then Err ("qtsa token was not admitted as verified: tsa_tokens=" +:+ debug (vr_tsa_tokens r))
          else Ok "no error from the simulated TSA host (it reports no token facts)"
      end
  end.

(** One witness: its two revisions, its anchor, its signer. *)
Definition judge_witness (r : VerificationResult) (tsa_facts_expected : bool) (server_did : string) (w : Fetched)
    : result string MethodVerdict :=
  let m := method_str (fe_method w) in
  let obj_errors := errors_of r (fe_object_key w) in
  if decide (obj_errors <> []) then
    Err (m +:+ " timestamp revision fails the SDK verifier: " +:+ debug_pretty obj_errors +:+ nl +:+ "error logs: " +:+
         debug_pretty (error_logs r))
  else
    let? verdict := anchor_verdict r tsa_facts_expected w in
    let sig_errors := errors_of r (fe_signature_key w) in
    if decide (sig_errors <> []) then
      Err (m +:+ " aggregator signature revision fails the SDK verifier: " +:+ debug_pretty sig_errors)
    else
      let signer := default "" (json_pointer (fe_tree w) ("/revisions/" +:+ fe_signature_key w +:+ "/signer") ≫= json_as_str) in
      if negb (eq_ignore_ascii_case signer server_did) then
        Err (m +:+ " signature signer " +:+ debug signer +:+ " is not the identity's server_did " +:+ debug server_did)
      else
        Ok {| mv_method := fe_method w;
              mv_merkle_root_hex := default "" (json_get (fe_payloads w) "merkle_root" ≫= json_as_str);
              mv_timestamp_revision := fe_object_key w; mv_signature_revision := fe_signature_key w;
              mv_anchor_verdict := verdict |}.

(** [n]: the number of the blocking call. *)
Definition verify_with_sdk (n : nat) (client : ClientTree) (witnesses : list Fetched) (hosts : ReaderHosts) (server_did : string)
    : result string (list MethodVerdict) :=
  let? tree := merged client witnesses in
  let? r := map_err (fun e => "verification did not run: " +:+ e)
              (verify_tree_sync n (rh_web hosts) (rh_blockchain hosts) tree (ct_file client)) in
  let? verdicts := collect (judge_witness r (rh_tsa_facts_expected hosts) server_did) witnesses in
  if negb (vr_is_verified r) then
    Err ("client tree with both witnesses does not verify: " +:+ vr_outcome r +:+ nl +:+ "error logs: " +:+
         debug_pretty (error_logs r))
  else Ok verdicts.

(** ** [flow.rs] *)

Inductive ReaderConfig := LiveReader (evm_rpc_url : option string) | Injected (h : ReaderHosts).

Definition reader_hosts (c : ReaderConfig) (evm_network : string) : result string ReaderHosts :=
  match c with
  | Injected h => Ok h
  | LiveReader evm_rpc_url =>
      let? '(chain_id, url) := reader_evm_endpoint evm_network evm_rpc_url in
      Ok {| rh_blockchain := eth_host chain_id url; rh_web := tsa_web_host; rh_tsa_facts_expected := true |}
  end.

Record FlowOptions := {
  fo_seal_wait : PollBudget;
  fo_witness_timeout : Duration;
  fo_witness_interval : Duration;
  fo_foreign_did_negative : bool;
  fo_reader : ReaderConfig;
}.

Record E2eOutcome := {
  eo_base_url : string;
  eo_server_revision : string;
  eo_server_did : string;
  eo_client_did : string;
  eo_leaf_hex : string;
  eo_epoch_id : u64;
  eo_witnesses : list MethodVerdict;
}.

Definition IDENTITY_KEYS : list string :=
  ["protocol"; "version"; "server_did"; "ethereum_address"; "trust_level"; "trust_domain"; "supported_claims";
   "auth_method"; "endpoints"; "identity_claim"].

Definition random_leaf (draw : Hash32) : string := "0x" +:+ hex_encode (arr draw).

(** A status the flow stops on. *)
Definition expect_success (what : string) (resp : Response) : Live unit :=
  if is_success (rp_status resp) then pure tt else from (Err (what +:+ ": HTTP " +:+ status_text (rp_status resp))).

(** Step 2: alive, what build serves, whom it says it is. *)
Definition read_version (base_url : string) : Live string :=
  net! resp := http_get (base_url +:+ "/health") None in
  net! _ := (if decide (rp_status resp <> 200) then from (Err ("GET /health: HTTP " +:+ status_text (rp_status resp)))
             else pure tt) in
  net! resp := http_get (base_url +:+ "/version") None in
  net! _ := expect_success "GET /version" resp in
  net! version := from (json_body "version json" resp) in
  from (ok_or (json_as_str (json_index version "revision"))
          ("/version has no string `revision`: " +:+ json_to_string version)).

Definition check_identity (identity : Value) : result string string :=
  let? _ := each (fun k => unit_of (ok_or (json_get identity k) ("identity response missing key `" +:+ k +:+ "`")))
              IDENTITY_KEYS in
  if decide (json_as_str (json_index identity "auth_method") <> Some "siwe") then
    Err ("identity.auth_method must be " +:+ in_quotes "siwe" +:+ ", got " +:+ debug (json_index identity "auth_method"))
  else ok_or (json_as_str (json_index identity "server_did")) "server_did not a string".

Definition read_identity (base_url : string) : Live string :=
  net! resp := http_get (base_url +:+ "/.well-known/aqua-identity") None in
  net! _ := expect_success "GET /.well-known/aqua-identity" resp in
  net! identity := from (json_body "identity json" resp) in
  from (check_identity identity).

(** Step 6: the epoch of the leaf, and when it closes. *)
Definition submit_leaf (base_url token leaf_hex : string) : Live (u64 * u64) :=
  net! resp := http_post (base_url +:+ "/v1/leaves") (Some token)
                 (json_object_of [("leaves", json_array_of [json_string leaf_hex])]) in
  if decide (rp_status resp <> 202) then
    from (Err ("POST /v1/leaves: expected 202, got HTTP " +:+ status_text (rp_status resp) +:+ " body=" +:+
               text_or_default resp))
  else
    net! body := from (json_body "leaves response json" resp) in
    net! epoch_id := from (ok_or (json_get body "epoch_id" ≫= json_as_u64) "leaves response missing epoch_id") in
    net! closes_at := from (ok_or (json_get body "epoch_closes_at" ≫= json_as_u64)
                              "leaves response missing epoch_closes_at") in
    pure (epoch_id, closes_at).

(** The deadline of the wait: the caller's ceiling or twice the epoch's rest. *)
Definition effective_deadline (opts : FlowOptions) (now : Duration) (closes_at : u64) : Duration :=
  Z.min (pb_deadline (fo_seal_wait opts))
        (pb_deadline (from_epoch_close now closes_at (Z.max (seconds now) 0) 30)).

(** [fetch_witness]: the poll, then the reading. *)
Definition fetch_witness (budget : PollBudget) (leaf_hex : string) (method : WitnessMethod) : result WitnessError Fetched :=
  let? '(_, body) := fetch_witness_body budget leaf_hex method in parse_witness method body.

(** Both, or what is wrong with either. *)
Definition both (evm qtsa : result WitnessError Fetched) : result string (Fetched * Fetched) :=
  match evm, qtsa with
  | Ok e, Ok q => Ok (e, q)
  | _, _ =>
      let err r := match r with Ok _ => [] | Err x => ["  - " +:+ witness_error_display x] end in
      Err ("GET /trees/by-leaf: both anchors are required, not served:" +:+ nl +:+
           String.concat nl (err evm ++ err qtsa))
  end.

(** Step 10: another DID is refused the leaf's witness, and a submission without
    a token is refused. *)
Definition foreign_did_refused (base_url leaf_hex : string) : Live unit :=
  net! draw := os_random in
  net! secondary := from (random Secp256k1Eip191 draw) in
  net! token := mint_bearer base_url secondary in
  net! resp := http_get (base_url +:+ "/trees/by-leaf/" +:+ leaf_hex +:+ "?method=evm") (Some token) in
  if decide (rp_status resp <> 403) then
    from (Err ("negative-1: expected 403 from foreign DID on by-leaf, got " +:+ status_text (rp_status resp) +:+
               " body=" +:+ text_or_default resp))
  else pure tt.

Definition no_bearer_refused (base_url : string) : Live unit :=
  net! draw := os_random in
  net! resp := http_post (base_url +:+ "/v1/leaves") None
                 (json_object_of [("leaves", json_array_of [json_string (random_leaf draw)])]) in
  if decide (rp_status resp <> 401) then
    from (Err ("negative-2: expected 401 on no-bearer submit, got " +:+ status_text (rp_status resp) +:+ " body=" +:+
               text_or_default resp))
  else pure tt.

(** Steps 8 and 9: both witnesses, fetched and judged, over one root. *)
Definition fetch_and_verify (base_url token : string) (client : ClientTree) (opts : FlowOptions) (server_did : string) : Live (list MethodVerdict) :=
  net! now := look w_now in
  let budget := {| pb_deadline := now + fo_witness_timeout opts; pb_interval := fo_witness_interval opts |} in
  let leaf := ct_leaf_hex client in
  net! _ := witness_requests base_url token budget leaf WEvm in
  net! _ := witness_requests base_url token budget leaf WQtsa in
  net! _ := passes "witnesses" in
  net! '(evm, qtsa) := from (both (fetch_witness budget leaf WEvm) (fetch_witness budget leaf WQtsa)) in
  let evm_network := default "" (json_get (fe_payloads evm) "network" ≫= json_as_str) in
  net! hosts := from (reader_hosts (fo_reader opts) evm_network) in
  net! verdicts := blocking_call (fun n => verify_with_sdk n client [evm; qtsa] hosts server_did) in
  match verdicts with
  | [v0; v1] =>
      if decide (mv_merkle_root_hex v0 <> mv_merkle_root_hex v1) then
        from (Err ("the two anchors cover different roots: evm=" +:+ mv_merkle_root_hex v0 +:+ " qtsa=" +:+
                   mv_merkle_root_hex v1))
      else pure verdicts
  | _ => from (Err "index out of bounds")
  end.

(** [drive]: the epoch's close driven in process, its effect the server's. *)
Definition run_full_flow (base_url : string) (primary : ClientKey) (opts : FlowOptions) : Live E2eOutcome :=
  net! server_revision := read_version base_url in
  net! server_did := read_identity base_url in
  net! token := mint_bearer base_url primary in
  net! draw := os_random in
  net! client_tree := from (new_client_tree "openwitness_seal_e2e" (take 16 (arr draw))) in
  let leaf_hex := ct_leaf_hex client_tree in
  net! '(epoch_id, closes_at) := submit_leaf base_url token leaf_hex in
  net! now := look w_now in
  net! _ := wait_sealed base_url epoch_id (effective_deadline opts now closes_at) (pb_interval (fo_seal_wait opts)) in
  net! verdicts := fetch_and_verify base_url token client_tree opts server_did in
  net! _ := (if fo_foreign_did_negative opts then foreign_did_refused base_url leaf_hex else pure tt) in
  net! _ := no_bearer_refused base_url in
  pure {| eo_base_url := base_url; eo_server_revision := server_revision; eo_server_did := server_did;
          eo_client_did := ck_did primary; eo_leaf_hex := leaf_hex; eo_epoch_id := epoch_id; eo_witnesses := verdicts |}.

(** ** [seal/mod.rs] *)

Definition quote : string := String (Ascii.ascii_of_nat 34) EmptyString.

(** [s.trim_end_matches(p)] of one character. *)
Fixpoint trim_end_char (p s : string) : string :=
  match s with
  | EmptyString => EmptyString
  | String c s' =>
      match trim_end_char p s' with
      | EmptyString => if bool_decide (String c EmptyString = p) then EmptyString else String c EmptyString
      | t => String c t
      end
  end.

(** The revisions of the SDK's packages; [in_pkg]: within one. *)
Fixpoint sdk_revs (in_pkg : bool) (ls : list string) : list string :=
  match ls with
  | [] => []
  | line :: ls' =>
      let in_pkg := if starts_with "name = " line then bool_decide (line = "name = " +:+ in_quotes "aqua-rs-sdk") else in_pkg in
      (if in_pkg && starts_with "source = " line
       then match rsplit_at "#" line with Some (_, rev) => [trim_end_char quote rev] | None => [] end
       else []) ++ sdk_revs in_pkg ls'
  end.

Definition sdk_rev_in (lock : string) : result string string :=
  match sdk_revs false (lines lock) with
  | [one] => Ok one
  | revs => Err ("expected exactly one aqua-rs-sdk in Cargo.lock, found " +:+ debug revs)
  end.
End flow.

(** As in the source's tests: one SDK at a revision, two SDKs. *)
Example sdk_revs_ex :
  let pkg rev := ["[[package]]"; "name = " +:+ in_quotes "aqua-rs-sdk"; "source = " +:+ in_quotes ("git+https://x#" +:+ rev)] in
  let other := ["[[package]]"; "name = " +:+ in_quotes "serde"; "source = " +:+ in_quotes "registry#s"] in
  sdk_revs false (other ++ pkg "abc" ++ other) = ["abc"] /\ sdk_revs false (pkg "a" ++ pkg "b") = ["a"; "b"].
Proof. vm_compute. split; reflexivity. Qed.
