(* ===== verification/Targets.v ===== *)
(** * Where the harness's requests go
    ([crates/aqua-timestamp-e2e/src]: [flow.rs], [seal/live.rs])

    Each request of a run goes to the base URL it was given; what was sent
    before is kept. *)

From S2P Require Import Prelude External Client Config KnownServers HarnessPoll HarnessWitness HarnessStore SealSdk RunDir SealAct SealSteps SealRun SealReplay HarnessIdentity SealLive LiveTheorems HarnessFlow.
Open Scope string_scope.
Open Scope list_scope.
Open Scope Z_scope.

(** A request below the URL. *)
Definition goes_to (base : string) (s : Sent) : Prop := exists path, rq_url (se_request s) = base +:+ path.

(** What is sent is kept, and more of it goes to the URL. *)
Definition targets {A} (base : string) (m : Live A) : Prop :=
  forall n n' r, m n = (n', r) -> exists new, n_sent n' = n_sent n ++ new /\ Forall (goes_to base) new.

Create HintDb targets.

Section targets.
Context (base : string).

Lemma targets_same {A} (m : Live A) : (forall n, n_sent (m n).1 = n_sent n) -> targets base m.
Proof. intros Hm n n' r Hr. exists []. specialize (Hm n). rewrite Hr in Hm. cbn in Hm. by rewrite app_nil_r. Qed.
Lemma targets_pure {A} (a : A) : targets base (pure a).
Proof. by apply targets_same. Qed.
Lemma targets_from {A} (r : result string A) : targets base (from r).
Proof. by apply targets_same. Qed.
Lemma targets_look {A} (f : World -> A) : targets base (look f).
Proof. by apply targets_same. Qed.
Lemma targets_reader {A} (f : Net -> result string A) : targets base (fun n => from (f n) n).
Proof. by apply targets_same. Qed.
Lemma targets_on_world {A} (f : World -> World * result string A) : targets base (on_world f).
Proof. apply targets_same. intros n. unfold on_world. by destruct (f (n_world n)). Qed.
Lemma targets_attempt {A} (m : Live A) : targets base m -> targets base (attempt m).
Proof. intros Hm n n' r. unfold attempt. destruct (m n) as [n1 r1] eqn:He. intros [= <- <-]. by eapply Hm. Qed.
Lemma targets_bind {A B} (m : Live A) (k : A -> Live B) :
  targets base m -> (forall a, targets base (k a)) -> targets base (live_bind m k).
Proof.
  intros Hm Hk n n' r [(e & He & _)|(a & n1 & He & Hr)]%live_bind_inv; [by eapply Hm|].
  destruct (Hm _ _ _ He) as (s1 & H1 & Hs1), (Hk a _ _ _ Hr) as (s2 & H2 & Hs2).
  exists (s1 ++ s2). rewrite H2, H1, (assoc_L (++)). split; [done|]. by apply Forall_app.
Qed.
Lemma targets_each {A} (f : A -> Live unit) l : (forall x, targets base (f x)) -> targets base (live_each f l).
Proof. intros Hf. induction l; cbn; [apply targets_pure|]. by apply targets_bind. Qed.
Lemma targets_map {A B} (f : A -> Live B) l : (forall x, targets base (f x)) -> targets base (live_map f l).
Proof.
  intros Hf. induction l; cbn; [apply targets_pure|]. apply targets_bind; [done|]. intros. apply targets_bind; [done|].
  intros. apply targets_pure.
Qed.
End targets.
#[export] Hint Resolve targets_pure targets_from targets_look targets_reader targets_on_world : targets.

(** Through the structure of an action. *)
Ltac targets :=
  repeat first
    [ solve [eauto with targets] | apply targets_bind; [|intros] | apply targets_each; intros | apply targets_map; intros
    | apply targets_attempt | progress cbv zeta | case_match ].

Section calls.
Context `{HexCrate, SealSdk, !ClientCrates, !HarnessCrates, !SealEnv, !KeyCrates, !PrettyCrate, !LiveEnv, !FlowEnv, EvmChains}.
Context (base : string).

Lemma targets_send rq : (exists path, rq_url rq = base +:+ path) -> targets base (send rq).
Proof.
  intros Hrq n n' r. unfold send. cbv zeta. intros [= <- <-]. eexists. split; [reflexivity|].
  repeat constructor. exact Hrq.
Qed.
Lemma targets_get path token : targets base (http_get (base +:+ path) token).
Proof. apply targets_send. by exists path. Qed.
Lemma targets_post path token body : targets base (http_post (base +:+ path) token body).
Proof. apply targets_send. by exists path. Qed.
Lemma targets_random : targets base os_random.
Proof. apply targets_on_world. Qed.
Lemma targets_blocking {A} (f : nat -> result string A) : targets base (blocking_call f).
Proof. apply targets_on_world. Qed.
Lemma targets_write path text : targets base (write path text).
Proof. apply targets_on_world. Qed.
Lemma targets_dir_op what path : targets base (dir_op what path).
Proof. apply targets_on_world. Qed.
Lemma targets_passes what : targets base (passes what).
Proof. apply targets_on_world. Qed.
Lemma targets_polled k path token : targets base (polled k (base +:+ path) token).
Proof.
  intros n n' r [= <- <-]. eexists. split; [reflexivity|]. apply Forall_replicate. by exists path.
Qed.
#[local] Hint Resolve targets_get targets_post targets_random targets_blocking targets_write targets_dir_op targets_passes targets_polled : targets.

(** ** [flow.rs] *)

Lemma targets_mint key : targets base (mint_bearer base key).
Proof. unfold mint_bearer. targets. Qed.
#[local] Hint Resolve targets_mint : targets.
Lemma targets_expect what resp : targets base (expect_success what resp).
Proof. unfold expect_success. targets. Qed.
#[local] Hint Resolve targets_expect : targets.
Lemma targets_version : targets base (read_version base).
Proof. unfold read_version. targets. Qed.
Lemma targets_identity : targets base (read_identity base).
Proof. unfold read_identity. targets. Qed.
Lemma targets_submit token leaf : targets base (submit_leaf base token leaf).
Proof. unfold submit_leaf. targets. Qed.
Lemma targets_wait epoch deadline interval : targets base (wait_sealed base epoch deadline interval).
Proof. unfold wait_sealed. targets. Qed.
Lemma targets_asks token budget leaf method : targets base (witness_requests base token budget leaf method).
Proof. apply targets_polled. Qed.
#[local] Hint Resolve targets_asks : targets.
Lemma targets_fetch token client opts did : targets base (fetch_and_verify base token client opts did).
Proof. unfold fetch_and_verify. targets. Qed.
Lemma targets_foreign leaf : targets base (foreign_did_refused base leaf).
Proof. unfold foreign_did_refused. targets. Qed.
Lemma targets_no_bearer : targets base (no_bearer_refused base).
Proof. unfold no_bearer_refused. targets. Qed.
#[local] Hint Resolve targets_version targets_identity targets_submit targets_wait targets_fetch targets_foreign targets_no_bearer : targets.
Lemma targets_flow key opts : targets base (run_full_flow base key opts).
Proof. unfold run_full_flow. targets. Qed.

(** ** [live.rs] *)

Lemma targets_text_at path : targets base (text_at (base +:+ path)).
Proof. unfold text_at. targets. Qed.
#[local] Hint Resolve targets_text_at : targets.
Lemma targets_preflight : targets base (preflight base).
Proof. unfold preflight. targets. Qed.
Lemma targets_member run reader identity id i : targets base (build_member run reader identity id i).
Proof. unfold build_member. targets. Qed.
Lemma targets_nonces run seal : targets base (build_nonces run seal).
Proof. unfold build_nonces. targets. Qed.
Lemma targets_seal run reader identity set tips seal nonces : targets base (build_seal run reader identity set tips seal nonces).
Proof. unfold build_seal. targets. Qed.
#[local] Hint Resolve targets_preflight targets_member targets_nonces targets_seal : targets.
Lemma targets_local run reader identity id : targets base (build_local_state run reader identity id).
Proof. unfold build_local_state. targets. Qed.
Lemma targets_run_json run meta : targets base (write_run_json run meta).
Proof. apply targets_write. Qed.
Lemma targets_pull run budget leaf kfm : targets base (pull_witness run budget leaf kfm).
Proof. unfold pull_witness. targets. Qed.
Lemma targets_epoch_body token run budget key file path :
  targets base (read_epoch_body token run budget (key, file, base +:+ path)).
Proof. unfold read_epoch_body. targets. Qed.
#[local] Hint Resolve targets_local targets_run_json targets_pull targets_epoch_body : targets.
Lemma targets_epoch_bodies token epoch run budget : targets base (read_epoch_bodies base token epoch run budget).
Proof. unfold read_epoch_bodies. cbn [live_map]. targets. Qed.
#[local] Hint Resolve targets_epoch_bodies : targets.
Lemma targets_pulled cfg token s1 s2 epoch closes :
  base = sc_base_url cfg -> targets base (wait_and_pull cfg token s1 s2 epoch closes).
Proof. intros Hbase. unfold wait_and_pull. rewrite <- Hbase. targets. Qed.
End calls.
#[export] Hint Resolve targets_get targets_post targets_random targets_blocking targets_write targets_dir_op targets_passes
  targets_mint targets_wait targets_text_at targets_preflight targets_local targets_run_json targets_pulled targets_flow : targets.

Section runs.
Context `{HexCrate, SealSdk, !ClientCrates, !HarnessCrates, !SealEnv, !KeyCrates, !PrettyCrate, !LiveEnv, !FlowEnv, EvmChains}.
Context (guard : Path -> Path -> result string unit) (sdk : result string string) (cfg : SealConfig) (id : StandingIdentity).

Lemma targets_submit_pull run_id rev pre prepared :
  targets (sc_base_url cfg) (submit_and_pull cfg id run_id rev pre prepared).
Proof. unfold submit_and_pull. targets. Qed.
Lemma targets_finish pre logs : targets (sc_base_url cfg) (finish_run cfg pre logs).
Proof. unfold finish_run. targets. Qed.
#[local] Hint Resolve targets_submit_pull targets_finish : targets.
Lemma targets_run_seal : targets (sc_base_url cfg) (run_seal guard sdk cfg id).
Proof. unfold run_seal. targets. Qed.
End runs.
