(* ===== verification/FlowTheorems.v ===== *)
(** * What a passing flow shows
    ([crates/aqua-timestamp-e2e/src/flow.rs])

    An outcome means that the server said so: its acceptance of the leaf, both
    witnesses, verified in the client's tree over one root and signed by the
    server's DID, and the refusals it owes. *)

From S2P Require Import Prelude External Client Config KnownServers HarnessPoll HarnessWitness HarnessStore SealSdk RunDir SealAct SealRun HarnessIdentity SealLive LiveTheorems HarnessFlow Targets.
Open Scope string_scope.
Open Scope list_scope.
Open Scope Z_scope.

Section flow.
Context `{HexCrate, SealSdk, !ClientCrates, !HarnessCrates, !SealEnv, !KeyCrates, !PrettyCrate, !LiveEnv, !FlowEnv, EvmChains}.

(** ** What is sent is kept *)

Definition grows {A} (m : Live A) : Prop := forall n n' r, m n = (n', r) -> n_sent n `prefix_of` n_sent n'.

Lemma targets_grows {A} base (m : Live A) : targets base m -> grows m.
Proof. intros Hm n n' r (new & -> & _)%Hm. by apply prefix_app_r. Qed.

(** [H], a run of an action: what was sent before it is kept. *)
Ltac grown base H lemma := apply (targets_grows base) in H; [|apply lemma].

(** The request was sent since [n], and answered so. *)
Definition answered_since (n n' : Net) (rq : Request) (resp : Response) : Prop :=
  exists k s, (length (n_sent n) <= k)%nat /\ n_sent n' !! k = Some s /\ se_request s = rq /\ reply k rq = Ok resp.

Lemma send_ok rq n n' resp : send rq n = (n', Ok resp) -> answered_since n n' rq resp.
Proof.
  unfold send. cbv zeta. intros He. injection He as <- He. apply map_err_ok in He.
  exists (length (n_sent n)). eexists. cbn [n_sent]. split; [done|]. split; [|split; [|exact He]].
  - rewrite lookup_app_r by done. by rewrite Nat.sub_diag.
  - reflexivity.
Qed.

Lemma answered_within n0 n n' n1 rq resp :
  n_sent n0 `prefix_of` n_sent n -> answered_since n n' rq resp -> n_sent n' `prefix_of` n_sent n1 ->
  answered_since n0 n1 rq resp.
Proof.
  intros Hp (k & s & Hk & Hs & Hrq & Hr) Hq. exists k, s. split_and!; [|by eapply prefix_lookup_Some|done..].
  apply prefix_length in Hp. lia.
Qed.

(** ** One witness *)

(** No error on either revision, an anchor the verifier verified, the server's
    signature. *)
Definition witness_verified (r : VerificationResult) (facts : bool) (did : string) (w : Fetched) (v : MethodVerdict) : Prop :=
  errors_of r (fe_object_key w) = [] /\ errors_of r (fe_signature_key w) = [] /\
  match fe_method w with
  | WEvm => exists t, lookup_key (fe_object_key w) (vr_evm_anchors r) = Some t /\ starts_with "Verified" t = true
  | WQtsa => facts = true -> is_Some (lookup_key (fe_object_key w) (vr_tsa_tokens r))
  end /\
  eq_ignore_ascii_case
    (default "" (json_pointer (fe_tree w) ("/revisions/" +:+ fe_signature_key w +:+ "/signer") ≫= json_as_str)) did = true /\
  mv_method v = fe_method w /\ mv_timestamp_revision v = fe_object_key w /\ mv_signature_revision v = fe_signature_key w /\
  mv_merkle_root_hex v = default "" (json_get (fe_payloads w) "merkle_root" ≫= json_as_str).

Lemma judge_witness_ok r facts did w v : judge_witness r facts did w = Ok v -> witness_verified r facts did w v.
Proof.
  unfold judge_witness, witness_verified. destruct (decide _) as [|Ho]; [done|]. apply dec_stable in Ho.
  intros (t & Ht & Hr)%result_bind_ok. destruct (decide _) as [|Hs] in Hr; [done|]. apply dec_stable in Hs.
  destruct (eq_ignore_ascii_case _ _) eqn:Hsig; [|done]. cbn in Hr. injection Hr as <-. split_and!; try done.
  unfold anchor_verdict in Ht. destruct (fe_method w).
  - destruct (lookup_key _ _) as [t'|]; [|done]. exists t'. split; [done|]. by destruct (starts_with _ _).
  - intros ->. by destruct (lookup_key _ _).
Qed.

Lemma fetch_witness_ok budget leaf m f :
  fetch_witness budget leaf m = Ok f ->
  exists status body, fetch_witness_body budget leaf m = Ok (status, body) /\ parse_witness m body = Ok f.
Proof. unfold fetch_witness. intros ([st body] & Hf & Hp)%result_bind_ok. by exists st, body. Qed.

(** Both witnesses of the tree's leaf as served, judged in the tree. *)
Definition witnesses_verified (opts : FlowOptions) (client : ClientTree) (did : string) (vs : list MethodVerdict) : Prop :=
  exists budget s1 s2 b1 b2 evm qtsa hosts m k r v0 v1,
    fetch_witness_body budget (ct_leaf_hex client) WEvm = Ok (s1, b1) /\ parse_witness WEvm b1 = Ok evm /\
    fetch_witness_body budget (ct_leaf_hex client) WQtsa = Ok (s2, b2) /\ parse_witness WQtsa b2 = Ok qtsa /\
    reader_hosts (fo_reader opts) (default "" (json_get (fe_payloads evm) "network" ≫= json_as_str)) = Ok hosts /\
    merged client [evm; qtsa] = Ok m /\
    verify_tree_sync k (rh_web hosts) (rh_blockchain hosts) m (ct_file client) = Ok r /\ vr_is_verified r = true /\
    witness_verified r (rh_tsa_facts_expected hosts) did evm v0 /\
    witness_verified r (rh_tsa_facts_expected hosts) did qtsa v1 /\
    vs = [v0; v1] /\ mv_merkle_root_hex v0 = mv_merkle_root_hex v1.

Lemma verify_with_sdk_ok k client evm qtsa hosts did vs :
  verify_with_sdk k client [evm; qtsa] hosts did = Ok vs ->
  exists m r v0 v1, merged client [evm; qtsa] = Ok m /\
    verify_tree_sync k (rh_web hosts) (rh_blockchain hosts) m (ct_file client) = Ok r /\ vr_is_verified r = true /\
    witness_verified r (rh_tsa_facts_expected hosts) did evm v0 /\
    witness_verified r (rh_tsa_facts_expected hosts) did qtsa v1 /\ vs = [v0; v1].
Proof.
  unfold verify_with_sdk. intros (m & Hm & Hr)%result_bind_ok. apply result_bind_ok in Hr as (r & Hv%map_err_ok & Hr).
  apply result_bind_ok in Hr as (vs' & Hc & Hr). destruct (vr_is_verified r) eqn:Hver; [|done]. injection Hr as ->.
  apply collect_ok in Hc. inversion Hc as [|? v0 ? vs1 Hv0 Hc1]; subst. inversion Hc1 as [|? v1 ? vs2 Hv1 Hc2]; subst.
  inversion Hc2; subst. exists m, r, v0, v1. split_and!; try done; by apply judge_witness_ok.
Qed.

Lemma fetch_and_verify_ok base token client opts did n n' vs :
  fetch_and_verify base token client opts did n = (n', Ok vs) -> witnesses_verified opts client did vs.
Proof.
  unfold fetch_and_verify. intros Hr. net_step Hr now na Ha; [done|]. cbv zeta in Hr. net_step Hr x1 nx1 Hx1; [done|]. net_step Hr x2 nx2 Hx2; [done|].
  net_step Hr u nb Hb; [done|]. net_step Hr eq_ nc Hc; [done|]. destruct eq_ as [evm qtsa]. injection Hc as _ Hc.
  net_step Hr hosts nd Hd; [done|]. injection Hd as _ Hd. net_step Hr vs' ne He; [done|].
  unfold blocking_call, on_world in He. injection He as _ He.
  apply verify_with_sdk_ok in He as (m & r & v0 & v1 & Hm & Hv & Hver & Hv0 & Hv1 & ->).
  destruct (decide _) as [|Hroot] in Hr; [done|]. apply dec_stable in Hroot. injection Hr as _ <-.
  unfold both in Hc. destruct (fetch_witness _ _ WEvm) as [e|] eqn:Hfe; [|by destruct (fetch_witness _ _ WQtsa)].
  destruct (fetch_witness _ _ WQtsa) as [q|] eqn:Hfq; [|done]. injection Hc as -> ->.
  apply fetch_witness_ok in Hfe as (s1 & b1 & Hf1 & Hp1), Hfq as (s2 & b2 & Hf2 & Hp2).
  eexists _, s1, s2, b1, b2, evm, qtsa, hosts, m, _, r, v0, v1. by split_and!.
Qed.

(** ** The run *)

Definition leaves_post (base : string) (token : option string) (leaf : string) : Request :=
  {| rq_post := true; rq_url := base +:+ "/v1/leaves"; rq_bearer := token;
     rq_body := Some (json_to_string (json_object_of [("leaves", json_array_of [json_string leaf])])) |}.

Lemma submit_leaf_ok base token leaf n n' epoch closes :
  submit_leaf base token leaf n = (n', Ok (epoch, closes)) ->
  exists resp body, answered_since n n' (leaves_post base (Some token) leaf) resp /\ rp_status resp = 202 /\
    json_body "leaves response json" resp = Ok body /\ (json_get body "epoch_id" ≫= json_as_u64) = Some epoch.
Proof.
  unfold submit_leaf. intros Hr. net_step Hr resp na Ha; [done|]. apply send_ok in Ha.
  destruct (decide _) as [|Hst] in Hr; [done|]. net_step Hr body nb Hb; [done|]. injection Hb as <- Hb.
  net_step Hr e nc Hc; [done|]. injection Hc as <- Hc%ok_or_ok. net_step Hr c nd Hd; [done|]. injection Hd as <- _.
  injection Hr as <- <- _. exists resp, body. split_and!; [done|by apply dec_stable|done|done].
Qed.

Lemma no_bearer_refused_ok base n n' u :
  no_bearer_refused base n = (n', Ok u) ->
  exists leaf resp, answered_since n n' (leaves_post base None leaf) resp /\ rp_status resp = 401.
Proof.
  unfold no_bearer_refused. intros Hr. net_step Hr dr_ na Ha; [done|]. grown base Ha targets_random.
  net_step Hr resp nb Hb; [done|]. apply send_ok in Hb. destruct (decide _) as [|Hst] in Hr; [done|].
  injection Hr as <- _. eexists _, resp. split; [|by apply dec_stable]. by eapply answered_within.
Qed.

Lemma foreign_did_refused_ok base leaf n n' u :
  foreign_did_refused base leaf n = (n', Ok u) ->
  exists token resp,
    answered_since n n' {| rq_post := false; rq_url := base +:+ "/trees/by-leaf/" +:+ leaf +:+ "?method=evm";
                           rq_bearer := Some token; rq_body := None |} resp /\ rp_status resp = 403.
Proof.
  unfold foreign_did_refused. intros Hr. net_step Hr dr_ na Ha; [done|]. grown base Ha targets_random.
  net_step Hr key nb Hb; [done|]. grown base Hb targets_from. net_step Hr token nc Hc; [done|]. grown base Hc targets_mint.
  net_step Hr resp nd Hd; [done|]. apply send_ok in Hd. destruct (decide _) as [|Hst] in Hr; [done|].
  injection Hr as <- _. exists token, resp. split; [|by apply dec_stable].
  eapply answered_within; [|exact Hd|done]. by do 2 (etransitivity; [eassumption|]).
Qed.

End flow.
