(* ===== verification/InProcess.v ===== *)
(** * The server of a dry run
    ([build_in_process], [offline_anchors] and [run_seal_in_process] of
    [crates/aqua-timestamp-e2e/src/selfcheck.rs])

    The configuration and the simulated anchors the in-process server is built
    with, through the service's own assembly; the reader that judges what it
    serves; the seal run against it.  The simulated chain and TSA as trait
    objects of the service and of the reader are given. *)

From S2P Require Import Prelude External Merkle Accumulator Witness Selfcheck Epoch Utf8 Kv Storage StoreSpec StoreRefine StoreScans SealStore Anchors Doubles Sealer SealInv SealerProofs SealerTheorems Text Config SealLoops Watcher Identity App SealSdk.
Open Scope string_scope.
Open Scope list_scope.
Open Scope Z_scope.

Definition OFFLINE_ANCHOR_TIME : u64 := 1000.
Definition OFFLINE_EVM_CONTRACT : string := "0xDEAD000000000000000000000000000000000000".
Definition SERVICE_MNEMONIC : string := "test test test test test test test test test test test junk".

(** ** The configuration *)

Definition in_process_config (tmp : string) : Config :=
  {| cfg_server := {| listen := "127.0.0.1:0" |};
     cfg_identity := {| ic_chain_id := 1; ic_trust_domain := "timestamp"; ic_dns := "timestamp.test";
                        ic_ip := "127.0.0.1" |};
     cfg_auth := {| challenge_ttl_secs := 60; session_ttl_secs := 600; allowed_dids := [] |};
     cfg_storage := {| sc_path := tmp |};
     cfg_epoch := {| duration_secs := 60; max_leaves_per_request := 10000 |};
     cfg_anchor_legacy := {| evm_network := None |};
     cfg_anchors := {| anchors_evm := EvmAnchorConfig_default; anchors_qtsa := QtsaAnchorConfig_default |};
     cfg_bonding_curve := BondingCurveConfig_default;
     cfg_leaderboard := LeaderboardConfig_default |}.

(** ** The simulated anchors *)

Definition offline_fact (anchor_time : u64) (sender provider tx contract network : string) : TimestampValue :=
  {| tv_merkle_proof := []; tv_sender_account_address := sender; tv_tsa_provider := provider;
     tv_transaction_hash := tx; tv_smart_contract_address := contract; tv_network := network; tv_merkle_root := "";
     tv_timestamp := anchor_time; tv_batch_tree_size := 1; tv_batch_leaf_index := 0; tv_shielding_nonce := "" |}.

Fixpoint repeated (s : string) (n : nat) : string :=
  match n with O => "" | S n' => s +:+ repeated s n' end.

Definition offline_chain (anchor_time : u64) : SimChain :=
  SimChain_new (offline_fact anchor_time "0xCAFE000000000000000000000000000000000000" ""
                  ("0x" +:+ repeated "ab" 32) OFFLINE_EVM_CONTRACT "sepolia").
Definition offline_tsa (anchor_time : u64) : SimTsa :=
  SimTsa_new (offline_fact anchor_time "" "Offline Selfcheck TSA" "AAAA" "http://tsa.test/" "tsa").

(** ** The reader of a seal dry run *)

Definition seal_selfcheck_policy : ReaderPolicy :=
  {| rp_tsa_policy_oid := OFFLINE_TSA_POLICY_OID; rp_tsa_issuer := OFFLINE_TSA_ISSUER;
     rp_evm_chain_id := 11155111; rp_evm_contract := OFFLINE_EVM_CONTRACT;
     rp_sealer_signature_type := "ethereum:eip-191" |}.

(** What a policy admits of a token's facts and of a transaction's. *)
Definition admits_token (p : ReaderPolicy) (facts : TsaTokenFacts) : Prop :=
  tf_policy_oid facts = rp_tsa_policy_oid p /\ tf_issuer facts = rp_tsa_issuer p /\ tf_qualified_root facts = true.
Definition admits_transaction `{HexCrate} (p : ReaderPolicy) (facts : EvmTransactionFacts) : Prop :=
  fx_chain_id facts = rp_evm_chain_id p /\ fx_to facts = hex_bytes 20 (rp_evm_contract p) /\
  exists inclusion finalized,
    fx_inclusion facts = Some inclusion /\ he_finalized (fx_head facts) = Some finalized /\
    in_succeeded inclusion = true /\ in_block_number inclusion <= finalized.

(** ** The reader admits what the simulated anchors issue *)

Section reader.
Context `{HexCrate, Sdk} (LevelFailed : QualifiedVerifyLevel).

Definition offline_transaction : string := tv_transaction_hash (ch_template (offline_chain 0)).

Lemma last_set_anchors switch start roots :
  (forall root, switch (Doubles.Anchor root) = None) -> last_set switch start (Doubles.Anchor <$> roots) = start.
Proof.
  intros Hs. induction roots as [|root roots IH] using rev_ind; [done|].
  rewrite fmap_app. etransitivity; [apply last_set_snoc|]. by rewrite IH, Hs.
Qed.

(** The reader of the seal dry run pins the chain, the contract, the policy and
    the issuer that the simulated anchors report.  Whatever roots the server
    anchored, the last one is found in a transaction of the pinned chain and
    contract, included with success and finalized; a token is reported with the
    facts of the pinned policy and issuer when the TSA stamped its root at its
    time, and with none otherwise. *)
Lemma reader_admits_offline_anchors anchor_time roots root response stamped time :
  LevelFailed <> LevelVerified ->
  (exists f,
    transaction_facts (rp_evm_chain_id seal_selfcheck_policy) offline_transaction
      (chain_run (Doubles.Anchor <$> roots ++ [root]) (ch_template (offline_chain anchor_time))) = Some f /\
    admits_transaction seal_selfcheck_policy f /\ fx_input f = witness_input root) /\
  exists level message facts,
    facts_of_verified (Ok (sim_verify_tsa_token LevelFailed response stamped time
        (tsa_run (roots ++ [root]) (st_template (offline_tsa anchor_time))))) = Ok (level, message, facts) /\
    ((exists x, facts = Some x /\ admits_token seal_selfcheck_policy x) \/ facts = None) /\
    (facts <> None <-> response = "AAAA" /\ stamped ∈ roots ++ [root] /\ time = anchor_time).
Proof.
  intros Hf. split.
  - eexists. split; [apply sim_chain_spec; split; [done|]|].
    + exists root. split; [|reflexivity]. exists (Doubles.Anchor <$> roots), []. rewrite fmap_app.
      split_and!; [done|by apply last_set_anchors|constructor].
    + rewrite !last_set_anchors by done. split; [|done]. split_and!; try done. by eexists _, _.
  - unfold sim_verify_tsa_token. destruct (tsa_run_issued (roots ++ [root]) (st_template (offline_tsa anchor_time))) as [_ ->].
    match goal with |- context [existsb ?p ?l] => set (known := existsb p l) end.
    assert (known = true <-> response = "AAAA" /\ stamped ∈ roots ++ [root] /\ time = anchor_time) as Hk.
    { subst known. rewrite existsb_exists. setoid_rewrite in_map_iff. split.
      - intros (i & (r & <- & Hin) & [= <- <- <-]%bool_decide_eq_true). by rewrite list_elem_of_In.
      - intros (-> & Hin & ->). eexists. split; [exists stamped; split; [done|by apply list_elem_of_In]|].
        by apply bool_decide_eq_true. }
    destruct known; unfold facts_of_verified; cbn [result_bind].
    + rewrite decide_True by done. eexists _, _, _. split; [reflexivity|]. split; [left; by eexists|].
      split; [intros _; by apply Hk|done].
    + rewrite decide_False by done. eexists _, _, _. split; [reflexivity|]. split; [by right|].
      split; [by intros []|]. intros Hy%Hk. done.
Qed.
End reader.

(** ** The server *)

Section server.
Context `{HexLaws, SdkLaws, !AnchorWorld, !LiveAnchors, FjallLaws, SerdeCrates, !StoreCodecs, !StoreCodecLaws,
          Sha3Crate, !ClaimLaws, EvmChainsLaws, !IdentityCrates}.

(** One shared double is a provider of the service, the host of its self-check
    and the host of the reader. *)
Context (chain_provider : SimChain -> AnchorProvider) (tsa_provider : SimTsa -> AnchorProvider).
Context (chain_host : SimChain -> World -> BlockchainHost) (tsa_host : SimTsa -> World -> WebHost).

Definition offline_anchors (anchor_time : u64) : AnchorOverrides :=
  let chain := offline_chain anchor_time in
  let tsa := offline_tsa anchor_time in
  {| ov_evm := Some (chain_provider chain); ov_qtsa := Some (tsa_provider tsa);
     ov_evm_check_host := Some (chain_host chain); ov_tsa_check_host := Some (tsa_host tsa) |}.

(** [finality]: the SDK's default, as the configuration's is. *)
Definition build_in_process (tmp : string) (anchors : AnchorOverrides) (finality : EvmFinalityRequirement)
    (ks : Keyspace) (now : u64) (w : World) : result (string + AppError) App :=
  let cfg := in_process_config tmp in
  let? identity := map_err inl (from_mnemonic SERVICE_MNEMONIC (cfg_identity cfg)) in
  map_err inr (build_app cfg finality identity None Channel anchors ks now w).

(** The service accepts the harness's configuration: on an empty store, the
    assembly yields a service that anchors with exactly the simulated chain and
    TSA, checks what it mints against the same two, opens epoch 1, and seals
    when told. Only the identity — its key, its claim, its DID — can fail. *)
Lemma in_process_builds tmp anchor_time finality identity tree response ks now w :
  from_mnemonic SERVICE_MNEMONIC (cfg_identity (in_process_config tmp)) = Ok identity ->
  build_identity_tree identity None now = Ok tree -> build_response identity tree = Ok response ->
  default "" (ok (derive_did_pkh (secp256k1_signer (private_key identity)))) <> "" ->
  (** The SDK reads its claim for Sepolia back. *)
  evm_chain_id_for_network (network_claim Sepolia) = Some (evm_chain_id Sepolia) ->
  last_sealed_epoch_id ks = Ok None ->
  exists app, build_in_process tmp (offline_anchors anchor_time) finality ks now w = Ok app /\
    acc_epoch_id (app_accumulator app) = 1 /\ app_loop app = ChannelLoop 60 /\
    c_methods (app_witness_ctx app) = [Evm; Qtsa] /\
    provider (app_witness_ctx app) Evm = Some (chain_provider (offline_chain anchor_time)) /\
    provider (app_witness_ctx app) Qtsa = Some (tsa_provider (offline_tsa anchor_time)) /\
    c_self_check (app_witness_ctx app) w =
      {| blockchain := Some (chain_host (offline_chain anchor_time) w);
         Selfcheck.tsa := Some (tsa_host (offline_tsa anchor_time) w); evm_finality := finality |}.
Proof.
  intros Hi Ht Hr Hd Hc Hl. unfold build_in_process. rewrite Hi. cbn [map_err result_bind].
  unfold build_app.
  assert (check_config (in_process_config tmp) identity (offline_anchors anchor_time) = Ok tt) as ->.
  { change (check_evm_chain_source (in_process_config tmp) = Ok tt). unfold check_evm_chain_source.
    change (evm_chain _) with (@Ok ConfigError EvmChain Sepolia). cbn -[decide]. rewrite decide_False by (rewrite Hc; by intros []). done. }
  cbn [map_err result_bind]. rewrite Ht. cbn [map_err result_bind]. rewrite Hr. cbn [map_err result_bind].
  unfold next_epoch_id. rewrite Hl. cbn [map_err result_bind].
  set (ctx := build_witness_ctx _ _ _ _).
  assert (exists c, ctx = Ok c) as [c Hx] by (unfold ctx; cbn; eauto). rewrite Hx. cbn [map_err result_bind].
  destruct (build_witness_ctx_parts _ _ _ _ _ Hx) as (evm & host & He & Hh & Hm & Hea & Hqa & Hdid & Hsc).
  cbn in He, Hh. injection He as <-. injection Hh as <-.
  assert (validate c w = Ok tt) as Hv.
  { apply validate_ok. split; [|by rewrite Hdid]. intros m. by apply (build_witness_ctx_valid _ _ _ _ _ w m Hx). }
  rewrite Hv. cbn [map_err result_bind spawned_loop]. eexists. split; [reflexivity|].
  cbn. rewrite Hsc, Hm, Hea, Hqa. by split_and!.
Qed.
End server.
