(* ===== verification/HarnessCli.v ===== *)
(** * The commands of the harness
    ([crates/aqua-timestamp-e2e/src]: [main.rs], [selfcheck.rs])

    Each command from its arguments to its exit: the guards, the identity, the
    run.  Reading the arguments and printing are left out.  Of the in-process
    server of a dry run, which [InProcess] assembles, the address, or why there
    is none, is given, and its answers are those of the network. *)

From S2P Require Import Prelude External Client Config KnownServers HarnessPoll HarnessWitness HarnessStore SealSdk RunDir SealAct SealSteps SealRun SealReplay HarnessIdentity SealLive HarnessFlow InProcess.
Open Scope string_scope.
Open Scope list_scope.
Open Scope Z_scope.

(** ** The arguments *)

Inductive Cmd :=
| CmdLive (base_url : string) (allow_production : bool) (identity_dir : option Path)
    (seal_wait_secs witness_timeout_secs poll_interval_secs : u64) (evm_rpc_url : option string)
| CmdSeal (base_url : string) (allow_production : bool) (identity_dir run_dir : option Path)
    (expect_version expect_server_did : option string)
    (seal_grace_secs witness_grace_secs poll_interval_secs finality_budget_secs : u64) (evm_rpc_url : option string)
| CmdSealReplay (dir : Path) (out : option Path) (expect_server_did : string) (evm_rpc_url : option string)
| CmdSelfcheck (identity_dir : option Path)
| CmdSelfcheckAll (identity_dir : option Path).

(** ** The state *)

(** The disk of the standing identity and the writes to it that fail, the
    process's umask, and what the runs act on. *)
Record Process := {
  pr_disk : Disk;
  pr_faults : list (option WriteFault);
  pr_umask : Z;
  pr_net : Net;
}.

Definition Main (A : Type) : Type := Process -> Process * result string A.
Definition exit {A} (r : result string A) : Main A := fun p => (p, r).
Definition main_bind {A B} (m : Main A) (k : A -> Main B) : Main B := fun p =>
  let '(p', r) := m p in match r with Ok a => k a p' | Err e => (p', Err e) end.
Notation "'main!' x ':=' m 'in' k" := (main_bind m (fun x => k))
  (at level 10, x name, m at level 100, k at level 200) : rust_scope.

(** A run on the network. *)
Definition on_net {A} (m : Live A) : Main A := fun p =>
  let '(n, r) := m (pr_net p) in
  ({| pr_disk := pr_disk p; pr_faults := pr_faults p; pr_umask := pr_umask p; pr_net := n |}, r).

(** The loader of the identity: one clock and one source of draws. *)
Definition id_state (p : Process) : IdState :=
  {| id_disk := pr_disk p; id_faults := pr_faults p; id_draws := w_draws (n_world (pr_net p));
     id_now := w_now (n_world (pr_net p)); id_umask := pr_umask p |}.
Definition drawn (k : nat) (n : Net) : Net :=
  {| n_world := {| w_fs := w_fs (n_world n); w_now := w_now (n_world n); w_reads := w_reads (n_world n); w_draws := k |};
     n_sent := n_sent n |}.
Definition on_identity {A} (f : IdState -> IdState * result string A) : Main A := fun p =>
  let '(s, r) := f (id_state p) in
  ({| pr_disk := id_disk s; pr_faults := id_faults s; pr_umask := pr_umask p; pr_net := drawn (id_draws s) (pr_net p) |}, r).

Section commands.
Context `{HexCrate, SealSdk, !ClientCrates, !HarnessCrates, !SealEnv, !KeyCrates, !PrettyCrate, !LiveEnv, !FlowEnv, EvmChains}.

(** The draws of a new key, [HOME], the time of a default run directory's name,
    the lockfile; and on the tree of [HarnessPath], [check_run_dir] of a new run
    directory, [ensure_outside] of a replay's output. *)
Context (fuel : nat) (home : option Path) (stamp : Duration -> string) (CARGO_LOCK : string).
Context (new_dir outside : Path -> Path -> result string unit).
(** A temporary directory; the URL of the server of a dry run, and its hosts. *)
Context (tempdir : result string Path) (in_process : result string string) (doubles : ReaderHosts).

(** ** [identity.rs], [policy.rs] *)

Definition default_dir : result string Path :=
  let? home := ok_or home "HOME is not set" in Ok (home ++ [".local"; "state"; "openwitness-seal-e2e"]).

Definition Reader_live (evm_rpc_url : option string) : result string Reader :=
  let? hosts := reader_hosts (LiveReader evm_rpc_url) "sepolia" in
  Ok (Reader_new (rh_web hosts) (rh_blockchain hosts) open_witness_policy).

(** ** [seal/mod.rs] *)

Definition sdk_rev : result string string := sdk_rev_in CARGO_LOCK.

(** ** [selfcheck.rs] *)

Definition secp256k1_client (identity_dir : option Path) : Main ClientKey :=
  main! dir := exit (match identity_dir with
                     | Some d => Ok d
                     | None => let? t := map_err (fun e => "identity tempdir: " +:+ e) tempdir in Ok (t ++ ["identity"])
                     end) in
  main! id := on_identity (load_or_create fuel dir) in
  exit (client_key id).

(** The waits of a dry run, from now. *)
Definition options (now : Duration) (hosts : ReaderHosts) : FlowOptions :=
  {| fo_seal_wait := fast now 15; fo_witness_timeout := nanos 15; fo_witness_interval := 50000000;
     fo_foreign_did_negative := true; fo_reader := Injected hosts |}.

Definition run_with_reader (identity_dir : option Path) (reader : option ReaderHosts) : Main E2eOutcome :=
  main! _ := exit (map_err (fun e => "tempdir: " +:+ e) tempdir) in
  main! primary := secp256k1_client identity_dir in
  main! base_url := exit in_process in
  on_net (net! now := look w_now in run_full_flow base_url primary (options now (default doubles reader))).
Definition selfcheck_run (identity_dir : option Path) : Main E2eOutcome := run_with_reader identity_dir None.

(** One pass for each method, until one fails. *)
Fixpoint run_methods (base_url : string) (secp_key : ClientKey) (methods : list SignatureMethod)
    : Live (list (SignatureMethod * E2eOutcome)) :=
  match methods with
  | [] => pure []
  | method :: methods' =>
      net! key := match method with
                  | Secp256k1Eip191 => pure secp_key
                  | _ => net! draw := os_random in
                         from (map_err (fun e => "selfcheck random client: " +:+ e) (random method draw))
                  end in
      net! now := look w_now in
      net! o := attempt (run_full_flow base_url key (options now doubles)) in
      match o with
      | Err e => from (Err ("method " +:+ label method +:+ " failed: " +:+ e))
      | Ok o => net! os := run_methods base_url secp_key methods' in pure ((method, o) :: os)
      end
  end.

Definition run_all_methods (identity_dir : option Path) : Main (list (SignatureMethod * E2eOutcome)) :=
  main! _ := exit (map_err (fun e => "tempdir: " +:+ e) tempdir) in
  main! secp_key := secp256k1_client identity_dir in
  main! base_url := exit in_process in
  on_net (run_methods base_url secp_key [Secp256k1Eip191; Ed25519; P256]).

(** [FactsOfVerifiedTokens]: a host with the answers [Doubles.facts_of_verified]
    makes of another's. *)
Context (FactsOfVerifiedTokens : WebHost -> WebHost).

Definition seal_selfcheck_reader (hosts : ReaderHosts) : Reader :=
  Reader_new (rh_web hosts) (rh_blockchain hosts) seal_selfcheck_policy.

Record SealSelfcheck := { sf_report : SealReport; sf_reader : Reader; sf_hosts : ReaderHosts }.

Definition run_seal_in_process (run_dir identity_dir : Path) : Main SealSelfcheck :=
  main! _ := exit (map_err (fun e => "tempdir: " +:+ e) tempdir) in
  main! base_url := exit in_process in
  let hosts := {| rh_blockchain := rh_blockchain doubles; rh_web := FactsOfVerifiedTokens (rh_web doubles);
                  rh_tsa_facts_expected := rh_tsa_facts_expected doubles |} in
  let reader := seal_selfcheck_reader hosts in
  main! id := on_identity (for_base_url fuel base_url identity_dir) in
  main! report := on_net (run_seal new_dir sdk_rev
    {| sc_base_url := base_url; sc_run_dir := run_dir; sc_identity_dir := identity_dir; sc_reader := reader;
       sc_expect_version := None; sc_expect_server_did := None; sc_seal_grace := nanos 120;
       sc_witness_grace := nanos 120; sc_poll_interval := 50000000; sc_finality_budget := 0 |} id) in
  exit (Ok {| sf_report := report; sf_reader := reader; sf_hosts := hosts |}).

(** ** [main.rs] *)

Definition identity_dir_or_default (given : option Path) : result string Path :=
  match given with Some d => Ok d | None => default_dir end.

Definition finish_steps (what : string) (passed : bool) : result string unit :=
  if passed then Ok tt else Err (what +:+ " failed").

Definition main (cmd : Cmd) : Main unit :=
  match cmd with
  | CmdLive base_url allow_production identity_dir seal_wait_secs witness_timeout_secs poll_interval_secs evm_rpc_url =>
      main! base_url := exit (check_base_url url_parse base_url allow_production) in
      main! dir := exit (identity_dir_or_default identity_dir) in
      main! id := on_identity (for_base_url fuel base_url dir) in
      main! key := exit (client_key id) in
      let interval := nanos (Z.max poll_interval_secs 1) in
      main! now := on_net (look w_now) in
      let opts := {| fo_seal_wait := {| pb_deadline := now + nanos seal_wait_secs; pb_interval := interval |};
                     fo_witness_timeout := nanos witness_timeout_secs; fo_witness_interval := interval;
                     fo_foreign_did_negative := false; fo_reader := LiveReader evm_rpc_url |} in
      main! _ := on_net (fun n => let '(n', r) := run_full_flow base_url key opts n in
                                  (n', map_err (fun e => "live flow failed: " +:+ e) r)) in
      exit (Ok tt)
  | CmdSeal base_url allow_production identity_dir run_dir expect_version expect_server_did seal_grace_secs
      witness_grace_secs poll_interval_secs finality_budget_secs evm_rpc_url =>
      main! base_url := exit (check_base_url url_parse base_url allow_production) in
      main! _ := exit (require_server_did_pin base_url expect_server_did) in
      main! dir := exit (identity_dir_or_default identity_dir) in
      main! id := on_identity (for_base_url fuel base_url dir) in
      main! now := on_net (look w_now) in
      main! reader := exit (Reader_live evm_rpc_url) in
      main! report := on_net (run_seal new_dir sdk_rev
        {| sc_base_url := base_url; sc_run_dir := default ["seal-run-" +:+ stamp now] run_dir; sc_identity_dir := dir;
           sc_reader := reader; sc_expect_version := expect_version; sc_expect_server_did := expect_server_did;
           sc_seal_grace := nanos seal_grace_secs; sc_witness_grace := nanos witness_grace_secs;
           sc_poll_interval := nanos (Z.max poll_interval_secs 1); sc_finality_budget := nanos finality_budget_secs |} id) in
      exit (finish_steps "SEAL RUN" (report_passed report))
  | CmdSealReplay dir out expect_server_did evm_rpc_url =>
      main! reader := exit (Reader_live evm_rpc_url) in
      main! logs := on_net (on_world (run_replay outside sdk_rev
        {| rc_run_dir := dir; rc_out := out; rc_reader := reader; rc_expect_server_did := expect_server_did |})) in
      exit (finish_steps "SEAL REPLAY" (replay_passed logs))
  | CmdSelfcheck identity_dir => main! _ := selfcheck_run identity_dir in exit (Ok tt)
  | CmdSelfcheckAll identity_dir => main! _ := run_all_methods identity_dir in exit (Ok tt)
  end.
End commands.
