(* ===== verification/CliTheorems.v ===== *)
(** * What a command of the harness may touch
    ([crates/aqua-timestamp-e2e/src/main.rs])

    Where its requests go, and what it leaves of the identity's disk. *)

From S2P Require Import Prelude External Client Config KnownServers HarnessPoll HarnessWitness HarnessStore SealSdk RunDir SealAct SealSteps SealRun SealReplay HarnessIdentity SealLive LiveTheorems HarnessFlow Targets HarnessCli.
Open Scope string_scope.
Open Scope list_scope.
Open Scope Z_scope.

(** ** Runs of [Main] *)

Lemma main_bind_inv {A B} (m : Main A) (k : A -> Main B) p p' r :
  main_bind m k p = (p', r) ->
  (exists e, m p = (p', Err e) /\ r = Err e) \/ exists a p1, m p = (p1, Ok a) /\ k a p1 = (p', r).
Proof. unfold main_bind. destruct (m p) as [p1 [a|e]]; [|intros [= <- <-]]; eauto 8. Qed.

(** Every request since goes to the URL; the identity's disk is kept. *)
Definition sends_to (base : string) (p p' : Process) : Prop :=
  exists new, n_sent (pr_net p') = n_sent (pr_net p) ++ new /\ Forall (goes_to base) new.

Definition sends {A} (base : string) (m : Main A) : Prop := forall p p' r, m p = (p', r) -> sends_to base p p'.
Definition keeps_disk {A} (m : Main A) : Prop := forall p p' r, m p = (p', r) -> pr_disk p' = pr_disk p.

Lemma sends_bind {A B} base (m : Main A) (k : A -> Main B) : sends base m -> (forall a, sends base (k a)) -> sends base (main_bind m k).
Proof.
  intros Hm Hk p p' r [(e & He & _)|(a & p1 & He & Hr)]%main_bind_inv; [by eapply Hm|].
  destruct (Hm _ _ _ He) as (s1 & H1 & Hs1), (Hk a _ _ _ Hr) as (s2 & H2 & Hs2).
  exists (s1 ++ s2). rewrite H2, H1, (assoc_L (++)). split; [done|]. by apply Forall_app.
Qed.
Lemma keeps_bind {A B} (m : Main A) (k : A -> Main B) : keeps_disk m -> (forall a, keeps_disk (k a)) -> keeps_disk (main_bind m k).
Proof.
  intros Hm Hk p p' r [(e & He & _)|(a & p1 & He & Hr)]%main_bind_inv; [by eapply Hm|].
  by rewrite (Hk a _ _ _ Hr), (Hm _ _ _ He).
Qed.
Lemma sends_exit {A} base (r : result string A) : sends base (exit r).
Proof. intros p p' r' [= <- <-]. exists []. by rewrite app_nil_r. Qed.
Lemma sends_exit_bind {A B} base (a : A) (k : A -> Main B) : sends base (k a) -> sends base (main_bind (exit (Ok a)) k).
Proof. intros Hk p p' r. by apply Hk. Qed.
Lemma keeps_exit {A} (r : result string A) : keeps_disk (exit r).
Proof. by intros p p' r' [= <- <-]. Qed.
Lemma sends_net {A} base (m : Live A) : targets base m -> sends base (on_net m).
Proof. intros Hm p p' r. unfold on_net. destruct (m (pr_net p)) as [n r0] eqn:He. intros [= <- <-]. by eapply Hm. Qed.
Lemma keeps_net {A} (m : Live A) : keeps_disk (on_net m).
Proof. intros p p' r. unfold on_net. destruct (m (pr_net p)) as [n r0]. by intros [= <- <-]. Qed.
Lemma sends_identity {A} base (f : IdState -> IdState * result string A) : sends base (on_identity f).
Proof.
  intros p p' r. unfold on_identity. destruct (f (id_state p)) as [s r0]. intros [= <- <-]. exists []. by rewrite app_nil_r.
Qed.
Lemma targets_map_err {A} base (m : Live A) (g : string -> string) :
  targets base m -> targets base (fun n => let '(n', r) := m n in (n', map_err g r)).
Proof. intros Hm n n' r. destruct (m n) as [n1 r1] eqn:He. intros [= <- <-]. by eapply Hm. Qed.

Lemma stays_on_world {A} (f : World -> World * result string A) p p' r :
  on_net (on_world f) p = (p', r) -> n_sent (pr_net p') = n_sent (pr_net p) /\ pr_disk p' = pr_disk p.
Proof. unfold on_net, on_world. destruct (f _). by intros [= <- _]. Qed.

Create HintDb main.
#[export] Hint Resolve sends_exit keeps_exit keeps_net sends_net sends_identity targets_map_err : main.
Ltac main :=
  repeat first [ progress cbv beta zeta | solve [eauto with main targets] | apply sends_exit_bind | apply sends_bind; [|intros]
               | apply keeps_bind; [|intros] | apply sends_net; solve [targets] ].

Section commands.
Context `{HexLaws, SealSdk, !ClientCrates, !HarnessCrates, !SealEnv, !KeyCrates, !PrettyCrate, !RecordLaws, !LiveEnv, !FlowEnv, EvmChains}.
Context (fuel : nat) (home : option Path) (stamp : Duration -> string) (CARGO_LOCK : string).
Context (new_dir outside : Path -> Path -> result string unit).
Context (tempdir : result string Path) (in_process : result string string) (doubles : ReaderHosts).

Abbreviation cli := (HarnessCli.main fuel home stamp CARGO_LOCK new_dir outside tempdir in_process doubles).

#[local] Hint Extern 1 (targets _ (run_seal ?g ?s ?cfg ?id)) => exact (targets_run_seal g s cfg id) : main.

Lemma targets_methods base key methods : targets base (run_methods doubles base key methods).
Proof. induction methods as [|m ms IH]; cbn [run_methods]; targets. Qed.
#[local] Hint Resolve targets_methods : main.

(** The URL parses to one of http or https, of production only when allowed. *)
Definition allowed_url (raw base : string) (allow_production : bool) : Prop :=
  exists scheme host, url_parse raw = Ok (scheme, Some host) /\ (scheme = "http" \/ scheme = "https") /\
    base = trim_end_slashes raw /\
    (allow_production = false ->
       to_ascii_lowercase host <> "openwitness.org" /\ ends_with ".openwitness.org" (to_ascii_lowercase host) = false).

Lemma check_base_url_ok raw allow base : check_base_url url_parse raw allow = Ok base -> allowed_url raw base allow.
Proof.
  unfold check_base_url. intros ([scheme [host|]] & Hu%map_err_ok & Hr)%result_bind_ok; cbn [fst snd] in Hr;
    destruct (negb _) eqn:Hs in Hr; try done. cbn [ok_or result_bind] in Hr.
  destruct (_ && _) eqn:Hp in Hr; [done|]. injection Hr as <-. exists scheme, host. split_and!; [done| |done|].
  - apply negb_false_iff, orb_true_iff in Hs as [?%bool_decide_eq_true|?%bool_decide_eq_true]; auto.
  - intros ->. rewrite andb_true_r in Hp. by apply orb_false_iff in Hp as [?%bool_decide_eq_false ?].
Qed.

(** What a command on a URL may touch. *)
Definition contained (base : string) (p p' : Process) : Prop :=
  sends_to base p p' /\ pr_disk p ⊆ pr_disk p' /\ (is_loopback base = false -> pr_disk p' = pr_disk p).

(** The identity and then what keeps the disk. *)
Lemma identity_then {A} base dir (k : StandingIdentity -> Main A) p p' r :
  parents (pr_disk p) -> (forall id, sends base (k id)) -> (forall id, keeps_disk (k id)) ->
  main_bind (on_identity (for_base_url fuel base dir)) k p = (p', r) -> contained base p p'.
Proof.
  intros Hpar Hs Hk Hr. split.
  { eapply sends_bind, Hr; [apply sends_identity|done]. }
  apply main_bind_inv in Hr.
  assert (exists s rid, for_base_url fuel base dir (id_state p) = (s, rid) /\ pr_disk p' = id_disk s) as (s & rid & Hid & ->).
  { destruct Hr as [(e & Hi & _)|(a & p1 & Hi & Hr)]; [|apply Hk in Hr; rewrite Hr];
      unfold on_identity in Hi; destruct (for_base_url _ _ _ _) as [s rid]; exists s, rid; by injection Hi as <- _. }
  apply for_base_url_spec in Hid as (Hsub & Hsame & _); [|done]. split; [done|]. intros Hl. apply Hsame. by left.
Qed.

(** The seal against the in-process server stays with that server, and with
    the identity's disk as the seal command does. *)
Lemma seal_in_process_contained tokens base run dir p p' r :
  parents (pr_disk p) -> in_process = Ok base ->
  run_seal_in_process fuel CARGO_LOCK new_dir tempdir in_process doubles tokens run dir p = (p', r) ->
  contained base p p'.
Proof.
  intros Hpar Hb Hr. unfold run_seal_in_process in Hr. rewrite Hb in Hr.
  apply main_bind_inv in Hr as [(e & [= <- _] & _)|(t & p1 & [= <- _] & Hr)].
  { split; [by exists []; rewrite app_nil_r|]. done. }
  apply main_bind_inv in Hr as [(e & [= <- _] & _)|(b & p1 & [= <- <-] & Hr)].
  eapply identity_then, Hr; [done|..]; intros id; main.
Qed.

(** What the command promises of its URL, its disk and its exit. *)
Definition bounded (cmd : Cmd) (p p' : Process) (r : result string unit) : Prop :=
  match cmd with
  | CmdLive raw allow _ _ _ _ _ =>
      (exists base, allowed_url raw base allow /\ contained base p p') \/ p' = p /\ is_ok r = false
  | CmdSeal raw allow _ _ _ pin _ _ _ _ _ =>
      (exists base, allowed_url raw base allow /\ contained base p p' /\ (pin = None -> is_loopback base = true)) \/
      p' = p /\ is_ok r = false
  | CmdSealReplay _ _ _ _ => n_sent (pr_net p') = n_sent (pr_net p) /\ pr_disk p' = pr_disk p
  | CmdSelfcheck _ | CmdSelfcheckAll _ =>
      forall base, in_process = Ok base -> sends_to base p p'
  end.

End commands.
