(* ===== verification/Samples.v ===== *)
(** * Concrete instances of the interfaces

    Small executable stand-ins for the crates of [External], [Kv], [Storage]
    and [Anchors], with the laws the theorems assume, so that every theorem can
    be applied to a concrete run; and a prefix code with its round trip, from
    bytes to the records of the store, for [postcard] and [serde_json].  None of
    it models the crates or the formats themselves. *)

From S2P Require Import Prelude External Merkle Accumulator Witness Selfcheck Epoch Utf8 Kv Storage StoreSpec StoreRefine SealStore Anchors Sealer.
Open Scope string_scope.
Open Scope list_scope.
Open Scope Z_scope.

(** ** [hex], as the crate documents it *)

Definition hex_char (d : Z) : Ascii.ascii :=
  if d <? 10 then Ascii.ascii_of_N (Z.to_N (48 + d)) else Ascii.ascii_of_N (Z.to_N (87 + d)).

Definition hex_digit (c : Ascii.ascii) : option Z :=
  let n := Z.of_N (Ascii.N_of_ascii c) in
  if (48 <=? n) && (n <=? 57) then Some (n - 48)
  else if (97 <=? n) && (n <=? 102) then Some (n - 87)
  else if (65 <=? n) && (n <=? 70) then Some (n - 55)
  else None.

Fixpoint sample_hex_encode (b : bytes) : string :=
  match b with
  | [] => EmptyString
  | x :: b' =>
      String (hex_char (Z_of_byte x / 16)) (String (hex_char (Z_of_byte x mod 16))
        (sample_hex_encode b'))
  end.

Fixpoint sample_hex_decode (s : string) : result unit bytes :=
  match s with
  | EmptyString => Ok []
  | String a (String b s') =>
      match hex_digit a, hex_digit b with
      | Some x, Some y =>
          let? r := sample_hex_decode s' in Ok (byte_of_Z (16 * x + y) :: r)
      | _, _ => Err tt
      end
  | String _ EmptyString => Err tt
  end.

#[export] Instance sample_hex : HexCrate :=
  {| FromHexError := unit; hex_error_text := fun _ => "Invalid character";
     hex_encode := sample_hex_encode; hex_decode := sample_hex_decode |}.

Definition all_bytes : list byte := byte_of_Z <$> seqZ 0 256.

Lemma elem_of_all_bytes b : b ∈ all_bytes.
Proof.
  unfold all_bytes. rewrite <- (byte_of_Z_of_byte b). apply list_elem_of_fmap_2, elem_of_seqZ.
  pose proof (Z_of_byte_range b). lia.
Qed.

Definition byte_checks (x : byte) : bool :=
  let a := hex_char (Z_of_byte x / 16) in
  let b := hex_char (Z_of_byte x mod 16) in
  bool_decide (hex_digit a = Some (Z_of_byte x / 16)) &&
  bool_decide (hex_digit b = Some (Z_of_byte x mod 16)) &&
  is_lower_hex_digit a && is_lower_hex_digit b.

Lemma byte_checks_all x : byte_checks x = true.
Proof.
  assert (forallb byte_checks all_bytes = true) as Hall by (vm_compute; reflexivity).
  rewrite forallb_forall in Hall. apply Hall, list_elem_of_In, elem_of_all_bytes.
Qed.

Definition char_checks (c : Ascii.ascii) : bool :=
  match hex_digit c with
  | Some x => (0 <=? x) && (x <? 16) && bool_decide (hex_char x = ascii_lower c)
  | None => true
  end.

Lemma char_checks_all c : char_checks c = true.
Proof. destruct c as [[] [] [] [] [] [] [] []]; vm_compute; reflexivity. Qed.

Lemma hex_digit_lower c x : hex_digit c = Some x -> 0 <= x < 16 /\ hex_char x = ascii_lower c.
Proof.
  pose proof (char_checks_all c) as Hc. unfold char_checks in Hc. intros Hx.
  rewrite Hx in Hc. apply andb_true_iff in Hc as [[H1 H2]%andb_true_iff H3%bool_decide_eq_true].
  split; [lia|done].
Qed.

Lemma string_pair_ind (P : string -> Prop) :
  P EmptyString -> (forall a, P (String a EmptyString)) ->
  (forall a b s, P s -> P (String a (String b s))) -> forall s, P s.
Proof.
  intros H0 H1 H2. fix IH 1. intros [|a [|b s]]; [done|apply H1|apply H2, IH].
Qed.

#[export] Instance sample_hex_laws : HexLaws.
Proof.
  split.
  - cbn. induction b as [|x b IH]; cbn; [done|].
    pose proof (byte_checks_all x) as Hx. unfold byte_checks in Hx.
    repeat (apply andb_true_iff in Hx as [Hx ?]). apply bool_decide_eq_true in Hx.
    rewrite Hx. match goal with Hb : bool_decide _ = true |- _ => apply bool_decide_eq_true in Hb; rewrite Hb end.
    rewrite IH. cbn. f_equal. f_equal. rewrite <- Z.div_mod by done. apply byte_of_Z_of_byte.
  - cbn. intros s. induction s as [|a|a b s IH] using string_pair_ind; intros r; cbn.
    + by intros [= <-].
    + done.
    + destruct (hex_digit a) as [x|] eqn:Ha; [|done]. destruct (hex_digit b) as [y|] eqn:Hb; [|done].
      intros Hr. apply result_bind_ok in Hr as (r' & Hr & [= <-]). cbn.
      apply hex_digit_lower in Ha as [Hx <-], Hb as [Hy <-].
      rewrite Z_of_byte_of_Z, Z.mod_small by lia.
      rewrite (IH _ Hr). f_equal; [|f_equal]; f_equal; Z.div_mod_to_equations; lia.
  - cbn. induction b as [|x b IH]; cbn; [done|]. rewrite IH. lia.
  - cbn. induction b as [|x b IH]; cbn; [constructor|].
    pose proof (byte_checks_all x) as Hx. unfold byte_checks in Hx.
    repeat (apply andb_true_iff in Hx as [Hx ?]). by repeat constructor; try apply Is_true_true.
Qed.

(** Not a hash: the first 32 bytes, zero-padded. *)
Definition sample_digest (b : bytes) : Hash32 :=
  match try_array 32 (take 32 (b ++ replicate 32 Byte.x00)) with
  | Some h => h
  | None => filled 32 Byte.x00
  end.
#[export] Instance sample_sha3 : Sha3Crate := {| sha3_256 := sample_digest |}.

(** ** JSON values *)

Inductive SampleValue :=
| VNull
| VStr (s : string)
| VNum (n : Z)
| VObj (fields : list (string * (string + Z))).

#[export] Instance SampleValue_eq_dec : EqDecision SampleValue.
Proof. solve_decision. Defined.

Definition sample_get (v : SampleValue) (k : string) : option SampleValue :=
  match v with
  | VObj fs =>
      match List.find (fun f => bool_decide (f.1 = k)) fs with
      | Some (_, inl s) => Some (VStr s)
      | Some (_, inr n) => Some (VNum n)
      | None => None
      end
  | _ => None
  end.

#[export] Instance sample_json : JsonCrate :=
  {| Value := SampleValue; json_null := VNull; json_get := sample_get;
     json_as_str := fun v => match v with VStr s => Some s | _ => None end;
     json_as_u64 := fun v => match v with VNum n => Some n | _ => None end |}.

(** ** A toy SDK: links are digests, a revision's link is its predecessor's
    with the first byte raised, every batch has the one root (and one leaf is
    refused).  Only the objects of that root and the signatures of one DID have
    links, and no two of them the same *)

Record SampleObject := { so_prev : Hash32; so_payload : SampleValue }.
Record SampleSignature := { ss_prev : Hash32; ss_signer : string }.
Record SamplePrepared := { sp_root : string; sp_leaves : list Hash32 }.

Definition first_byte (h : Hash32) : Z :=
  match arr h with b :: _ => Z_of_byte b | [] => 0 end.
Definition raise (n : Z) (h : Hash32) : Hash32 :=
  sample_digest match arr h with b :: r => byte_of_Z (Z_of_byte b + 64 * n) :: r | [] => [] end.

Definition sample_root : string := ("0x1620" +:+ hex_encode (arr (filled 32 Byte.x07)))%string.
Definition sample_payload (network tx root sender : string) (time : Z) : SampleValue :=
  VObj [("network", inl network); ("transaction_hash", inl tx); ("merkle_root", inl root);
        ("sender_account_address", inl sender); ("timestamp", inr time); ("batch_tree_size", inr 1);
        ("batch_leaf_index", inr 0); ("merkle_proof", inl ""); ("shielding_nonce", inl "")].

Definition object_link (o : SampleObject) : result string Hash32 :=
  if bool_decide (first_byte (so_prev o) < 64 /\
                  so_payload o = sample_payload "sepolia" "0xabc" sample_root "0xfeed" 1000)
  then Ok (raise 1 (so_prev o)) else Err "unknown object".
Definition signature_link (s : SampleSignature) : result string Hash32 :=
  if bool_decide (64 <= first_byte (ss_prev s) < 128 /\ ss_signer s = "did:service")
  then Ok (raise 2 (ss_prev s)) else Err "unknown signer".

Lemma sample_digest_exact l : length l = 32%nat -> arr (sample_digest l) = l.
Proof.
  intros Hl. unfold sample_digest. rewrite take_app_length' by done.
  destruct (try_array 32 l) as [h|] eqn:Ht; [by apply try_array_Some in Ht|].
  unfold try_array in Ht. by destruct (decide (length l = 32%nat)).
Qed.

Lemma arr_raise n h :
  exists b r, arr h = b :: r /\ arr (raise n h) = byte_of_Z (Z_of_byte b + 64 * n) :: r.
Proof.
  unfold raise. pose proof (arr_length h) as Hl. destruct (arr h) as [|b r]; [done|].
  exists b, r. split; [done|]. by apply sample_digest_exact.
Qed.

Lemma first_raise n h : 0 <= first_byte h + 64 * n < 256 -> first_byte (raise n h) = first_byte h + 64 * n.
Proof.
  destruct (arr_raise n h) as (b & r & Hh & Hr). unfold first_byte. rewrite Hh, Hr, Z_of_byte_of_Z.
  apply Z.mod_small.
Qed.

Lemma raise_inj n h h' :
  0 <= first_byte h + 64 * n < 256 -> 0 <= first_byte h' + 64 * n < 256 -> raise n h = raise n h' -> h = h'.
Proof.
  intros Hb Hb' He. pose proof (first_raise n h Hb) as Hf. rewrite He, first_raise in Hf by done.
  destruct (arr_raise n h) as (b & r & Hh & Hr), (arr_raise n h') as (b' & r' & Hh' & Hr').
  apply arr_inj. rewrite Hh, Hh'. rewrite He, Hr' in Hr. injection Hr as _ ->. f_equal.
  apply Z_of_byte_inj. unfold first_byte in Hf. rewrite Hh, Hh' in Hf. lia.
Qed.

Lemma object_link_inj o o' h : object_link o = Ok h -> object_link o' = Ok h -> o = o'.
Proof.
  unfold object_link. destruct o as [p v], o' as [p' v']; cbn [so_prev so_payload].
  case_bool_decide as Ho; [|done]. case_bool_decide as Ho'; [|done].
  destruct Ho as [Hp ->], Ho' as [Hp' ->]. intros [= <-] [= He]. f_equal.
  assert (forall x : Hash32, 0 <= first_byte x) as Hpos.
  { intros x. unfold first_byte. destruct (arr x) as [|b r]; [done|]. pose proof (Z_of_byte_range b). lia. }
  pose proof (Hpos p). pose proof (Hpos p'). apply (raise_inj 1); [lia|lia|done].
Qed.

Lemma signature_link_inj s s' h : signature_link s = Ok h -> signature_link s' = Ok h -> s = s'.
Proof.
  unfold signature_link. destruct s as [p d], s' as [p' d']; cbn [ss_prev ss_signer].
  case_bool_decide as Hs; [|done]. case_bool_decide as Hs'; [|done].
  destruct Hs as [Hp ->], Hs' as [Hp' ->]. intros [= <-] [= He]. f_equal.
  apply (raise_inj 2); [lia|lia|done].
Qed.

Lemma links_apart o s h : object_link o = Ok h -> signature_link s = Ok h -> False.
Proof.
  unfold object_link, signature_link. destruct o as [p v], s as [p' d]; cbn [so_prev so_payload ss_prev ss_signer].
  case_bool_decide as Ho; [|done]. case_bool_decide as Hs; [|done]. intros [= <-] [= He].
  assert (0 <= first_byte p) as Hpos.
  { unfold first_byte. destruct (arr p) as [|b r]; [done|]. pose proof (Z_of_byte_range b). lia. }
  apply (f_equal first_byte) in He. rewrite !first_raise in He by lia. lia.
Qed.

Definition sample_finish (p : SamplePrepared) (cs : list (list (Hash32 * (SampleObject + SampleSignature)) * option Hash32))
    (f : TimestampValue) : list (list (Hash32 * (SampleObject + SampleSignature))) :=
  (fun c =>
     let target := default (filled 32 Byte.x00) c.2 in
     c.1 ++ [(raise 1 target,
              inl {| so_prev := target;
                     so_payload := sample_payload (tv_network f) (tv_transaction_hash f)
                       (tv_merkle_root f) (tv_sender_account_address f) (tv_timestamp f) |})]) <$> cs.

(** [true]: the node holds the transaction. *)
#[export] Instance sample_sdk : Sdk :=
  {| SdkError := string; sdk_error_text := fun e => e;
     RevisionLink := Hash32; link_from_bytes := fun h => h;
     link_as_ref := fun h => Byte.x16 :: Byte.x20 :: arr h;
     link_to_string := fun h => ("0x1620" +:+ hex_encode (arr h))%string;
     HashType := unit; Sha3_256 := tt;
     multihash_decode := fun b => match b with _ :: _ :: d => Ok (tt, d) | _ => Err "short" end;
     TypedObject := SampleObject;
     object_new := fun prev _ v => {| so_prev := prev; so_payload := v |};
     object_previous_revision := fun o => Some (so_prev o);
     object_calculate_link := fun o _ => object_link o;
     object_payloads := so_payload;
     SignatureRev := SampleSignature;
     signature_calculate_link := fun s _ => signature_link s;
     signature_previous_revision := ss_prev;
     signature_signer := ss_signer;
     AnyRevision := SampleObject + SampleSignature;
     any_typed := inl; any_signature := inr;
     as_typed := fun r => match r with inl o => Some o | inr _ => None end;
     as_signature := fun r => match r with inr s => Some s | inl _ => None end;
     Tree := list (Hash32 * (SampleObject + SampleSignature));
     tree_of_revisions := fun l => l; tree_revisions := fun t => t;
     AquaTreeWrapper := list (Hash32 * (SampleObject + SampleSignature)) * option Hash32;
     wrapper_new := pair;
     tsa_template_link := filled 32 Byte.x01;
     PreparedBatch := SamplePrepared;
     prepared_merkle_root := sp_root;
     prepare_batch_timestamp := fun cs =>
       match cs with
       | (_, Some h) :: _ =>
           if bool_decide (h = filled 32 Byte.xff) then Err "refused" else Ok {| sp_root := sample_root; sp_leaves := omap snd cs |}
       | _ => Err "no target"
       end;
     finish_batch_timestamp := fun p cs f => Ok (sample_finish p cs f);
     BatchProof := unit;
     parse_batch_root := fun s => match hex_decode (strip_prefix_or "0x1620" s) with
                                  | Ok b => ok_or (try_array 32 b) "bad root"
                                  | Err _ => Err "bad root" end;
     parse_batch_digest := fun _ => Ok (filled 32 Byte.x00);
     parse_batch_proof := fun _ => Ok tt;
     shielded_leaf := fun l _ => Ok l;
     verify_batch_inclusion := fun _ _ _ _ _ => Ok tt;
     Secp256k1Signer := string;
     sign_revision := fun did l => Ok {| ss_prev := l; ss_signer := did |};
     derive_did_pkh := fun did => Ok did;
     LeafVerdict := bool; LeafVerified := true; leaf_verdict_text := fun _ => "";
     classify_signature_leaf := fun s l => Ok (match signature_link s with Ok l' => bool_decide (l' = l) | Err _ => false end);
     QualifiedVerifyLevel := Z; LevelQualifiedVerified := 2; LevelVerified := 1;
     level_text := fun _ => "";
     WebHost := bool;
     verify_tsa_token := fun good _ _ _ => Ok (if good : bool then 1 else 0, "");
     BlockchainHost := EvmAnchorVerdict;
     EvmFinalityRequirement := unit; Finalized := tt;
     EvmAnchorClaim := option SampleValue * option SampleValue;
     claim_from_payload := fun v => (sample_get v "transaction_hash", sample_get v "merkle_root");
     judge_evm_anchor := fun _ verdict _ => verdict;
     invalid_reason_str := fun _ => ""; not_evaluable_str := fun _ => "" |}.

#[export] Instance sample_sdk_laws : SdkLaws.
Proof. by split. Qed.

#[export] Instance sample_producer_laws : BatchProducerLaws.
Proof. split. intros p cs f trees [= <-]. unfold sample_finish. by rewrite length_fmap. Qed.

#[export] Instance sample_claim_laws : ClaimLaws.
Proof.
  split. intros p q Hf. cbn. unfold anchor_fields in Hf. cbn in Hf. congruence.
Qed.

(** ** The keyspace: its contents *)

#[export] Instance sample_fjall : Fjall :=
  {| FjallError := unit; Keyspace := contents;
     kv_open_partition := fun _ ks => (ks, Ok tt);
     kv_get := fun ks p k => Ok (ks p !! k);
     kv_contains_key := fun ks p k => Ok (bool_decide (is_Some (ks p !! k)));
     kv_iter := fun ks p => Ok <$> sorted_entries (ks p);
     kv_prefix := fun ks p pre =>
       Ok <$> filter (fun kv => is_prefix pre kv.1 = true) (sorted_entries (ks p));
     kv_range_rev := fun ks p upper =>
       Ok <$> reverse (filter (fun kv => bytes_le kv.1 upper) (sorted_entries (ks p)));
     kv_last_key_value := fun ks p => Ok (last (sorted_entries (ks p)));
     kv_insert := fun p k v ks => (apply_op ks (BInsert p k v), Ok tt);
     kv_commit := fun ops ks => (fold_left apply_op ops ks, Ok tt);
     kv_persist := fun ks => (ks, Ok tt) |}.

Lemma items_ok (l : list (bytes * bytes)) : Forall2 item_ok (Ok (E := unit) <$> l) l.
Proof. induction l as [|x l IH]; cbn; constructor; [by intros ? [= <-]|done]. Qed.

#[export] Instance sample_fjall_laws : FjallLaws.
Proof.
  refine {| view := fun ks => ks |}; try done; try (intros; apply items_ok).
  - by intros ks p k r [= <-].
  - by intros ks p k r [= <-].
  - by intros ks p r [= <-].
Defined.

Class Bin (T : Type) := {
  put : T -> bytes;
  pull : bytes -> option (T * bytes);
  pull_put x r : pull (put x ++ r) = Some (x, r);
}.

Section bin_via.
Context {A B : Type} `{Bin B} (f : A -> B) (g : B -> A) (gf : forall a, g (f a) = a).
Definition bin_via : Bin A.
Proof.
  refine {| put := fun a => put (f a);
            pull := fun b => match pull b with Some (y, r) => Some (g y, r) | None => None end |}.
  abstract (intros x r; rewrite pull_put, gf; done).
Defined.
End bin_via.

#[export] Instance bin_byte : Bin byte.
Proof.
  refine {| put := fun x => [x]; pull := fun b => match b with x :: r => Some (x, r) | [] => None end |}.
  abstract done.
Defined.

#[export] Instance bin_unit : Bin unit.
Proof. refine {| put := fun _ => []; pull := fun b => Some (tt, b) |}. abstract (by intros []). Defined.

#[export] Instance bin_prod {A B} `{Bin A, Bin B} : Bin (A * B).
Proof.
  refine {| put := fun p => put p.1 ++ put p.2;
            pull := fun b =>
              match pull b with
              | Some (x, r) => match pull r with Some (y, r') => Some ((x, y), r') | None => None end
              | None => None
              end |}.
  abstract (intros [x y] r; cbn; rewrite <- (assoc_L (++)), !pull_put; done).
Defined.

#[export] Instance bin_sum {A B} `{Bin A, Bin B} : Bin (A + B).
Proof.
  refine {| put := fun s => match s with inl x => Byte.x00 :: put x | inr y => Byte.x01 :: put y end;
            pull := fun b =>
              match b with
              | Byte.x00 :: r => match pull r with Some (x, r') => Some (inl x, r') | None => None end
              | _ :: r => match pull r with Some (y, r') => Some (inr y, r') | None => None end
              | [] => None
              end |}.
  abstract (intros [x|y] r; cbn; rewrite pull_put; done).
Defined.

#[export] Instance bin_option {A} `{Bin A} : Bin (option A) :=
  bin_via (fun o => match o with None => inl tt | Some x => inr x end)
    (fun s => match s with inl _ => None | inr x => Some x end) ltac:(by intros []).

#[export] Instance bin_bool : Bin bool :=
  bin_via (fun b : bool => if b then inr tt else inl tt)
    (fun s : unit + unit => match s with inl _ => false | inr _ => true end) ltac:(by intros []).

Section bin_list.
Context {A : Type} `{Bin A}.

Fixpoint put_list (l : list A) : bytes :=
  match l with [] => [Byte.x00] | x :: l' => Byte.x01 :: put x ++ put_list l' end.
Fixpoint pull_list (fuel : nat) (b : bytes) : option (list A * bytes) :=
  match fuel, b with
  | S fuel', Byte.x00 :: r => Some ([], r)
  | S fuel', _ :: r =>
      match pull r with
      | Some (x, r') =>
          match pull_list fuel' r' with Some (l, r'') => Some (x :: l, r'') | None => None end
      | None => None
      end
  | _, _ => None
  end.

Lemma pull_put_list l r fuel :
  (length (put_list l) <= fuel)%nat -> pull_list fuel (put_list l ++ r) = Some (l, r).
Proof.
  revert fuel; induction l as [|x l IH]; intros [|fuel]; cbn; try lia; [done|].
  rewrite length_app. intros Hf. rewrite <- (assoc_L (++)), pull_put, IH by lia. done.
Qed.

#[export] Instance bin_list : Bin (list A).
Proof.
  refine {| put := put_list; pull := fun b => pull_list (length b) b |}.
  abstract (intros l r; apply pull_put_list; rewrite length_app; lia).
Defined.
End bin_list.

Fixpoint pos_bits (p : positive) : list bool :=
  match p with xH => [] | xO p => false :: pos_bits p | xI p => true :: pos_bits p end.
Fixpoint bits_pos (l : list bool) : positive :=
  match l with [] => xH | false :: l => xO (bits_pos l) | true :: l => xI (bits_pos l) end.
Lemma bits_pos_bits p : bits_pos (pos_bits p) = p.
Proof. induction p; cbn; by f_equal. Qed.

#[export] Instance bin_pos : Bin positive := bin_via pos_bits bits_pos bits_pos_bits.
#[export] Instance bin_Z : Bin Z :=
  bin_via (fun z => match z with Z0 => inl tt | Zpos p => inr (inl p) | Zneg p => inr (inr p) end)
    (fun s : unit + (positive + positive) =>
       match s with inl _ => Z0 | inr (inl p) => Zpos p | inr (inr p) => Zneg p end)
    ltac:(by intros []).
#[export] Instance bin_string : Bin string := bin_via as_bytes of_bytes of_bytes_as_bytes.

Lemma array_of_arr n (d a : array n) : default d (try_array n (arr a)) = a.
Proof. by rewrite try_array_arr. Qed.
#[export] Instance bin_array n : Bin (array n) :=
  bin_via arr (fun l => default (filled n Byte.x00) (try_array n l)) (array_of_arr n _).

#[export] Instance bin_method : Bin AnchorMethod :=
  bin_via (fun m => match m with Evm => false | Qtsa => true end)
    (fun b : bool => if b then Qtsa else Evm) ltac:(by intros []).

(** ** The records *)

#[export] Instance bin_epoch : Bin EpochRecord :=
  bin_via (fun e => (er_id e, er_opened_at e, er_closed_at e, er_merkle_root e, er_leaf_count e,
                     er_hash_type e))
    (fun '(a, b, c, d, e, f) => Build_EpochRecord a b c d e f) ltac:(by intros []).

#[export] Instance bin_tip_pair : Bin TipPairIndex :=
  bin_via (fun t => (ti_object_hash t, ti_signature_hash t, ti_leaf t, ti_method_byte t,
                     ti_epoch_id t, ti_submitter_did t, ti_object_file_name t,
                     ti_signature_file_name t))
    (fun '(a, b, c, d, e, f, g, h) => Build_TipPairIndex a b c d e f g h) ltac:(by intros []).

#[export] Instance bin_contributor : Bin ContributorEntry :=
  bin_via (fun c => (ce_did c, ce_fuel_contributed_wei c, ce_fuel_contributed_sat c,
                     ce_hashes_submitted c, ce_last_active c))
    (fun '(a, b, c, d, e) => Build_ContributorEntry a b c d e) ltac:(by intros []).

#[export] Instance bin_value : Bin TimestampValue :=
  bin_via (fun v => (tv_merkle_proof v, tv_sender_account_address v, tv_tsa_provider v,
                     tv_transaction_hash v, tv_smart_contract_address v, tv_network v,
                     tv_merkle_root v, tv_timestamp v, tv_batch_tree_size v,
                     tv_batch_leaf_index v, tv_shielding_nonce v))
    (fun '(a, b, c, d, e, f, g, h, i, j, k) => Build_TimestampValue a b c d e f g h i j k)
    ltac:(by intros []).

#[export] Instance bin_anchor : Bin StoredAnchor :=
  bin_via (fun a => (sa_method a, sa_value a, sa_first_seen a))
    (fun '(a, b, c) => Build_StoredAnchor a b c) ltac:(by intros []).
#[export] Instance bin_faults : Bin AnchorFaults :=
  bin_via (fun a => (af_method a, af_count a)) (fun '(a, b) => Build_AnchorFaults a b)
    ltac:(by intros []).
#[export] Instance bin_pending_leaf : Bin PendingLeaf :=
  bin_via (fun a => (pl_leaf a, pl_submitter_did a)) (fun '(a, b) => Build_PendingLeaf a b)
    ltac:(by intros []).
#[export] Instance bin_prepared : Bin SamplePrepared :=
  bin_via (fun a => (sp_root a, sp_leaves a)) (fun '(a, b) => Build_SamplePrepared a b)
    ltac:(by intros []).

#[export] Instance bin_pending : Bin (@PendingEpoch _ sample_sdk) :=
  bin_via (B := Z * Z * Z * list AnchorMethod * list PendingLeaf * SamplePrepared * list StoredAnchor *
                list AnchorFaults)
    (fun p => (p_epoch_id p, p_opened_at p, p_closed_at p, p_methods p, p_leaves p,
                     (p_batch p : SamplePrepared), p_anchors p, p_anchor_faults p))
    (fun '(a, b, c, d, e, f, g, h) =>
       {| p_epoch_id := a; p_opened_at := b; p_closed_at := c; p_methods := d; p_leaves := e;
          p_batch := f; p_anchors := g; p_anchor_faults := h |}) ltac:(by intros []).

#[export] Instance bin_json : Bin SampleValue :=
  bin_via (fun v => match v with
                    | VNull => inl tt | VStr s => inr (inl s) | VNum n => inr (inr (inl n))
                    | VObj f => inr (inr (inr f))
                    end)
    (fun s : unit + (string + (Z + list (string * (string + Z)))) =>
       match s with
       | inl _ => VNull | inr (inl s) => VStr s | inr (inr (inl n)) => VNum n
       | inr (inr (inr f)) => VObj f
       end) ltac:(by intros []).
#[export] Instance bin_object : Bin SampleObject :=
  bin_via (fun a => (so_prev a, so_payload a)) (fun '(a, b) => Build_SampleObject a b)
    ltac:(by intros []).
#[export] Instance bin_signature : Bin SampleSignature :=
  bin_via (fun a => (ss_prev a, ss_signer a)) (fun '(a, b) => Build_SampleSignature a b)
    ltac:(by intros []).

(** ** The codecs *)

Definition bin_codec (V : Type) `{Bin V} : codec unit V :=
  {| encode := fun v => Ok (put v);
     decode := fun b => match pull b with Some (v, []) => Ok v | _ => Err tt end |}.

Lemma bin_codec_laws V `{Bin V} : codec_laws (bin_codec V).
Proof.
  split. intros v b [= <-]. cbn. rewrite <- (right_id_L [] (++) (put v)), pull_put. done.
Qed.

#[export] Instance sample_serde : SerdeCrates := {| PostcardError := unit; JsonError := unit |}.

#[export] Instance sample_codecs : StoreCodecs :=
  {| epoch_codec := bin_codec EpochRecord; tip_pair_codec := bin_codec TipPairIndex;
     contributor_codec := bin_codec ContributorEntry; pending_codec := bin_codec PendingEpoch;
     revision_codec := bin_codec (SampleObject + SampleSignature) |}.

#[export] Instance sample_codec_laws : StoreCodecLaws.
Proof. split; apply bin_codec_laws. Qed.
