(* ===== verification/SampleRun.v ===== *)
(** * A concrete service

    A world with one chain, the store on an empty keyspace, and an open epoch
    of two leaves, on which the sealer's theorems are instantiated. *)

From S2P Require Import Prelude External Merkle Accumulator Witness Selfcheck Epoch Utf8 Kv Storage StoreSpec StoreRefine SealStore Anchors Sealer SealInv SealerProofs Samples.
Open Scope string_scope.
Open Scope list_scope.
Open Scope Z_scope.

(** What the chain's node answers, and the transactions sent. *)
Record SampleWorld := { sw_verdict : EvmAnchorVerdict; sw_sent : nat }.

Definition sample_value (root : string) : TimestampValue :=
  {| tv_merkle_proof := []; tv_sender_account_address := "0xfeed"; tv_tsa_provider := "";
     tv_transaction_hash := "0xabc"; tv_smart_contract_address := ""; tv_network := "sepolia";
     tv_merkle_root := root; tv_timestamp := 1000; tv_batch_tree_size := 0;
     tv_batch_leaf_index := 0; tv_shielding_nonce := "" |}.

(** A provider that is [true] anchors. *)
#[export] Instance sample_anchor_world : AnchorWorld :=
  {| World := SampleWorld; SdkProvider := bool;
     sdk_create_timestamp := fun p root w =>
       if p : bool
       then ({| sw_verdict := sw_verdict w; sw_sent := S (sw_sent w) |}, Ok (sample_value root))
       else (w, Err (TsProvider "down"));
     check_task_failure := fun _ => None |}.

(** Without a provider. *)
Definition bare_ctx : WitnessContext := WitnessContext_new "did:service" "0xfeed" [Evm].

Definition sample_ctx : WitnessContext :=
  with_self_check
    (with_evm_anchor bare_ctx (SdkOne true))
    (fun w => {| blockchain := Some (sw_verdict w); tsa := None; evm_finality := Finalized |}).

(** The same service whose provider is down. *)
Definition down_ctx : WitnessContext := with_evm_anchor sample_ctx (SdkOne false).

Definition sample_keyspace : Keyspace := fun _ => ∅.
Definition empty_store : AStore := fun _ => ∅.

Lemma sample_represents : represents (view sample_keyspace) empty_store.
Proof. apply represents_empty. Qed.

Lemma empty_store_inv next : store_inv empty_store next.
Proof.
  split; unfold look, empty_store; intros *; cbn; rewrite ?lookup_empty; try done; try (by intros [=]).
Qed.

Definition sample_world (v : EvmAnchorVerdict) : SampleWorld := {| sw_verdict := v; sw_sent := 0 |}.

Definition sample_acc : AccumulatorInner :=
  (append_batch [leaf_a; leaf_b] "did:alice" (acc_new 1 0 60)).1.

(** The open epoch, with and without leaves, over the empty store. *)
Definition sample_state (acc : AccumulatorInner) (v : EvmAnchorVerdict) : SealState :=
  {| s_acc := acc; s_sto := sample_keyspace : Sto; s_world := sample_world v; s_calls := [] |}.

Lemma sample_acc_inv : acc_inv sample_acc.
Proof. apply acc_inv_append; [apply acc_inv_new|done]. Qed.

Lemma sample_ready acc v :
  acc_inv acc -> 0 <= acc_epoch_id acc < U64_MAX -> Forall entry_ok (acc_leaves acc) ->
  seal_ready empty_store (sample_state acc v).
Proof.
  intros Ha Hid Hd. split; [apply sample_represents|apply empty_store_inv|done..].
Qed.

Lemma sample_acc_ready v : seal_ready empty_store (sample_state sample_acc v).
Proof.
  apply sample_ready; [apply sample_acc_inv|vm_compute; intuition congruence|].
  vm_compute. repeat constructor.
Qed.

(** A seal of the sample epoch serves a witness per leaf when the chain
    confirms the anchor, and none while it does not know it. *)
Example sample_seal_serves :
  match seal_once 60 60 (Some sample_ctx) (sample_state sample_acc EvmVerified) with
  | (s, Ok (r, ws)) => (er_leaf_count r, length ws, length (s_calls s)) = (2, 2%nat, 1%nat)
  | _ => False
  end.
Proof. vm_compute. reflexivity. Qed.

Example sample_seal_waits :
  match seal_once 60 60 (Some sample_ctx)
          (sample_state sample_acc (EvmNotEvaluable NotFound "")) with
  | (s, Ok (r, ws)) => (er_leaf_count r, length ws, length (s_calls s)) = (2, 0%nat, 1%nat)
  | _ => False
  end.
Proof. vm_compute. reflexivity. Qed.
