(* ===== verification/Witnesses.v ===== *)
(** * The theorems at work

    Every theorem with hypotheses, applied to the concrete service of
    [SampleRun]. *)

From S2P Require Import Prelude External Merkle Accumulator Witness Selfcheck Epoch Utf8 Kv Storage StoreSpec StoreRefine StoreScans SealStore Anchors Sealer SealInv SealerProofs SealerCalls SealerTheorems Samples SampleRun.
Open Scope string_scope.
Open Scope list_scope.
Open Scope Z_scope.

(** The value of a computation known to succeed. *)
Definition the_ok {E A} (r : result E A) (d : A) : A := match r with Ok a => a | Err _ => d end.
Lemma the_ok_eq {E A} (r : result E A) d : is_ok r = true -> r = Ok (the_ok r d).
Proof. by destruct r. Qed.
Lemma the_some_eq {E A} (r : result E (option A)) d :
  match r with Ok (Some _) => true | _ => false end = true ->
  r = Ok (Some (default d (the_ok r None))).
Proof. by destruct r as [[a|]|e]. Qed.

(** ** Leaves *)

Lemma parse_leaf_hex_spec_witness :
  parse_leaf_hex ("0x" +:+ hex_encode (arr leaf_a)) = Ok leaf_a.
Proof.
  apply (parse_leaf_hex_spec ("0x" +:+ hex_encode (arr leaf_a)) leaf_a).
  exists (hex_encode (arr leaf_a)). split; [|split; vm_compute; reflexivity].
  apply spell_0x; [|apply spell_bare]. rewrite hex_encode_no_0x. by intros [].
Defined.

Lemma parse_leaf_hex_no_panic_witness : parse_leaf_hex "0x12" <> Err CopyPanic.
Proof. apply (parse_leaf_hex_no_panic "0x12"). Defined.

(** ** Batches and witnesses *)

Definition sample_snapshot : SealedSnapshot :=
  {| snap_epoch_id := 1; snap_opened_at := 0; snap_closed_at := 60;
     snap_leaves := [entry_of "did:alice" leaf_a; entry_of "did:bob" leaf_b] |}.

Definition sample_batch : EpochBatch :=
  default {| prepared := {| sp_root := ""; sp_leaves := [] |} : PreparedBatch;
             b_leaves := []; carriers := [] |}
    (the_ok (EpochBatch_prepare (leaf <$> snap_leaves sample_snapshot)) None).

Lemma sample_batch_prepared :
  EpochBatch_prepare (leaf <$> snap_leaves sample_snapshot) = Ok (Some sample_batch).
Proof. apply the_some_eq. vm_compute. reflexivity. Qed.

Lemma restore_new_witness :
  restore (PendingEpoch_new sample_snapshot sample_batch [Evm]) = Ok (sample_snapshot, sample_batch).
Proof. exact (proj1 (restore_new sample_snapshot sample_batch [Evm] sample_batch_prepared)). Defined.

Definition sample_outcome : MethodAnchorOutcome := from_evm_timestamp_value (sample_value "").

Definition sample_witnesses : list MintedWitness :=
  the_ok (mint_witnesses_for_epoch sample_snapshot sample_batch [(Evm, sample_outcome)]
            "did:service") [].

Lemma sample_minted :
  mint_witnesses_for_epoch sample_snapshot sample_batch [(Evm, sample_outcome)] "did:service"
  = Ok sample_witnesses.
Proof. apply the_ok_eq. vm_compute. reflexivity. Qed.

Lemma mint_witnesses_spec_witness :
  length sample_witnesses = 2%nat /\
  b_leaves sample_batch = leaf <$> snap_leaves sample_snapshot.
Proof.
  split; [vm_compute; reflexivity|].
  exact (proj1 (mint_witnesses_spec sample_snapshot sample_batch [(Evm, sample_outcome)]
                  "did:service" sample_witnesses sample_minted)).
Defined.

Lemma mint_no_panic_witness :
  mint_witnesses_for_epoch sample_snapshot sample_batch [(Evm, sample_outcome)] "did:service"
  <> Err WIndexPanic.
Proof. apply mint_no_panic. vm_compute. reflexivity. Defined.

(** ** Self-checks *)

Definition sample_hosts (v : EvmAnchorVerdict) : SelfCheckHosts :=
  {| blockchain := Some v; tsa := None; evm_finality := Finalized |}.

Lemma verify_minted_batch_equiv_witness :
  length sample_witnesses = 2%nat /\
  Forall (fun w => verify_minted_witness w "did:service" (sample_hosts EvmVerified) = Verified)
    sample_witnesses.
Proof.
  split; [vm_compute; reflexivity|].
  apply (verify_minted_batch_equiv sample_witnesses "did:service" (sample_hosts EvmVerified)).
  vm_compute. repeat constructor.
Defined.

Lemma anchor_blame_sound_witness :
  exists first p, head sample_witnesses = Some first /\ content_and_inclusion first = Ok p.
Proof.
  destruct (anchor_blame_sound sample_witnesses "did:service" (sample_hosts (EvmInvalid Reverted))
              "EVM anchor invalid: ") as (first & p & Hf & Hp & _).
  - vm_compute. left.
  - exists first, p. split; [exact Hf|exact Hp].
Defined.

(** ** The store *)

Definition sample_record : EpochRecord :=
  {| er_id := 1; er_opened_at := 0; er_closed_at := 60; er_merkle_root := leaf_a;
     er_leaf_count := 2; er_hash_type := HASH_TYPE_LABEL |}.
Definition sample_pending : PendingEpoch := PendingEpoch_new sample_snapshot sample_batch [Evm].

Lemma sample_pending_ok : pending_ok sample_pending.
Proof. vm_compute. repeat split; try congruence; try (repeat constructor). all: eauto. Qed.

Lemma sample_sealed_ok :
  sealed_ok sample_record (snap_leaves sample_snapshot) (Some sample_pending).
Proof.
  split; [vm_compute; split; congruence|]. split; [vm_compute; repeat constructor|].
  intros p [= <-]. apply sample_pending_ok.
Qed.

(** The store after sealing the sample epoch. *)
Definition sealed_keyspace : Keyspace :=
  (persist_sealed_epoch_with_pending sample_record (snap_leaves sample_snapshot) []
     (Some sample_pending) sample_keyspace).1.
Definition sealed_store : AStore :=
  apply_aops empty_store
    (sealed_aops sample_record (snap_leaves sample_snapshot) [] (Some sample_pending)).

Lemma persist_answers_ok :
  is_ok (persist_sealed_epoch_with_pending sample_record (snap_leaves sample_snapshot) []
           (Some sample_pending) sample_keyspace).2 = true.
Proof. vm_compute. reflexivity. Qed.

Lemma refined_ok {X} (A A' : AStore) (s : Keyspace * result StoreError X) :
  refined A A' s -> is_ok s.2 = true -> represents (view s.1) A'.
Proof. unfold refined. by destruct s as [ks [a|e]]. Qed.

Lemma sealed_represents : represents (view sealed_keyspace) sealed_store.
Proof.
  apply (refined_ok empty_store); [|exact persist_answers_ok].
  apply persist_sealed_refined; [apply sample_represents|apply sample_sealed_ok].
Qed.

Lemma sealed_epoch_look id :
  look sealed_store epochs id = if decide (id = 1) then Some sample_record else None.
Proof.
  unfold sealed_store. rewrite sealed_look_epochs.
  change (er_id sample_record) with 1. repeat case_decide; first [reflexivity|contradiction].
Qed.

Lemma store_writes_atomic_witness : represents (view sealed_keyspace) sealed_store.
Proof.
  apply (refined_ok empty_store); [|exact persist_answers_ok].
  apply (proj1 (store_writes_atomic sample_keyspace empty_store sample_represents)).
  apply sample_sealed_ok.
Defined.

Lemma store_lookups_spec_witness :
  read_ok (get_epoch 1 sealed_keyspace) (fun r => r = Some sample_record).
Proof.
  assert (u64_ok 1) as Hu by (vm_compute; split; congruence).
  pose proof (proj1 (store_lookups_spec sealed_keyspace sealed_store sealed_represents) 1 Hu) as Hg.
  rewrite sealed_epoch_look in Hg. exact Hg.
Defined.

Lemma sealed_epochs_desc : epochs_desc sealed_store U64_MAX [sample_record].
Proof.
  split; [|repeat constructor]. intros r. rewrite list_elem_of_singleton, sealed_epoch_look. split.
  - intros ->. done.
  - case_decide; [|naive_solver]. by intros [[= ->] _].
Qed.

Lemma epoch_pages_complete_witness :
  read_ok (walk_pages 2 None 1 sealed_keyspace) (fun r => r = [sample_record]).
Proof.
  apply (epoch_pages_complete sealed_keyspace sealed_store 1 [sample_record]).
  - apply sealed_represents.
  - intros id r. rewrite sealed_epoch_look. case_decide; [|discriminate]. intros [= <-]. done.
  - discriminate.
  - apply sealed_epochs_desc.
Defined.

(** The store after serving the sample witnesses. *)
Definition done_pending : PendingEpoch := PendingEpoch_new sample_snapshot sample_batch [].
Definition served_keyspace : Keyspace :=
  (persist_pending_minted done_pending Evm sample_witnesses sealed_keyspace).1.
Definition served_store : AStore :=
  apply_aops sealed_store (minted_aops sealed_store done_pending Evm sample_witnesses).

Lemma served_represents : represents (view served_keyspace) served_store.
Proof.
  apply (refined_ok sealed_store).
  - apply persist_minted_refined; [apply sealed_represents|]. apply sample_pending_ok.
  - vm_compute. reflexivity.
Qed.

Lemma did_scans_isolated_witness :
  read_ok (list_witness_tips_for_did "did:alice" served_keyspace)
    (fun r => StronglySorted tip_order r /\
       forall e t, (e, t) ∈ r -> exists idx, look served_store tip_to_pair t = Some idx /\
         ti_submitter_did idx = "did:alice").
Proof.
  destruct (did_scans_isolated served_keyspace served_store "did:alice" 1 Evm served_represents)
    as [Ht _].
  destruct (list_witness_tips_for_did "did:alice" served_keyspace) as [r|e]; [|exact Ht].
  destruct Ht as [Hs Hm]. split; [exact Hs|]. intros e t Het.
  apply Hm in Het as (idx & Hl & Hd & _). exists idx. split; [exact Hl|exact Hd].
Defined.

Lemma contributors_sorted_witness :
  read_ok (list_contributors_sorted 10 sealed_keyspace) (fun r => r = []).
Proof.
  pose proof (contributors_sorted sealed_keyspace sealed_store 10 sealed_represents) as Hc.
  destruct (list_contributors_sorted 10 sealed_keyspace) as [r|e]; [|exact Hc].
  destruct Hc as (all & Hr & _ & Hp). apply Permutation_nil_r in Hp. rewrite Hp in Hr. exact Hr.
Defined.

(** ** Seals *)

Lemma seal_refused_unchanged_witness :
  seal_once 60 60 (Some bare_ctx)
    (sample_state sample_acc EvmVerified)
  = (sample_state sample_acc EvmVerified, Err (MissingProvider Evm)).
Proof.
  apply (seal_refused_unchanged bare_ctx). reflexivity.
Defined.

Lemma seal_once_keeps_witness :
  exists A', look A' epoch_leaves (1, leaf_a) = Some "did:alice" /\
    (outstanding A' 1 leaf_a Evm \/ served A' leaf_a Evm).
Proof.
  destruct (seal_once_keeps 60 60 (Some sample_ctx) empty_store _ (sample_acc_ready EvmVerified))
    as (A' & _ & _ & _ & _ & Hr).
  assert (is_ok (seal_once 60 60 (Some sample_ctx) (sample_state sample_acc EvmVerified)).2 = true)
    as Hok by (vm_compute; reflexivity).
  destruct (seal_once 60 60 (Some sample_ctx) (sample_state sample_acc EvmVerified)).2
    as [[record ws]|e]; [|discriminate Hok].
  destruct Hr as (_ & _ & _ & _ & Hl). exists A'.
  destruct (Hl (entry_of "did:alice" leaf_a)) as [Hd Hm]; [vm_compute; left|].
  split; [exact Hd|]. apply (Hm sample_ctx Evm eq_refl). vm_compute. left.
Defined.

Lemma returned_witnesses_verified_witness :
  exists s' record ws,
    seal_once 60 60 (Some sample_ctx) (sample_state sample_acc EvmVerified) = (s', Ok (record, ws)) /\
    length ws = 2%nat /\ Forall (verified_under (Some sample_ctx)) ws.
Proof.
  pose proof sample_seal_serves as Hs.
  destruct (seal_once 60 60 (Some sample_ctx) (sample_state sample_acc EvmVerified))
    as [s' [[record ws]|e]] eqn:He; [|destruct Hs].
  exists s', record, ws. split; [reflexivity|]. split; [congruence|].
  exact (returned_witnesses_verified 60 60 (Some sample_ctx) _ s' record ws He).
Defined.

Definition anchored_pending : PendingEpoch := set_anchor sample_pending Evm (sample_value "r") 100.
Definition sample_tick : Tick := tick_of (sample_state sample_acc (EvmNotEvaluable NotFound "")).

(** Past the timeout the anchor of the unknown transaction is dropped. *)
Lemma settle_missing_spec_witness :
  anchor (settle_missing sample_ctx Evm 5000 anchored_pending sample_tick).1 Evm = None.
Proof.
  destruct (settle_missing_spec sample_ctx Evm 5000 anchored_pending sample_tick (sample_value "r")
              ltac:(vm_compute; reflexivity)) as (first_seen & Hf & Hs).
  assert (first_seen = 100) as ->
    by (apply (Hf {| sa_method := Evm; sa_value := sample_value "r"; sa_first_seen := Some 100 |});
        vm_compute; reflexivity).
  destruct (settle_missing sample_ctx Evm 5000 anchored_pending sample_tick) as [p' t'].
  rewrite decide_False in Hs by (vm_compute; congruence). exact (proj1 Hs).
Defined.

Lemma empty_epoch_not_anchored_witness :
  exists s' record ws,
    seal_once 60 60 (Some sample_ctx) (sample_state (acc_new 1 0 60) EvmVerified)
    = (s', Ok (record, ws)) /\ er_merkle_root record = empty_merkle_root /\ er_leaf_count record = 0.
Proof.
  assert (is_ok (seal_once 60 60 (Some sample_ctx) (sample_state (acc_new 1 0 60) EvmVerified)).2
          = true) as Hok by (vm_compute; reflexivity).
  destruct (seal_once 60 60 (Some sample_ctx) (sample_state (acc_new 1 0 60) EvmVerified))
    as [s' [[record ws]|e]] eqn:He; [|discriminate Hok].
  exists s', record, ws. split; [reflexivity|].
  destruct (empty_epoch_not_anchored 60 60 (Some sample_ctx)
              (sample_state (acc_new 1 0 60) EvmVerified) s' record ws eq_refl He) as (Hr & Hc & _).
  split; [exact Hr|exact Hc].
Defined.

(** An epoch whose only leaf the SDK refuses. *)
Definition refused_acc : AccumulatorInner :=
  (append_batch [filled 32 Byte.xff] "did:alice" (acc_new 1 0 60)).1.

Lemma refused_ready : seal_ready empty_store (sample_state refused_acc EvmVerified).
Proof.
  apply sample_ready; [|vm_compute; split; congruence|vm_compute; repeat constructor].
  apply acc_inv_append; [apply acc_inv_new|done].
Qed.

Lemma prepare_failure_drops_epoch_witness :
  exists s' A' e,
    length (acc_leaves refused_acc) = 1%nat /\
    seal_once 60 60 (Some sample_ctx) (sample_state refused_acc EvmVerified)
    = (s', Err (SealWitness e)) /\
    acc_leaves (s_acc s') = [] /\ look A' epochs 1 = None /\ look A' pending_anchors 1 = None.
Proof.
  destruct (prepare_failure_drops_epoch 60 60 (Some sample_ctx) empty_store
              (sample_state refused_acc EvmVerified) (WBatch "prepare_batch_timestamp: refused") refused_ready)
    as (s' & A' & Hs & Hl & _ & _ & He & Hp & _); [reflexivity|reflexivity|].
  exists s', A', (WBatch "prepare_batch_timestamp: refused"). split; [reflexivity|]. split; [exact Hs|].
  split; [exact Hl|]. split; [exact He|exact Hp].
Defined.

Definition sample_service : list svc_op :=
  [SvcSubmit [leaf_a; leaf_b] "did:alice"; SvcSeal 60 60 (Some down_ctx);
   SvcWorld (sample_world EvmVerified); SvcSubmit [leaf_a] "did:bob";
   SvcSeal 120 60 (Some sample_ctx)].

Lemma sample_service_ok : Forall svc_op_ok sample_service.
Proof. repeat first [apply Forall_nil_2 | apply Forall_cons_2; [by try split|]]. Qed.

Lemma service_keeps_witness :
  exists A', seal_ready A' (fold_left svc_step sample_service
                              (sample_state (acc_new 1 0 60) EvmVerified)).
Proof.
  destruct (service_keeps sample_service empty_store (sample_state (acc_new 1 0 60) EvmVerified))
    as (A' & Hr & _).
  - apply sample_ready; [apply acc_inv_new|vm_compute; split; congruence|constructor].
  - apply sample_service_ok.
  - vm_compute. reflexivity.
  - exists A'. exact Hr.
Defined.
