(* ===== verification/SampleServer.v ===== *)
(** * A concrete server

    Instances of the interfaces of [Auth], [Config], [BondingCurve], [App] and
    [Routes], and the service after two epochs: alice's leaves were served,
    then bob's copy of one of them was sealed while the provider was down. *)

From S2P Require Import Prelude External Merkle Accumulator Witness Selfcheck Epoch Utf8 Kv Storage StoreSpec StoreRefine SealStore Anchors Sealer SealInv SealerProofs SealerTheorems Auth Config BondingCurve Watcher WatcherTheorems Identity App Routes RouteTheorems Samples SampleRun.
Open Scope string_scope.
Open Scope list_scope.
Open Scope Z_scope.

(** ** [aqua-auth]: one nonce and one token at a time, no expiry *)

#[export] Instance sample_auth : AuthCrate :=
  {| AuthError := unit; auth_error_text := fun _ => "unknown"; is_session_store_full := fun _ => false;
     ChallengeStore := gmap string (string * string);
     challenges_create := fun did now cs =>
       (<["nonce" := (did, "message")]> cs,
        Ok {| ch_did := did; ch_nonce := "nonce"; ch_message := "message"; ch_expires_at := now + 300 |});
     challenges_validate := fun nonce now cs =>
       (delete nonce cs,
        match cs !! nonce with
        | Some (did, m) =>
            Ok {| ch_did := did; ch_nonce := nonce; ch_message := m; ch_expires_at := now |}
        | None => Err tt
        end);
     verify_caip122 := fun did m sig => Ok (bool_decide (sig = as_bytes did));
     SessionStore := gmap string string;
     sessions_create := fun did now ss =>
       (<["token" := did]> ss,
        Ok {| ss_token := "token"; ss_did := did; ss_valid_until := now + 3600; ss_created_at := now |});
     sessions_validate := fun token now ss =>
       (ss, match ss !! token with Some did => Ok did | None => Err tt end) |}.

#[export] Instance sample_auth_laws : AuthLaws.
Proof.
  refine {| open_challenges := fun m => m; live_sessions := fun m => m |}; cbn.
  - done.
  - intros nonce now cs. split; [done|]. intros ch. destruct (cs !! nonce) as [[d m]|]; [|done].
    by intros [= <-].
  - done.
  - intros token now ss. split; [done|]. intros did. destruct (ss !! token); [|done].
    by intros [= <-].
Defined.

(** ** Chains, the curve, providers and texts *)

#[export] Instance sample_chains : EvmChains :=
  {| evm_chain_id := fun c =>
       match c with Mainnet => 1 | Sepolia => 11155111 | Holesky => 17000 | Custom n => n end;
     network_claim := fun c =>
       match c with Mainnet => "mainnet" | Sepolia => "sepolia" | Holesky => "holesky"
                  | Custom _ => "custom" end;
     evm_chain_id_for_network := fun s =>
       if decide (s = "mainnet") then Some 1
       else if decide (s = "sepolia") then Some 11155111
       else if decide (s = "holesky") then Some 17000 else None |}.

#[export] Instance sample_chains_laws : EvmChainsLaws.
Proof. by split. Qed.

#[export] Instance sample_libm : Libm := {| f64_exp := fun _ => f64_zero; f64_ln := fun x => x |}.

#[export] Instance sample_live : LiveAnchors :=
  {| cli_eth_timestamper := fun _ _ _ => true;
     tsa_timestamper := fun _ _ => true; eth_blockchain_host := fun _ _ w => sw_verdict w;
     tsa_web_host := fun _ => true;
     parse_address := fun s => try_array 20 (take 20 (as_bytes s ++ replicate 20 Byte.x00)) |}.

#[export] Instance sample_identity_crates : IdentityCrates :=
  {| get_wallet := fun _ => Ok ("feed", "feed", "00"); claim_validate := fun _ => Ok tt;
     claim_to_value := fun c => Ok (VStr (signer_did c)); TEMPLATE_LINK := filled 32 Byte.x02;
     create_object_util := fun l v =>
       Ok [(filled 32 Byte.x03, inl {| so_prev := l; so_payload := v |})];
     secp256k1_signer := fun b => of_bytes b;
     sign_aqua_tree := fun w did =>
       Ok (w.1 ++ [(filled 32 Byte.x04, inr {| ss_prev := filled 32 Byte.x03; ss_signer := did |})]);
     tree_to_value := fun _ => Ok VNull;
     response_to_value := fun r => Ok (VObj [("server_did", inl (ir_server_did r))]);
     CARGO_PKG_VERSION := None |}.

#[export] Instance sample_routes : RouteCrates :=
  {| fjall_error_text := fun _ => "io"; postcard_error_text := fun _ => "postcard";
     json_error_text := fun _ => "json"; hex_byte_text := fun _ => "00";
     json_from_slice := fun b => Ok (VStr (of_bytes b)) |}.

#[export] Instance sample_route_laws : RouteLaws.
Proof. split. intros rev b _. by eexists. Qed.

(** ** The service after two epochs *)

Definition first_epoch : list svc_op :=
  [SvcSubmit [leaf_a; leaf_b] "did:alice"; SvcSeal 60 60 (Some sample_ctx)].
Definition second_epoch : list svc_op :=
  [SvcSubmit [leaf_a] "did:bob"; SvcSeal 120 60 (Some down_ctx)].

Definition served_state : SealState :=
  fold_left svc_step first_epoch (sample_state (acc_new 1 0 60) EvmVerified).
Definition reowned_state : SealState := fold_left svc_step second_epoch served_state.

Lemma first_epoch_ok : Forall svc_op_ok first_epoch.
Proof. repeat first [apply Forall_nil_2 | apply Forall_cons_2; [by try split|]]. Qed.
Lemma second_epoch_ok : Forall svc_op_ok second_epoch.
Proof. repeat first [apply Forall_nil_2 | apply Forall_cons_2; [by try split|]]. Qed.

Lemma served_ready : exists A, seal_ready A served_state.
Proof.
  destruct (svc_run_ready first_epoch empty_store (sample_state (acc_new 1 0 60) EvmVerified))
    as (A & Hr & _).
  - apply sample_ready; [apply acc_inv_new|vm_compute; split; congruence|constructor].
  - apply first_epoch_ok.
  - vm_compute. reflexivity.
  - by exists A.
Qed.

Lemma reowned_ready : exists A, seal_ready A reowned_state.
Proof.
  destruct served_ready as [A Hr].
  destruct (svc_run_ready second_epoch A served_state Hr) as (A' & Hr' & _).
  - apply second_epoch_ok.
  - vm_compute. reflexivity.
  - by exists A'.
Qed.

(** The handlers' state over a state of the sealer. *)
Definition route_state (s : SealState) : RouteState :=
  {| r_accumulator := s_acc s; r_store := s_sto s : Keyspace; r_allowed_dids := [];
     r_max_leaves_per_request := 10; r_duration_secs := 60; r_max_pool_size := 500;
     r_max_anchor_faults := 3 |}.

Definition hex_a : string := hex_encode (arr leaf_a).
Definition no_hash : Hash32 := filled 32 Byte.x00.
Definition no_pair : TipPairIndex :=
  {| ti_object_hash := no_hash; ti_signature_hash := no_hash; ti_method_byte := Byte.x00;
     ti_epoch_id := 0; ti_leaf := no_hash; ti_submitter_did := ""; ti_object_file_name := "";
     ti_signature_file_name := "" |}.

(** What the store answers to the lookups of [leaf_a]. *)
Definition tip_a (s : SealState) : Hash32 :=
  match get_tip_for_leaf leaf_a Evm (s_sto s : Keyspace) with Ok (Some t) => t | _ => no_hash end.
Definition pair_a (s : SealState) : TipPairIndex :=
  match get_tip_pair (tip_a s) (s_sto s : Keyspace) with Ok (Some i) => i | _ => no_pair end.

(** ** The watched wallet: in each block alice sends twice and bob once *)

Definition sample_watcher : BlockWatcher := {| wallet_address := filled 20 Byte.x01; chain_id := 1 |}.
Definition alice : Address := filled 20 Byte.x0a.
Definition bob : Address := filled 20 Byte.x0b.
Definition fuel (from : Address) (v : Z) : Transaction :=
  {| tx_to := Some (filled 20 Byte.x01); tx_value := v; tx_signer := from |}.

Definition sample_node (tip : Z) : NodeReading :=
  {| nr_url := Ok tt; nr_block_number := Ok tip;
     nr_block := fun n => Ok (Some {| bl_timestamp := 1000 + n;
       bl_transactions := Full [fuel alice 5; fuel alice 7; fuel bob 1; fuel bob 0] |}) |}.

Definition watch_start : WatcherState := {| wt_watermark := 5; wt_store := sample_keyspace |}.
Definition tick_state (tip : Z) (st : WatcherState) : WatcherState :=
  match watcher_tick sample_watcher (sample_node tip) st with Some (st', _) => st' | None => st end.
Definition tick_window (tip : Z) (st : WatcherState) : Window :=
  match watcher_tick sample_watcher (sample_node tip) st with
  | Some (_, Some win) => win
  | _ => {| win_from := 0; win_to := 0; win_transfers := [] |}
  end.
Definition tick_done (tip : Z) (st : WatcherState) : bool :=
  match watcher_tick sample_watcher (sample_node tip) st with Some (_, Some _) => true | _ => false end.

Lemma tick_eq tip st :
  tick_done tip st = true ->
  watcher_tick sample_watcher (sample_node tip) st = Some (tick_state tip st, Some (tick_window tip st)).
Proof.
  unfold tick_done, tick_state, tick_window.
  by destruct (watcher_tick sample_watcher (sample_node tip) st) as [[st' [win|]]|].
Qed.
