(* ===== verification/ServerWitnesses.v ===== *)
(** * The server's theorems at work

    The theorems of [Auth], [Config], [SealLoops], [App] and [RouteTheorems],
    applied to the concrete server of [SampleServer]. *)

From S2P Require Import Prelude External Merkle Accumulator Witness Selfcheck Epoch Utf8 Kv Storage StoreSpec StoreRefine SealStore Anchors Sealer SealInv SealerProofs SealerTheorems Auth Text Config BondingCurve SealLoops Watcher WatcherTheorems Identity App Routes RouteTheorems Samples SampleRun SampleServer.
Open Scope string_scope.
Open Scope list_scope.
Open Scope Z_scope.

(** ** Signing in *)

Definition empty_stores : AuthStores :=
  {| challenges := ∅ : gmap string (string * string); sessions := ∅ : gmap string string |}.

Definition sign_in : list auth_op :=
  [AChallenge "did:alice" 0;
   ASession {| sr_did := "did:alice"; sr_nonce := "nonce";
               sr_signature := "0x" +:+ hex_encode (as_bytes "did:alice") |} 1].

Lemma bearer_signed_in_witness :
  (bearer_did (Some "Bearer  token ") 2 (auth_run sign_in empty_stores)).2 = Ok "did:alice" /\
  exists token, signed_in sign_in empty_stores "did:alice" token.
Proof.
  assert ((bearer_did (Some "Bearer  token ") 2 (auth_run sign_in empty_stores)).2 = Ok "did:alice")
    as Hb by (vm_compute; reflexivity).
  split; [exact Hb|].
  assert (open_challenges (challenges empty_stores) = ∅) as Hc by reflexivity.
  assert (live_sessions (sessions empty_stores) = ∅) as Hs by reflexivity.
  destruct (bearer_signed_in sign_in empty_stores _ 2 "did:alice" Hc Hs Hb)
    as (value & rest & _ & _ & Hin).
  exists (trim_ascii rest). exact Hin.
Defined.

(** ** Configurations *)

Definition sample_cfg : Config := Config_default {| listen := "127.0.0.1:3000" |}.

Lemma accepted_chain_is_one_witness :
  check_evm_chain_source sample_cfg = Ok tt /\ leaderboard_chain_id sample_cfg = 11155111.
Proof.
  assert (check_evm_chain_source sample_cfg = Ok tt) as Hc by (vm_compute; reflexivity).
  split; [exact Hc|].
  apply (accepted_chain_is_one sample_cfg eq_refl) in Hc as (chain & Hch & _ & _ & _ & Hl).
  rewrite Hl. injection Hch as <-. reflexivity.
Defined.

Definition sample_identity : ServiceIdentity :=
  {| address_eip55 := "feed"; server_did := "did:service"; si_chain_id := 1; si_trust_domain := "x";
     si_dns := "x.example"; si_ip := ""; private_key := as_bytes "did:service"; mnemonic := "word" |}.
Definition no_overrides : AnchorOverrides :=
  {| ov_evm := None; ov_qtsa := None; ov_evm_check_host := None; ov_tsa_check_host := None |}.

Lemma accepted_config_starts_witness :
  exists ctx,
    build_witness_ctx sample_cfg Finalized sample_identity no_overrides = Ok ctx /\
    c_methods ctx = [Evm; Qtsa].
Proof.
  assert (check_config sample_cfg sample_identity no_overrides = Ok tt) as Hc
    by (vm_compute; reflexivity).
  destruct (accepted_config_starts sample_cfg Finalized sample_identity no_overrides Hc)
    as (ctx & Hb & Hm & _).
  exists ctx. split; [exact Hb|]. rewrite Hm. reflexivity.
Defined.

Lemma restart_ready_witness :
  exists app A,
    build_app sample_cfg Finalized sample_identity None Interval no_overrides
      (s_sto reowned_state : Keyspace) 200 (sample_world EvmVerified) = Ok app /\
    seal_ready A (started app (s_sto reowned_state : Keyspace) (sample_world EvmVerified)).
Proof.
  destruct reowned_ready as [A Hr].
  assert (is_ok (build_app sample_cfg Finalized sample_identity None Interval no_overrides
            (s_sto reowned_state : Keyspace) 200 (sample_world EvmVerified)) = true) as Hok
    by (vm_compute; reflexivity).
  destruct (build_app sample_cfg Finalized sample_identity None Interval no_overrides
              (s_sto reowned_state : Keyspace) 200 (sample_world EvmVerified)) as [app|e] eqn:Hb;
    [|discriminate Hok].
  exists app, A. split; [reflexivity|].
  apply (restart_ready sample_cfg Finalized sample_identity None Interval no_overrides
           (s_sto reowned_state : Keyspace) 200 (sample_world EvmVerified) app A
           (acc_epoch_id (s_acc reowned_state)) (sr_absr _ _ Hr) (sr_inv _ _ Hr)).
  - vm_compute. split; congruence.
  - exact Hb.
Defined.

(** ** Loops *)

Definition sample_params : BondingCurveParams :=
  {| n_half := 7200; poll_interval_secs := 12; min_balance_multiplier := 2 |}.
Definition sample_readings : list (oracle_answer * u64) :=
  [(FailingOracle "down", 12); (MockOracle 100 10, 24); (MockOracle 10 10, 36);
   (MockOracle 100 10, 48)].

Lemma bonding_seals_spaced_witness :
  bs_block <$> (bonding_run sample_params (Some sample_ctx) true sample_readings
     (bonding_start (sample_state sample_acc EvmVerified))).2 = [2; 4] /\
  spaced sample_params 0
    (bonding_run sample_params (Some sample_ctx) true sample_readings
       (bonding_start (sample_state sample_acc EvmVerified))).2.
Proof.
  split; [vm_compute; reflexivity|].
  apply (bonding_seals_spaced sample_params (Some sample_ctx) true sample_readings
           (sample_state sample_acc EvmVerified)); [|vm_compute; reflexivity].
  repeat first [apply Forall_nil_2 | apply Forall_cons_2; [by intros b g [= <- <-]|]].
Defined.

Definition sample_live_ops : list live_op :=
  [LiveSubmit [leaf_a; leaf_b] "did:alice"; LiveSeal 60 60 (Some sample_ctx);
   LiveSeal 120 60 (Some bare_ctx); LiveSeal 180 60 (Some down_ctx)].

Lemma sample_live_ok : Forall (fun op => svc_op_ok (svc_of op)) sample_live_ops.
Proof. repeat first [apply Forall_nil_2 | apply Forall_cons_2; [by try split|]]. Qed.

Lemma announced_epochs_stored_witness :
  omap event_epoch (live_run sample_live_ops (sample_state (acc_new 1 0 60) EvmVerified)).2
  = [1; 2] /\
  exists A, Forall (announces A)
    (live_run sample_live_ops (sample_state (acc_new 1 0 60) EvmVerified)).2.
Proof.
  split; [vm_compute; reflexivity|].
  destruct (announced_epochs_stored sample_live_ops empty_store
              (sample_state (acc_new 1 0 60) EvmVerified)) as (A & _ & Ha & _).
  - apply sample_ready; [apply acc_inv_new|vm_compute; split; congruence|constructor].
  - apply sample_live_ok.
  - vm_compute. reflexivity.
  - exists A. exact Ha.
Defined.

(** ** Handlers *)

Lemma submit_leaves_spec_witness :
  is_ok (submit_leaves (route_state served_state) "did:bob" [hex_a]).2 = true /\
  exists hs, Forall2 (fun raw h => parse_leaf_hex raw = Ok h) [hex_a] hs.
Proof.
  assert (is_ok (submit_leaves (route_state served_state) "did:bob" [hex_a]).2 = true) as Hok
    by (vm_compute; reflexivity).
  split; [exact Hok|].
  assert (acc_inv (r_accumulator (route_state served_state))) as Hi
    by (destruct served_ready as [A Hr]; exact (sr_acc _ _ Hr)).
  pose proof (submit_leaves_spec (route_state served_state) "did:bob" [hex_a] Hi
                ltac:(vm_compute; congruence)) as Hs.
  destruct (submit_leaves (route_state served_state) "did:bob" [hex_a]) as [st [resp|e]];
    [|discriminate Hok].
  destruct Hs as (_ & _ & _ & hs & Hh & _). exists hs. exact Hh.
Defined.

Definition hex_tip (s : SealState) : string := hex_encode (arr (tip_a s)).

(** In both states the store answers [leaf_a]'s tip and pair. *)
Lemma read_tip_a (s : SealState) (A : AStore) :
  represents (view (s_sto s : Keyspace)) A ->
  match get_tip_for_leaf leaf_a Evm (s_sto s : Keyspace) with Ok (Some _) => true | _ => false end
  = true ->
  look A leaf_to_tips (leaf_a, Evm) = Some (tip_a s).
Proof.
  intros Hr Hb. pose proof (get_tip_for_leaf_read (s_sto s : Keyspace) A Hr leaf_a Evm) as Hg.
  unfold tip_a. destruct (get_tip_for_leaf leaf_a Evm _) as [[t|]|e]; by try discriminate.
Qed.

Lemma read_pair_a (s : SealState) (A : AStore) :
  represents (view (s_sto s : Keyspace)) A ->
  match get_tip_pair (tip_a s) (s_sto s : Keyspace) with Ok (Some _) => true | _ => false end
  = true ->
  look A tip_to_pair (tip_a s) = Some (pair_a s).
Proof.
  intros Hr Hb. pose proof (get_tip_pair_read (s_sto s : Keyspace) A Hr (tip_a s)) as Hg.
  unfold pair_a. destruct (get_tip_pair (tip_a s) _) as [[t|]|e]; by try discriminate.
Qed.

Lemma read_checked_a (s : SealState) (A : AStore) :
  represents (view (s_sto s : Keyspace)) A ->
  match is_self_checked (tip_a s) (s_sto s : Keyspace) with Ok b => b | _ => false end = true ->
  is_Some (look A self_checked_tips (tip_a s)).
Proof.
  intros Hr Hb. pose proof (is_self_checked_read (s_sto s : Keyspace) A Hr (tip_a s)) as Hg.
  destruct (is_self_checked (tip_a s) _) as [b|e]; [|discriminate]. cbn in Hg. rewrite Hg in Hb.
  by apply bool_decide_eq_true in Hb.
Qed.

Lemma read_owner_a (s : SealState) (A : AStore) did :
  represents (view (s_sto s : Keyspace)) A ->
  match get_leaf_owner leaf_a (s_sto s : Keyspace) with
  | Ok (Some d) => bool_decide (d = did) | _ => false end = true ->
  look A leaf_owner leaf_a = Some did.
Proof.
  intros Hr Hb. pose proof (get_leaf_owner_read (s_sto s : Keyspace) A Hr leaf_a) as Hg.
  destruct (get_leaf_owner leaf_a _) as [[d|]|e]; try discriminate.
  apply bool_decide_eq_true in Hb. subst d. by symmetry.
Qed.

(** The keyspace never fails here. *)
Lemma route_ok_run {X} (r : result AuthApiError X) P :
  is_ok r = true -> route_ok r P -> P r.
Proof. by intros Hok [?|(e & -> & _)]. Qed.

Lemma tree_by_tip_spec_witness :
  exists b,
    get_tree_by_tip (route_state served_state) "did:alice" (hex_tip served_state)
    = Ok {| status := 200; body := b |}.
Proof.
  destruct served_ready as [A Hr].
  pose proof (tree_by_tip_spec (route_state served_state) "did:alice" (hex_tip served_state) A
                (acc_epoch_id (s_acc served_state)) (sr_absr _ _ Hr) (sr_inv _ _ Hr)) as Hs.
  apply route_ok_run in Hs; [|vm_compute; reflexivity].
  assert (parse_leaf_hex (hex_tip served_state) = Ok (tip_a served_state)) as Hp
    by apply parse_leaf_hex_encode.
  rewrite Hp in Hs.
  rewrite (read_pair_a served_state A (sr_absr _ _ Hr) ltac:(vm_compute; reflexivity)) in Hs.
  rewrite decide_True in Hs by (vm_compute; reflexivity).
  rewrite decide_True in Hs
    by (apply read_checked_a; [exact (sr_absr _ _ Hr)|vm_compute; reflexivity]).
  destruct Hs as (b & Hb & _). exists b. exact Hb.
Defined.

Lemma own_leaf_always_answered_witness :
  exists A, leaf_answer (route_state reowned_state) A leaf_a Evm
    (get_tree_by_leaf (route_state reowned_state) "did:bob" hex_a (Some (as_str Evm))).
Proof.
  destruct reowned_ready as [A Hr]. exists A.
  apply route_ok_run; [vm_compute; reflexivity|].
  apply (own_leaf_always_answered (route_state reowned_state) "did:bob" hex_a Evm leaf_a A
           (acc_epoch_id (s_acc reowned_state)) (sr_absr _ _ Hr) (sr_inv _ _ Hr)).
  - apply parse_leaf_hex_encode.
  - apply (read_owner_a reowned_state A "did:bob" (sr_absr _ _ Hr)). vm_compute. reflexivity.
  - left.
    pose proof (get_pending_epoch_read (s_sto reowned_state : Keyspace) A (sr_absr _ _ Hr)
                  leaf_a Evm) as Hg.
    assert (match get_pending_epoch_for_leaf leaf_a Evm (s_sto reowned_state : Keyspace) with
            | Ok (Some _) => true | _ => false end = true) as Hb by (vm_compute; reflexivity).
    destruct (get_pending_epoch_for_leaf leaf_a Evm _) as [[id|]|e]; try discriminate Hb.
    destruct (si_lookup _ _ (sr_inv _ _ Hr) leaf_a Evm id (eq_sym Hg)) as (p & Hp & Hl & Hm).
    exists id, p. split; [exact Hp|split; [exact Hm|exact Hl]].
Defined.

Lemma by_leaf_serves_owner_witness :
  exists b,
    get_tree_by_leaf (route_state reowned_state) "did:bob" hex_a (Some (as_str Evm))
    = Ok {| status := 200; body := b |} /\
    ti_submitter_did (pair_a reowned_state) = "did:alice" /\
    get_tree_by_leaf (route_state reowned_state) "did:alice" hex_a (Some (as_str Evm))
    = Err (forbidden "leaf submitted by a different DID").
Proof.
  destruct reowned_ready as [A Hr].
  assert (ti_submitter_did (pair_a reowned_state) = "did:alice") as Hd by (vm_compute; reflexivity).
  destruct (by_leaf_serves_owner (route_state reowned_state) "did:bob" "did:alice" hex_a Evm leaf_a
              (tip_a reowned_state) (pair_a reowned_state) A (acc_epoch_id (s_acc reowned_state))
              (sr_absr _ _ Hr) (sr_inv _ _ Hr)) as [Hb Ha].
  - apply parse_leaf_hex_encode.
  - apply (read_owner_a reowned_state A "did:bob" (sr_absr _ _ Hr)). vm_compute. reflexivity.
  - apply (read_tip_a reowned_state A (sr_absr _ _ Hr)). vm_compute. reflexivity.
  - apply (read_pair_a reowned_state A (sr_absr _ _ Hr)). vm_compute. reflexivity.
  - apply (read_checked_a reowned_state A (sr_absr _ _ Hr)). vm_compute. reflexivity.
  - exact Hd.
  - discriminate.
  - apply route_ok_run in Hb as (b & Hb & _); [|vm_compute; reflexivity].
    exists b. split; [exact Hb|]. split; [exact Hd|].
    destruct Ha as [Ha|(e & Ha & fe & [He|He])]; [exact Ha| |];
      rewrite He in Ha; vm_compute in Ha; discriminate Ha.
Defined.

Lemma union_isolated_witness :
  exists A resp,
    union_for_epoch (route_state served_state) "did:alice" 1 Evm = Ok resp /\ status resp = 200 /\
    is_Some (look A epochs 1).
Proof.
  destruct served_ready as [A Hr].
  assert (match union_for_epoch (route_state served_state) "did:alice" 1 Evm with
          | Ok resp => status resp =? 200 | _ => false end = true) as Hb
    by (vm_compute; reflexivity).
  destruct (union_for_epoch (route_state served_state) "did:alice" 1 Evm) as [resp|e] eqn:Hu;
    [|discriminate Hb].
  apply Z.eqb_eq in Hb. exists A, resp. split; [reflexivity|]. split; [exact Hb|].
  exact (proj1 (union_isolated (route_state served_state) "did:alice" 1 Evm A
                  (acc_epoch_id (s_acc served_state)) resp (sr_absr _ _ Hr) (sr_inv _ _ Hr)
                  ltac:(vm_compute; split; congruence) Hu Hb)).
Defined.

(** ** The watcher *)

Lemma sample_node_ok tip : u64_ok tip -> node_ok (sample_node tip).
Proof. intros Hu b [= <-]. exact Hu. Qed.

Lemma watcher_scans_each_block_once_witness :
  win_blocks <$> (watcher_run sample_watcher [sample_node 6; sample_node 6; sample_node 8] watch_start).2
  = [[6]; [7; 8]] /\
  wt_watermark (watcher_run sample_watcher [sample_node 6; sample_node 6; sample_node 8] watch_start).1
  >= 5.
Proof.
  split; [vm_compute; reflexivity|].
  pose proof (watcher_scans_each_block_once sample_watcher [sample_node 6; sample_node 6; sample_node 8]
                watch_start) as Hs.
  destruct (watcher_run sample_watcher [sample_node 6; sample_node 6; sample_node 8] watch_start)
    as [st' wins].
  destruct Hs as (_ & Hle & _); [|vm_compute; split; congruence|cbn in *; lia].
  repeat first [apply Forall_nil_2 | apply Forall_cons_2; [apply sample_node_ok; vm_compute; split; congruence|]].
Defined.

Definition first_tick : WatcherState := tick_state 6 watch_start.

Lemma watcher_credits_witness :
  exists A', represents (view (wt_store first_tick)) A' /\
    look A' watcher_watermark chain_label = Some 6 /\
    ce_fuel_contributed_wei <$> look A' contributor_stats bob = Some 1.
Proof.
  destruct (watcher_credits sample_watcher (sample_node 6) watch_start first_tick
              (tick_window 6 watch_start) empty_store sample_represents) as (A' & Hr & Hw & Hl & _).
  - apply sample_node_ok. vm_compute. split; congruence.
  - vm_compute. split; congruence.
  - apply tick_eq. vm_compute. reflexivity.
  - vm_compute. discriminate.
  - intros ft _. reflexivity.
  - exists A'. split; [exact Hr|]. split; [exact Hw|]. rewrite Hl. vm_compute. reflexivity.
Defined.

Lemma first_tick_represents : exists A, represents (view (wt_store first_tick)) A.
Proof.
  eexists. eapply (watcher_tick_writes sample_watcher (sample_node 6) watch_start first_tick
                     (Some (tick_window 6 watch_start)) empty_store sample_represents).
  - apply sample_node_ok. vm_compute. split; congruence.
  - vm_compute. split; congruence.
  - apply tick_eq. vm_compute. reflexivity.
  - vm_compute. discriminate.
Qed.

