(* ===== verification/ServiceWitnesses.v ===== *)
(** * A concrete service at work

    Instances of the interfaces of [EventStream], [Router] and [Service]; and
    the theorems on the service that [main] starts over an empty store: alice
    signs in, submits a leaf, the loop seals, and she fetches the tree; a stream
    that was open meanwhile tells the epoch. *)

From S2P Require Import Prelude External Merkle Accumulator Witness Selfcheck Epoch Utf8 Kv Storage StoreSpec StoreRefine SealStore Anchors Sealer SealInv SealerProofs SealerTheorems Auth Text Config BondingCurve Vouched SealLoops Watcher WatcherTheorems Identity Pages App Routes RouteTheorems ReadRaces EventStream Router Service ServiceTheorems Samples SampleRun SampleServer ServerWitnesses.
Open Scope string_scope.
Open Scope list_scope.
Open Scope Z_scope.

(** ** A broadcast channel: one queue a receiver *)

Record SampleChannel := { sc_slots : nat; sc_queues : gmap nat Queue }.

#[export] Instance sample_broadcast : Broadcast :=
  {| Channel := SampleChannel;
     channel := fun capacity => {| sc_slots := Z.to_nat capacity; sc_queues := ∅ |};
     tx_send := fun e c =>
       ({| sc_slots := sc_slots c; sc_queues := push (sc_slots c) e <$> sc_queues c |},
        if decide (sc_queues c = ∅) then Err tt else Ok (Z.of_nat (size (sc_queues c))));
     tx_subscribe := fun c =>
       let r := fresh (dom (sc_queues c)) in
       ({| sc_slots := sc_slots c; sc_queues := <[r := ([], O)]> (sc_queues c) |}, r);
     rx_recv := fun r c =>
       match sc_queues c !! r with
       | Some q => ({| sc_slots := sc_slots c; sc_queues := <[r := (pop q).1]> (sc_queues c) |}, (pop q).2)
       | None => (c, None)
       end;
     rx_drop := fun r c => {| sc_slots := sc_slots c; sc_queues := delete r (sc_queues c) |} |}.

#[export] Instance sample_broadcast_laws : BroadcastLaws.
Proof.
  refine {| slots := sc_slots; queues := sc_queues |}; cbn; try done.
  - intros capacity Hc. lia.
  - intros e c. by repeat case_decide.
  - intros c. apply not_elem_of_dom, is_fresh.
  - intros r c q Hq. by rewrite Hq.
  - intros r c Hq. by rewrite Hq.
  - intros r c. by destruct (sc_queues c !! r).
Defined.

(** ** The router: static paths first *)

Definition found_route (method : string) (row : option (string * (string * Route))) (arg : option string) (k : Routed)
    : Routed :=
  match row with
  | Some (_, (m, h)) => if allows m method then Handle h arg else MethodNotAllowed
  | None => k
  end.

Definition static_row (path : string) (row : string * (string * Route)) : bool :=
  bool_decide (path_matches row.1 path = Some None).
Definition matching_row (path : string) (row : string * (string * Route)) : bool :=
  bool_decide (is_Some (path_matches row.1 path)).

Definition sample_route (table : list (string * (string * Route))) (method path : string) : Routed :=
  found_route method (List.find (static_row path) table) None
    (let row := List.find (matching_row path) table in
     found_route method row (row ← row; default None (path_matches row.1 path)) Fallback).

#[export] Instance sample_axum : Axum := {| axum_route := sample_route |}.

Lemma table_row {A} (table : list (string * A)) p x y : NoDup table.*1 -> (p, x) ∈ table -> (p, y) ∈ table -> x = y.
Proof.
  intros Hnd Hx Hy. apply (elem_of_list_to_map_1 (M := gmap string)) in Hx, Hy; [congruence|done..].
Qed.

#[export] Instance sample_axum_laws : AxumLaws.
Proof.
  split.
  - intros table pattern m h method path arg Hnd Hin Hm Hother. cbn. unfold sample_route.
    destruct (List.find (static_row path) table) as [[p [m' h']]|] eqn:Hf.
    + apply find_some in Hf as [Hp%list_elem_of_In Hs%bool_decide_eq_true]. cbn [fst] in Hs.
      destruct (decide (p = pattern)) as [->|Hne].
      * rewrite Hm in Hs. injection Hs as ->. by injection (table_row _ _ _ _ Hnd Hin Hp) as <- <-.
      * destruct (Hother _ _ Hp Hne) as [_ Hl]; [by eexists|]. exfalso. revert Hs Hl. unfold path_matches.
        destruct (literal p) as [pre []]; [|done]. cbn. destruct (strip_prefix pre path) as [seg|]; [|done]. cbn.
        by destruct (_ || _).
    + cbn [found_route]. destruct (List.find (matching_row path) table) as [[p [m' h']]|] eqn:Hf2.
      * apply find_some in Hf2 as [Hp%list_elem_of_In Hs%bool_decide_eq_true]. cbn [fst] in Hs.
        assert (arg <> None) as Ha.
        { intros ->. eapply List.find_none in Hf; [|by apply list_elem_of_In, Hin].
          cbn [fst] in Hf. by apply bool_decide_eq_false in Hf. }
        destruct (decide (p = pattern)) as [->|Hne]; [|by destruct (Hother _ _ Hp Hne Hs)].
        injection (table_row _ _ _ _ Hnd Hin Hp) as <- <-. cbn. by rewrite Hm.
      * eapply List.find_none in Hf2; [|by apply list_elem_of_In, Hin]. cbn [fst] in Hf2.
        apply bool_decide_eq_false in Hf2. destruct Hf2. by eexists.
  - intros table method path Hno. cbn. unfold sample_route.
    destruct (List.find (static_row path) table) as [[p x]|] eqn:Hf.
    { apply find_some in Hf as [Hp%list_elem_of_In Hs%bool_decide_eq_true]. cbn [fst] in Hs.
      by rewrite (Hno _ _ Hp) in Hs. }
    destruct (List.find (matching_row path) table) as [[p x]|] eqn:Hf2; [|done].
    apply find_some in Hf2 as [Hp%list_elem_of_In Hs%bool_decide_eq_true]. cbn [fst] in Hs.
    rewrite (Hno _ _ Hp) in Hs. by destruct Hs.
Qed.


(** ** Extractors: the query and the body are the one value they carry *)

Definition utf8_or (s : string) : result Rejection string :=
  if valid_utf8 s then Ok s else Err {| rj_status := 400; rj_text := "not UTF-8" |}.

#[export] Instance sample_extractors : Extractors :=
  {| query_challenge := utf8_or;
     query_epochs := fun _ => Ok (None, None);
     query_leaderboard := fun q => Ok (Some q);
     query_trees := fun q => Ok (if decide (q = "") then (None, None) else (Some 1, Some q));
     query_by_leaf := fun q => Ok (Some q);
     path_string := fun s => Ok s;
     json_session := fun _ b =>
       let? did := utf8_or (of_bytes b) in
       Ok {| sr_did := did; sr_nonce := "nonce"; sr_signature := "0x" +:+ hex_encode (as_bytes did) |};
     json_leaves := fun _ b => Ok [of_bytes b] |}.

#[export] Instance sample_extractor_laws : ExtractorLaws.
Proof.
  split; cbn.
  - intros q did. unfold utf8_or. by destruct (valid_utf8 q) eqn:Hv; [intros [= <-]|].
  - intros q epoch m. case_decide; [done|]. intros [= <- _]. vm_compute. split; congruence.
  - intros ct b req. unfold utf8_or. destruct (valid_utf8 _) eqn:Hv; [|done]. cbn. by intros [= <-].
  - intros ct b leaves [= <-]. vm_compute. congruence.
Qed.

#[export] Instance sample_auth_start : AuthStart :=
  {| ChallengeStore_new := fun _ _ _ => ∅ : gmap string (string * string);
     SessionStore_new := fun _ => ∅ : gmap string string |}.

#[export] Instance sample_auth_start_laws : AuthStartLaws.
Proof. by split. Qed.

(** ** The process *)

Definition sample_process : Process :=
  {| read_to_string := fun _ => Ok ""; toml_from_str := fun _ => Ok sample_cfg;
     parse_socket_addr := Some; bind := fun _ => Ok tt |}.
Definition sample_assets : Assets :=
  {| as_landing := "{SERVICE_ADDRESS}"; as_docs := ""; as_skill := ""; as_skill_auth := "";
     as_favicon := ""; as_touch_icon := ""; as_blueprint := ""; as_build := ("", "", "", "") |}.
Definition quiet_node : NodeReading :=
  {| nr_url := Err "down"; nr_block_number := Err "down"; nr_block := fun _ => Err "down" |}.

Definition sample_start : result StartError (Deployment * Server) :=
  service_main sample_process "config.toml" (Some "words") Finalized sample_assets sample_keyspace 0 quiet_node
    (sample_world EvmVerified).

Definition sample_dp : Deployment :=
  {| dp_allowed_dids := []; dp_max_leaves_per_request := 10000; dp_duration_secs := 60; dp_max_pool_size := 500;
     dp_max_anchor_faults := 3; dp_identity_response_json := VNull;
     dp_pages := rendered "" "" "" "" sample_identity; dp_favicon := ""; dp_touch_icon := ""; dp_blueprint := "";
     dp_build := ("", "", "", "") |}.
Definition sample_server : Server :=
  {| sv_seal := sample_state (acc_new 1 0 60) EvmVerified; sv_auth := empty_stores;
     sv_bus := EventBus_new EVENT_BUS_CAPACITY; sv_watermark := 0 |}.

Lemma empty_vouched : vouched "did:service" empty_store.
Proof. split; intros *; unfold look, empty_store; by rewrite lookup_empty. Qed.

Lemma sample_server_inv : service_inv "did:service" empty_stores [] empty_store sample_server.
Proof.
  split.
  - apply sample_ready; [apply acc_inv_new|vm_compute; split; congruence|constructor].
  - exact empty_vouched.
  - reflexivity.
  - constructor.
  - vm_compute. split; congruence.
Qed.

Lemma main_starts_witness :
  exists dp s, sample_start = Ok (dp, s) /\ fresh_auth (sv_auth s) /\ dp_max_leaves_per_request dp = 10000 /\
    service_inv "did:service" (sv_auth s) [] empty_store s.
Proof.
  assert (is_ok sample_start = true) as Hok by (vm_compute; reflexivity).
  destruct sample_start as [[dp s]|e] eqn:Hs; [|discriminate Hok].
  exists dp, s. split; [reflexivity|]. unfold sample_start in Hs.
  assert (u64_ok (initial_watermark sample_keyspace quiet_node)) as Hw by (vm_compute; split; congruence).
  assert (0 <= 0 < U64_MAX) as Hz by (vm_compute; split; congruence).
  destruct (main_starts "did:service" _ _ _ _ _ _ _ _ _ empty_store 0 dp s sample_represents
              (empty_store_inv 0) Hz empty_vouched Hw Hs)
    as (Hf & Hi & _ & _ & text & cfg & identity & ctx & _ & Hcfg & _ & _ & _ & _ & _ & _ & _ & _ & _ & Hm).
  split; [exact Hf|]. split; [|exact Hi]. rewrite Hm. cbn in Hcfg. injection Hcfg as <-. vm_compute. reflexivity.
Defined.

(** ** A run on the wire *)

Definition request (method path query : string) (authorization : option string) (body : bytes) : HttpRequest :=
  {| hq_method := method; hq_path := path; hq_query := query; hq_authorization := authorization;
     hq_content_type := Some "application/json"; hq_body := body |}.

Definition alice_token : option string := Some "Bearer token".
Definition alice_run : list service_op :=
  [OpHttp (request "GET" "/auth/challenge" "did:alice" None []) 0 0;
   OpHttp (request "POST" "/auth/session" "" None (as_bytes "did:alice")) 1 1;
   OpHttp (request "POST" "/v1/leaves" "" alice_token (as_bytes (hex_encode (arr leaf_a)))) 2 2;
   OpHttp (request "POST" "/v1/leaves" "" None (as_bytes (hex_encode (arr leaf_b)))) 3 3;
   OpSeal 60 60 (Some sample_ctx)].

Definition fetch_request (auth : option string) : HttpRequest :=
  request "GET" ("/trees/by-leaf/" +:+ hex_encode (arr leaf_a)) "evm" auth [].

Lemma alice_run_ok : Forall (service_op_ok "did:service") alice_run.
Proof. repeat constructor. Qed.

Lemma fresh_stores : fresh_auth empty_stores.
Proof. by split. Qed.

Definition tree_of (r : HttpResponse) : option (gmap string Value) :=
  match r with
  | RsJson st (BTree revs _) => if decide (st = 200) then Some revs else None
  | _ => None
  end.

Example fetched_tree :
  size <$> tree_of (serve sample_dp (fetch_request alice_token) 61 61 (service_state sample_dp alice_run sample_server)).2
  = Some 2%nat.
Proof. vm_compute. reflexivity. Qed.

Example nobody_fetches :
  match (serve sample_dp (fetch_request None) 61 61 (service_state sample_dp alice_run sample_server)).2 with
  | RsError e => ae_status e
  | _ => 0
  end = 401.
Proof. vm_compute. reflexivity. Qed.

Lemma tree_answer_vouched_witness :
  exists revs files k v,
    (serve sample_dp (fetch_request alice_token) 61 61 (service_state sample_dp alice_run sample_server)).2
      = RsJson 200 (BTree revs files) /\ revs !! k = Some v /\
    (exists caller, signed_in (auth_history alice_run) empty_stores caller "token") /\
    exists h rev, k = revision_wire_hex h /\ revision_of (of_service "did:service") h rev /\ json_of rev v.
Proof.
  pose proof fetched_tree as Hsz.
  destruct (serve sample_dp (fetch_request alice_token) 61 61 (service_state sample_dp alice_run sample_server)).2
    as [| | | |st [| | | | | | |revs files|]| | | | | | | |] eqn:He; try discriminate Hsz.
  cbn [tree_of] in Hsz. destruct (decide (st = 200)) as [->|]; [|discriminate Hsz].
  exists revs, files.
  destruct (tree_answer_vouched "did:service" empty_stores sample_dp alice_run empty_store sample_server
              (fetch_request alice_token) 61 61 revs files fresh_stores sample_server_inv alice_run_ok
              ltac:(vm_compute; reflexivity) He)
    as (value & rest & caller & A' & Hv & Hr & Hs & _ & _ & Hrevs).
  injection Hv as <-. cbn in Hr. injection Hr as <-.
  destruct (map_choose revs) as (k & v & Hk).
  { intros ->. discriminate Hsz. }
  exists k, v. split; [reflexivity|]. split; [exact Hk|]. split.
  - exists caller. exact Hs.
  - destruct (Hrevs k v Hk) as [_ Hh]. exact Hh.
Defined.

Definition stream_run : list service_op := alice_run ++ [OpTick 90; OpPoll 0; OpPoll 0; OpPoll 0].
Definition events_request : HttpRequest := request "GET" "/events" "" None [].

Example stream_told :
  sse_events (fun e => Ok (event_name e))
    (polled sample_dp 0 stream_run (serve sample_dp events_request 0 0 sample_server).1)
  = [{| fr_event := "epoch:sealed"; fr_data := "epoch:sealed" |};
     {| fr_event := "health:tick"; fr_data := "health:tick" |}].
Proof. vm_compute. reflexivity. Qed.


(** ** A seal between two reads *)

Definition waiting_state : SealState :=
  fold_left svc_step [SvcSubmit [leaf_a] "did:bob"; SvcSeal 60 60 (Some down_ctx)]
    (sample_state (acc_new 1 0 60) EvmVerified).
Definition minted_state : SealState := svc_step waiting_state (SvcSeal 120 60 (Some sample_ctx)).

(** The seal comes between the second and the third read. *)
Definition racing_reads (n : nat) : Keyspace :=
  if (n <? 2)%nat then s_sto waiting_state else s_sto minted_state.

Example raced_404 :
  match get_tree_by_leaf_at (SampleServer.route_state minted_state) racing_reads "did:bob" hex_a (Some (as_str Evm)) with
  | Ok resp => status resp
  | Err e => ae_status e
  end = 404 /\
  match get_tree_by_leaf (SampleServer.route_state minted_state) "did:bob" hex_a (Some (as_str Evm)) with
  | Ok resp => status resp
  | Err e => ae_status e
  end = 200.
Proof. vm_compute. split; reflexivity. Qed.

Lemma waiting_minted : exists A A', seal_ready A waiting_state /\ seal_ready A' minted_state /\ nothing_lost A A'.
Proof.
  assert (Forall svc_op_ok [SvcSubmit [leaf_a] "did:bob"; SvcSeal 60 60 (Some down_ctx)]) as Ho
    by (repeat first [apply Forall_nil_2 | apply Forall_cons_2; [by try split|]]).
  assert (seal_ready empty_store (sample_state (acc_new 1 0 60) EvmVerified)) as Hz
    by (apply sample_ready; [apply acc_inv_new|vm_compute; split; congruence|constructor]).
  destruct (svc_run_ready _ _ _ Hz Ho) as (A & Hr & _); [vm_compute; reflexivity|].
  destruct (svc_run_ready [SvcSeal 120 60 (Some sample_ctx)] A waiting_state Hr) as (A' & Hr' & Hn).
  - by repeat constructor.
  - vm_compute. reflexivity.
  - exists A, A'. split; [exact Hr|]. split; [exact Hr'|exact Hn].
Qed.

(** A store without bytes in a partition has nothing there. *)
Lemma empty_partition (ks : Keyspace) (A : AStore) p k :
  represents (view ks) A -> view ks p = ∅ -> ~ is_Some (look A p k).
Proof.
  intros Hr He [v Hv]. destruct (rep_fwd _ _ _ _ _ (Hr p) k v Hv) as (vb & Hb & _). rewrite He in Hb.
  by rewrite lookup_empty in Hb.
Qed.

Lemma waiting_grows A A' : seal_ready A waiting_state -> nothing_lost A A' -> grows A A'.
Proof.
  intros Hr Hn.
  pose proof (sr_absr _ _ Hr : represents (view (s_sto waiting_state : Keyspace)) A) as HA.
  assert (forall p k, view (s_sto waiting_state : Keyspace) p = ∅ -> ~ is_Some (look A p k)) as Hno
    by (intros p k; by apply empty_partition).
  split; [exact Hn|intros t Ht..]; exfalso; revert Ht; apply Hno; vm_compute; reflexivity.
Qed.

Lemma own_leaf_raced_witness :
  exists A, raced A leaf_a Evm (get_tree_by_leaf_at (SampleServer.route_state minted_state) racing_reads "did:bob" hex_a
    (Some (as_str Evm))) /\ served (A 2%nat) leaf_a Evm.
Proof.
  destruct waiting_minted as (A0 & A1 & Hr0 & Hr1 & Hn).
  set (A := fun n : nat => if (n <? 2)%nat then A0 else A1).
  set (next := fun n : nat => if (n <? 2)%nat then acc_epoch_id (s_acc waiting_state) else acc_epoch_id (s_acc minted_state)).
  pose proof (sr_absr _ _ Hr0 : represents (view (s_sto waiting_state : Keyspace)) A0) as HA0.
  pose proof (sr_absr _ _ Hr1 : represents (view (s_sto minted_state : Keyspace)) A1) as HA1.
  assert (forall i, represents (view (racing_reads i)) (A i)) as Hr.
  { intros [|[|i]]; [exact HA0|exact HA0|exact HA1]. }
  assert (forall i, store_inv (A i) (next i)) as Hi.
  { intros [|[|i]]; [exact (sr_inv _ _ Hr0)|exact (sr_inv _ _ Hr0)|exact (sr_inv _ _ Hr1)]. }
  assert (forall i, grows (A i) (A (S i))) as Hg.
  { intros [|[|i]]; [reflexivity|exact (waiting_grows A0 A1 Hr0 Hn)|reflexivity]. }
  assert (look A0 leaf_owner leaf_a = Some "did:bob") as Ho.
  { apply (read_owner_a waiting_state A0 "did:bob" HA0). vm_compute. reflexivity. }
  assert (exists id, outstanding A0 id leaf_a Evm) as Hout.
  { pose proof (get_pending_epoch_read (s_sto waiting_state : Keyspace) A0 HA0 leaf_a Evm) as Hp.
    assert (match get_pending_epoch_for_leaf leaf_a Evm (s_sto waiting_state : Keyspace) with
            | Ok (Some _) => true | _ => false end = true) as Hb by (vm_compute; reflexivity).
    destruct (get_pending_epoch_for_leaf leaf_a Evm _) as [[id|]|e]; try discriminate Hb.
    destruct (si_lookup _ _ (sr_inv _ _ Hr0) leaf_a Evm id (eq_sym Hp)) as (p & Hpe & Hl & Hm).
    exists id, p. split; [exact Hpe|split; [exact Hm|exact Hl]]. }
  exists A. destruct raced_404 as [H404 _].
  destruct (own_leaf_raced (SampleServer.route_state minted_state) racing_reads "did:bob" hex_a Evm leaf_a A next Hr Hi Hg
              (parse_leaf_hex_encode leaf_a) Ho (or_introl Hout)) as [[Hra _]|(e & He & Hf)].
  - split; [exact Hra|]. destruct Hra as [t idx revs files _ _ _|resp Hst|resp t Hst _ _|_ Hs].
    + discriminate H404.
    + cbn in H404. rewrite H404 in Hst. destruct Hst as [Hst|Hst]; discriminate Hst.
    + cbn in H404. rewrite H404 in Hst. discriminate Hst.
    + exact Hs.
  - exfalso. rewrite He in H404. destruct Hf as [fe [->| ->]]; discriminate H404.
Defined.
