(* ===== verification/SampleClient.v ===== *)
(** * A concrete client

    Instances of the client's interfaces over the toy SDK of [Samples], the wire
    between them, and a service whose second leaf waits for its anchor. *)

From S2P Require Import Prelude External Merkle Accumulator Witness Selfcheck Epoch Utf8 Kv Storage StoreSpec StoreRefine SealStore Anchors Sealer SealInv SealerProofs SealerTheorems Auth Text Config Routes RouteTheorems Client ClientIdentity ClientServer ServedLeaf KnownServers Samples SampleRun SampleServer.
Open Scope string_scope.
Open Scope list_scope.
Open Scope Z_scope.

(** ** JSON texts: a value's binary text; a nested object is its own text *)

Definition text_of {A} `{Bin A} (x : A) : string := of_bytes (put x).
Definition parse_text {A} `{Bin A} (s : string) : option A :=
  match pull (as_bytes s) with Some (x, []) => Some x | _ => None end.

Lemma parse_text_of {A} `{Bin A} (x : A) : parse_text (text_of x) = Some x.
Proof.
  unfold parse_text, text_of. rewrite as_bytes_of_bytes.
  rewrite <- (right_id_L [] (++) (put x)), pull_put. done.
Qed.

Abbreviation sample_revision := (SampleObject + SampleSignature)%type.

#[export] Instance sample_client : ClientCrates :=
  {| json_from_str := fun s => ok_or (parse_text (A := SampleValue) s) "not JSON";
     json_object := fun v =>
       match v with VStr s => parse_text (A := list (string * SampleValue)) s | _ => None end;
     strings_from_value := fun v => match v with VStr s => Ok [s] | _ => Ok [] end;
     rev_from_value := fun v =>
       match v with VStr s => ok_or (parse_text (A := sample_revision) s) "not a revision" | _ => Err "not a revision" end;
     is_timestamp_object := fun r : sample_revision => match r with inl _ => true | inr _ => false end;
     verify_signature_sync := fun (r : sample_revision) h =>
       match r with
       | inr s => bool_decide (h = ("0x1620" +:+ hex_encode (arr (raise 2 (ss_prev s))))%string)
       | inl _ => false
       end |}.

Definition revision_value (r : sample_revision) : Value := VStr (text_of (A := sample_revision) r).
Definition object_value (fields : list (string * Value)) : Value := VStr (text_of (A := list (string * SampleValue)) fields).

#[export] Instance sample_wire : WireJson :=
  {| body_text := fun b =>
       text_of (A := SampleValue) match b with
               | BLeaves r =>
                   VObj [("accepted", inr (lr_accepted r)); ("duplicates", inr (lr_duplicates r));
                         ("epoch_id", inr (lr_epoch_id r));
                         ("epoch_closes_at", inr (lr_epoch_closes_at r));
                         ("submitter_did", inl (lr_submitter_did r))]
               | BTree revs _ => VObj [("revisions", inl (text_of (A := list (string * SampleValue)) (map_to_list revs)))]
               | _ => VObj []
               end;
     error_text := ae_msg |}.

#[export] Instance sample_wire_laws : WireLaws.
Proof.
  split.
  - intros r. eexists. split; [exact (f_equal (fun o => ok_or o "not JSON") (parse_text_of (A := SampleValue) _))|]. done.
  - intros revs files. eexists _, _, (map_to_list revs). split; [exact (f_equal (fun o => ok_or o "not JSON") (parse_text_of (A := SampleValue) _))|].
    split; [done|]. split; [exact (parse_text_of (A := list (string * SampleValue)) _)|done].
  - intros sb. eexists. split; [exact (f_equal (fun o => ok_or o "not JSON") (parse_text_of (A := SampleValue) _))|]. done.
  - intros rev v (b & Hb & Hv). injection Hb as <-. injection Hv as <-.
    exact (f_equal (fun o => ok_or o "not a revision") (parse_text_of (A := sample_revision) rev)).
Qed.

#[export] Instance sample_client_laws : ClientSdkLaws.
Proof.
  split.
  - by intros [o|s] o'.
  - intros [o|s] sig h; [done|]. intros [= <-] [= Hc]. cbn.
    apply bool_decide_eq_true. unfold signature_link in Hc. case_bool_decide; [|done].
    apply bool_decide_eq_true in Hc as <-. done.
  - intros a b Hab. unfold revision_wire_hex in Hab. cbn in Hab.
    apply (f_equal (strip_prefix "0x1620")) in Hab. rewrite !strip_prefix_app in Hab.
    injection Hab as Hab. by apply arr_inj, hex_encode_inj.
Qed.

(** ** The service with a leaf of bob's whose anchor is outstanding *)

Definition pending_state : SealState :=
  fold_left svc_step second_epoch (sample_state (acc_new 1 0 60) EvmVerified).

Lemma pending_ready : exists A, seal_ready A pending_state.
Proof.
  destruct (svc_run_ready second_epoch empty_store (sample_state (acc_new 1 0 60) EvmVerified))
    as (A & Hr & _).
  - apply sample_ready; [apply acc_inv_new|vm_compute; split; congruence|constructor].
  - apply second_epoch_ok.
  - vm_compute. reflexivity.
  - by exists A.
Qed.

#[export] Instance sample_timestamp_laws : TimestampLaws.
Proof.
  split. intros p ls f trees tree i l link rev [= <-] Ht Hl. unfold sample_finish in Ht.
  rewrite !list_lookup_fmap, Hl in Ht. injection Ht as <-. intros Hfil.
  assert ((link, rev) ∈ [(link, rev)]) as Hin by left. rewrite <- Hfil in Hin.
  apply list_elem_of_filter in Hin as [Hn Hin]. cbn in Hn, Hin.
  repeat (apply elem_of_cons in Hin as [[= -> ->]|Hin]); [done|done|by apply elem_of_nil in Hin].
Qed.

(** ** The known-servers file *)

#[export] Instance bin_known : Bin Entry :=
  bin_via (fun e => (KnownServers.base_url e, KnownServers.did e, first_seen_at e, last_seen_at e))
    (fun '(a, b, c, d) => Build_Entry a b c d) ltac:(by intros []).

(** A line [{hex}]; an entry whose line is not one would be refused. *)
Definition known_line (e : Entry) : string := ("{" +:+ hex_encode (put e) +:+ "}")%string.
Definition known_line_ok (s : string) : bool :=
  bool_decide (trim s = s) && bool_decide (s <> "") && bool_decide (strip_cr s = s) &&
  forallb (fun c => bool_decide (String c EmptyString <> newline)) (String.list_ascii_of_string s) &&
  valid_utf8 s.
Definition known_parse (s : string) : option Entry :=
  match strip_prefix "{" s with
  | Some r =>
      match hex_decode (String.substring 0 (String.length r - 1) r) with
      | Ok b => match pull b with Some (e, []) => Some e | _ => None end
      | Err _ => None
      end
  | None => None
  end.

#[export] Instance sample_entries : EntryCrates :=
  {| entry_to_string := fun e =>
       if known_line_ok (known_line e) && bool_decide (known_parse (known_line e) = Some e)
       then Ok (known_line e) else Err (OtherIo "not a line");
     entry_from_str := known_parse;
     values := fun m => (map_to_list m).*2 |}.

#[export] Instance sample_entry_laws : EntryLaws.
Proof.
  split; [|done]. intros e s. cbn -[known_line_ok known_line known_parse].
  destruct (known_line_ok (known_line e) && _)%bool eqn:Hok; [|done]. intros [= <-].
  apply andb_true_iff in Hok as [Hok Hp%bool_decide_eq_true]. unfold known_line_ok in Hok.
  repeat (apply andb_true_iff in Hok as [Hok ?]).
  split_and!; try (done || by eapply bool_decide_eq_true_1).
  apply Forall_forall. intros c Hc%list_elem_of_In.
  match goal with Hf : forallb _ _ = true |- _ => rewrite forallb_forall in Hf; apply Hf in Hc end.
  by apply bool_decide_eq_true in Hc.
Qed.

Definition known_path : PathBuf := {| dir := ["home"]; file_name := "known_servers" |}.
Definition known_empty : KnownServersFile := {| path := known_path; entries := ∅ |}.
