(* ===== verification/ClientWitnesses.v ===== *)
(** * The client's theorems on the concrete client *)

From S2P Require Import Prelude External Merkle Accumulator Witness Selfcheck Epoch Utf8 Text Kv Storage StoreSpec StoreRefine SealStore Anchors Sealer SealInv SealerProofs SealerTheorems Vouched SealLoops Auth Config BondingCurve Identity Pages App Routes RouteTheorems EventStream Router Service ServiceTheorems Samples SampleRun SampleServer ServerWitnesses ServiceWitnesses Snapshot Client ClientAuth ClientIdentity ClientTheorems ClientServer ServedLeaf KnownServers HarnessPoll SampleClient.
Open Scope string_scope.
Open Scope list_scope.
Open Scope Z_scope.

(** ** The token cache *)

Definition after (evs : list auth_event) : AuthState :=
  match auth_trace evs auth_new with Some st => st | None => auth_new end.

Lemma ensure_token_sound_witness :
  tasks (after race) !! 1%nat = Some (Returned (Ok "token")) /\ issued race "token".
Proof.
  assert (auth_trace race auth_new = Some (after race)) as Ht by (vm_compute; reflexivity).
  assert (tasks (after race) !! 1%nat = Some (Returned (Ok "token"))) as Hr by (vm_compute; reflexivity).
  split; [exact Hr|].
  exact (proj2 (ensure_token_sound race (after race) Ht) 1%nat "token" Hr).
Defined.

Lemma race_quiet : quiet (after race).
Proof.
  apply quiet_if. intros t s Hs.
  destruct (rests_all (tasks (after race)) ltac:(vm_compute; reflexivity) t s Hs) as [?|[->|?]];
    [by left| |by right].
  assert (forallb (fun us => negb (bool_decide (us.2 = Checking))) (map_to_list (tasks (after race))) = true)
    as Hall by (vm_compute; reflexivity).
  rewrite forallb_forall in Hall. apply elem_of_map_to_list, list_elem_of_In, Hall in Hs. done.
Qed.

Lemma quiet_only_waits_witness :
  in_flight (after race) = false /\ tasks (after race) !! 2%nat = Some Waiting /\
  exists st', auth_trace [EStart 3; ECheck 3 5000; EClaim 3; ERefresh 3 (Err "down"); ERelease 3; ENotify 3]
                (after race) = Some st' /\ forall u, tasks st' !! u <> Some Waiting.
Proof.
  destruct (quiet_only_waits race (after race)) as (Hf & _ & Hwake).
  - repeat constructor.
  - vm_compute. reflexivity.
  - exact race_quiet.
  - split; [exact Hf|]. split; [vm_compute; reflexivity|].
    apply Hwake; vm_compute; reflexivity.
Defined.

Definition refreshing : list auth_event := [EStart 1; ECheck 1 0; EClaim 1].
Definition afterwards : list auth_event := [EStart 2; ECheck 2 0; EClaim 2; ESubscribe 2].

Lemma dropped_refresh_blocks_witness :
  in_flight (after (refreshing ++ ECancel 1 :: afterwards)) = true /\
  cached (after (refreshing ++ ECancel 1 :: afterwards)) = None.
Proof.
  destruct (dropped_refresh_blocks refreshing (after refreshing) 1 afterwards
              (after (refreshing ++ ECancel 1 :: afterwards))) as (Hf & Hc & _);
    [vm_compute; reflexivity..|]. split; [exact Hf|exact Hc].
Defined.

(** ** Extraction and polling *)

Definition sample_obj : string * AnyRevision :=
  ("object", inl {| so_prev := leaf_a; so_payload := VNull |} : AnyRevision).
Definition sample_sig : string * AnyRevision :=
  (("0x1620" +:+ hex_encode (arr (raise 2 (raise 1 leaf_a))))%string,
   inr {| ss_prev := raise 1 leaf_a; ss_signer := "did:service" |} : AnyRevision).
Definition sample_obj' : string * AnyRevision :=
  (("0x1620" +:+ hex_encode (arr (raise 1 leaf_a)))%string, sample_obj.2).

Lemma extract_witness_pair_spec_witness :
  exists wp, extract_witness_pair [sample_obj'; sample_sig] Client.Evm "did:service" = Ok wp /\
    signature_hash wp = sample_sig.1.
Proof.
  eexists. split.
  - apply (extract_witness_pair_spec [sample_obj'; sample_sig] [sample_sig; sample_obj'] Client.Evm "did:service").
    + apply perm_swap.
    + exists sample_sig, sample_obj'. split; [reflexivity|]. split; [reflexivity|].
      split; [eexists; split; [reflexivity|split; reflexivity]|].
      split; [apply bool_decide_eq_true; reflexivity|reflexivity].
  - reflexivity.
Defined.

Definition sample_schedule (id : option u64) : EpochSchedule :=
  {| es_current_epoch_id := 2; es_current_epoch_opened_at := 60; es_current_epoch_closes_at := 120;
     es_epoch_duration_secs := 60; es_last_sealed_epoch_id := id; es_last_sealed_at := None;
     es_anchor_methods := ["evm"; "qtsa"] |}.
Definition sample_receipt : SubmissionReceipt :=
  {| rc_leaf := leaf_a; rc_epoch_id := 1; rc_epoch_closes_at := 60; rc_submitter_did := "did:alice" |}.
Definition open_round (t : Duration) : Round :=
  {| ro_top := t; ro_schedule := Ok (sample_schedule None); ro_fetch := Ok None; ro_before_nap := t + 1; ro_at_timeout := t + 1 |}.

(** Polling every 5 for 12: the third round naps for the last of it. *)
Lemma await_witness_ends_witness :
  await_witness 5 12 sample_receipt [open_round 0; open_round 6; open_round 12; open_round 20]
  = Some (Err (Timeout 12)) /\
  exists r, await_witness 5 12 sample_receipt [open_round 0; open_round 6; open_round 12; open_round 20]
            = Some r.
Proof.
  split; [reflexivity|].
  destruct (await_witness_ends 5 12 sample_receipt [open_round 0; open_round 6; open_round 12; open_round 20])
    as (r & Hr & _); [lia|vm_compute; repeat split; discriminate|cbn; lia|discriminate|].
  exists r. exact Hr.
Defined.

(** ** Pinning *)

Definition sample_claim : Value :=
  object_value [("revisions", object_value [(sample_sig.1, revision_value sample_sig.2);
                                            (sample_obj'.1, revision_value sample_obj'.2)])].
Definition claim_text : string :=
  match sample_claim with
  | VStr s => text_of (A := SampleValue) (VObj [("server_did", inl "did:service"); ("identity_claim", inl s)])
  | _ => ""
  end.
Definition sample_builder : TimestampClientBuilder :=
  builder_signer
    (builder_my_did "did:alice"
       (builder_base_url "https://x.example"
          (builder_poll_interval (secs 1)
             (builder_request_timeout (secs 20) (builder_expect_server_did "did:service" Refuse builder_empty))))).
Definition sample_build : result ClientError TimestampClient :=
  build (fun u => Ok u) (Ok tt) (fun _ => "200 OK")
    (fun _ => Ok {| hr_status := 200; hr_body := claim_text |}) (Ok "token") sample_builder.


(** ** Against the service *)

Lemma submit_end_to_end_witness :
  exists receipts, submit_many (Ok "token")
      (fun _ _ => http_reply (submit_leaves (route_state served_state) "did:bob"
                                (lq_leaves (leaves_request [leaf_a; leaf_b]))).2) [leaf_a; leaf_b]
    = Ok receipts /\ length receipts = 2%nat.
Proof.
  destruct (submit_end_to_end (route_state served_state) "did:bob" "token" [leaf_a; leaf_b])
    as [(_ & _ & _ & Hr & _)|(_ & st & text & Hr & _)].
  - destruct served_ready as [A Hr]. exact (sr_acc _ _ Hr).
  - vm_compute. discriminate.
  - discriminate.
  - eexists. split; [exact Hr|]. reflexivity.
  - exfalso. assert (is_ok (submit_many (Ok "token")
      (fun _ _ => http_reply (submit_leaves (route_state served_state) "did:bob"
                                (lq_leaves (leaves_request [leaf_a; leaf_b]))).2) [leaf_a; leaf_b]) = true)
      as Hok by (vm_compute; reflexivity).
    rewrite Hr in Hok. discriminate Hok.
Defined.

(** What the self-check passes has a link, and no two such revisions the same. *)
Lemma service_revision_link h r :
  revision_of (of_service "did:service") h r ->
  match r with inl o => object_link o = Ok h | inr s => signature_link s = Ok h end.
Proof.
  intros (w & [_ [hosts (p & Hc & _ & Hs)%verify_minted_witness_verified]] & [[-> ->]|[-> ->]]).
  - unfold content_and_inclusion in Hc. cbn in Hc. destruct (w_object_revision w) as [o|]; [|done].
    destruct (object_link o); [|done]. case_decide; [by subst|done].
  - unfold service_signature in Hs. cbn in Hs. destruct (w_signature_revision w) as [|s]; [done|].
    destruct (signature_link s) as [l|]; cbn in Hs; [|done].
    case_bool_decide; [by subst|done].
Qed.

Lemma sample_no_collision : no_collision "did:service".
Proof.
  intros h r r' Hr%service_revision_link Hr'%service_revision_link.
  destruct r as [o|s], r' as [o'|s'].
  - f_equal. by eapply object_link_inj.
  - by destruct (links_apart o s' h).
  - by destruct (links_apart o' s h).
  - f_equal. by eapply signature_link_inj.
Qed.

Lemma sample_vouched : vouched "did:service" empty_store.
Proof. split; unfold look, empty_store; intros *; cbn; by rewrite lookup_empty. Qed.

Lemma first_epoch_seals : Forall (seals_as "did:service") first_epoch.
Proof. repeat constructor. Qed.

Lemma service_vouched_witness :
  exists A', seal_ready A' served_state /\
    exists w, of_service "did:service" w /\ w_leaf w = leaf_a /\ w_method w = Witness.Evm /\ in_store A' w.
Proof.
  destruct (service_vouched "did:service" first_epoch empty_store
              (sample_state (acc_new 1 0 60) EvmVerified)) as (A' & Hr & _ & Hh).
  - apply sample_ready; [apply acc_inv_new|vm_compute; split; congruence|constructor].
  - exact sample_vouched.
  - exact first_epoch_ok.
  - exact first_epoch_seals.
  - vm_compute. reflexivity.
  - exists A'. split; [exact Hr|].
    destruct (Hh sample_no_collision leaf_a Witness.Evm (tip_a served_state)) as (w & Hw & Hl & Hm & _ & Ho).
    + apply (read_tip_a served_state A' (sr_absr _ _ Hr)). vm_compute. reflexivity.
    + exists w. split; [exact Hw|]. split; [exact Hl|]. split; [exact Hm|exact Ho].
Defined.

Lemma served_leaf_fetched_witness :
  exists w, of_service "did:service" w /\ w_leaf w = leaf_a /\
    fetched (route_state served_state) "did:alice" "did:service" "token" leaf_a Client.Evm
    = Ok (Some (handed_out Client.Evm w)).
Proof.
  destruct (served_leaf_fetched "did:service" first_epoch empty_store
              (sample_state (acc_new 1 0 60) EvmVerified)) as (A' & Hr & Hf).
  - apply sample_ready; [apply acc_inv_new|vm_compute; split; congruence|constructor].
  - exact sample_vouched.
  - exact sample_no_collision.
  - exact first_epoch_ok.
  - exact first_epoch_seals.
  - vm_compute. reflexivity.
  - destruct (Hf (route_state served_state) "did:alice" "token" leaf_a Client.Evm) as (w & Hw & Hl & _ & Hx).
    + reflexivity.
    + apply (read_owner_a served_state A' "did:alice" Hr). vm_compute. reflexivity.
    + exists (tip_a served_state). split.
      * apply (read_tip_a served_state A' Hr). vm_compute. reflexivity.
      * apply (read_checked_a served_state A' Hr). vm_compute. reflexivity.
    + exists w. split; [exact Hw|]. split; [exact Hl|]. destruct Hx as [Hx|(e & _ & He)]; [exact Hx|].
      exfalso.
      assert (is_ok (fetched (route_state served_state) "did:alice" "did:service" "token" leaf_a Client.Evm)
              = true) as Hok by (vm_compute; reflexivity).
      rewrite He in Hok. discriminate Hok.
Defined.

(** Bob's epoch is sealed, its anchor outstanding. *)
Definition sealed_round : Round :=
  {| ro_top := 0; ro_schedule := Ok (sample_schedule (Some 1));
     ro_fetch := fetched (route_state pending_state) "did:bob" "did:service" "token" leaf_a Client.Evm;
     ro_before_nap := 1; ro_at_timeout := 1 |}.

Lemma pending_fetch_fails_witness :
  exists e, await_witness 5 600 sample_receipt [sealed_round] = Some (Err e).
Proof.
  destruct pending_ready as [A Hr].
  pose proof (get_tip_for_leaf_read (s_sto pending_state : Keyspace) A (sr_absr _ _ Hr) leaf_a Witness.Evm) as Ht.
  pose proof (get_pending_epoch_read (s_sto pending_state : Keyspace) A (sr_absr _ _ Hr)
                leaf_a Witness.Evm) as Hp.
  assert (match get_tip_for_leaf leaf_a Witness.Evm (s_sto pending_state : Keyspace) with
          | Ok None => true | _ => false end = true) as Et by (vm_compute; reflexivity).
  assert (match get_pending_epoch_for_leaf leaf_a Witness.Evm (s_sto pending_state : Keyspace) with
          | Ok (Some id) => id =? 1 | _ => false end = true) as Ep by (vm_compute; reflexivity).
  destruct (get_tip_for_leaf leaf_a Witness.Evm _) as [[t|]|et]; try discriminate Et.
  destruct (get_pending_epoch_for_leaf leaf_a Witness.Evm _) as [[id|]|ep]; try discriminate Ep.
  apply Z.eqb_eq in Ep. subst id. cbn in Ht, Hp.
  destruct (pending_fetch_fails (route_state pending_state) "did:bob" "did:service" "token" leaf_a
              Client.Evm 1 A (acc_epoch_id (s_acc pending_state)) 5 600 sample_receipt sealed_round []
              (sample_schedule (Some 1)) (sr_absr _ _ Hr) (sr_inv _ _ Hr)) as (e & _ & He).
  - apply (read_owner_a pending_state A "did:bob" (sr_absr _ _ Hr)). vm_compute. reflexivity.
  - symmetry. exact Ht.
  - symmetry. exact Hp.
  - reflexivity.
  - reflexivity.
  - reflexivity.
  - reflexivity.
  - exists e. exact He.
Defined.

(** ** The known-servers file and the revision order *)

Lemma record_reopen_witness :
  exists self' disk', record None 7 "https://x.example/" "did:service" known_empty ∅ = (self', disk', Ok tt) /\
    open (Ok tt) None disk' known_path = Ok self' /\
    lookup_did "https://x.example" self' = Some "did:service".
Proof.
  pose proof (record_reopen None 7 "https://x.example/" "did:service" known_empty ∅ (Ok tt)) as Hr.
  assert (match (record None 7 "https://x.example/" "did:service" known_empty ∅).2 with
          | Ok _ => true | _ => false end = true) as Hok by (vm_compute; reflexivity).
  destruct (record None 7 "https://x.example/" "did:service" known_empty ∅) as [[self' disk'] r].
  destruct Hr as (Hl & _ & Ho); [discriminate|by intros k e|reflexivity|].
  destruct r as [[]|e]; [|discriminate Hok]. exists self', disk'. split; [reflexivity|]. split; [exact Ho|].
  rewrite Hl. reflexivity.
Defined.

(** A genesis, its successor, and a revision that names itself. *)
Definition sample_map : list (string * Value) :=
  [("a", VObj [("previous_revision", inl "g")]); ("c", VObj [("previous_revision", inl "c")]);
   ("g", VObj [])].

Lemma topological_revision_order_spec_witness :
  topological_revision_order sample_map = Some ["g"; "a"; "c"] /\
  exists order, topological_revision_order sample_map = Some order /\ order ≡ₚ sample_map.*1.
Proof.
  split; [vm_compute; reflexivity|].
  destruct (topological_revision_order_spec sample_map) as (chain & Ho & Hp & _).
  - repeat constructor; set_solver.
  - reflexivity.
  - eexists. split; [exact Ho|exact Hp].
Defined.

(** ** The snapshot of two revisions under their hashes and under others *)

Definition other_hash (h : string) : string :=
  if decide (h = "0xaa") then "0xdd" else if decide (h = "0xdd") then "0xaa" else h.

Definition sample_document : Json :=
  JObject
    [("server_did", JString "did:pkh:eip155:1:0x1");
     ("identity_claim",
      JObject
        [("revisions",
          JObject
            [("0xbb", JObject [("previous_revision", JString "0xaa"); ("nonce", JString "n2")]);
             ("0xaa", JObject [("nonce", JString "n1"); ("local_timestamp", JNumber "1700000000")])]);
         ("file_index", JObject [("0xaa", JString "identity.json")])])].

Definition golden_document : Json :=
  JObject
    [("server_did", JString "<SERVER_DID>");
     ("identity_claim",
      JObject
        [("revisions",
          JObject
            [("REV_0", JObject [("nonce", JString "<NONCE>"); ("local_timestamp", JNumber "0")]);
             ("REV_1", JObject [("previous_revision", JString "<PREVIOUS_REVISION>"); ("nonce", JString "<NONCE>")])]);
         ("file_index", JObject [("REV_0", JString "<NAME>")])])].

Lemma snapshot_portable_witness :
  normalise_for_snapshot sample_document = golden_document /\
  rename_document other_hash sample_document <> sample_document /\
  normalise_for_snapshot (rename_document other_hash sample_document) = golden_document.
Proof.
  split; [vm_compute; reflexivity|]. split; [vm_compute; discriminate|].
  assert (Inj (=) (=) other_hash) as Hinj
    by (intros x y; unfold other_hash; repeat case_decide; congruence).
  rewrite (snapshot_portable other_hash); [vm_compute; reflexivity|].
  intros k Hk. unfold BLANKED in Hk. set_unfold in Hk. destruct_or! Hk; subst; reflexivity.
Defined.

(** ** The harness's fetch: pending, then served *)

Definition answer_at (status : Z) (body : string) (t : Duration) : Attempt :=
  {| at_answer := Ok (status, Ok body); at_now := t |}.
Definition fetch_budget : PollBudget := {| pb_deadline := 10; pb_interval := 5 |}.
Definition fetch_rounds : list (list Attempt) :=
  [[answer_at 202 "pending" 1; answer_at 202 "pending" 6; answer_at 202 "pending" 10];
   [answer_at 500 "oops" 7; answer_at 200 "tree" 10]; [answer_at 200 "tree" 15]].
Definition no_text (_ : Z) : string := "".

Lemma fetch_served_ends_witness :
  fetch_served no_text fetch_budget (fun b => b) WEvm None fetch_rounds = Some (Ok (200, "tree")) /\
  exists r, fetch_served no_text fetch_budget (fun b => b) WEvm None fetch_rounds = Some r.
Proof.
  split; [vm_compute; reflexivity|].
  destruct (fetch_served_ends no_text fetch_budget (fun b => b) WEvm 0 fetch_rounds) as (r & Hr & _).
  - reflexivity.
  - cbn [rounds_clock fetch_rounds].
    do 3 (split; [cbn; repeat split; vm_compute; discriminate|];
          split; [split; [discriminate|vm_compute; discriminate]|];
          let r := fresh "r" in let Hr := fresh "Hr" in
          intros r Hr; vm_compute in Hr; injection Hr as <-).
    exact I.
  - split; [discriminate|vm_compute; discriminate].
  - exists r. exact Hr.
Defined.


#[export] Instance sample_wire : Wire :=
  {| other_reply := fun _ => {| hr_status := 404; hr_body := "" |}; method_query := fun m => m |}.

#[export] Instance sample_wire_query : WireQueryLaws.
Proof. by split. Qed.

Definition alice_server : Service.Server := service_state sample_dp alice_run sample_server.

Lemma served_leaf_on_the_wire_witness :
  exists w, of_service "did:service" w /\ w_leaf w = leaf_a /\
    try_fetch_witness "did:service" (Ok "token") (wire_send sample_dp 61 61 alice_server) leaf_a Client.Evm
    = Ok (Some (handed_out Client.Evm w)).
Proof.
  assert (acc_epoch_id (s_acc (sv_seal sample_server)) + Z.of_nat (length alice_run) < U64_MAX) as Hid
    by (vm_compute; reflexivity).
  destruct (served_leaf_on_the_wire "did:service" empty_stores sample_dp alice_run empty_store sample_server
              fresh_stores sample_server_inv sample_no_collision alice_run_ok Hid) as (A' & Hr & _ & Hfetch).
  pose proof (sr_absr _ _ Hr : represents (view (s_sto (sv_seal alice_server) : Keyspace)) A') as HA.
  assert (look A' leaf_owner leaf_a = Some "did:alice") as Ho
    by (apply (read_owner_a (sv_seal alice_server) A' "did:alice" HA); vm_compute; reflexivity).
  assert (served A' leaf_a Witness.Evm) as Hs.
  { exists (tip_a (sv_seal alice_server)). split.
    - apply (read_tip_a (sv_seal alice_server) A' HA). vm_compute. reflexivity.
    - apply (read_checked_a (sv_seal alice_server) A' HA). vm_compute. reflexivity. }
  assert ((bearer_did (Some ("Bearer " +:+ "token")) 61 (sv_auth alice_server)).2 = Ok "did:alice") as Hbe
    by (vm_compute; reflexivity).
  destruct (Hfetch "token" "did:alice" 61 61 leaf_a Client.Evm Hbe Ho Hs) as (w & Hw & Hl & _ & [He|(e & _ & He)]).
  - exists w. split; [exact Hw|]. split; [exact Hl|exact He].
  - exfalso.
    assert (is_ok (try_fetch_witness "did:service" (Ok "token") (wire_send sample_dp 61 61
              (service_state sample_dp alice_run sample_server)) leaf_a Client.Evm) = true) as Hok by (vm_compute; reflexivity).
    cbv zeta in He. rewrite He in Hok. discriminate Hok.
Defined.
