(* ===== verification/SampleSeal.v ===== *)
(** * A run directory that replays

    A toy of the SDK's seals: a revision is its JSON value, a JSON text the
    bits of a code of the value (up to a newline), a token is genuine when it ends as it was
    issued.  A run with two sealed sets is laid out on it, and replays. *)

From S2P Require Import Prelude External Client HarnessPoll HarnessWitness HarnessStore SealSdk SealTamper RunDir SealAct SealSteps SealRun SealReplay SealProofs SealShows HarnessPath ReplayTheorems Samples.
From stdpp Require Import countable.
Open Scope string_scope.
Open Scope list_scope.
Open Scope Z_scope.

#[local] Remove Hints sample_json sample_sdk : typeclass_instances.

(** ** JSON *)

Definition J : Type := gen_tree (string + Z).
Definition jnull : J := GenNode 0 [].
Definition jstr (s : string) : J := GenLeaf (inl s).
Definition jnum (n : Z) : J := GenLeaf (inr n).
Definition jarr (l : list J) : J := GenNode 1 l.
Definition jobj (fs : list (string * J)) : J := GenNode 2 (foldr (fun kv acc => jstr kv.1 :: kv.2 :: acc) [] fs).

Fixpoint jfields (l : list J) : list (string * J) :=
  match l with GenLeaf (inl k) :: v :: r => (k, v) :: jfields r | _ => [] end.
Definition jobject (v : J) : option (list (string * J)) :=
  match v with GenNode 2 l => Some (jfields l) | _ => None end.
Definition jget (v : J) (k : string) : option J :=
  fs ← jobject v; snd <$> List.find (fun kv : string * J => bool_decide (kv.1 = k)) fs.
Definition jwithout (v : J) (k : string) : list (string * J) :=
  List.filter (fun kv : string * J => negb (bool_decide (kv.1 = k))) (default [] (jobject v)).
Definition jtext_at (v : J) (k : string) : string :=
  match jget v k with Some (GenLeaf (inl s)) => s | _ => "" end.

Fixpoint bits_text (p : positive) : string :=
  match p with xH => "" | xO p => String (Ascii.ascii_of_nat 48) (bits_text p) | xI p => String (Ascii.ascii_of_nat 49) (bits_text p) end.
Fixpoint text_bits (s : string) : option positive :=
  match s with
  | EmptyString => Some xH
  | String c s' => if bool_decide (String c EmptyString = nl) then Some xH else p ← text_bits s'; Some (if bool_decide (String c EmptyString = "1") then xI p else xO p)
  end.
Definition jtext (v : J) : string := bits_text (encode v).
Definition jparse (s : string) : result string J := ok_or (p ← text_bits s; decode p) "not JSON".

#[local] Instance seal_json : JsonCrate :=
  {| Value := J; json_null := jnull; json_get := jget;
     json_as_str := fun v => match v with GenLeaf (inl s) => Some s | _ => None end;
     json_as_u64 := fun v => match v with GenLeaf (inr n) => Some n | _ => None end |}.

(** ** Revisions *)

Definition payload_of (r : J) : J := default jnull (jget r "payloads").
Definition token_of (r : J) : string := jtext_at (payload_of r) "transaction_hash".
Definition mark_of (r : J) : string := jtext_at (default jnull (jget r "signature")) "signature".
Definition link (r : J) : string := jtext_at r "id" +:+ token_of r +:+ mark_of r.
Definition has (k : string) (r : J) : bool := bool_decide (is_Some (jget r k)).
Definition digest7 : Hash32 := filled 32 Byte.x07.

#[local] Instance seal_base : Sdk :=
  {| SdkError := string; sdk_error_text := fun e => e;
     RevisionLink := string; link_from_bytes := fun _ => ""; link_as_ref := as_bytes; link_to_string := fun s => s;
     HashType := unit; Sha3_256 := tt; multihash_decode := fun _ => Err "";
     TypedObject := J; object_new := fun _ _ v => v; object_previous_revision := fun _ => None;
     object_calculate_link := fun o _ => Ok (link o); object_payloads := payload_of;
     SignatureRev := J; signature_calculate_link := fun s _ => Ok (link s);
     signature_previous_revision := fun s => jtext_at s "previous"; signature_signer := fun _ => "did:service";
     AnyRevision := J; any_typed := fun v => v; any_signature := fun v => v;
     as_typed := fun v => if has "payloads" v then Some v else None;
     as_signature := fun v => if has "signature" v then Some v else None;
     Tree := list (string * J); tree_of_revisions := fun t => t; tree_revisions := fun t => t;
     AquaTreeWrapper := unit; wrapper_new := fun _ _ => tt; tsa_template_link := "";
     PreparedBatch := unit; prepared_merkle_root := fun _ => ""; prepare_batch_timestamp := fun _ => Ok tt;
     finish_batch_timestamp := fun _ _ _ => Ok [];
     BatchProof := unit; parse_batch_root := fun _ => Ok digest7; parse_batch_digest := fun _ => Ok digest7;
     parse_batch_proof := fun _ => Ok tt; shielded_leaf := fun _ h => Ok h; verify_batch_inclusion := fun _ _ _ _ _ => Ok tt;
     Secp256k1Signer := unit; sign_revision := fun _ _ => Err ""; derive_did_pkh := fun _ => Err "";
     LeafVerdict := unit; LeafVerified := tt; leaf_verdict_text := fun _ => ""; classify_signature_leaf := fun _ _ => Ok tt;
     QualifiedVerifyLevel := unit; LevelQualifiedVerified := tt; LevelVerified := tt; level_text := fun _ => "";
     WebHost := unit; verify_tsa_token := fun _ _ _ _ => Err "";
     BlockchainHost := unit; EvmFinalityRequirement := unit; Finalized := tt; EvmAnchorClaim := unit;
     claim_from_payload := fun _ => tt; judge_evm_anchor := fun _ _ _ => EvmVerified;
     invalid_reason_str := fun _ => ""; not_evaluable_str := fun _ => "" |}.

#[local] Instance seal_client : ClientCrates :=
  {| json_from_str := jparse; json_object := jobject;
     strings_from_value := fun v =>
       match v with
       | GenNode 1 l => collect (fun x => match x with GenLeaf (inl s) => Ok s | _ => Err "not a string" end) l
       | _ => Err "not an array"
       end;
     rev_from_value := fun v => Ok v; is_timestamp_object := has "payloads"; verify_signature_sync := fun _ _ => true |}.

#[local] Instance seal_harness : HarnessCrates :=
  {| debug_text := fun s => s; value_text := jtext; tree_parses := fun _ => Ok tt |}.

(** ** Seals *)

Definition is_tsa (r : J) : bool := bool_decide (jtext_at (payload_of r) "network" = "tsa").
Definition stamps (t : list (string * J)) : list (string * J) := List.filter (fun kr : string * J => has "payloads" kr.2) t.
(** A token ends as it was issued. *)
Definition genuine (kr : string * J) : bool := bool_decide (token_of kr.2 = "0xAB") && bool_decide (link kr.2 = kr.1).
Definition sound (t : list (string * J)) : bool := forallb genuine (stamps t).
Definition anchor_of (t : list (string * J)) : string :=
  default "" (fst <$> List.find (fun kr : string * J => has "anchor" kr.2) t).

(** A seal as read: its tree, and whether the chain's witnesses count. *)
Definition Seal : Type := list (string * J) * bool.

Definition readings (s : Seal) : list WitnessReading :=
  map (fun kr : string * J =>
    {| wr_witness := kr.1 : RevisionLink; wr_descriptor := "";
       wr_admission := if negb (genuine kr) then Failed "token" else if s.2 || is_tsa kr.2 then Admitted_ else NotAdmitted "kind";
       wr_timestamp := 0; wr_provenance := None |}) (stamps s.1).

Definition attestation_over (t : string) (pins : gset string) (kp : string * J) : option Attestation :=
  if bool_decide (jtext_at kp.2 "previous" = t)
  then Some {| at_attestation := kp.1 : RevisionLink;
               at_verdict :=
                 if negb (bool_decide (link kp.2 = kp.1)) then Unverifiable "not_addressed"
                 else if negb (bool_decide (mark_of kp.2 = "0xaa")) then Unverifiable "signature_invalid"
                 else AttVerified "did:service" "ethereum:eip-191" (if decide (pins = ∅) then Unpinned else Pinned) |}
  else None.

Definition read_document (s : Seal) (doc : option string) (pins : gset string) : SealAttestationsReading :=
  let entries := default [] (text ← doc; v ← ok (jparse text); r ← jget v "revisions"; jobject r) in
  {| sr_witnesses := map (fun kr : string * J =>
       {| wt_witness := kr.1 : RevisionLink; wt_attestations := omap (attestation_over kr.1 pins) entries |}) (stamps s.1);
     sr_unmatched := []; sr_findings := []; sr_rejected := None |}.

Definition check_set (seals : list Seal) : FullSetVerdict :=
  let bad := omap (fun s => kr ← List.find (fun kr => negb (genuine kr)) (stamps s.1); Some (anchor_of s.1, kr.1)) seals in
  match bad with
  | [] => {| fv_set_headline := HeadlineVerified; fv_completeness := Pass; fv_integrity := Pass; fv_non_suppression := Pass;
             fv_findings := [] |}
  | (a, t) :: _ => {| fv_set_headline := PartiallyVerified; fv_completeness := Pass; fv_integrity := NotChecked;
                      fv_non_suppression := Pass;
                      fv_findings := [{| fi_code := "seal_witness_failed"; fi_args := [a; t] |}] |}
  end.

Definition rev_named (id : string) (fields : list (string * J)) : J := jobj (("id", jstr id) :: fields).
Definition anchor_rev (head : string) (links : list string) : J :=
  rev_named (String.concat "+" ("A" :: links)) [("previous", jstr head); ("anchor", jarr (map jstr links)); ("method", jstr "m")].

(** Seal [n] over its witnesses, and the document of their attestations. *)
Definition seal_tree (ws : list SealWitness) : list (string * J) :=
  let ts := map (fun w => (link (sw_object w), sw_object w)) ws in
  let a := anchor_rev "H" (map fst ts) in
  [("G", rev_named "G" []); ("H", rev_named "H" [("previous", jstr "G")]); ("S", rev_named "S" [("previous", jstr "H")])] ++
  ts ++ [(link a, a)].
Definition document (ws : list SealWitness) : J :=
  jobj [("revisions", jobj (omap (fun w => (fun p => (link p, p)) <$> sw_signature w) ws))].
Definition built (ws : list SealWitness) : result SealError (list (string * J) * J) :=
  if bool_decide (length ws = 0%nat) then Err (Refused RefusedNoWitness) else Ok (seal_tree ws, document ws).

#[local] Instance seal_sdk : SealSdk.
Proof.
  refine {|
    debug := fun _ _ => "shown"; debug_pretty := fun _ _ => "shown"; display := fun _ _ => "shown";
    tree_from_str := fun s => let? v := jparse s in ok_or (jobject v) "not a tree";
    tree_to_string := fun t => Ok (jtext (jobj t)); tree_to_pretty := fun t => Ok (jtext (jobj t));
    tree_with_revisions := fun _ revs => revs; link_parse := Ok; link_leb := String.leb;
    rev_previous := fun r => (match jget r "previous" with Some (GenLeaf (inl s)) => Some s | _ => None end : option RevisionLink);
    rev_link := fun r => Ok (link r); rev_to_value := fun r => Ok r; rev_to_string := fun r => Ok (jtext r);
    revision_type := fun _ => "";
    Method := unit; method_from_value := fun _ => Ok tt;
    Anchor := J; anchor_new := fun head _ links => anchor_rev head links; anchor_calculate_link := fun a => Ok (link a);
    anchor_populate_leaves := Ok; any_anchor := fun a => a; is_anchor := has "anchor";
    Aquafier := unit; aquafier_build := fun _ _ => tt;
    WitnessInput := bool; witness_input_policy := fun a _ => bool_decide (is_Some (wa_evm a));
    SignatureCatalogue := unit; catalogue_custom := fun _ _ => tt; catalogue_kind := fun _ => ""; catalogue_source := fun _ => "";
    WitnessRequirement := unit; open_witness := tt; without_evm := fun r => r;
    requirement_kinds := fun ks _ => match ks with [] => Err SealNoWitness | _ => Ok tt end;
    requirement_from_str := fun _ => Err "no kinds"; requirement_to_string := fun _ => Ok "";
    SealHead := string * list Hash32; head_from_leaves := fun set leaves => Ok (set, leaves); head_root := fun _ => digest7;
    PreparedSeal := string; prepared_from_str := Ok; prepared_to_pretty := Ok; prepared_signer := fun _ => Ok "did:sealer";
    prepared_submit_digest := fun p => Ok (filled 32 (if bool_decide (p = "1") then Byte.x01 else Byte.x02));
    prepared_head := fun _ => Err "not kept";
    SealReceipt := string; receipt_issue := fun a _ _ i _ _ => Ok (a +:+ "/" +:+ num i); receipt_to_json_string := fun r => r;
    receipt_parse := Ok; MemberTree := string; member_verify := fun _ _ _ name _ => Ok name; member_spine := fun m => [m];
    AcceptedWitnesses := list SealWitness; accepted_anchor := fun _ => "A";
    accepted_witnesses := map (fun w => {| aw_kind := if is_tsa (sw_object w) then KindTsa else KindEvm; aw_timestamp := 0;
                                           aw_attester := Some "did:service" |});
    evaluate_seal_witnesses := fun _ _ _ _ _ ws _ => match ws with [] => Err RefusedNoWitness | _ => Ok ws end;
    SealAttestations := J; attestations_parse := jparse; attestations_to_canonical_json := fun d => Ok (jtext d);
    finish_seal := fun _ ws => map_err (fun _ => "refused") (built ws);
    complete_seal := fun _ _ _ _ _ ws _ => built ws;
    SigningCredentials := Hash32; secp256k1_key := fun k => k; build_seal_container := fun _ _ _ _ _ => built [];
    VerifiedSeal := Seal; seal_status := fun s => if sound s.1 then StatusVerified else StatusNotChecked;
    seal_anchor := fun s => anchor_of s.1; seal_head_link := fun _ => "H"; seal_genesis := fun _ => "G";
    seal_signature := fun _ => "S"; seal_signer := fun _ => "did:sealer"; seal_signed_head := fun _ => "";
    seal_witnesses := fun s => map fst (stamps s.1);
    seal_acceptance := fun s => {| ac_witnesses := readings s;
                                   ac_findings := if s.2 then [] else [["trust_input_not_admitted"]] |};
    seal_sealer_signature := fun _ => ""; sealer_signature_is_admitted := fun _ => true;
    seal_time := fun s => {| ti_accepted := Some (map fst (stamps s.1) : list RevisionLink); ti_text := "" |};
    seal_sdk_text := fun _ => ""; seal_sdk_errors := fun _ => ""; seal_sdk_tsa_tokens := fun _ => "";
    seal_sdk_evm_anchors := fun _ => ""; seal_identity_verified := fun _ => true;
    RejectedSeal := unit; rejected_id := fun _ => None; SealReading := Seal;
    reading_status := fun s => if sound s.1 then StatusVerified else StatusNotChecked;
    reading_seal := Some; reading_rejected := fun _ => None; into_seal := Ok;
    verify_seal_container := fun _ _ t dual _ => (t, dual); read_seal_attestations := read_document;
    handover_is_pass := fun s _ => sound s.1;
    FullSetPackage := list Seal; full_set_package := fun _ seals _ _ _ => seals; full_set_check := check_set;
    b64_encode := of_bytes; b64_decode := fun s => Ok (as_bytes s);
    json_array := fun v : Value => match v with GenNode 1 l => Some l | _ => None end;
    json_to_string := jtext; json_set := fun v k x => jobj (jwithout v k ++ [(k, x)]);
    json_remove := fun v k => jobj (jwithout v k); json_string := jstr; json_number := jnum; json_array_of := jarr;
    json_object_of := jobj |}.
Defined.

#[local] Instance seal_env : SealEnv :=
  {| utc := fun _ => "now"; os_rng := fun n => filled 32 (byte_of_Z (Z.of_nat n)); read_time := fun _ => 1%nat |}.

(** ** The run *)

Definition payload (network : string) : J :=
  jobj [("transaction_hash", jstr "0xAB"); ("network", jstr network); ("merkle_root", jstr "root")].
Definition stamp (id network : string) : J := rev_named id [("payloads", payload network)].
Definition attestation_of (id : string) (t : J) : J :=
  rev_named id [("previous", jstr (link t)); ("signature", jobj [("signature", jstr "0xaa")])].

Definition evm1 : J := stamp "te" "sepolia".
Definition tsa1 : J := stamp "tq" "tsa".
Definition tsa2 : J := stamp "tr" "tsa".
Definition evm1_p : J := attestation_of "pe" evm1.
Definition tsa1_p : J := attestation_of "pq" tsa1.
Definition tsa2_p : J := attestation_of "pr" tsa2.
Definition witness_of (t p : J) : SealWitness := {| sw_object := t : AnyRevision; sw_signature := Some (p : AnyRevision) |}.
Definition witnesses1 : list SealWitness := [witness_of evm1 evm1_p; witness_of tsa1 tsa1_p].
Definition witnesses2 : list SealWitness := [witness_of tsa2 tsa2_p].

Definition served (t p : J) : J := jobj [("revisions", jobj [(link t, t); (link p, p)])].
Definition hex_of (b : byte) : J := jstr ("0x" +:+ hex_encode (replicate 32 b)).
Definition fetched : J := jobj [("status", jnum 200)].
Definition receipt (ws : list SealWitness) (i : Z) : string := anchor_of (seal_tree ws) +:+ "/" +:+ num (i - 1) +:+ nl.

Definition meta : J :=
  jobj [("epoch_id", jnum 7); ("s1", hex_of Byte.x01); ("s2", hex_of Byte.x02);
        ("post_body", jobj [("accepted", jnum 2)])].

Definition run_files : list (Path * string) :=
  [(RUN_JSON, jtext meta); (AQUA_IDENTITY, jtext (jobj [("server_did", jstr "did:service")]));
   (SET_FOLDER, jtext (jobj [("F", rev_named "F" [])])); (FETCH_STATUS, jtext (jobj (map (fun k => (k, fetched)) FETCH_KEYS)));
   (["s1-evm.json"], jtext (served evm1 evm1_p)); (["s1-qtsa.json"], jtext (served tsa1 tsa1_p));
   (["s2-qtsa.json"], jtext (served tsa2 tsa2_p));
   (CONTAINER_1, jtext (jobj (seal_tree witnesses1))); (ATTESTATIONS_1, jtext (document witnesses1));
   (CONTAINER_2, jtext (jobj (seal_tree witnesses2))); (ATTESTATIONS_2, jtext (document witnesses2));
   (epochs_file 7, jtext (jobj [("epochs", jarr [jobj [("id", jnum 7); ("merkle_root", jstr "root"); ("leaf_count", jnum 2)]])]));
   (epoch_file 7 WEvm, jtext (jobj [("revisions", jobj [("x", stamp "x" "sepolia"); ("y", stamp "y" "sepolia")])]));
   (epoch_file 7 WQtsa, jtext (jobj [("revisions", jobj [("x", stamp "x" "tsa"); ("y", stamp "y" "tsa")])]))] ++
  concat (map (fun n => [(nonces_file n, jtext (jarr (map hex_of [Byte.x05; Byte.x06; Byte.x07]))); (prepared_file n, num n)])
    seals_range) ++
  concat (map (fun m => [(member_tree_file m, jtext (jobj [])); (member_body_file m, "body");
                         (receipt_file 1 m, receipt witnesses1 m); (receipt_file 2 m, receipt witnesses2 m)]) members_range).

Definition sample_run : Path := ["home"; "run"].
Definition sample_fs : Fs :=
  {| fs_files := list_to_map (map (fun ft : Path * string => (sample_run ++ ft.1, Ok (as_bytes ft.2))) run_files);
     fs_faults := [] |}.
Definition sample_world : World := {| w_fs := sample_fs; w_now := 0; w_reads := 0; w_draws := 0 |}.

Definition sample_reader : Reader := Reader_new tt tt open_witness_policy.
Definition sample_replay : ReplayConfig :=
  {| rc_run_dir := sample_run; rc_out := Some ["home"; "out"]; rc_reader := sample_reader;
     rc_expect_server_did := "did:service" |}.

Definition replayed : World * result string (list StepLog) :=
  run_replay (fun _ _ => Ok tt) (Ok "rev") sample_replay sample_world.

(** ** The theorems at this run *)

Lemma sample_out_apart : out_apart sample_replay.
Proof. intros out [= <-]. split; intros [rest Hr]; discriminate. Qed.

Lemma replayed_passes : match replayed.2 with Ok logs => replay_passed logs | Err _ => false end = true.
Proof. vm_compute. reflexivity. Qed.

Lemma replay_passed_shows_witness :
  exists w' logs,
    out_apart sample_replay /\ run_replay (fun _ _ => Ok tt) (Ok "rev") sample_replay sample_world = (w', Ok logs) /\
    replay_passed logs = true /\
    complete (rc_run_dir sample_replay) (w_fs sample_world) /\ length logs = 6%nat /\
    exists state rev o, let ctx := replay_ctx sample_replay state rev in
      RunState_load (rc_run_dir sample_replay) (w_fs sample_world) (w_reads sample_world)
        (re_aq (rc_reader sample_replay)) = Ok state /\
      step2_shows ctx (w_fs sample_world) o /\ step3_shows ctx (w_fs sample_world) /\ step4_shows ctx (w_fs sample_world) /\
      step5_shows ctx (w_fs sample_world) o /\ step6_shows ctx (w_fs sample_world) /\ step7_shows ctx (w_fs sample_world).
Proof.
  pose proof replayed_passes as Hp. unfold replayed in Hp.
  destruct (run_replay _ _ _ _) as [w' [logs|e]] eqn:He; [|discriminate]. cbn [snd] in Hp.
  exists w', logs. split; [exact sample_out_apart|]. split; [reflexivity|]. split; [exact Hp|].
  exact (replay_passed_shows _ _ _ _ _ _ sample_out_apart He Hp).
Defined.

Lemma replay_keeps_run_witness :
  let cfg := sample_replay in
  exists w' r, run_replay (fun _ _ => Ok tt) (Ok "rev") cfg sample_world = (w', r) /\
    (out_apart cfg -> forall file,
       fs_files (w_fs w') !! (rc_run_dir cfg ++ file) = fs_files (w_fs sample_world) !! (rc_run_dir cfg ++ file)) /\
    (rc_out cfg = None -> w_fs w' = w_fs sample_world).
Proof.
  cbv zeta. destruct (run_replay _ _ _ _) as [w' r] eqn:He. exists w', r. split; [reflexivity|].
  exact (replay_keeps_run _ _ _ _ _ _ He).
Defined.

(** A run whose [run.json] names another digest is complete and does not load. *)
Definition mislabelled : Fs :=
  {| fs_files := <[sample_run ++ RUN_JSON :=
       Ok (as_bytes (jtext (jobj [("epoch_id", jnum 7); ("s1", hex_of Byte.x01); ("s2", hex_of Byte.x01)])))]>
       (fs_files sample_fs);
     fs_faults := [] |}.

Lemma at_file_error {A} (r : result LoadError A) :
  match r with Err (AtFile _) => true | _ => false end = true -> exists e, r = Err (AtFile e).
Proof. destruct r as [|[e|]]; [done|by exists e|done]. Qed.

Lemma load_after_complete_witness :
  exists e, verify_complete sample_run mislabelled = Ok tt /\
    RunState_load sample_run mislabelled 0 (re_aq sample_reader) = Err (AtFile e) /\ verdict_on sample_run mislabelled e.
Proof.
  assert (verify_complete sample_run mislabelled = Ok tt) as Hv by (vm_compute; reflexivity).
  assert (exists e, RunState_load sample_run mislabelled 0 (re_aq sample_reader) = Err (AtFile e)) as [e He]
    by (apply at_file_error; vm_compute; reflexivity).
  exists e. split; [exact Hv|]. split; [exact He|]. exact (load_after_complete _ _ _ _ _ Hv He).
Defined.

#[local] Instance seal_tree_laws : TreeLaws.
Proof. intros t revs. reflexivity. Defined.

Definition tsa1_rev : AnyRevision := tsa1.
Definition container1 : Tree := seal_tree witnesses1.

Lemma flip_tsa_token_flips_witness :
  exists t' note v der,
    flip_tsa_token tsa1_rev = Ok (t', note) /\ rev_to_value tsa1_rev = Ok v /\
    json_as_str (json_index (json_index v "payloads") "transaction_hash") = Some (b64_encode der) /\
    flip_last der <> der /\ flip_last (flip_last der) = der.
Proof.
  assert (is_ok (flip_tsa_token tsa1_rev) = true) as Hok by (vm_compute; reflexivity).
  destruct (flip_tsa_token tsa1_rev) as [[t' note]|e] eqn:Hf; [|discriminate].
  destruct (flip_tsa_token_flips _ _ _ Hf) as (v & der & Hv & Hs & _ & Hn & Hi & _).
  exists t', note, v, der. split_and!; [reflexivity|exact Hv|exact Hs|exact Hn|exact Hi].
Defined.

Lemma relinked_revisions_witness :
  exists r t note,
    relink_flipped_token container1 (anchor_of (seal_tree witnesses1)) "H" (link tsa1) (link evm1) = Ok r /\
    tree_get container1 (link tsa1) = Some t /\ flip_tsa_token t = Ok (rl_flipped r, note) /\
    tree_get (rl_container r) (rl_flipped_link r) = Some (rl_flipped r).
Proof.
  assert (match relink_flipped_token container1 (anchor_of (seal_tree witnesses1)) "H" (link tsa1) (link evm1)
    with Ok r => negb (bool_decide (rl_flipped_link r = rl_anchor_link r)) | Err _ => false end = true) as Hok
    by (vm_compute; reflexivity).
  destruct (relink_flipped_token _ _ _ _ _) as [r|e] eqn:Hr; [|discriminate].
  apply negb_true_iff, bool_decide_eq_false in Hok.
  destruct (relinked_revisions _ _ _ _ _ _ Hr) as (t & note & method & a & Ht & Hf & _ & _ & _ & _ & Hget).
  exists r, t, note. split; [reflexivity|]. split; [exact Ht|]. split; [exact Hf|].
  rewrite Hget, decide_False, decide_True by done. reflexivity.
Defined.

(** [--out] above the run: the guard lets it through, and what the replay
    derives lands in the run directory. *)
Example out_above_the_run :
  let run := ["out"; "receipts-1"] in
  let store := {| st_run := run; st_mode := Replay (Some ["out"]) |} in
  ensure_outside [] ∅ (at_root ["out"]) (at_root run) = Ok tt /\
  fs_files (artifact store (receipt_file 1 1) [] sample_fs).1 !! (run ++ ["m1.json"]) = Some (Ok []).
Proof. split; vm_compute; reflexivity. Qed.
