(* ===== verification/SampleHarness.v ===== *)
(** * The harness over the sample seal SDK

    A standing identity on a toy curve that refuses the first draw; a live run
    that ends with its two posts, as the server refuses the leaves; a full flow
    that passes; a command that runs it. *)

From S2P Require Import Prelude External Utf8 Text Config Client HarnessPoll HarnessWitness HarnessStore SealSdk RunDir SealAct SealSteps SealRun SealReplay HarnessIdentity SealLive LiveTheorems HarnessFlow Targets FlowTheorems HarnessCli CliTheorems Samples SampleSeal.
From stdpp Require Import countable.
Open Scope string_scope.
Open Scope list_scope.
Open Scope Z_scope.

#[local] Remove Hints sample_json sample_sdk : typeclass_instances.
#[local] Existing Instances seal_json seal_base seal_client seal_harness seal_sdk seal_env.

Definition zeros : Hash32 := filled 32 Byte.x00.

#[export] Instance sample_keys : KeyCrates :=
  {| url_parse := fun s => Ok ("http", Some (if bool_decide (s = "http://localhost") then "localhost" else s));
     ip_is_loopback := fun _ => false;
     secp_from_slice := fun k => if bool_decide (k = zeros) then Err "zero" else Ok tt;
     secp_sign_prehash := fun k _ => Ok (filled 64 Byte.x0a, 0);
     secp_did := fun _ => Ok ("did:sealer", filled 20 Byte.x00); keccak256 := fun _ => zeros;
     Ed25519Key := Hash32; ed25519_generate := fun k => k; ed25519_public := fun k => k;
     ed25519_sign := fun _ _ => filled 64 Byte.x0b;
     P256Key := Hash32; p256_random := fun k => k; p256_public := fun k => arr k; p256_sign := fun _ _ => filled 64 Byte.x0c |}.
#[export] Instance sample_pretty : PrettyCrate := jtext.

(** ** The laws *)

Lemma text_bits_text p : text_bits (bits_text p) = Some p.
Proof. induction p as [p IH|p IH|]; [..|done]; cbn; rewrite IH; done. Qed.

Lemma jparse_jtext v : jparse (jtext v) = Ok v.
Proof. unfold jparse, jtext. rewrite text_bits_text. cbn. by rewrite decode_encode. Qed.

Lemma bits_plain p : forallb plain (as_bytes (bits_text p)) = true.
Proof. induction p as [p IH|p IH|]; [..|done]; exact IH. Qed.

Lemma jfields_jobj fs : jobject (jobj fs) = Some fs.
Proof. unfold jobj. cbn. f_equal. induction fs as [|[k v] fs IH]; [done|]. cbn. by rewrite IH. Qed.

#[export] Instance sample_record_laws : RecordLaws.
Proof.
  split.
  - apply jparse_jtext.
  - intros v. unfold valid_utf8. change (as_bytes (to_string_pretty v)) with (as_bytes (bits_text (encode v))).
    rewrite <- (app_nil_r (as_bytes _)). apply plain_utf8; [apply bits_plain|by intros []].
  - intros fs k _. change (json_get (json_object_of fs) k) with (jget (jobj fs) k). unfold jget. by rewrite jfields_jobj.
  - done.
Qed.

(** ** The theorems *)

Definition identity_dir : Path := ["home"; "id"].
Definition fresh : IdState :=
  {| id_disk := <[["home"] := EDir 493]> (<[[] := EDir 493]> ∅); id_faults := []; id_draws := 0; id_now := 0; id_umask := 18 |}.
Definition created := for_base_url 2 "http://localhost" identity_dir fresh.

Lemma fresh_parents : parents (id_disk fresh).
Proof.
  intros p n e He. cbn in He. destruct (decide (p = [])) as [->|Hp]; [exists 493; by vm_compute|].
  rewrite !lookup_insert_ne in He; [by rewrite lookup_empty in He|by destruct p|].
  intros Heq. apply (f_equal length) in Heq. rewrite length_app in Heq. cbn in Heq. destruct p; [done|cbn in Heq; lia].
Qed.

Lemma created_ok : match created.2 with Ok id => si_created id | Err _ => false end = true.
Proof. vm_compute. reflexivity. Qed.

Lemma identity_never_replaced_witness :
  exists s' id, parents (id_disk fresh) /\
    for_base_url 2 "http://localhost" identity_dir fresh = (s', Ok id) /\ si_created id = true /\
    id_disk fresh ⊆ id_disk s' /\ identity_held (id_disk s') identity_dir id.
Proof.
  pose proof created_ok as Hc. unfold created in Hc.
  destruct (for_base_url 2 "http://localhost" identity_dir fresh) as [s' [id|e]] eqn:Hr; [|discriminate]. cbn [snd] in Hc.
  destruct (identity_never_replaced _ _ _ _ _ _ fresh_parents Hr) as (Hsub & _ & Hid).
  exists s', id. split; [exact fresh_parents|]. split; [reflexivity|]. split; [exact Hc|]. split; [exact Hsub|].
  exact (proj1 (Hid id eq_refl)).
Defined.

Lemma identity_reloads_witness :
  exists s' id, for_base_url 2 "http://localhost" identity_dir fresh = (s', Ok id) /\ is_loopback "http://remote" = false /\
    for_base_url 0 "http://remote" identity_dir s' = (s', Ok (loaded id)).
Proof.
  pose proof created_ok as Hc. unfold created in Hc.
  destruct (for_base_url 2 "http://localhost" identity_dir fresh) as [s' [id|e]] eqn:Hr; [|discriminate].
  exists s', id. split; [reflexivity|]. split; [vm_compute; reflexivity|].
  exact (identity_reloads _ _ _ _ _ _ _ _ _ fresh_parents Hr eq_refl).
Defined.

(** * A live run that is refused *)

#[local] Existing Instances seal_json seal_base seal_client seal_harness seal_sdk seal_env.

Definition answer (body : J) : result string Response :=
  Ok {| rp_status := 200; rp_date := Some "Thu, 01 Jan 1970 00:00:00 GMT"; rp_text := Ok (jtext body) |}.

Definition sample_reply (_ : nat) (rq : Request) : result string Response :=
  let at_ path := bool_decide (rq_url rq = "http://localhost" +:+ path) in
  if at_ "/version" then answer (jobj [("revision", jstr "r1")])
  else if at_ "/health" then answer jnull
  else if at_ "/.well-known/aqua-identity" then answer (jobj [("server_did", jstr "did:service")])
  else if at_ "/auth/challenge?did=did:sealer" then answer (jobj [("message", jstr "m"); ("nonce", jstr "n")])
  else if at_ "/auth/session" then answer (jobj [("token", jstr "t")])
  else Ok {| rp_status := 401; rp_date := None; rp_text := Ok "refused" |}.

#[local] Instance sample_live : LiveEnv :=
  {| reply := sample_reply; seal_rounds := []; served_rounds := fun _ _ => []; read_attempts := fun _ => []; poll_time := fun _ => 0%nat;
     parse_from_rfc2822 := fun _ => Ok 0; to_rfc2822 := fun _ => ""; run_id_of := fun _ => "run1"; status_text := num;
     create_folder := fun _ _ => Ok [("F", rev_named "F" [])];
     create_minimal_genesis := fun _ name _ => Ok [(name, rev_named name [])];
     sign_aqua_tree := fun _ t _ _ => Ok t;
     prepare_seal := fun n _ _ _ => Ok (num (Z.of_nat n)) |}.

Definition sample_identity : StandingIdentity :=
  {| si_record := {| ir_alias := ALIAS; ir_did := "did:sealer"; ir_key_type := KEY_TYPE; ir_created_at := "now" |};
     si_created := false; si_key := digest7 |}.
Definition sample_seal : SealConfig :=
  {| sc_base_url := "http://localhost"; sc_run_dir := sample_run; sc_identity_dir := ["home"; "id"];
     sc_reader := sample_reader; sc_expect_version := Some "r1"; sc_expect_server_did := Some "did:service";
     sc_seal_grace := 0; sc_witness_grace := 0; sc_poll_interval := 1; sc_finality_budget := 0 |}.
Definition sample_net : Net :=
  {| n_world := {| w_fs := {| fs_files := ∅; fs_faults := [] |}; w_now := 0; w_reads := 0; w_draws := 0 |}; n_sent := [] |}.
Definition sample_ran : Net * result string SealReport :=
  run_seal (fun _ _ => Ok tt) (Ok "rev") sample_seal sample_identity sample_net.

Lemma sample_posts : map (fun s => rq_url (se_request s)) (posts (n_sent sample_ran.1)) =
  ["http://localhost/auth/session"; "http://localhost/v1/leaves"].
Proof. vm_compute. reflexivity. Qed.

Lemma run_seal_posts_witness :
  exists n' r,
    run_seal (fun _ _ => Ok tt) (Ok "rev") sample_seal sample_identity sample_net = (n', r) /\
    length (posts (n_sent n')) = 2%nat /\
    guards_passed (fun _ _ => Ok tt) sample_seal sample_net /\ submitted sample_seal [] (n_sent n') (is_ok r).
Proof.
  pose proof (f_equal length sample_posts) as Hp. rewrite length_map in Hp. unfold sample_ran in Hp.
  destruct (run_seal _ _ _ _ _) as [n' r] eqn:He. cbn [fst] in Hp. exists n', r. split; [reflexivity|]. split; [exact Hp|].
  destruct (run_seal_posts _ _ _ _ _ _ _ He) as [[_ Hn]|Hs]; [|exact Hs]. rewrite Hn in Hp. discriminate.
Defined.

(** * A full flow that passes *)

#[local] Existing Instances seal_json seal_base seal_client seal_harness seal_sdk seal_env.

(** ** The client's tree and the two witnesses *)

Definition tip : string := "client-tip-client-tip-client-tip".
Definition client_sample : J := jobj [("revisions", jobj [(tip, rev_named tip [])]); ("file_index", jobj [(tip, jstr "f")])].
Definition leaf_sample : string := "0x" +:+ hex_encode (as_bytes tip).

Definition served_of (network : string) : J :=
  let t := stamp network network in
  let s := rev_named ("sig-" +:+ network) [("previous", jstr network); ("signature", jobj [("signature", jstr "0xaa")]);
                                           ("signer", jstr "did:service")] in
  jobj [("revisions", jobj [(network, t); ("sig-" +:+ network, s)]); ("file_index", jobj [(network, jstr "w")])].

Definition body_at (now : Z) (body : J) : Attempt := {| at_answer := Ok (200, Ok (jtext body)); at_now := now |}.

(** ** The server *)

Definition answered (status : Z) (body : J) : result string Response :=
  Ok {| rp_status := status; rp_date := None; rp_text := Ok (jtext body) |}.

Definition identity_sample : J :=
  jobj (map (fun k => (k, if bool_decide (k = "auth_method") then jstr "siwe"
                          else if bool_decide (k = "server_did") then jstr "did:service" else jnull)) IDENTITY_KEYS).

Definition flow_reply (_ : nat) (rq : Request) : result string Response :=
  let at_ path := bool_decide (rq_url rq = "http://localhost" +:+ path) in
  if at_ "/version" then answered 200 (jobj [("revision", jstr "r1")])
  else if at_ "/health" then answered 200 jnull
  else if at_ "/.well-known/aqua-identity" then answered 200 identity_sample
  else if at_ "/auth/challenge?did=did:sealer" then answered 200 (jobj [("message", jstr "m"); ("nonce", jstr "n")])
  else if at_ "/auth/session" then answered 200 (jobj [("token", jstr "t")])
  else if at_ "/v1/leaves" && bool_decide (rq_bearer rq = Some "t")
  then answered 202 (jobj [("epoch_id", jnum 4); ("epoch_closes_at", jnum 60)])
  else if at_ "/v1/leaves" then answered 401 jnull
  else answered 403 jnull.

#[local] Instance flow_live : LiveEnv :=
  {| reply := flow_reply;
     seal_rounds := [(1, [body_at 2 (jobj [("last_sealed_epoch_id", jnum 4)])])];
     served_rounds := fun _ m => [[body_at 3 (served_of (match m with WEvm => "sepolia" | WQtsa => "tsa" end))]];
     read_attempts := fun _ => []; poll_time := fun _ => 1%nat;
     parse_from_rfc2822 := fun _ => Ok 0; to_rfc2822 := fun _ => ""; run_id_of := fun _ => "run1"; status_text := num;
     create_folder := fun _ _ => Ok []; create_minimal_genesis := fun _ _ _ => Ok [];
     sign_aqua_tree := fun _ t _ _ => Ok t; prepare_seal := fun _ _ _ _ => Err "not prepared" |}.

(** A verifier that takes every stamp of the tree for verified. *)
Definition sample_verdict (t : list (string * J)) : VerificationResult :=
  let of_kind tsa := map (fun kr => (fst kr, "Verified")) (List.filter (fun kr => Bool.eqb (is_tsa kr.2) tsa) (stamps t)) in
  {| vr_errors := []; vr_logs := []; vr_evm_anchors := of_kind false; vr_tsa_tokens := of_kind true;
     vr_is_verified := true; vr_outcome := "" |}.

#[local] Instance sample_flow : FlowEnv :=
  {| create_genesis := fun _ _ => Ok [(tip, rev_named tip [])];
     tree_to_value := fun _ => Ok client_sample;
     tree_of_value := fun v => ok_or (r ← jget v "revisions"; jobject r) "no revisions";
     verify_tree_sync := fun _ _ _ t _ => Ok (sample_verdict t);
     json_pointer := fun v p =>
       r ← jget v "revisions"; rs ← jobject r;
       kv ← List.find (fun kv : string * J => bool_decide (p = "/revisions/" +:+ kv.1 +:+ "/signer")) rs; jget kv.2 "signer";
     eth_host := fun _ _ => tt; tsa_web_host := tt |}.

#[local] Instance flow_chains : EvmChains :=
  {| evm_chain_id := fun _ => 1; network_claim := fun _ => "sepolia";
     evm_chain_id_for_network := fun s => if bool_decide (s = "sepolia") then Some 11155111 else None |}.

(** ** The run *)

Definition flow_key : ClientKey :=
  {| ck_did := "did:sealer"; ck_display_identifier := ""; ck_method := Secp256k1Eip191; ck_secret := KSecp256k1 digest7 |}.
Definition flow_opts : FlowOptions :=
  {| fo_seal_wait := {| pb_deadline := 100; pb_interval := 1 |}; fo_witness_timeout := 100; fo_witness_interval := 1;
     fo_foreign_did_negative := true; fo_reader := LiveReader None |}.
Definition flow_net : Net :=
  {| n_world := {| w_fs := {| fs_files := ∅; fs_faults := [] |}; w_now := 0; w_reads := 0; w_draws := 0 |}; n_sent := [] |}.
Definition outcome_ok (r : result string E2eOutcome) : bool :=
  match r with
  | Ok out => bool_decide (eo_leaf_hex out = leaf_sample) && bool_decide (eo_epoch_id out = 4) &&
              bool_decide (map mv_timestamp_revision (eo_witnesses out) = ["sepolia"; "tsa"])
  | Err _ => false
  end.
Lemma flow_passes : outcome_ok (run_full_flow "http://localhost" flow_key flow_opts flow_net).2 = true.
Proof. vm_compute. reflexivity. Qed.


(** * A command *)

#[local] Existing Instances seal_json seal_base seal_client seal_harness seal_sdk seal_env flow_live sample_flow flow_chains.

Definition live_cmd : Cmd := CmdLive "http://localhost" false (Some identity_dir) 100 100 1 None.
Definition hosts_sample : ReaderHosts := {| rh_blockchain := tt; rh_web := tt; rh_tsa_facts_expected := false |}.
Definition started : Process := {| pr_disk := id_disk fresh; pr_faults := []; pr_umask := 18; pr_net := flow_net |}.
Abbreviation command := (main 2 None (fun _ => "") "" (fun _ _ => Ok tt) (fun _ _ => Ok tt) (Err "") (Err "") hosts_sample).

(** The exit, the requests, and whether the key is on the disk. *)
Definition ended (p : Process * result string unit) : bool :=
  is_ok p.2 && bool_decide (length (n_sent (pr_net p.1)) = 10%nat) &&
  bool_decide (is_Some (pr_disk p.1 !! (identity_dir ++ [KEY_FILE]))).
Lemma command_ends : ended (command live_cmd started) = true.
Proof. vm_compute. reflexivity. Qed.


(** The production host with the root's dot is not refused. *)
Example production_with_a_dot :
  check_base_url (fun _ => Ok ("https", Some "openwitness.org.")) "https://openwitness.org./" false = Ok "https://openwitness.org.".
Proof. vm_compute. reflexivity. Qed.
